(** * odfuzz: query-option generators of [odfuzz/entities.py] and the
      property patching of [odfuzz/monkey.py], embedded in Rocq.

    Python objects become records, dictionaries whose iteration order is
    observed become association lists with Python's insertion-order update,
    dictionaries that are only looked up become [gmap]s, exceptions become the
    [Raise] case of a result type, and the calls to the [random] module read
    successive entries of an explicit random source.  Floating-point draws are
    represented by exact rationals; [weighted_random] is given over binary64
    numbers as well (module [Double]), with the condition under which the
    two scans agree.

    The first part embeds [weighted_random], the property patching, the
    property selector, [FilterFunctionsGroup], [FilterQuery] (construction
    and [generate]), [TopQuery], [SkipQuery] and the construction of a
    [QueryGroup]; objects that several parties hold a reference to (the
    caller's entity set, the restrictions object, the family classes, the
    lists shared between the selector and its pools, the group dictionaries
    on the stack) are threaded through as explicit state.  It goes on with
    the option builders, the resolution of principal entities,
    [Builder.build], the accessible entities and the [generate] methods of
    [$orderby] and [$expand], which take [random.sample] as a parameter;
    [FilterOptionDeleter] is left out.  The second part fixes concrete
    inputs, the third states and proves the properties. *)

From Stdlib Require Import ZArith QArith Qround Lqa String Ascii List Lia Bool.
From Stdlib Require SpecFloat.
From stdpp Require Import gmap strings list fin_maps.
Import ListNotations.

Local Open Scope Z_scope.
Local Open Scope string_scope.

(** ** Python runtime conventions *)

(** The exceptions the modelled code can raise. *)
Inductive exn : Type :=
| TypeError
| AttributeError
| IndexError
| KeyError
| ValueError
| DispatcherError.

Inductive result (A : Type) : Type :=
| Ok (a : A)
| Raise (e : exn).

Arguments Ok {A} a.
Arguments Raise {A} e.

Definition bind {A B : Type} (m : result A) (k : A -> result B) : result B :=
  match m with
  | Ok a => k a
  | Raise e => Raise e
  end.

Declare Scope py_scope.
Delimit Scope py_scope with py.
Notation "'let*' x ':=' m 'in' k" := (bind m (fun x => k))
  (at level 10, x pattern, m at level 100, k at level 200) : py_scope.
Local Open Scope py_scope.

Definition is_Ok {A : Type} (m : result A) : bool :=
  match m with Ok _ => true | Raise _ => false end.

(** Strict comparison of rationals, as a boolean. *)
Definition Qltb (a b : Q) : bool :=
  (Qnum a * Zpos (Qden b) <? Qnum b * Zpos (Qden a))%Z.

(** [round(x)] on a float: to the nearest integer, ties to the even one. *)
Definition py_round (x : Q) : Z :=
  let f := Qfloor x in
  let d := (x - inject_Z f)%Q in
  if Qltb d (1 # 2) then f
  else if Qltb (1 # 2) d then f + 1
  else if Z.even f then f else f + 1.

(** A draw of [random.random()] lies in the half-open unit interval. *)
Definition unit_draw (r : Q) : Prop := (0 <= r)%Q /\ (r < 1)%Q.

(** Python dictionaries keep insertion order: assigning to a present key
    replaces the value in place, assigning to a new key appends. *)
Fixpoint dict_set {K V : Type} (eqb : K -> K -> bool) (k : K) (v : V)
    (d : list (K * V)) : list (K * V) :=
  match d with
  | [] => [(k, v)]
  | (k', v') :: d' =>
      if eqb k' k then (k, v) :: d' else (k', v') :: dict_set eqb k v d'
  end.

(** ** [weighted_random] (entities.py) *)

(** [random_number] is the single draw of [random.random()] made on entry;
    the loop subtracts the weight of every pair it passes. *)
Fixpoint weighted_random {A : Type} (items : list (A * Q)) (random_number : Q)
    : option A :=
  match items with
  | [] => None
  | (value, weight) :: rest =>
      if Qltb random_number weight then Some value
      else weighted_random rest (random_number - weight)%Q
  end.

(** The specification's wording: the draw "after having each preceding
    pair's weight subtracted from it". *)
Definition weights_before {A : Type} (items : list (A * Q)) (i : nat) : Q :=
  fold_right Qplus 0%Q (map snd (take i items)).

Definition hits_at {A : Type} (items : list (A * Q)) (r : Q) (i : nat) : Prop :=
  exists v w, items !! i = Some (v, w) /\ (r - weights_before items i < w)%Q.

Definition first_hit {A : Type} (items : list (A * Q)) (r : Q) (i : nat) (v : A)
    : Prop :=
  (exists w, items !! i = Some (v, w) /\ (r - weights_before items i < w)%Q)
  /\ forall j, (j < i)%nat -> ~ hits_at items r j.

(** ** [weighted_random] on Python floats *)

(** A Python [float] is an IEEE 754 binary64 number: the draw of
    [random.random()] and the weights of the tables are such numbers, [<]
    compares them and [-=] subtracts with rounding to the nearest number,
    ties to even.  [SpecFloat] of the standard library specifies the format
    and these operations. *)
Module Double.
Definition double : Type := SpecFloat.spec_float.

Definition ltb (x y : double) : bool := SpecFloat.SFltb x y.

Definition eqb (x y : double) : bool := SpecFloat.SFeqb x y.

Definition sub (x y : double) : double := SpecFloat.SFsub 53 1024 x y.

Fixpoint weighted_random {A : Type} (items : list (A * double))
    (random_number : double) : option A :=
  match items with
  | [] => None
  | (value, weight) :: rest =>
      if ltb random_number weight then Some value
      else weighted_random rest (sub random_number weight)
  end.

(** [random_number] as the loop holds it on reaching the pair at index [i]:
    the draw with the weight of each preceding pair subtracted from it, one
    after the other. *)
Definition remaining {A : Type} (items : list (A * double)) (r : double)
    (i : nat) : double :=
  fold_left sub (map snd (take i items)) r.

Definition hits_at {A : Type} (items : list (A * double)) (r : double)
    (i : nat) : Prop :=
  exists v w, items !! i = Some (v, w) /\ ltb (remaining items r i) w = true.

Definition first_hit {A : Type} (items : list (A * double)) (r : double)
    (i : nat) (v : A) : Prop :=
  (exists w, items !! i = Some (v, w) /\ ltb (remaining items r i) w = true)
  /\ forall j, (j < i)%nat -> ~ hits_at items r j.

(** A finite number in the one form the format has for it. *)
Definition finite (x : double) : bool :=
  match x with
  | SpecFloat.S754_zero _ => true
  | SpecFloat.S754_finite _ m e => SpecFloat.bounded 53 1024 m e
  | _ => false
  end.

(** The value of a finite number, counted in units of [2 ^ -1074], the
    smallest positive number of the format, and as a rational. *)
Definition scaled (x : double) : Z :=
  match x with
  | SpecFloat.S754_finite s m e =>
      (if s then -1 else 1) * (Zpos m * 2 ^ (e + 1074))
  | _ => 0
  end.

Definition unit_denominator : positive := (2 ^ 1074)%positive.

Definition value (x : double) : Q := Qmake (scaled x) unit_denominator.

Definition values {A : Type} (items : list (A * double)) : list (A * Q) :=
  map (fun item => (fst item, value (snd item))) items.

(** No subtraction the scan makes is rounded: each difference is a finite
    number whose value is the difference of the values. *)
Fixpoint subtractions_exact {A : Type} (items : list (A * double))
    (r : double) : bool :=
  match items with
  | [] => true
  | (_, weight) :: rest =>
      ltb r weight
      || (finite (sub r weight)
          && (scaled (sub r weight) =? scaled r - scaled weight)%Z
          && subtractions_exact rest (sub r weight))
  end.
End Double.

(** ** [odfuzz/monkey.py] *)

(** The callables [patch_proprty_generator] can install as [generate]. *)
Inductive Generator : Type :=
| edm_string
| edm_datetime
| edm_boolean
| edm_byte
| edm_sbyte
| edm_single
| edm_guid
| edm_decimal
| edm_datetimeoffset
| edm_time
| edm_binary
| edm_int16
| edm_int32
| edm_int64
| lambda_None.

Definition startswith (s p : string) : bool := String.prefix p s.

Definition endswith (s p : string) : bool :=
  let n := String.length s in
  let m := String.length p in
  if (m <=? n)%nat then String.eqb (String.substring (n - m) m s) p else false.

Definition patch_proprty_generator (proprty_type : string) : Generator :=
  if String.eqb proprty_type "Edm.String" then edm_string
  else if String.eqb proprty_type "Edm.DateTime" then edm_datetime
  else if String.eqb proprty_type "Edm.Boolean" then edm_boolean
  else if String.eqb proprty_type "Edm.Byte" then edm_byte
  else if String.eqb proprty_type "Edm.SByte" then edm_sbyte
  else if String.eqb proprty_type "Edm.Single" then edm_single
  else if String.eqb proprty_type "Edm.Guid" then edm_guid
  else if String.eqb proprty_type "Edm.Decimal" then edm_decimal
  else if String.eqb proprty_type "Edm.DateTimeOffset" then edm_datetimeoffset
  else if String.eqb proprty_type "Edm.Time" then edm_time
  else if String.eqb proprty_type "Edm.Binary" then edm_binary
  else if startswith proprty_type "Edm.Int" then
    if endswith proprty_type "16" then edm_int16
    else if endswith proprty_type "32" then edm_int32
    else if endswith proprty_type "64" then edm_int64
    else lambda_None
  else lambda_None.

(** The type names that have a branch of their own in
    [patch_proprty_generator]. *)
Definition explicit_edm_types : list string :=
  [ "Edm.String"; "Edm.DateTime"; "Edm.Boolean"; "Edm.Byte"; "Edm.SByte";
    "Edm.Single"; "Edm.Guid"; "Edm.Decimal"; "Edm.DateTimeOffset"; "Edm.Time";
    "Edm.Binary" ].

Definition handled_int_variant (proprty_type : string) : bool :=
  startswith proprty_type "Edm.Int"
  && (endswith proprty_type "16" || endswith proprty_type "32"
      || endswith proprty_type "64").

Definition handled_type (proprty_type : string) : bool :=
  existsb (String.eqb proprty_type) explicit_edm_types
  || handled_int_variant proprty_type.

(** Calling an installed [generate]: the [RandomGenerator] methods are
    external and produce the literal [literal]; the lambda returns [None]. *)
Definition call_generate (g : Generator) (literal : string) : option string :=
  match g with
  | lambda_None => None
  | _ => Some literal
  end.

(** [if not max_length]: [None] and [0] are both falsy. *)
Definition max_string_length (max_length : option Z) : Z :=
  match max_length with
  | None => 100
  | Some n => if (n =? 0)%Z then 100 else n
  end.

(** ** Builtins: [int(text)] and [str(n)] *)

Definition is_space (c : ascii) : bool :=
  let n := nat_of_ascii c in
  ((9 <=? n) && (n <=? 13) || (n =? 32))%nat.

Definition digit_of (c : ascii) : option Z :=
  let n := nat_of_ascii c in
  if ((48 <=? n) && (n <=? 57))%nat then Some (Z.of_nat (n - 48)) else None.

Fixpoint lstrip (l : list ascii) : list ascii :=
  match l with
  | c :: l' => if is_space c then lstrip l' else l
  | [] => []
  end.

Definition strip (l : list ascii) : list ascii :=
  rev (lstrip (rev (lstrip l))).

(** Digits of a decimal literal; a single underscore may separate two
    digits.  [after_digit] tells whether the previous character was one. *)
Fixpoint digits (l : list ascii) (after_digit : bool) (acc : Z) : option Z :=
  match l with
  | [] => if after_digit then Some acc else None
  | c :: l' =>
      match digit_of c with
      | Some d => digits l' true (10 * acc + d)
      | None =>
          if (Ascii.eqb c "_"%char && after_digit)%bool
          then digits l' false acc else None
      end
  end.

(** [int(text)]: surrounding whitespace, an optional sign, decimal digits;
    anything else raises [ValueError].  The digits read are the ASCII ones;
    Python reads the decimal digits of other scripts as well. *)
Definition py_int (text : string) : result Z :=
  let body := strip (list_ascii_of_string text) in
  let parsed :=
    match body with
    | "-"%char :: ds => option_map Z.opp (digits ds false 0)
    | "+"%char :: ds => digits ds false 0
    | ds => digits ds false 0
    end in
  match parsed with
  | Some n => Ok n
  | None => Raise ValueError
  end.

Fixpoint decimal_digits (fuel : nat) (n : Z) (acc : string) : string :=
  match fuel with
  | O => acc
  | S fuel' =>
      let acc' := String (ascii_of_nat (48 + Z.to_nat (n mod 10))) acc in
      if (n / 10 =? 0)%Z then acc' else decimal_digits fuel' (n / 10) acc'
  end.

(** [str(n)] for an integer. *)
Definition py_str (n : Z) : string :=
  let body := decimal_digits (S (Z.to_nat (Z.log2 (Z.abs n)))) (Z.abs n) EmptyString in
  if (n <? 0)%Z then "-" ++ body else body.

(** ** Constants and the random source *)

(** [odfuzz/constants.py] and [Config.client] are not part of the modelled
    sources: every definition takes their values as a parameter. *)
Record Constants : Type := {
  INT_MAX : Z;
  RECURSION_LIMIT : Z;
  SINGLE_VALUE_PROB : Q;
  FUNCTION_WEIGHT : Q;
  MAX_MULTI_VALUES : Z;
  LOGICAL_OPERATORS : list (string * Q);
  BOOLEAN_OPERATORS : list (string * Q);
  EXPRESSION_OPERATORS : list (string * Q);
  GLOBAL_ENTITY : string;
  GLOBAL_PROPRTY : string;
  GLOBAL_FUNCTION : string;
  NAV_PROPRTY : string;
  FILTER : string;
  ORDERBY : string;
  EXPAND : string;
  TOP : string;
  SKIP : string;
  Config_client : string
}.

(** The [random] module and the literal generators of [RandomGenerator]:
    the n-th request made to the source is answered by its n-th entry. *)
Record RandomSource : Type := {
  random_random : nat -> Q;
  random_getrandbits : nat -> N;
  random_randbelow : nat -> nat -> nat;
  random_randint : nat -> Z;
  RandomGenerator : Generator -> nat -> string
}.

(** ** Metadata model (the part of pyodata's model the code reads) *)

Inductive FilterRestriction : Type :=
| single_value
| multi_value
| interval.

(** What [FilterQuery] installs as [generate_remaining_proprties]. *)
Inductive RemainingGenerator : Type :=
| bound__generate_interval_values
| bound__generate_multi_values
| lambda_x_y_None.

(** A property object.  The last five fields are the attributes installed at
    run time ([None]: not installed yet). *)
Record Proprty : Type := {
  name : string;
  typ_name : string;
  max_length : option Z;
  filterable : bool;
  sortable : bool;
  required_in_filter : bool;
  filter_restriction : option FilterRestriction;
  max_string_length_attr : option Z;
  generate : option Generator;
  operators : option (list (string * Q));
  replaceable : option bool;
  generate_remaining_proprties : option RemainingGenerator
}.

(** A navigation property, with the names of the navigation properties of
    the entity type it leads to. *)
Record NavProprty : Type := {
  nav_name : string;
  to_role_nav_proprties : list string
}.

(** An entity set.  [_properties] and [_nav_properties] are the ordered
    dictionaries of its entity type, keyed by name; [requires_filter] reads
    [_req_filter]. *)
Record EntitySet : Type := {
  es_name : string;
  _properties : list Proprty;
  _nav_properties : list NavProprty;
  addressable : bool;
  topable : bool;
  pageable : bool;
  _req_filter : bool
}.

Definition proprties (entity_set : EntitySet) : list Proprty :=
  _properties entity_set.

Definition requires_filter (entity_set : EntitySet) : bool :=
  _req_filter entity_set.

Definition set_properties (ps : list Proprty) (e : EntitySet) : EntitySet :=
  {| es_name := es_name e; _properties := ps;
     _nav_properties := _nav_properties e; addressable := addressable e;
     topable := topable e; pageable := pageable e;
     _req_filter := _req_filter e |}.

Definition set_nav_properties (ns : list NavProprty) (e : EntitySet) : EntitySet :=
  {| es_name := es_name e; _properties := _properties e;
     _nav_properties := ns; addressable := addressable e;
     topable := topable e; pageable := pageable e;
     _req_filter := _req_filter e |}.

Definition set_req_filter (b : bool) (e : EntitySet) : EntitySet :=
  {| es_name := es_name e; _properties := _properties e;
     _nav_properties := _nav_properties e; addressable := addressable e;
     topable := topable e; pageable := pageable e;
     _req_filter := b |}.

(** [entity_type.proprty(name)]: lookup by name, [KeyError] when absent. *)
Definition proprty (entity_set : EntitySet) (n : string) : result Proprty :=
  match List.find (fun p => String.eqb (name p) n) (_properties entity_set) with
  | Some p => Ok p
  | None => Raise KeyError
  end.

(** ** [patch_proprties] (monkey.py) *)

Section Patching.
Context (C : Constants).

Definition patch_proprty_max_length (p : Proprty) : Proprty :=
  if String.eqb (typ_name p) "Edm.String" then
    {| name := name p; typ_name := typ_name p; max_length := max_length p;
       filterable := filterable p; sortable := sortable p;
       required_in_filter := required_in_filter p;
       filter_restriction := filter_restriction p;
       max_string_length_attr := Some (max_string_length (max_length p));
       generate := generate p; operators := operators p;
       replaceable := replaceable p;
       generate_remaining_proprties := generate_remaining_proprties p |}
  else p.

Definition set_generate (g : Generator) (p : Proprty) : Proprty :=
  {| name := name p; typ_name := typ_name p; max_length := max_length p;
     filterable := filterable p; sortable := sortable p;
     required_in_filter := required_in_filter p;
     filter_restriction := filter_restriction p;
     max_string_length_attr := max_string_length_attr p;
     generate := Some g; operators := operators p;
     replaceable := replaceable p;
     generate_remaining_proprties := generate_remaining_proprties p |}.

Definition set_operators (ops : list (string * Q)) (p : Proprty) : Proprty :=
  {| name := name p; typ_name := typ_name p; max_length := max_length p;
     filterable := filterable p; sortable := sortable p;
     required_in_filter := required_in_filter p;
     filter_restriction := filter_restriction p;
     max_string_length_attr := max_string_length_attr p;
     generate := generate p; operators := Some ops;
     replaceable := replaceable p;
     generate_remaining_proprties := generate_remaining_proprties p |}.

Definition patch_proprty_operator (p : Proprty) : Proprty :=
  if String.eqb (typ_name p) "Edm.Boolean"
  then set_operators (BOOLEAN_OPERATORS C) p
  else set_operators (EXPRESSION_OPERATORS C) p.

Definition patch_proprty (p : Proprty) : Proprty :=
  patch_proprty_operator
    (set_generate (patch_proprty_generator (typ_name p))
       (patch_proprty_max_length p)).

Definition patch_proprties (entity_set : EntitySet) : EntitySet :=
  set_properties (map patch_proprty (proprties entity_set)) entity_set.
End Patching.

(** ** Restrictions *)

(** Modelled from the spec: the classes of [odfuzz/restrictions.py] are not
    part of the modelled sources.  A query restriction holds
    "{exclude: mapping(scope -> list[name]), include: mapping(entity_set_name
    -> value)}"; an empty mapping stands for an absent one (both are falsy).
    The restrictions object maps option names to query restrictions and may
    carry the draft-objects mapping; [restriction] raises [KeyError] for a
    name it does not know. *)
Record QueryRestriction : Type := {
  exclude : gmap string (list string);
  include : gmap string (list string)
}.

Record Restrictions : Type := {
  option_restrictions : gmap string QueryRestriction;
  draft_objects : option (gmap string (list string))
}.

Definition restriction (r : Restrictions) (option_name : string)
    : result QueryRestriction :=
  match option_restrictions r !! option_name with
  | Some q => Ok q
  | None => Raise KeyError
  end.

Definition set_exclude (e : gmap string (list string)) (q : QueryRestriction)
    : QueryRestriction :=
  {| exclude := e; include := include q |}.

Definition set_restriction (option_name : string) (q : QueryRestriction)
    (r : Restrictions) : Restrictions :=
  {| option_restrictions := <[option_name := q]> (option_restrictions r);
     draft_objects := draft_objects r |}.

(** [dict.get(key, [])] *)
Definition get_list (d : gmap string (list string)) (key : string) : list string :=
  default [] (d !! key).

Definition dict_truthy (d : gmap string (list string)) : bool :=
  negb (bool_decide (d = ∅)).

Definition list_truthy {A : Type} (l : list A) : bool :=
  match l with [] => false | _ => true end.

Definition name_in (n : string) (l : list string) : bool :=
  existsb (String.eqb n) l.

(** ** Filter function families *)

Inductive Family : Type :=
| DateFilterFunctions
| MathFilterFunctions
| StringFilterFunctions.

Inductive Method : Type :=
| func_day | func_hour | func_minute | func_month | func_second | func_year
| func_round | func_floor | func_ceiling
| func_substringof | func_endswith | func_startswith | func_length
| func_indexof | func_replace | func_substring | func_tolower | func_toupper
| func_trim | func_concat.

Definition method_name (m : Method) : string :=
  match m with
  | func_day => "func_day" | func_hour => "func_hour"
  | func_minute => "func_minute" | func_month => "func_month"
  | func_second => "func_second" | func_year => "func_year"
  | func_round => "func_round" | func_floor => "func_floor"
  | func_ceiling => "func_ceiling"
  | func_substringof => "func_substringof" | func_endswith => "func_endswith"
  | func_startswith => "func_startswith" | func_length => "func_length"
  | func_indexof => "func_indexof" | func_replace => "func_replace"
  | func_substring => "func_substring" | func_tolower => "func_tolower"
  | func_toupper => "func_toupper" | func_trim => "func_trim"
  | func_concat => "func_concat"
  end.

(** The three family classes are module-level objects shared by every
    instance: the table holds the [func_] methods each class currently
    has, in the name order in which [inspect.getmembers] lists them. *)
Record ClassTable : Type := {
  date_methods : list Method;
  math_methods : list Method;
  string_methods : list Method
}.

Definition initial_classes : ClassTable :=
  {| date_methods :=
       [func_day; func_hour; func_minute; func_month; func_second; func_year];
     math_methods := [func_ceiling; func_floor; func_round];
     string_methods :=
       [func_concat; func_endswith; func_indexof; func_length; func_replace;
        func_startswith; func_substring; func_substringof; func_tolower;
        func_toupper; func_trim] |}.

(** [get_methods_dict(class_object)]; an instance has no [func_] member of
    its own, so [get_methods_dict(instance)] lists the members of its class. *)
Definition get_methods_dict (T : ClassTable) (cls : Family) : list Method :=
  match cls with
  | DateFilterFunctions => date_methods T
  | MathFilterFunctions => math_methods T
  | StringFilterFunctions => string_methods T
  end.

Definition set_methods (cls : Family) (ms : list Method) (T : ClassTable)
    : ClassTable :=
  match cls with
  | DateFilterFunctions =>
      {| date_methods := ms; math_methods := math_methods T;
         string_methods := string_methods T |}
  | MathFilterFunctions =>
      {| date_methods := date_methods T; math_methods := ms;
         string_methods := string_methods T |}
  | StringFilterFunctions =>
      {| date_methods := date_methods T; math_methods := math_methods T;
         string_methods := ms |}
  end.

Definition has_method (ms : list Method) (n : string) : bool :=
  existsb (fun m => String.eqb (method_name m) n) ms.

(** [delattr(cls, method_name)]: [AttributeError] when the class has no such
    attribute. *)
Definition delattr (T : ClassTable) (cls : Family) (n : string)
    : result ClassTable :=
  let ms := get_methods_dict T cls in
  if has_method ms n
  then Ok (set_methods cls
             (List.filter (fun m => negb (String.eqb (method_name m) n)) ms) T)
  else Raise AttributeError.

(** An instance of a family class: its class and the properties added to
    it.  ([_probability] and [_random_generator], which only forwards to the
    [random] module, carry no state of their own.) *)
Record FilterFunctions : Type := {
  class_ : Family;
  ff_proprties : list Proprty
}.

Definition add_proprty (p : Proprty) (w : FilterFunctions) : FilterFunctions :=
  {| class_ := class_ w; ff_proprties := ff_proprties w ++ [p] |}.

(** [self._group.setdefault(key, cls(...)).add_proprty(proprty)] *)
Fixpoint setdefault_add (key : string) (cls : Family) (p : Proprty)
    (group : list (string * FilterFunctions)) : list (string * FilterFunctions) :=
  match group with
  | [] => [(key, add_proprty p {| class_ := cls; ff_proprties := [] |})]
  | (k, w) :: rest =>
      if String.eqb k key then (k, add_proprty p w) :: rest
      else (k, w) :: setdefault_add key cls p rest
  end.

Section FunctionsGroup.
Context (C : Constants).

Fixpoint _init_functions_group (filterable_proprties : list Proprty)
    (group : list (string * FilterFunctions)) : list (string * FilterFunctions) :=
  match filterable_proprties with
  | [] => group
  | p :: rest =>
      _init_functions_group rest
        (match filter_restriction p with
         | Some _ => group
         | None =>
             if String.eqb (typ_name p) "Edm.String"
             then setdefault_add "String" StringFilterFunctions p group
             else if String.eqb (typ_name p) "Edm.DateTime"
             then setdefault_add "Date" DateFilterFunctions p group
             else if String.eqb (typ_name p) "Edm.Decimal"
             then setdefault_add "Math" MathFilterFunctions p group
             else group
         end)
  end.

(** The inner loop of [_delete_restricted_functions]: [methods_dict] was
    read once before the loop, the deletions act on the class. *)
Fixpoint delete_from_class (methods_dict : list Method) (cls : Family)
    (restricted_functions : list string) (T : ClassTable) : result ClassTable :=
  match restricted_functions with
  | [] => Ok T
  | restricted_function :: rest =>
      let method_name := "func_" ++ restricted_function in
      if has_method methods_dict method_name then
        let* T' := delattr T cls method_name in
        delete_from_class methods_dict cls rest T'
      else delete_from_class methods_dict cls rest T
  end.

(** [items] is the snapshot [list(self._group.items())]; [group] is the
    dictionary keys are popped from. *)
Fixpoint _delete_restricted_functions (items : list (string * FilterFunctions))
    (restricted_functions : list string)
    (group : list (string * FilterFunctions)) (T : ClassTable)
    : result (list (string * FilterFunctions) * ClassTable) :=
  match items with
  | [] => Ok (group, T)
  | (key, functions_wrapper) :: rest =>
      let methods_dict := get_methods_dict T (class_ functions_wrapper) in
      let* T' := delete_from_class methods_dict (class_ functions_wrapper)
                   restricted_functions T in
      let group' :=
        if list_truthy (get_methods_dict T' (class_ functions_wrapper))
        then group
        else List.filter (fun kw => negb (String.eqb (fst kw) key)) group in
      _delete_restricted_functions rest restricted_functions group' T'
  end.

Definition _apply_restrictions (exclude_restrictions : gmap string (list string))
    (group : list (string * FilterFunctions)) (T : ClassTable)
    : result (list (string * FilterFunctions) * ClassTable) :=
  if dict_truthy exclude_restrictions then
    let restricted_functions :=
      get_list exclude_restrictions (GLOBAL_FUNCTION C) in
    if list_truthy restricted_functions
    then _delete_restricted_functions group restricted_functions group T
    else Ok (group, T)
  else Ok (group, T).

(** [FilterFunctionsGroup(filterable_proprties, restrictions)]: the
    instance's [_group], and the class table it leaves behind. *)
Definition FilterFunctionsGroup (filterable_proprties : list Proprty)
    (restrictions : option QueryRestriction) (T : ClassTable)
    : result (list (string * FilterFunctions) * ClassTable) :=
  let group := _init_functions_group filterable_proprties [] in
  match restrictions with
  | Some r =>
      if list_truthy group then _apply_restrictions (exclude r) group T
      else Ok (group, T)
  | None => Ok (group, T)
  end.

(** What a family instance exposes to [_generate_function]. *)
Definition exposed_functions (T : ClassTable) (w : FilterFunctions) : list Method :=
  get_methods_dict T (class_ w).
End FunctionsGroup.

(** ** Drawing from the random source *)

Section Random.
Context (R : RandomSource).

(** [seq[i]] / [seq.pop(i)] index check, negative indices counting from
    the end. *)
Definition py_index (len : nat) (i : Z) : result nat :=
  let i' := if (i <? 0)%Z then (i + Z.of_nat len)%Z else i in
  if ((0 <=? i') && (i' <? Z.of_nat len))%Z then Ok (Z.to_nat i')
  else Raise IndexError.

(** [round(random.random() * (len(l) - 1))] *)
Definition random_index (len : nat) (pos : nat) : Z :=
  py_round (random_random R pos * inject_Z (Z.of_nat len - 1))%Q.

(** [random.choice(l)] *)
Definition choice {A : Type} (l : list A) (pos : nat) : result (A * nat) :=
  match l !! (random_randbelow R pos (length l) mod length l)%nat with
  | Some x => Ok (x, S pos)
  | None => Raise IndexError
  end.

(** [proprty.generate()] *)
Definition call_proprty_generate (p : Proprty) (pos : nat)
    : result (option string * nat) :=
  match generate p with
  | None => Raise AttributeError
  | Some lambda_None => Ok (None, pos)
  | Some g => Ok (call_generate g (RandomGenerator R g pos), S pos)
  end.

(** [uuid.UUID(int=bits, version=4)]: the variant and version bits are
    forced; the identifier is kept as the 128-bit number its string form
    spells out. *)
Definition uuid4 (bits : N) : N :=
  let i := N.ldiff (bits mod 2 ^ 128)%N (N.shiftl 0xc000 48) in
  let i := N.lor i (N.shiftl 0x8000 48) in
  let i := N.ldiff i (N.shiftl 0xf000 64) in
  N.lor i (N.shiftl 4 76).

Definition fresh_id (pos : nat) : N * nat :=
  (uuid4 (random_getrandbits R pos), S pos).
End Random.

(** ** [ProprtiesSelector] and its two pools *)

(** The list object a pool was built over: the selector's own
    [_filterable_proprties], its own [_required_proprties], or a literal
    [[]] of the pool's own. *)
Inductive PoolList : Type :=
| the_filterable_proprties
| the_required_proprties
| an_empty_list.

Inductive ProprtiesGroup : Type :=
| NonRequiredProprties (l : PoolList)
| RequiredProprties (l : PoolList).

Record ProprtiesSelector : Type := {
  sel_filterable_proprties : list Proprty;
  sel_required_proprties : list Proprty;
  sel_proprties : list (ProprtiesGroup * Q);
  sel_has_remaining_proprties : bool;
  sel_times_called_has_remaining : nat
}.

Definition pool_list (sel : ProprtiesSelector) (l : PoolList) : list Proprty :=
  match l with
  | the_filterable_proprties => sel_filterable_proprties sel
  | the_required_proprties => sel_required_proprties sel
  | an_empty_list => []
  end.

Definition set_pool_list (l : PoolList) (ps : list Proprty)
    (sel : ProprtiesSelector) : ProprtiesSelector :=
  match l with
  | the_filterable_proprties =>
      {| sel_filterable_proprties := ps;
         sel_required_proprties := sel_required_proprties sel;
         sel_proprties := sel_proprties sel;
         sel_has_remaining_proprties := sel_has_remaining_proprties sel;
         sel_times_called_has_remaining := sel_times_called_has_remaining sel |}
  | the_required_proprties =>
      {| sel_filterable_proprties := sel_filterable_proprties sel;
         sel_required_proprties := ps;
         sel_proprties := sel_proprties sel;
         sel_has_remaining_proprties := sel_has_remaining_proprties sel;
         sel_times_called_has_remaining := sel_times_called_has_remaining sel |}
  | an_empty_list => sel
  end.

(** [set(filterable) - set(required)]: the objects of one entity type are
    told apart by their names. *)
Definition non_required_proprties (filterable required : list Proprty)
    : list Proprty :=
  List.filter (fun p => negb (name_in (name p) (map name required))) filterable.

Definition _init_tuples (filterable required : list Proprty)
    : (ProprtiesGroup * Q) * (ProprtiesGroup * Q) :=
  if list_truthy (non_required_proprties filterable required) then
    if list_truthy required then
      ((NonRequiredProprties the_filterable_proprties, 1 # 100),
       (RequiredProprties the_required_proprties, 99 # 100))
    else
      ((NonRequiredProprties the_filterable_proprties, 1%Q),
       (RequiredProprties an_empty_list, 0%Q))
  else
    ((NonRequiredProprties an_empty_list, 0%Q),
     (RequiredProprties the_required_proprties, 1%Q)).

(** [ProprtiesSelector(filterable_proprties, required_proprties)] *)
Definition ProprtiesSelector_init (filterable required : list Proprty)
    : ProprtiesSelector :=
  let tuples := _init_tuples filterable required in
  {| sel_filterable_proprties := filterable;
     sel_required_proprties := required;
     sel_proprties := [fst tuples; snd tuples];
     sel_has_remaining_proprties := list_truthy required;
     sel_times_called_has_remaining := 0 |}.

Definition has_remaining (sel : ProprtiesSelector) : bool * ProprtiesSelector :=
  if (length (sel_required_proprties sel) <=? sel_times_called_has_remaining sel)%nat
  then (false, sel)
  else (sel_has_remaining_proprties sel,
        {| sel_filterable_proprties := sel_filterable_proprties sel;
           sel_required_proprties := sel_required_proprties sel;
           sel_proprties := sel_proprties sel;
           sel_has_remaining_proprties := sel_has_remaining_proprties sel;
           sel_times_called_has_remaining :=
             S (sel_times_called_has_remaining sel) |}).

Definition has_filterable (sel : ProprtiesSelector) : bool :=
  list_truthy (sel_filterable_proprties sel).

Definition _update_remaining_proprties (sel : ProprtiesSelector)
    : result ProprtiesSelector :=
  if sel_has_remaining_proprties sel then
    match sel_proprties sel with
    | _ :: (required_group, _) :: rest =>
        let pool :=
          match required_group with
          | NonRequiredProprties l | RequiredProprties l => pool_list sel l
          end in
        if list_truthy pool then Ok sel
        else Ok {| sel_filterable_proprties := sel_filterable_proprties sel;
                   sel_required_proprties := sel_required_proprties sel;
                   sel_proprties :=
                     (NonRequiredProprties the_filterable_proprties, 1%Q) :: rest;
                   sel_has_remaining_proprties := false;
                   sel_times_called_has_remaining :=
                     sel_times_called_has_remaining sel |}
    | _ => Raise IndexError
    end
  else Ok sel.

Section Selector.
Context (R : RandomSource).

(** [RequiredProprties.get_proprty] pops the drawn property;
    [NonRequiredProprties.get_proprty] deletes it only when it is
    restricted to a single value. *)
Definition get_proprty (group : ProprtiesGroup) (sel : ProprtiesSelector)
    (pos : nat) : result (Proprty * ProprtiesSelector * nat) :=
  match group with
  | RequiredProprties l =>
      let ps := pool_list sel l in
      let* i := py_index (length ps) (random_index R (length ps) pos) in
      match ps !! i with
      | Some p => Ok (p, set_pool_list l (delete i ps) sel, S pos)
      | None => Raise IndexError
      end
  | NonRequiredProprties l =>
      let ps := pool_list sel l in
      let* i := py_index (length ps) (random_index R (length ps) pos) in
      match ps !! i with
      | Some p =>
          match filter_restriction p with
          | Some single_value =>
              Ok (p, set_pool_list l (delete i ps) sel, S pos)
          | _ => Ok (p, sel, S pos)
          end
      | None => Raise IndexError
      end
  end.

Definition get_random_proprty (sel : ProprtiesSelector) (pos : nat)
    : result (Proprty * ProprtiesSelector * nat) :=
  match weighted_random (sel_proprties sel) (random_random R pos) with
  | None => Raise AttributeError
  | Some proprties_group =>
      let* (p, sel', pos') := get_proprty proprties_group sel (S pos) in
      let* sel'' := _update_remaining_proprties sel' in
      Ok (p, sel'', pos')
  end.

End Selector.

(** ** The filter option graph *)

(** The descriptor of a function's return value ([FunctionsInt],
    [FunctionsString], [FunctionsBool]). *)
Record FunctionsReturnType : Type := {
  return_type : string;
  frt_operators : list (string * Q);
  frt_name : string;
  frt_generator : Generator
}.

(** A generated function call. *)
Record FilterFunction : Type := {
  fn_proprties : list string;
  fn_params : option (list (option string));
  generated_string : string;
  function_type : FunctionsReturnType
}.

(** The keys [_update_function_part] adds to a part. *)
Record FunctionKeys : Type := {
  key_proprties : list string;
  key_params : option (list (option string));
  key_func : string;
  key_return_type : string
}.

(** The dictionaries of the graph; an absent key is [None]. *)
Record Part : Type := {
  part_id : N;
  part_name : option string;
  part_operator : option string;
  part_operand : option string;
  part_left_id : option N;
  part_right_id : option N;
  part_replaceable : option bool;
  part_function : option FunctionKeys
}.

Record Logical : Type := {
  logical_id : N;
  logical_name : option string;
  logical_left_id : option N;
  logical_right_id : option N;
  logical_group_id : option N
}.

Record Group : Type := {
  group_id : N;
  group_logicals : list N;
  group_left_id : option N;
  group_right_id : option N
}.

Record FilterOption : Type := {
  logicals : list Logical;
  parts : list Part;
  groups : list Group;
  option_string : string
}.

Definition new_part (i : N) : Part :=
  {| part_id := i; part_name := None; part_operator := None;
     part_operand := None; part_left_id := None; part_right_id := None;
     part_replaceable := None; part_function := None |}.

Definition new_logical (i : N) : Logical :=
  {| logical_id := i; logical_name := None; logical_left_id := None;
     logical_right_id := None; logical_group_id := None |}.

Definition new_group (i : N) : Group :=
  {| group_id := i; group_logicals := []; group_left_id := None;
     group_right_id := None |}.

Definition set_logicals (ls : list Logical) (o : FilterOption) : FilterOption :=
  {| logicals := ls; parts := parts o; groups := groups o;
     option_string := option_string o |}.

Definition set_parts (ps : list Part) (o : FilterOption) : FilterOption :=
  {| logicals := logicals o; parts := ps; groups := groups o;
     option_string := option_string o |}.

Definition set_groups (gs : list Group) (o : FilterOption) : FilterOption :=
  {| logicals := logicals o; parts := parts o; groups := gs;
     option_string := option_string o |}.

Definition set_option_string (s : string) (o : FilterOption) : FilterOption :=
  {| logicals := logicals o; parts := parts o; groups := groups o;
     option_string := s |}.

(** [l[-1]], and an update of the dictionary [l[-1]] refers to. *)
Definition last_of {A : Type} (l : list A) : result A :=
  match List.last (map Some l) None with
  | Some x => Ok x
  | None => Raise IndexError
  end.

Definition update_last {A : Type} (f : A -> A) (l : list A) : list A :=
  match l with
  | [] => []
  | _ => alter f (length l - 1)%nat l
  end.

Definition part_set_left_id (i : N) (p : Part) : Part :=
  {| part_id := part_id p; part_name := part_name p;
     part_operator := part_operator p; part_operand := part_operand p;
     part_left_id := Some i; part_right_id := part_right_id p;
     part_replaceable := part_replaceable p; part_function := part_function p |}.

Definition part_set_right_id (i : N) (p : Part) : Part :=
  {| part_id := part_id p; part_name := part_name p;
     part_operator := part_operator p; part_operand := part_operand p;
     part_left_id := part_left_id p; part_right_id := Some i;
     part_replaceable := part_replaceable p; part_function := part_function p |}.

(** [_update_proprty_part] *)
Definition part_set_proprty (n operator operand : string) (r : bool) (p : Part)
    : Part :=
  {| part_id := part_id p; part_name := Some n;
     part_operator := Some operator; part_operand := Some operand;
     part_left_id := part_left_id p; part_right_id := part_right_id p;
     part_replaceable := Some r; part_function := part_function p |}.

(** [_update_function_part] *)
Definition part_set_function (f : FilterFunction) (operator operand : string)
    (p : Part) : Part :=
  {| part_id := part_id p; part_name := Some (generated_string f);
     part_operator := Some operator; part_operand := Some operand;
     part_left_id := part_left_id p; part_right_id := part_right_id p;
     part_replaceable := part_replaceable p;
     part_function :=
       Some {| key_proprties := fn_proprties f; key_params := fn_params f;
               key_func := frt_name (function_type f);
               key_return_type := return_type (function_type f) |} |}.

Definition logical_set_name (n : string) (l : Logical) : Logical :=
  {| logical_id := logical_id l; logical_name := Some n;
     logical_left_id := logical_left_id l;
     logical_right_id := logical_right_id l;
     logical_group_id := logical_group_id l |}.

Definition logical_set_left_id (i : N) (l : Logical) : Logical :=
  {| logical_id := logical_id l; logical_name := logical_name l;
     logical_left_id := Some i; logical_right_id := logical_right_id l;
     logical_group_id := logical_group_id l |}.

Definition logical_set_right_id (i : N) (l : Logical) : Logical :=
  {| logical_id := logical_id l; logical_name := logical_name l;
     logical_left_id := logical_left_id l; logical_right_id := Some i;
     logical_group_id := logical_group_id l |}.

Definition logical_set_group_id (g : option N) (l : Logical) : Logical :=
  {| logical_id := logical_id l; logical_name := logical_name l;
     logical_left_id := logical_left_id l;
     logical_right_id := logical_right_id l; logical_group_id := g |}.

Definition group_set_left_id (i : N) (g : Group) : Group :=
  {| group_id := group_id g; group_logicals := group_logicals g;
     group_left_id := Some i; group_right_id := group_right_id g |}.

Definition group_set_right_id (i : N) (g : Group) : Group :=
  {| group_id := group_id g; group_logicals := group_logicals g;
     group_left_id := group_left_id g; group_right_id := Some i |}.

Definition group_append_logical (i : N) (g : Group) : Group :=
  {| group_id := group_id g; group_logicals := group_logicals g ++ [i];
     group_left_id := group_left_id g; group_right_id := group_right_id g |}.

Definition reverse_logicals (o : FilterOption) : FilterOption :=
  set_logicals (rev (logicals o)) o.

Definition id_in (i : N) (l : list N) : bool := existsb (N.eqb i) l.

(** A group is kept when it has member logicals and a connector on either
    side; the [group_id] of a logical that referred to a dropped group is
    removed. *)
Definition group_is_kept (g : Group) : bool :=
  list_truthy (group_logicals g)
  && (bool_decide (is_Some (group_right_id g))
      || bool_decide (is_Some (group_left_id g))).

Definition delete_redundancies (o : FilterOption) : FilterOption :=
  let filtered_groups := List.filter group_is_kept (groups o) in
  let redundant_groups_id :=
    map group_id (List.filter (fun g => negb (group_is_kept g)) (groups o)) in
  let scrub (l : Logical) :=
    match logical_group_id l with
    | Some g => if id_in g redundant_groups_id
                then logical_set_group_id None l else l
    | None => l
    end in
  set_logicals (map scrub (logicals o)) (set_groups filtered_groups o).

(** [Stack]: the stacked elements are the group dictionaries of the option,
    referred to by their position in its [groups] list. *)
Definition Stack_top (stack : list nat) : option nat := List.last (map Some stack) None.

(** [pop(elements_to_pop)]: the element popped last, [None] when the stack
    ran empty (or nothing was to be popped). *)
Fixpoint Stack_pop (elements_to_pop : nat) (stack : list nat)
    (popped_element : option nat) : option nat * list nat :=
  match elements_to_pop with
  | O => (popped_element, stack)
  | S n =>
      match Stack_top stack with
      | Some g => Stack_pop n (removelast stack) (Some g)
      | None => Stack_pop n stack None
      end
  end.

(** ** [FilterQuery] *)

(** Which bound method [__init__] stored in [_noterm_function]. *)
Inductive NotermFunction : Type :=
| the__generate_proprty
| the__generate_function.

Record FilterQuery : Type := {
  fq_entity_set : EntitySet;
  fq_restrictions : option QueryRestriction;
  _functions : list (string * FilterFunctions);
  _noterm_function : NotermFunction;
  _filterable_proprties : list Proprty;
  _draft_proprty : option Proprty;
  _required_proprties : list Proprty
}.

(** The attributes [_init_variables] resets on every [generate], and the
    position reached in the random source. *)
Record GenState : Type := {
  _recursion_depth : Z;
  _finalizing_groups : nat;
  _right_part : bool;
  _option : FilterOption;
  _groups_stack : list nat;
  _option_string : string;
  _proprties : ProprtiesSelector;
  random_state : nat
}.

Definition with_recursion_depth (d : Z) (st : GenState) : GenState :=
  {| _recursion_depth := d; _finalizing_groups := _finalizing_groups st;
     _right_part := _right_part st; _option := _option st;
     _groups_stack := _groups_stack st; _option_string := _option_string st;
     _proprties := _proprties st; random_state := random_state st |}.

Definition with_finalizing_groups (n : nat) (st : GenState) : GenState :=
  {| _recursion_depth := _recursion_depth st; _finalizing_groups := n;
     _right_part := _right_part st; _option := _option st;
     _groups_stack := _groups_stack st; _option_string := _option_string st;
     _proprties := _proprties st; random_state := random_state st |}.

Definition with_right_part (b : bool) (st : GenState) : GenState :=
  {| _recursion_depth := _recursion_depth st;
     _finalizing_groups := _finalizing_groups st;
     _right_part := b; _option := _option st;
     _groups_stack := _groups_stack st; _option_string := _option_string st;
     _proprties := _proprties st; random_state := random_state st |}.

Definition with_option (o : FilterOption) (st : GenState) : GenState :=
  {| _recursion_depth := _recursion_depth st;
     _finalizing_groups := _finalizing_groups st;
     _right_part := _right_part st; _option := o;
     _groups_stack := _groups_stack st; _option_string := _option_string st;
     _proprties := _proprties st; random_state := random_state st |}.

Definition with_groups_stack (s : list nat) (st : GenState) : GenState :=
  {| _recursion_depth := _recursion_depth st;
     _finalizing_groups := _finalizing_groups st;
     _right_part := _right_part st; _option := _option st;
     _groups_stack := s; _option_string := _option_string st;
     _proprties := _proprties st; random_state := random_state st |}.

Definition with_option_string (s : string) (st : GenState) : GenState :=
  {| _recursion_depth := _recursion_depth st;
     _finalizing_groups := _finalizing_groups st;
     _right_part := _right_part st; _option := _option st;
     _groups_stack := _groups_stack st; _option_string := s;
     _proprties := _proprties st; random_state := random_state st |}.

Definition with_proprties (sel : ProprtiesSelector) (st : GenState) : GenState :=
  {| _recursion_depth := _recursion_depth st;
     _finalizing_groups := _finalizing_groups st;
     _right_part := _right_part st; _option := _option st;
     _groups_stack := _groups_stack st; _option_string := _option_string st;
     _proprties := sel; random_state := random_state st |}.

Definition with_random_state (pos : nat) (st : GenState) : GenState :=
  {| _recursion_depth := _recursion_depth st;
     _finalizing_groups := _finalizing_groups st;
     _right_part := _right_part st; _option := _option st;
     _groups_stack := _groups_stack st; _option_string := _option_string st;
     _proprties := _proprties st; random_state := pos |}.

(** [self._option_string += s] *)
Definition emit (s : string) (st : GenState) : GenState :=
  with_option_string (_option_string st ++ s) st.

Definition set_replaceable (b : bool) (p : Proprty) : Proprty :=
  {| name := name p; typ_name := typ_name p; max_length := max_length p;
     filterable := filterable p; sortable := sortable p;
     required_in_filter := required_in_filter p;
     filter_restriction := filter_restriction p;
     max_string_length_attr := max_string_length_attr p;
     generate := generate p; operators := operators p;
     replaceable := Some b;
     generate_remaining_proprties := generate_remaining_proprties p |}.

Definition set_generate_remaining (g : RemainingGenerator) (p : Proprty) : Proprty :=
  {| name := name p; typ_name := typ_name p; max_length := max_length p;
     filterable := filterable p; sortable := sortable p;
     required_in_filter := required_in_filter p;
     filter_restriction := filter_restriction p;
     max_string_length_attr := max_string_length_attr p;
     generate := generate p; operators := operators p;
     replaceable := replaceable p;
     generate_remaining_proprties := Some g |}.

(** The test of [_init_required_proprties]. *)
Definition is_required (draft : option Proprty) (p : Proprty) : bool :=
  required_in_filter p
  || match draft with
     | Some d => String.eqb (name p) (name d)
     | None => false
     end.

(** [_set_generators_for_restricted_proprties], for one property. *)
Definition remaining_generator_for (p : Proprty) : RemainingGenerator :=
  match filter_restriction p with
  | Some interval => bound__generate_interval_values
  | Some multi_value => bound__generate_multi_values
  | _ => lambda_x_y_None
  end.

Section FilterQueryInit.
Context (C : Constants).

(** [FilterQuery(entity, restrictions, draft_properties)].  The property
    objects of [entity] are shared by the entity set, the two lists and
    the function families; they end up with [replaceable] set on the
    required ones and [generate_remaining_proprties] set on all. *)
Definition FilterQuery_init (entity : EntitySet)
    (restrictions : option QueryRestriction) (draft_properties : list string)
    (T : ClassTable) : result (FilterQuery * ClassTable) :=
  let* (group, T') := FilterFunctionsGroup C (proprties entity) restrictions T in
  let* draft :=
    match draft_properties with
    | [] => Ok None
    | d :: _ => let* p := proprty entity d in Ok (Some p)
    end in
  let finish (p : Proprty) :=
    set_generate_remaining (remaining_generator_for p)
      (if is_required draft p then set_replaceable false p else p) in
  let ps := map finish (proprties entity) in
  Ok ({| fq_entity_set := set_properties ps entity;
         fq_restrictions := restrictions;
         _functions :=
           map (fun kw =>
                  (fst kw,
                   {| class_ := class_ (snd kw);
                      ff_proprties := map finish (ff_proprties (snd kw)) |}))
             group;
         _noterm_function :=
           if list_truthy group then the__generate_function
           else the__generate_proprty;
         _filterable_proprties := ps;
         _draft_proprty := option_map finish draft;
         _required_proprties := List.filter (is_required draft) ps |}, T').
End FilterQueryInit.

Section Generation.
Context (C : Constants) (R : RandomSource) (T : ClassTable) (self : FilterQuery).

Definition draw (st : GenState) : Q * GenState :=
  (random_random R (random_state st), with_random_state (S (random_state st)) st).

Definition add_logical (st : GenState) : GenState :=
  let (i, pos) := fresh_id R (random_state st) in
  with_random_state pos
    (with_option (set_logicals (logicals (_option st) ++ [new_logical i])
                    (_option st)) st).

Definition add_part (st : GenState) : GenState :=
  let (i, pos) := fresh_id R (random_state st) in
  with_random_state pos
    (with_option (set_parts (parts (_option st) ++ [new_part i]) (_option st)) st).

Definition add_group (st : GenState) : GenState :=
  let (i, pos) := fresh_id R (random_state st) in
  with_random_state pos
    (with_option (set_groups (groups (_option st) ++ [new_group i]) (_option st)) st).

Definition update_last_logical (f : Logical -> Logical) (st : GenState) : GenState :=
  with_option (set_logicals (update_last f (logicals (_option st))) (_option st)) st.

Definition update_last_part (f : Part -> Part) (st : GenState) : GenState :=
  with_option (set_parts (update_last f (parts (_option st))) (_option st)) st.

Definition update_group (g : nat) (f : Group -> Group) (st : GenState) : GenState :=
  with_option (set_groups (alter f g (groups (_option st))) (_option st)) st.

(** The group dictionary on top of the stack, with its position. *)
Definition stacked_group (st : GenState) : option (nat * Group) :=
  match Stack_top (_groups_stack st) with
  | Some g =>
      match groups (_option st) !! g with
      | Some grp => Some (g, grp)
      | None => None
      end
  | None => None
  end.

Definition _update_left_logical_references (st : GenState) : result GenState :=
  let st1 :=
    match stacked_group st with
    | Some (_, grp) =>
        update_last_logical (logical_set_group_id (Some (group_id grp))) st
    | None => st
    end in
  let* last_part := last_of (parts (_option st1)) in
  let* last_logical := last_of (logicals (_option st1)) in
  let st2 := update_last_logical (logical_set_left_id (part_id last_part)) st1 in
  Ok (update_last_part (part_set_right_id (logical_id last_logical)) st2).

Definition _set_right_logical_references (st : GenState) : result GenState :=
  let* last_logical := last_of (logicals (_option st)) in
  let* last_part := last_of (parts (_option st)) in
  let st1 := update_last_logical (logical_set_right_id (part_id last_part)) st in
  let st2 := update_last_part (part_set_left_id (logical_id last_logical)) st1 in
  match stacked_group st2 with
  | Some (g, grp) =>
      Ok (update_last_logical (logical_set_group_id (Some (group_id grp)))
            (update_group g (group_append_logical (logical_id last_logical)) st2))
  | None => Ok st2
  end.

Definition _update_right_logical_references (st : GenState) : result GenState :=
  if _right_part st
  then _set_right_logical_references (with_right_part false st)
  else Ok st.

Definition _update_proprty_part (proprty_name operator operand : string)
    (is_replaceable : bool) (st : GenState) : result GenState :=
  let* _ := last_of (parts (_option st)) in
  Ok (update_last_part
        (part_set_proprty proprty_name operator operand is_replaceable) st).

Definition _update_function_part (f : FilterFunction) (operator operand : string)
    (st : GenState) : result GenState :=
  let* _ := last_of (parts (_option st)) in
  Ok (update_last_part (part_set_function f operator operand) st).

(** [name + ' ' + operator + ' ' + operand]: concatenating [None] raises. *)
Definition comparison_string (n : string) (operator operand : option string)
    : result (string * string * string) :=
  match operator, operand with
  | Some op, Some v => Ok (n ++ " " ++ op ++ " " ++ v, op, v)
  | _, _ => Raise TypeError
  end.

Definition _generate_sap_restricted (p : Proprty) (logical operator : string)
    (st : GenState) : result GenState :=
  let st := emit (" " ++ logical ++ " ") st in
  let st := add_logical st in
  let st := update_last_logical (logical_set_name logical) st in
  let* st := _update_left_logical_references st in
  let st := add_part st in
  let* (operand, pos) := call_proprty_generate R p (random_state st) in
  let st := with_random_state pos st in
  let* (s, _, v) := comparison_string (name p) (Some operator) operand in
  let st := emit s st in
  _update_proprty_part (name p) operator v (default true (replaceable p)) st.

Definition _generate_next_interval_value (p : Proprty) (operator : string)
    (st : GenState) : result GenState :=
  let* st := _generate_sap_restricted p "and" operator st in
  _set_right_logical_references st.

Definition _generate_interval_values (p : Proprty) (used_operator : string)
    (st : GenState) : result GenState :=
  if negb (String.eqb used_operator "eq") then
    let operator := if String.eqb used_operator "le" then "ge" else "le" in
    _generate_next_interval_value p operator st
  else Ok st.

Fixpoint repeat_sap_restricted (total_values : nat) (p : Proprty)
    (operator : string) (st : GenState) : result GenState :=
  match total_values with
  | O => Ok st
  | S n =>
      let* st := _generate_sap_restricted p "or" operator st in
      let* st := _set_right_logical_references st in
      repeat_sap_restricted n p operator st
  end.

Definition _generate_multi_values (p : Proprty) (operator : string)
    (st : GenState) : result GenState :=
  let (r, st) := draw st in
  let total_values :=
    py_round (r * inject_Z (MAX_MULTI_VALUES C - 1) + 1)%Q in
  repeat_sap_restricted (Z.to_nat total_values) p operator st.

(** [proprty.generate_remaining_proprties(proprty, operator)] *)
Definition call_generate_remaining (p : Proprty) (operator : string)
    (st : GenState) : result GenState :=
  match generate_remaining_proprties p with
  | None => Raise AttributeError
  | Some bound__generate_interval_values =>
      _generate_interval_values p operator st
  | Some bound__generate_multi_values => _generate_multi_values p operator st
  | Some lambda_x_y_None => Ok st
  end.

Definition _generate_proprty (st : GenState) : result GenState :=
  let* (p, sel, pos) := get_random_proprty R (_proprties st) (random_state st) in
  let st := with_random_state pos (with_proprties sel st) in
  let* ops := match operators p with
              | Some ops => Ok ops
              | None => Raise AttributeError
              end in
  let (r, st) := draw st in
  let operator := weighted_random ops r in
  let* (operand, pos) := call_proprty_generate R p (random_state st) in
  let st := with_random_state pos st in
  let* (s, op, v) := comparison_string (name p) operator operand in
  let st := emit s st in
  let* st := _update_proprty_part (name p) op v (default true (replaceable p)) st in
  let* st := _update_right_logical_references st in
  call_generate_remaining p op st.
End Generation.

Section Functions.
Context (C : Constants) (R : RandomSource).

Definition FunctionsInt (n : string) : FunctionsReturnType :=
  {| return_type := "Edm.Int32"; frt_operators := EXPRESSION_OPERATORS C;
     frt_name := n; frt_generator := edm_int32 |}.

Definition FunctionsString (n : string) : FunctionsReturnType :=
  {| return_type := "Edm.String"; frt_operators := EXPRESSION_OPERATORS C;
     frt_name := n; frt_generator := edm_string |}.

Definition FunctionsBool (n : string) : FunctionsReturnType :=
  {| return_type := "Edm.Boolean"; frt_operators := BOOLEAN_OPERATORS C;
     frt_name := n; frt_generator := edm_boolean |}.

(** [str.format] renders [None] as the text None. *)
Definition format_value (v : option string) : string := default "None" v.

(** [f(proprty)] with no parameter. *)
Definition unary_call (f : string) (ret : FunctionsReturnType)
    (w : FilterFunctions) (pos : nat) : result (FilterFunction * nat) :=
  let* (p, pos) := choice R (ff_proprties w) pos in
  Ok ({| fn_proprties := [name p]; fn_params := None;
         generated_string := f ++ "(" ++ name p ++ ")";
         function_type := ret |}, pos).

(** [f(proprty, value)] with [value = proprty.generate()]; [func_length]
    draws the value but renders the property alone. *)
Definition value_call (f : string) (render_value : bool)
    (ret : FunctionsReturnType) (w : FilterFunctions) (pos : nat)
    : result (FilterFunction * nat) :=
  let* (p, pos) := choice R (ff_proprties w) pos in
  let* (value, pos) := call_proprty_generate R p pos in
  Ok ({| fn_proprties := [name p]; fn_params := Some [value];
         generated_string :=
           if render_value
           then f ++ "(" ++ name p ++ ", " ++ format_value value ++ ")"
           else f ++ "(" ++ name p ++ ")";
         function_type := ret |}, pos).

(** [function_call(functions_wrapper)] for each method of the three
    families. *)
Definition call_function (m : Method) (w : FilterFunctions) (pos : nat)
    : result (FilterFunction * nat) :=
  match m with
  | func_day => unary_call "day" (FunctionsInt "day") w pos
  | func_hour => unary_call "hour" (FunctionsInt "hour") w pos
  | func_minute => unary_call "minute" (FunctionsInt "minute") w pos
  | func_month => unary_call "month" (FunctionsInt "month") w pos
  | func_second => unary_call "second" (FunctionsInt "second") w pos
  | func_year => unary_call "year" (FunctionsInt "second") w pos
  | func_round => unary_call "round" (FunctionsInt "round") w pos
  | func_floor => unary_call "floor" (FunctionsInt "floor") w pos
  | func_ceiling => unary_call "ceiling" (FunctionsInt "ceiling") w pos
  | func_substringof =>
      value_call "substringof" true (FunctionsBool "substringof") w pos
  | func_endswith => value_call "endswith" true (FunctionsBool "endswith") w pos
  | func_startswith =>
      value_call "startswith" true (FunctionsBool "startswith") w pos
  | func_length => value_call "length" false (FunctionsInt "length") w pos
  | func_indexof => value_call "indexof" true (FunctionsInt "indexof") w pos
  | func_replace =>
      let* (p, pos) := choice R (ff_proprties w) pos in
      let literal1 := RandomGenerator R edm_string pos in
      let literal2 := RandomGenerator R edm_string (S pos) in
      Ok ({| fn_proprties := [name p];
             fn_params := Some [Some literal1; Some literal2];
             generated_string :=
               "replace(" ++ name p ++ ", " ++ literal1 ++ ", " ++ literal2 ++ ")";
             function_type := FunctionsString "replace" |}, S (S pos))
  | func_substring =>
      let* (p, pos) := choice R (ff_proprties w) pos in
      let int32 := py_str (random_randint R pos) in
      Ok ({| fn_proprties := [name p]; fn_params := Some [Some int32];
             generated_string := "substring(" ++ name p ++ ", " ++ int32 ++ ")";
             function_type := FunctionsString "substring" |}, S pos)
  | func_tolower => unary_call "tolower" (FunctionsString "tolower") w pos
  | func_toupper => unary_call "toupper" (FunctionsString "toupper") w pos
  | func_trim => unary_call "trim" (FunctionsString "trim") w pos
  | func_concat =>
      (* the closing loop reads [max_string_length] from the names put in
         [proprty_list], which are strings *)
      Raise AttributeError
  end.
End Functions.

Section Grammar.
Context (C : Constants) (R : RandomSource) (T : ClassTable) (self : FilterQuery).

Definition _generate_function (st : GenState) : result GenState :=
  let* (functions_wrapper, pos) :=
    choice R (map snd (_functions self)) (random_state st) in
  let functions_dict := get_methods_dict T (class_ functions_wrapper) in
  let* (function_call, pos) := choice R functions_dict pos in
  let* (generated_function, pos) :=
    call_function C R function_call functions_wrapper pos in
  let st := with_random_state pos st in
  let (r, st) := draw R st in
  let operator := weighted_random (frt_operators (function_type generated_function)) r in
  let operand :=
    RandomGenerator R (frt_generator (function_type generated_function))
      (random_state st) in
  let st := with_random_state (S (random_state st)) st in
  let* (s, op, v) :=
    comparison_string (generated_string generated_function) operator
      (Some operand) in
  let st := emit s st in
  let* st := _update_function_part generated_function op v st in
  _update_right_logical_references st.

Definition call_noterm_function (st : GenState) : result GenState :=
  match _noterm_function self with
  | the__generate_proprty => _generate_proprty C R st
  | the__generate_function => _generate_function st
  end.

Definition _generate_element (st : GenState) : result GenState :=
  let st := add_part R st in
  let (r, st) := draw R st in
  if Qltb r (FUNCTION_WEIGHT C) then call_noterm_function st
  else _generate_proprty C R st.

Definition _noterm_logical (st : GenState) : result GenState :=
  let (r, st) := draw R st in
  match weighted_random (LOGICAL_OPERATORS C) r with
  | None => Raise TypeError
  | Some operator =>
      let st := emit (" " ++ operator ++ " ") st in
      let st := add_logical R st in
      let st := update_last_logical (logical_set_name operator) st in
      let* last_logical := last_of (logicals (_option st)) in
      let* st :=
        match _finalizing_groups st with
        | O => _update_left_logical_references st
        | S _ =>
            let (popped_group, stack) :=
              Stack_pop (_finalizing_groups st) (_groups_stack st) None in
            let st := with_finalizing_groups 0 (with_groups_stack stack st) in
            match popped_group with
            | None => Raise TypeError
            | Some g =>
                match groups (_option st) !! g with
                | None => Raise TypeError
                | Some grp =>
                    Ok (update_group g
                          (group_set_right_id (logical_id last_logical))
                          (update_last_logical
                             (logical_set_left_id (group_id grp)) st))
                end
            end
        end in
      Ok (with_right_part true st)
  end.

(** [last_group] is the group just added, at the end of [groups]. *)
Definition _update_group_references (st : GenState) : result GenState :=
  let* last_group := last_of (groups (_option st)) in
  let* last_logical := last_of (logicals (_option st)) in
  let st := update_last_logical (logical_set_right_id (group_id last_group)) st in
  let st :=
    update_group (length (groups (_option st)) - 1)
      (group_set_left_id (logical_id last_logical)) st in
  match stacked_group st with
  | Some (g, _) =>
      Ok (update_group g (group_append_logical (logical_id last_logical)) st)
  | None => Ok st
  end.
End Grammar.

(** ** The recursive grammar

    The six mutually recursive methods take a bound on the number of nested
    calls; [None] means the bound was reached before the call returned. *)

Definition and_then {A B : Type} (m : option (result A))
    (k : A -> option (result B)) : option (result B) :=
  match m with
  | None => None
  | Some (Raise e) => Some (Raise e)
  | Some (Ok a) => k a
  end.

Section Recursion.
Context (C : Constants) (R : RandomSource) (T : ClassTable) (self : FilterQuery).

(** [self._proprties.has_remaining()] *)
Definition call_has_remaining (st : GenState) : bool * GenState :=
  let (remaining, sel) := has_remaining (_proprties st) in
  (remaining, with_proprties sel st).

(** [random.random() < 0.5 or self._recursion_depth > RECURSION_LIMIT] *)
Definition coin_or_limit (st : GenState) : bool * GenState :=
  let (r, st) := draw R st in
  (Qltb r (1 # 2) || (RECURSION_LIMIT C <? _recursion_depth st)%Z, st).

Fixpoint _noterm_expression (fuel : nat) (st : GenState) {struct fuel}
    : option (result GenState) :=
  match fuel with
  | O => None
  | S fuel =>
      let st := with_recursion_depth (_recursion_depth st + 1) st in
      let (remaining, st) := call_has_remaining st in
      if negb remaining then
        let (stop, st) := coin_or_limit st in
        if stop then Some (_generate_element C R T self st)
        else _noterm_child fuel st
      else _noterm_child fuel st
  end
with _noterm_parent (fuel : nat) (st : GenState) {struct fuel}
    : option (result GenState) :=
  match fuel with
  | O => None
  | S fuel =>
      let (remaining, st) := call_has_remaining st in
      if negb remaining then
        let (stop, st) := coin_or_limit st in
        if stop then _noterm_expression fuel st
        else _generate_child fuel st
      else _generate_child fuel st
  end
with _generate_child (fuel : nat) (st : GenState) {struct fuel}
    : option (result GenState) :=
  match fuel with
  | O => None
  | S fuel =>
      let (r, st) := draw R st in
      if Qltb r (1 # 2) then _noterm_child fuel st
      else
        let (remaining, st) := call_has_remaining st in
        if negb remaining then _noterm_child fuel st
        else _generate_child_group fuel st
  end
with _generate_child_group (fuel : nat) (st : GenState) {struct fuel}
    : option (result GenState) :=
  match fuel with
  | O => None
  | S fuel =>
      let st := emit "(" st in
      let st := add_group R st in
      and_then
        (Some (if _right_part st then _update_group_references st else Ok st))
        (fun st =>
           let last_group := (length (groups (_option st)) - 1)%nat in
           let st := with_groups_stack (_groups_stack st ++ [last_group]) st in
           and_then (_noterm_child fuel st)
             (fun st =>
                let st := with_finalizing_groups (S (_finalizing_groups st)) st in
                Some (Ok (emit ")" st))))
  end
with _noterm_child (fuel : nat) (st : GenState) {struct fuel}
    : option (result GenState) :=
  match fuel with
  | O => None
  | S fuel =>
      and_then (_noterm_parent fuel st) (fun st => _generate_rest fuel st)
  end
with _generate_rest (fuel : nat) (st : GenState) {struct fuel}
    : option (result GenState) :=
  match fuel with
  | O => None
  | S fuel =>
      if has_filterable (_proprties st) then
        and_then (Some (_noterm_logical C R st))
          (fun st => _noterm_parent fuel st)
      else Some (Ok st)
  end.

(** A state in which no required property is left, so that [has_remaining]
    answers [False] from now on, while the depth counter is still within
    the limit. *)
Definition coasting (st : GenState) : Prop :=
  sel_required_proprties (_proprties st) = []
  /\ (_recursion_depth st <= RECURSION_LIMIT C)%Z.

Definition _init_variables (pos : nat) : GenState :=
  {| _recursion_depth := 0;
     _finalizing_groups := 0;
     _right_part := false;
     _option := {| logicals := []; parts := []; groups := [];
                   option_string := EmptyString |};
     _groups_stack := [];
     _option_string := EmptyString;
     _proprties :=
       ProprtiesSelector_init (_filterable_proprties self)
         (_required_proprties self);
     random_state := pos |}.

Definition _generate_string (fuel : nat) (st : GenState)
    : option (result GenState) :=
  if list_truthy (_required_proprties self) then _noterm_expression fuel st
  else
    let (r, st) := draw R st in
    if Qltb r (SINGLE_VALUE_PROB C)
    then Some (_generate_proprty C R (add_part R st))
    else _noterm_expression fuel st.

(** [FilterQuery.generate]: the option produced and the position reached
    in the random source. *)
Definition FilterQuery_generate (fuel : nat) (pos : nat)
    : option (result (FilterOption * nat)) :=
  and_then (_generate_string fuel (_init_variables pos))
    (fun st =>
       let o := delete_redundancies (reverse_logicals (_option st)) in
       Some (Ok (set_option_string (_option_string st) o, random_state st))).
End Recursion.

(** ** [TopQuery] and [SkipQuery] *)

(** The collaborator behind [dispatcher.get(url, timeout=5)]: the text of
    the response, or the exception the call raises. *)
Definition Dispatcher : Type := string -> result string.

(** The state the two range options keep: the weighted table of maximum
    ranges, in insertion order, and the value generated last. *)
Record RangeQuery : Type := {
  _max_range_prob : list (Z * Q);
  _depending_data : Z
}.

Section Range.
Context (C : Constants).

Definition count_url (entity_set_name : string) : string :=
  entity_set_name ++ "/" ++ "$count?" ++ "sap-client=" ++ Config_client C.

(** The count probe fails: the dispatcher raises [DispatcherError], or
    the text of its response is not an integer. *)
Definition probe_fails (dispatcher : Dispatcher) (entity_set_name : string)
    : Prop :=
  dispatcher (count_url entity_set_name) = Raise DispatcherError
  \/ exists text, dispatcher (count_url entity_set_name) = Ok text
                  /\ py_int text = Raise ValueError.

Definition _get_total_entities (entity_set_name : string)
    (dispatcher : Dispatcher) : result Z :=
  let url := count_url entity_set_name in
  match dispatcher url with
  | Raise DispatcherError => Ok (INT_MAX C)
  | Raise e => Raise e
  | Ok text =>
      match py_int text with
      | Raise ValueError => Ok (INT_MAX C)
      | other => other
      end
  end.

(** [include_restr.get(self.entity_set.name)], when both the mapping and
    the entry are truthy. *)
Definition include_values (restrictions : option QueryRestriction)
    (entity_set_name : string) : option (list string) :=
  match restrictions with
  | Some r =>
      match include r !! entity_set_name with
      | Some (v :: vs) => Some (v :: vs)
      | _ => None
      end
  | None => None
  end.

(** [int(max_values[0])] *)
Definition first_as_int (max_values : list string) : result Z :=
  match max_values with
  | v :: _ => py_int v
  | [] => Raise IndexError
  end.

Definition TopQuery__set_max_range (entity_set_name : string)
    (restrictions : option QueryRestriction) (dispatcher : Dispatcher)
    (prob : list (Z * Q)) : result (list (Z * Q)) :=
  let prob := dict_set Z.eqb (INT_MAX C) (1 # 1000) prob in
  let* total_entities :=
    match include_values restrictions entity_set_name with
    | Some max_values => first_as_int max_values
    | None => _get_total_entities entity_set_name dispatcher
    end in
  if (1000 <? total_entities)%Z
  then Ok (dict_set Z.eqb 1000%Z (999 # 1000) prob)
  else Ok (dict_set Z.eqb total_entities (999 # 1000) prob).

Definition SkipQuery__set_max_range (entity_set_name : string)
    (restrictions : option QueryRestriction) (prob : list (Z * Q))
    : result (list (Z * Q)) :=
  let prob := dict_set Z.eqb (INT_MAX C) (1 # 1000) prob in
  let* total_entities :=
    match include_values restrictions entity_set_name with
    | Some max_values => first_as_int max_values
    | None => Ok (INT_MAX C)
    end in
  if (total_entities =? INT_MAX C)%Z
  then Ok (dict_set Z.eqb total_entities 1%Q prob)
  else Ok (dict_set Z.eqb total_entities (999 # 1000) prob).

(** The range [TopQuery._set_max_range] enters with weight 0.999 for a
    total of [total_entities]: the total, capped at 1000. *)
Definition configured_max_range (total_entities : Z) : Z :=
  if (1000 <? total_entities)%Z then 1000%Z else total_entities.

(** Every range of a table lies within [INT_MAX]. *)
Definition ranges_within_INT_MAX (self : RangeQuery) : Prop :=
  Forall (fun kv => (fst kv <= INT_MAX C)%Z) (_max_range_prob self).

(** [TopQuery(entity, restrictions, dispatcher)] *)
Definition TopQuery_init (entity_set_name : string)
    (restrictions : option QueryRestriction) (dispatcher : Dispatcher)
    : result RangeQuery :=
  let* prob := TopQuery__set_max_range entity_set_name restrictions dispatcher
                 [(INT_MAX C, 1%Q)] in
  Ok {| _max_range_prob := prob; _depending_data := 0 |}.

(** [SkipQuery(entity, restrictions, dispatcher)] *)
Definition SkipQuery_init (entity_set_name : string)
    (restrictions : option QueryRestriction) : result RangeQuery :=
  let* prob := SkipQuery__set_max_range entity_set_name restrictions
                 [(INT_MAX C, 1%Q)] in
  Ok {| _max_range_prob := prob; _depending_data := 0 |}.

(** The body shared by the two [generate] methods: [other] is the option
    whose value is read from [depending_data].  Returns the generated
    value (also stored as [_depending_data]); the option string is its
    [str].  The product that is rounded is the exact one: where the product
    of the doubles is rounded across a half, the value differs by one from
    the code's, within the same bounds. *)
Definition range_generate (R : RandomSource) (other : string)
    (self : RangeQuery) (depending_data : gmap string Z) (pos : nat)
    : result (Z * RangeQuery * nat) :=
  let selected_value :=
    weighted_random (_max_range_prob self) (random_random R pos) in
  let other_value := depending_data !! other in
  let* max_range :=
    match other_value with
    | Some v =>
        if (v =? 0)%Z then Ok selected_value
        else
          match selected_value with
          | None => Raise TypeError
          | Some s =>
              if (INT_MAX C <? v + s)%Z then Ok (Some (INT_MAX C - v)%Z)
              else Ok selected_value
          end
    | None => Ok selected_value
    end in
  match max_range with
  | None => Raise TypeError
  | Some m =>
      let value := py_round (random_random R (S pos) * inject_Z m)%Q in
      Ok (value,
          {| _max_range_prob := _max_range_prob self;
             _depending_data := value |},
          S (S pos))
  end.

Definition TopQuery_generate (R : RandomSource) :=
  range_generate R (SKIP C).

Definition SkipQuery_generate (R : RandomSource) :=
  range_generate R (TOP C).

(** One round in which [$skip] is generated first and its value is handed
    to [$top] as depending data. *)
Definition skip_then_top (R : RandomSource) (skip top : RangeQuery)
    (depending_data : gmap string Z) (pos : nat) : result (Z * Z) :=
  let* (s, _, pos) := SkipQuery_generate R skip depending_data pos in
  let* (t, _, _) := TopQuery_generate R top (<[SKIP C := s]> depending_data) pos in
  Ok (s, t).
End Range.

(** ** [QueryGroup] *)

(** The objects a query group shares with its caller: the entity set of the
    metadata model it was given, the restrictions object, and the family
    classes of the module. *)
Record World : Type := {
  the_entity_set : EntitySet;
  the_restrictions : option Restrictions;
  the_classes : ClassTable
}.

Definition with_entity_set (e : EntitySet) (w : World) : World :=
  {| the_entity_set := e; the_restrictions := the_restrictions w;
     the_classes := the_classes w |}.

Definition with_restrictions (r : option Restrictions) (w : World) : World :=
  {| the_entity_set := the_entity_set w; the_restrictions := r;
     the_classes := the_classes w |}.

Definition with_classes (T : ClassTable) (w : World) : World :=
  {| the_entity_set := the_entity_set w;
     the_restrictions := the_restrictions w; the_classes := T |}.

Record OptionRestriction : Type := {
  restr : option QueryRestriction;
  is_not_restricted : bool
}.

Inductive QueryOption : Type :=
| a_FilterQuery (q : FilterQuery)
| an_OrderbyQuery (entity_set : EntitySet) (_proprties : gset string)
| an_ExpandQuery (entity_set : EntitySet) (_navigation_paths : gset string)
| a_TopQuery (q : RangeQuery)
| a_SkipQuery (q : RangeQuery).

Inductive AccessibleStrategy : Type :=
| AddressableEntity
| NonAddressableEntity.

(** [_query_options_list] and [_required_options] hold the objects stored in
    [_query_options]; they are listed here by their key. *)
Record QueryGroup : Type := {
  _query_options : list (string * QueryOption);
  _query_options_list : list string;
  _required_options : list string;
  _accessible_entity : option AccessibleStrategy
}.

Definition empty_group : QueryGroup :=
  {| _query_options := []; _query_options_list := []; _required_options := [];
     _accessible_entity := None |}.

Definition add_option (key : string) (q : QueryOption) (required : bool)
    (g : QueryGroup) : QueryGroup :=
  {| _query_options := dict_set String.eqb key q (_query_options g);
     _query_options_list :=
       if required then _query_options_list g
       else _query_options_list g ++ [key];
     _required_options :=
       if required then _required_options g ++ [key]
       else _required_options g;
     _accessible_entity := _accessible_entity g |}.

Definition get_draft_properties (entity_set_name : string)
    (draft : option (gmap string (list string))) : list string :=
  match draft with
  | Some d => if dict_truthy d then get_list d entity_set_name else []
  | None => []
  end.

Definition OrderbyQuery_init (entity : EntitySet) : QueryOption :=
  an_OrderbyQuery entity (list_to_set (map name (proprties entity))).

(** [_init_possible_paths]: each navigation property and its one-level
    continuations. *)
Definition ExpandQuery_init (entity : EntitySet) : QueryOption :=
  an_ExpandQuery entity
    (list_to_set
       (flat_map
          (fun nav =>
             nav_name nav
             :: map (fun inner => nav_name nav ++ "/" ++ inner)
                  (to_role_nav_proprties nav))
          (_nav_properties entity))).

Section Group.
Context (C : Constants) (dispatcher : Dispatcher).

Definition _is_not_restricted (entity_set_name : string)
    (exclude_restr : gmap string (list string)) : bool :=
  if dict_truthy exclude_restr then
    negb (name_in entity_set_name (get_list exclude_restr (GLOBAL_ENTITY C)))
  else true.

Definition _get_restrictions (option_name : string) (w : World)
    : result OptionRestriction :=
  match the_restrictions w with
  | Some r =>
      let* query_restr := restriction r option_name in
      Ok {| restr := Some query_restr;
            is_not_restricted :=
              _is_not_restricted (es_name (the_entity_set w))
                (exclude query_restr) |}
  | None => Ok {| restr := None; is_not_restricted := true |}
  end.

(** The first half of [_delete_restricted_proprties].  [exclude_of] names
    the option whose [exclude] mapping the caller passes ([None] for the
    literal [[]]): [restr_proprty_list] is the very list stored in that
    mapping under the entity set's name when the key is present, and
    [extend] then changes the mapping itself. *)
Definition restr_proprty_list (exclude_of : option string) (w : World)
    : list string * World :=
  let self_name := es_name (the_entity_set w) in
  let passed :=
    match exclude_of, the_restrictions w with
    | Some option_name, Some r =>
        match option_restrictions r !! option_name with
        | Some q => if dict_truthy (exclude q) then Some (option_name, r, q)
                    else None
        | None => None
        end
    | _, _ => None
    end in
  match passed with
  | Some (option_name, r, q) =>
      let exclude_restr := exclude q in
      let extended :=
        (get_list exclude_restr self_name
         ++ get_list exclude_restr (GLOBAL_PROPRTY C))%list in
      match exclude_restr !! self_name with
      | Some _ =>
          (extended,
           with_restrictions
             (Some (set_restriction option_name
                      (set_exclude (<[self_name := extended]> exclude_restr) q)
                      r)) w)
      | None => (extended, w)
      end
  | None => ([], w)
  end.

Definition _delete_restricted_proprties (exclude_of : option string)
    (attribute : Proprty -> bool) (draft_proprties : list string) (w : World)
    : EntitySet * World :=
  let entity_set := the_entity_set w in
  let '(restr_proprty_list, w') := restr_proprty_list exclude_of w in
  let deleted (p : Proprty) : bool :=
    (name_in (name p) restr_proprty_list || negb (attribute p))
    && negb (name_in (name p) draft_proprties) in
  (set_properties
     (List.filter (fun p => negb (deleted p)) (_properties entity_set))
     entity_set,
   w').

Definition _delete_restricted_nav_proprties (option_restrictions : QueryRestriction)
    (w : World) : EntitySet :=
  let entity_set := the_entity_set w in
  if dict_truthy (exclude option_restrictions) then
    let restricted_proprties :=
      (get_list (exclude option_restrictions) (NAV_PROPRTY C)
       ++ get_list (exclude option_restrictions) (es_name entity_set))%list in
    set_nav_properties
      (List.filter (fun nav => negb (name_in (nav_name nav) restricted_proprties))
         (_nav_properties entity_set))
      entity_set
  else entity_set.

(** The value [_init_filter_query] computes for [needs_filter]. *)
Definition needs_filter (w : World) : bool :=
  match the_restrictions w with
  | Some _ => true
  | None => requires_filter (the_entity_set w)
  end.

Definition _init_filter_query (g : QueryGroup) (w : World)
    : result (QueryGroup * World) :=
  let* option_restr := _get_restrictions (FILTER C) w in
  let '(exclude_of, draft_properties, needs_filter) :=
    match restr option_restr, the_restrictions w with
    | Some _, Some r =>
        (Some (FILTER C),
         get_draft_properties (es_name (the_entity_set w)) (draft_objects r),
         true)
    | _, _ => (None, [], requires_filter (the_entity_set w))
    end in
  let '(entity_set, w) :=
    _delete_restricted_proprties exclude_of filterable draft_properties w in
  let w := with_entity_set (set_req_filter needs_filter (the_entity_set w)) w in
  let entity_set := set_req_filter needs_filter entity_set in
  if is_not_restricted option_restr && list_truthy (proprties entity_set)
     || list_truthy draft_properties
  then
    (* the restriction object handed on is the one held by the
       restrictions, as [_delete_restricted_proprties] left it *)
    let* option_restr' := _get_restrictions (FILTER C) w in
    let* (q, T) := FilterQuery_init C entity_set (restr option_restr')
                     draft_properties (the_classes w) in
    Ok (add_option (FILTER C) (a_FilterQuery q) (requires_filter entity_set) g,
        with_classes T w)
  else Ok (g, w).

Definition _init_orderby_query (g : QueryGroup) (w : World)
    : result (QueryGroup * World) :=
  let* option_restr := _get_restrictions (ORDERBY C) w in
  let exclude_of :=
    match restr option_restr with
    | Some _ => Some (ORDERBY C)
    | None => None
    end in
  let '(entity_set, w) :=
    _delete_restricted_proprties exclude_of sortable [] w in
  if is_not_restricted option_restr && list_truthy (proprties entity_set)
  then Ok (add_option (ORDERBY C) (OrderbyQuery_init entity_set) false g, w)
  else Ok (g, w).

Definition _init_expand_query (g : QueryGroup) (w : World)
    : result (QueryGroup * World) :=
  let* option_restr := _get_restrictions (EXPAND C) w in
  let entity_set :=
    match restr option_restr with
    | Some r => _delete_restricted_nav_proprties r w
    | None => the_entity_set w
    end in
  if is_not_restricted option_restr
     && list_truthy (_nav_properties (the_entity_set w))
  then Ok (add_option (EXPAND C) (ExpandQuery_init entity_set) false g, w)
  else Ok (g, w).

(** [_init_query_type], for [$top] ([is_top]) and [$skip]. *)
Definition _init_query_type (is_top : bool) (g : QueryGroup) (w : World)
    : result (QueryGroup * World) :=
  let option_name := if is_top then TOP C else SKIP C in
  let* option_restr := _get_restrictions option_name w in
  let entity_set := the_entity_set w in
  let is_queryable := if is_top then topable entity_set else pageable entity_set in
  if is_queryable && is_not_restricted option_restr then
    let* q :=
      if is_top
      then let* q := TopQuery_init C (es_name entity_set) (restr option_restr)
                       dispatcher in Ok (a_TopQuery q)
      else let* q := SkipQuery_init C (es_name entity_set) (restr option_restr)
           in Ok (a_SkipQuery q) in
    let required :=
      match include_values (restr option_restr) (es_name entity_set) with
      | Some _ => true
      | None => false
      end in
    Ok (add_option option_name q required g, w)
  else Ok (g, w).

(** [NonAddressableEntity.__init__] patches the properties of the entity
    set it is given, which is the caller's. *)
Definition _init_accessible_entity_path (g : QueryGroup) (w : World)
    : QueryGroup * World :=
  if addressable (the_entity_set w) then
    ({| _query_options := _query_options g;
        _query_options_list := _query_options_list g;
        _required_options := _required_options g;
        _accessible_entity := Some AddressableEntity |}, w)
  else
    ({| _query_options := _query_options g;
        _query_options_list := _query_options_list g;
        _required_options := _required_options g;
        _accessible_entity := Some NonAddressableEntity |},
     with_entity_set (patch_proprties C (the_entity_set w)) w).

Definition _init_group (g : QueryGroup) (w : World)
    : result (QueryGroup * World) :=
  let* (g, w) := _init_filter_query g w in
  let* (g, w) := _init_orderby_query g w in
  let* (g, w) := _init_expand_query g w in
  let* (g, w) := _init_query_type true g w in
  _init_query_type false g w.

(** [QueryGroup(entity_set, restrictions, dispatcher, principal_entities)]:
    the group built and the shared objects as construction leaves them. *)
Definition QueryGroup_init (w : World) : result (QueryGroup * World) :=
  let* (g, w) := _init_group empty_group w in
  Ok (_init_accessible_entity_path g w).
End Group.

(** ** Derived quantities used by the statements *)

(** The sum of the weights of a table handed to [weighted_random]. *)
Definition total_weight {A : Type} (items : list (A * Q)) : Q :=
  fold_right Qplus 0%Q (map snd items).

(** A part whose comparison has been filled in: [name], [operator] and
    [operand] are all present. *)
Definition part_is_complete (p : Part) : bool :=
  match part_name p, part_operator p, part_operand p with
  | Some _, Some _, Some _ => true
  | _, _, _ => false
  end.

(** By how many the parts of the option under construction exceed its
    logicals. *)
Definition operands_over_connectives (st : GenState) : Z :=
  (Z.of_nat (length (parts (_option st)))
   - Z.of_nat (length (logicals (_option st))))%Z.

(** Every part of the option under construction is complete. *)
Definition parts_complete (st : GenState) : Prop :=
  Forall (fun p => part_is_complete p = true) (parts (_option st)).

(** [n] successive calls of [get_random_proprty]: the properties drawn, in
    order, with the selector and the position in the random source they
    leave behind. *)
Fixpoint get_random_proprties (R : RandomSource) (n : nat)
    (sel : ProprtiesSelector) (pos : nat)
    : result (list Proprty * ProprtiesSelector * nat) :=
  match n with
  | O => Ok ([], sel, pos)
  | S n' =>
      let* (p, sel', pos') := get_random_proprty R sel pos in
      let* (ps, sel'', pos'') := get_random_proprties R n' sel' pos' in
      Ok (p :: ps, sel'', pos'')
  end.

(** A sequence of calls to [get_random_proprty] and [has_remaining], with
    the number of times [has_remaining] answered [True]. *)
Inductive selector_run (R : RandomSource)
    : ProprtiesSelector -> nat -> ProprtiesSelector -> Prop :=
| run_done (sel : ProprtiesSelector) : selector_run R sel 0 sel
| run_get_random_proprty (sel sel' sel'' : ProprtiesSelector) (p : Proprty)
    (pos pos' : nat) (n : nat) :
    get_random_proprty R sel pos = Ok (p, sel', pos') ->
    selector_run R sel' n sel'' ->
    selector_run R sel n sel''
| run_has_remaining (sel sel'' : ProprtiesSelector) (n : nat) :
    selector_run R (snd (has_remaining sel)) n sel'' ->
    selector_run R sel ((if fst (has_remaining sel) then 1 else 0) + n) sel''.

(** The family class of a key of [FilterFunctionsGroup._group]. *)
Definition family_of_key (key : string) : option Family :=
  if String.eqb key "String" then Some StringFilterFunctions
  else if String.eqb key "Date" then Some DateFilterFunctions
  else if String.eqb key "Math" then Some MathFilterFunctions
  else None.

(** The key of the family a property type is filed under. *)
Definition key_of_type (t : string) : option string :=
  if String.eqb t "Edm.String" then Some "String"
  else if String.eqb t "Edm.DateTime" then Some "Date"
  else if String.eqb t "Edm.Decimal" then Some "Math"
  else None.

(** An unrestricted property whose type is filed under [key]. *)
Definition joins_family (key : string) (p : Proprty) : bool :=
  match filter_restriction p, key_of_type (typ_name p) with
  | None, Some k => String.eqb k key
  | _, _ => false
  end.

(** The properties a part compares: those handed to the function when the
    part compares a function call, otherwise the one it names. *)
Definition part_proprties (p : Part) : list string :=
  match part_function p with
  | Some keys => key_proprties keys
  | None =>
      match part_name p with
      | Some n => [n]
      | None => []
      end
  end.

(** Every property the selector can still draw, and every property a part
    compares, is named in [names]. *)
Definition draws_within (names : list string) (st : GenState) : Prop :=
  (forall q, In q (sel_filterable_proprties (_proprties st)) -> In (name q) names)
  /\ (forall q, In q (sel_required_proprties (_proprties st)) -> In (name q) names)
  /\ Forall (fun p => incl (part_proprties p) names) (parts (_option st)).

(** ** [FilterOptionBuilder] and the lookups by identifier *)

(** [dict_by_id(object_list, identifier)]: the first dictionary with that
    [id], [None] when there is none. *)
Definition dict_by_id {A : Type} (id_of : A -> N) (object_list : list A)
    (identifier : N) : option A :=
  List.find (fun dictionary => N.eqb (id_of dictionary) identifier) object_list.

Definition logical_by_id (o : FilterOption) (id_logical : N) : option Logical :=
  dict_by_id logical_id (logicals o) id_logical.

Definition part_by_id (o : FilterOption) (id_part : N) : option Part :=
  dict_by_id part_id (parts o) id_part.

Definition group_by_id (o : FilterOption) (id_group : N) : option Group :=
  dict_by_id group_id (groups o) id_group.

(** [build_filter_part(part)]: a missing key raises [KeyError]. *)
Definition build_filter_part (part : Part) : result string :=
  match part_name part with
  | None => Raise KeyError
  | Some n =>
      match part_operator part with
      | None => Raise KeyError
      | Some operator =>
          match part_operand part with
          | None => Raise KeyError
          | Some operand => Ok (n ++ " " ++ operator ++ " " ++ operand)
          end
      end
  end.

(** [logical['name']] *)
Definition logical_name_of (l : Logical) : result string :=
  match logical_name l with
  | Some n => Ok n
  | None => Raise KeyError
  end.

(** The builder's methods thread [_used_logicals]; they take a bound on the
    number of nested calls, [None] meaning that the bound was reached.
    [_build_surroundings] receives the [left_id] and [right_id] entries of
    the part or group it is called for. *)
Fixpoint _build_left (fuel : nat) (o : FilterOption) (logical : Logical)
    (used : list N) {struct fuel} : option (result (string * list N)) :=
  match fuel with
  | O => None
  | S fuel =>
      match logical_left_id logical with
      | None => Some (Raise KeyError)
      | Some left_id => _build_by_id fuel o left_id true used
      end
  end
with _build_right (fuel : nat) (o : FilterOption) (logical : Logical)
    (used : list N) {struct fuel} : option (result (string * list N)) :=
  match fuel with
  | O => None
  | S fuel =>
      match logical_right_id logical with
      | None => Some (Raise KeyError)
      | Some right_id => _build_by_id fuel o right_id false used
      end
  end
with _build_by_id (fuel : nat) (o : FilterOption) (part_id : N)
    (skip_left : bool) (used : list N) {struct fuel}
    : option (result (string * list N)) :=
  match fuel with
  | O => None
  | S fuel =>
      match part_by_id o part_id with
      | Some part =>
          and_then (Some (build_filter_part part))
            (fun generated_string =>
               _build_surroundings fuel o skip_left (part_left_id part)
                 (part_right_id part) generated_string used)
      | None =>
          match group_by_id o part_id with
          | None => Some (Raise TypeError)
          | Some group =>
              and_then (_build_group fuel o group used)
                (fun su =>
                   _build_surroundings fuel o skip_left (group_left_id group)
                     (group_right_id group) (fst su) (snd su))
          end
      end
  end
with _build_surroundings (fuel : nat) (o : FilterOption) (skip_left : bool)
    (left_id right_id : option N) (generated_string : string) (used : list N)
    {struct fuel} : option (result (string * list N)) :=
  match fuel with
  | O => None
  | S fuel =>
      and_then
        (match skip_left, left_id with
         | true, Some i =>
             match logical_by_id o i with
             | None => Some (Raise TypeError)
             | Some left_logical =>
                 and_then
                   (_build_left fuel o left_logical (used ++ [logical_id left_logical]))
                   (fun su =>
                      and_then (Some (logical_name_of left_logical))
                        (fun n =>
                           Some (Ok (fst su ++ " " ++ n ++ " " ++ generated_string,
                                     snd su))))
             end
         | _, _ => Some (Ok (generated_string, used))
         end)
        (fun su =>
           match skip_left, right_id with
           | false, Some i =>
               match logical_by_id o i with
               | None => Some (Raise TypeError)
               | Some right_logical =>
                   and_then (Some (logical_name_of right_logical))
                     (fun n =>
                        and_then
                          (_build_right fuel o right_logical
                             (snd su ++ [logical_id right_logical]))
                          (fun su' =>
                             Some (Ok (fst su ++ " " ++ n ++ " " ++ fst su',
                                       snd su'))))
               end
           | _, _ => Some (Ok su)
           end)
  end
with _build_group (fuel : nat) (o : FilterOption) (group : Group)
    (used : list N) {struct fuel} : option (result (string * list N)) :=
  match fuel with
  | O => None
  | S fuel =>
      match group_logicals group with
      | [] => Some (Raise IndexError)
      | first_logical_id :: _ =>
          match logical_by_id o first_logical_id with
          | None => Some (Raise TypeError)
          | Some logical =>
              and_then (_build_left fuel o logical (used ++ [logical_id logical]))
                (fun su =>
                   and_then (Some (logical_name_of logical))
                     (fun n =>
                        and_then (_build_right fuel o logical (snd su))
                          (fun su' =>
                             Some (Ok ("(" ++ fst su ++ " " ++ n ++ " " ++ fst su'
                                       ++ ")", snd su')))))
          end
      end
  end.

Definition _build_first_group (fuel : nat) (o : FilterOption) (group_id : N)
    (used : list N) : option (result (string * list N)) :=
  match group_by_id o group_id with
  | None => Some (Raise TypeError)
  | Some group =>
      and_then (_build_group fuel o group used)
        (fun su =>
           and_then
             (match group_left_id group with
              | Some _ =>
                  _build_surroundings fuel o true (group_left_id group)
                    (group_right_id group) (fst su) (snd su)
              | None => Some (Ok su)
              end)
             (fun su =>
                match group_right_id group with
                | Some _ =>
                    _build_surroundings fuel o false (group_left_id group)
                      (group_right_id group) (fst su) (snd su)
                | None => Some (Ok su)
                end))
  end.

(** [_check_last_logical]: a last logical that was not used is put in
    front, the string built so far in parentheses. *)
Definition _check_last_logical (fuel : nat) (o : FilterOption)
    (option_string : string) (used : list N) : option (result string) :=
  match last_of (logicals o) with
  | Raise e => Some (Raise e)
  | Ok logical =>
      if id_in (logical_id logical) used then Some (Ok option_string)
      else
        and_then (_build_left fuel o logical used)
          (fun su =>
             and_then (Some (logical_name_of logical))
               (fun n =>
                  Some (Ok (fst su ++ " " ++ n ++ " " ++ "(" ++ option_string
                            ++ ")"))))
  end.

Definition _build_all (fuel : nat) (o : FilterOption) (first_logical : Logical)
    : option (result string) :=
  and_then
    (match logical_group_id first_logical with
     | Some group_id => _build_first_group fuel o group_id []
     | None =>
         let used := [logical_id first_logical] in
         and_then (_build_left fuel o first_logical used)
           (fun su =>
              and_then (Some (logical_name_of first_logical))
                (fun n =>
                   and_then (_build_right fuel o first_logical (snd su))
                     (fun su' =>
                        Some (Ok (fst su ++ " " ++ n ++ " " ++ fst su', snd su')))))
     end)
    (fun su => _check_last_logical fuel o (fst su) (snd su)).

(** [FilterOptionBuilder(option).build()], called once. *)
Definition FilterOptionBuilder_build (fuel : nat) (o : FilterOption)
    : option (result string) :=
  match parts o with
  | [part] => Some (build_filter_part part)
  | _ =>
      match logicals o with
      | [] => Some (Raise IndexError)
      | first_logical :: _ => _build_all fuel o first_logical
      end
  end.

(** The text of a part, for a part that is complete. *)
Definition part_string (p : Part) : string :=
  match build_filter_part p with
  | Ok s => s
  | Raise _ => EmptyString
  end.

(** A flat chain of comparisons: starting from the part [p], every pair of
    a logical and a part continues the chain, the logical referring to the
    part before it and the part after it, and the two parts referring to
    the logical. *)
Fixpoint linked (p : Part) (rest : list (Logical * Part)) : Prop :=
  match rest with
  | [] => True
  | (l, q) :: rest' =>
      part_right_id p = Some (logical_id l)
      /\ logical_left_id l = Some (part_id p)
      /\ logical_right_id l = Some (part_id q)
      /\ part_left_id q = Some (logical_id l)
      /\ linked q rest'
  end.

(** The last part of a chain. *)
Definition chain_end (p : Part) (rest : list (Logical * Part)) : Part :=
  List.last (map snd rest) p.

(** The text of a chain: the comparisons in order, separated by the names
    of the logicals. *)
Fixpoint render (s : string) (rest : list (Logical * Part)) : string :=
  match rest with
  | [] => s
  | (l, q) :: rest' =>
      render (s ++ " " ++ default EmptyString (logical_name l) ++ " "
                ++ part_string q) rest'
  end.

(** ** Principal entities *)

(** The part of pyodata's association sets the principal getters read: the
    ends of the set, each with the name of its entity set and its role; the
    name of the principal of the referential constraint of the association
    type, when there is one; and the multiplicities of the ends of the
    association type by role ([end_by_role] raises [KeyError] for a role
    the association type does not have). *)
Record AssociationSetEnd : Type := {
  end_entity_set : string;
  end_role : string
}.

Record AssociationSet : Type := {
  ends : list AssociationSetEnd;
  referential_principal : option string;
  end_multiplicities : list (string * string)
}.

Definition end_by_role (a : AssociationSet) (role : string) : result string :=
  match List.find (fun kv => String.eqb (fst kv) role) (end_multiplicities a) with
  | Some kv => Ok (snd kv)
  | None => Raise KeyError
  end.

(** [association_set.ends[index]] *)
Definition end_at (a : AssociationSet) (index : nat) : result AssociationSetEnd :=
  match ends a !! index with
  | Some e => Ok e
  | None => Raise IndexError
  end.

(** [EndsPrincipal.get_principal(index)]; an entity set is referred to by
    its name. *)
Definition EndsPrincipal_get_principal (a : AssociationSet) (index : nat)
    : result (option string) :=
  let* principal_end := end_at a index in
  match referential_principal a with
  | Some principal_name =>
      if String.eqb principal_name (end_role principal_end)
      then Ok (Some (end_entity_set principal_end))
      else Ok None
  | None => Ok None
  end.

(** [MultiplicityPrincipal.get_principal(index)] *)
Definition MultiplicityPrincipal_get_principal (a : AssociationSet) (index : nat)
    : result (option string) :=
  let* association_set_end := end_at a index in
  let* multiplicity := end_by_role a (end_role association_set_end) in
  if String.eqb multiplicity "1"
  then Ok (Some (end_entity_set association_set_end))
  else Ok None.

(** The index of the first end whose entity set has the name [n]. *)
Fixpoint first_end_of (n : string) (l : list AssociationSetEnd) (index : nat)
    : option nat :=
  match l with
  | [] => None
  | e :: l' =>
      if String.eqb (end_entity_set e) n then Some index
      else first_end_of n l' (S index)
  end.

(** [PrincipalGetter.get], for either subclass. *)
Definition PrincipalGetter_get
    (get_principal : AssociationSet -> nat -> result (option string))
    (a : AssociationSet) (entity_set_name : string) : result (option string) :=
  if (length (ends a) =? 2)%nat then
    match first_end_of entity_set_name (ends a) 0 with
    | Some index => get_principal a (Nat.lxor index 1)
    | None => Ok None
    end
  else Ok None.

Fixpoint get_principal_entities (association_sets : list AssociationSet)
    (entity_set_name : string) (principal_entities : list string)
    : result (list string) :=
  match association_sets with
  | [] => Ok principal_entities
  | association_set :: rest =>
      let* principal_entity :=
        PrincipalGetter_get EndsPrincipal_get_principal association_set
          entity_set_name in
      match principal_entity with
      | Some p =>
          get_principal_entities rest entity_set_name (principal_entities ++ [p])
      | None =>
          let* principal_entity :=
            PrincipalGetter_get MultiplicityPrincipal_get_principal
              association_set entity_set_name in
          match principal_entity with
          | Some p =>
              get_principal_entities rest entity_set_name
                (principal_entities ++ [p])
          | None => get_principal_entities rest entity_set_name principal_entities
          end
      end
  end.

(** An end that either getter accepts as the principal one. *)
Definition is_principal_end (a : AssociationSet) (e : AssociationSetEnd) : Prop :=
  referential_principal a = Some (end_role e)
  \/ end_by_role a (end_role e) = Ok "1".

(** ** [QueryableEntities] and [Builder.build] *)

(** [QueryableEntities._entities]: the groups by the name of their entity
    set, in insertion order. *)
Definition QueryableEntities : Type := list (string * QueryGroup).

(** [add(query_group)], the group being that of the entity set [n]. *)
Definition QueryableEntities_add (n : string) (query_group : QueryGroup)
    (q : QueryableEntities) : QueryableEntities :=
  dict_set String.eqb n query_group q.

(** [get_entity(entity_name)]: [KeyError] for a name that was not added. *)
Definition get_entity (q : QueryableEntities) (entity_name : string)
    : result QueryGroup :=
  match List.find (fun kv => String.eqb (fst kv) entity_name) q with
  | Some kv => Ok (snd kv)
  | None => Raise KeyError
  end.

(** The loop of [Builder.build] over the entity sets of the data model
    (the model itself is parsed by pyodata and taken as given).  The
    restrictions object and the family classes are the same objects for
    every entity set; a group without any option is not added. *)
Fixpoint build_entity_sets (C : Constants) (dispatcher : Dispatcher)
    (association_sets : list AssociationSet) (entity_sets : list EntitySet)
    (restrictions : option Restrictions) (T : ClassTable)
    (queryable : QueryableEntities)
    : result (QueryableEntities * option Restrictions * ClassTable) :=
  match entity_sets with
  | [] => Ok (queryable, restrictions, T)
  | entity_set :: rest =>
      let entity_set := patch_proprties C entity_set in
      let* _ := get_principal_entities association_sets (es_name entity_set) [] in
      let* (query_group, w) :=
        QueryGroup_init C dispatcher
          {| the_entity_set := entity_set; the_restrictions := restrictions;
             the_classes := T |} in
      let queryable :=
        if list_truthy (_query_options query_group)
        then QueryableEntities_add (es_name (the_entity_set w)) query_group queryable
        else queryable in
      build_entity_sets C dispatcher association_sets rest (the_restrictions w)
        (the_classes w) queryable
  end.

(** [Builder(dispatcher, restrictions).build()] on a data model with the
    given entity sets and association sets. *)
Definition Builder_build (C : Constants) (dispatcher : Dispatcher)
    (association_sets : list AssociationSet) (entity_sets : list EntitySet)
    (restrictions : option Restrictions) (T : ClassTable)
    : result (QueryableEntities * option Restrictions * ClassTable) :=
  build_entity_sets C dispatcher association_sets entity_sets restrictions T [].

(** ** Accessible entities *)

(** The two probabilities [NonAddressableEntity] reads from
    [odfuzz/constants.py], and the bound [ExpandQuery] reads. *)
Record AccessConstants : Type := {
  EMPTY_ENTITY_PROB : Q;
  ASSOCIATED_ENTITY_PROB : Q;
  MAX_EXPAND_VALUES : Z
}.

(** The part of an entity set the accessible-entity classes read: its name,
    the key properties of its entity type, the navigation properties of its
    entity type with the role each leads to, and the roles of its ends in
    association sets. *)
Record KeyedEntitySet : Type := {
  kes_name : string;
  key_proprties_of : list Proprty;
  nav_to_roles : list (string * string);
  association_set_end_roles : list string
}.

(** [NullEntity('')], which has a name and nothing else. *)
Definition NullEntity : KeyedEntitySet :=
  {| kes_name := EmptyString; key_proprties_of := []; nav_to_roles := [];
     association_set_end_roles := [] |}.

(** [if name:] on a string *)
Definition string_truthy (s : string) : bool :=
  match s with EmptyString => false | _ => true end.

(** [s[:-1]] *)
Fixpoint drop_last (s : string) : string :=
  match s with
  | EmptyString => EmptyString
  | String c EmptyString => EmptyString
  | String c s' => String c (drop_last s')
  end.

Record AccessibleEntity : Type := {
  ae_entity_set : KeyedEntitySet;
  ae_key_pairs : list (string * option string);
  ae_principal_entity_set : KeyedEntitySet;
  ae_entity_set_name : option string
}.

(** [_init_entity_set_name]: the inner loop stops at the first end with the
    role, the outer loop goes on, so the last navigation property of the
    principal that leads to an end of the entity set gives the name. *)
Definition _init_entity_set_name (entity_set principal : KeyedEntitySet)
    : option string :=
  if string_truthy (kes_name principal) then
    fold_left
      (fun found nav =>
         if existsb (String.eqb (snd nav)) (association_set_end_roles entity_set)
         then Some (fst nav) else found)
      (nav_to_roles principal) None
  else None.

(** [AccessibleEntity(entity_set, key_pairs, principal_entity_set)] *)
Definition AccessibleEntity_init (entity_set : KeyedEntitySet)
    (key_pairs : list (string * option string)) (principal : KeyedEntitySet)
    : AccessibleEntity :=
  {| ae_entity_set := entity_set; ae_key_pairs := key_pairs;
     ae_principal_entity_set := principal;
     ae_entity_set_name := _init_entity_set_name entity_set principal |}.

(** [_generate_key_pairs]: concatenating a value that is [None] raises
    [TypeError]. *)
Fixpoint key_pairs_loop (key_pairs : list (string * option string))
    (entity_path : string) : result string :=
  match key_pairs with
  | [] => Ok entity_path
  | (proprty_name, Some proprty_value) :: rest =>
      key_pairs_loop rest
        (entity_path ++ (proprty_name ++ "=" ++ proprty_value ++ ","))
  | (_, None) :: _ => Raise TypeError
  end.

Definition _generate_key_pairs (self : AccessibleEntity) : result string :=
  let* entity_path := key_pairs_loop (ae_key_pairs self) EmptyString in
  Ok (drop_last entity_path).

Definition _build_key_values (self : AccessibleEntity) : result string :=
  let* pairs := _generate_key_pairs self in
  Ok ("(" ++ pairs ++ ")").

Definition _generate_addressable_path (self : AccessibleEntity) : result string :=
  if string_truthy (kes_name (ae_principal_entity_set self)) then
    let* key_values := _build_key_values self in
    match ae_entity_set_name self with
    | Some n => Ok (kes_name (ae_principal_entity_set self) ++ key_values ++ "/" ++ n)
    | None => Raise TypeError
    end
  else
    let* key_values := _build_key_values self in
    Ok (kes_name (ae_entity_set self) ++ key_values).

(** The [path] property. *)
Definition AccessibleEntity_path (self : AccessibleEntity) : result string :=
  if list_truthy (ae_key_pairs self) then _generate_addressable_path self
  else Ok (kes_name (ae_entity_set self)).

(** [generate_accessible_entity_key_values(containing_entity_set)] *)
Fixpoint key_values_loop (R : RandomSource) (key_proprties : list Proprty)
    (key_pairs : list (string * option string)) (pos : nat)
    : result (list (string * option string) * nat) :=
  match key_proprties with
  | [] => Ok (key_pairs, pos)
  | p :: rest =>
      let* (value, pos) := call_proprty_generate R p pos in
      key_values_loop R rest (dict_set String.eqb (name p) value key_pairs) pos
  end.

Definition generate_accessible_entity_key_values (R : RandomSource)
    (containing_entity_set : KeyedEntitySet) (pos : nat)
    : result (list (string * option string) * nat) :=
  key_values_loop R (key_proprties_of containing_entity_set) [] pos.

(** [AddressableEntity.get_queryable_entity] *)
Definition AddressableEntity_get_queryable_entity (entity_set : KeyedEntitySet)
    : AccessibleEntity :=
  AccessibleEntity_init entity_set [] NullEntity.

(** [NonAddressableEntity.get_queryable_entity]; the principal entities
    are the entity sets found by [get_principal_entities]. *)
Definition NonAddressableEntity_get_queryable_entity (A : AccessConstants)
    (R : RandomSource) (entity_set : KeyedEntitySet)
    (principal_entities : list KeyedEntitySet) (pos : nat)
    : result (AccessibleEntity * nat) :=
  if Qltb (EMPTY_ENTITY_PROB A) (random_random R pos) then
    let pos := S pos in
    let* (containing_entity_set, principal_entity_set, pos) :=
      if list_truthy principal_entities then
        if Qltb (random_random R pos) (ASSOCIATED_ENTITY_PROB A) then
          let* (containing, pos) := choice R principal_entities (S pos) in
          Ok (containing, containing, pos)
        else Ok (entity_set, NullEntity, S pos)
      else Ok (entity_set, NullEntity, pos) in
    let* (key_pairs, pos) :=
      generate_accessible_entity_key_values R containing_entity_set pos in
    Ok (AccessibleEntity_init entity_set key_pairs principal_entity_set, pos)
  else
    Ok (AccessibleEntity_init entity_set [] NullEntity, S pos).

(** ** [$expand], [$orderby] and the choice of options *)

Record ExpandOption : Type := {
  eo_option_string : string;
  _entity_paths : gset string
}.

Record OrderbyOption : Type := {
  oo_option_string : string;
  oo_proprties : list string;
  oo_order : string
}.

(** [OrderbyOption(proprties, order)] *)
Definition OrderbyOption_init (proprties : list string) (order : string)
    : OrderbyOption :=
  {| oo_option_string := EmptyString; oo_proprties := proprties;
     oo_order := order |}.

Definition OrderbyOption_add_proprty (self : OrderbyOption)
    (proprty_name : string) : OrderbyOption :=
  {| oo_option_string := oo_option_string self;
     oo_proprties := oo_proprties self ++ [proprty_name];
     oo_order := oo_order self |}.

Definition OrderbyOption_set_order (value : string) (self : OrderbyOption)
    : OrderbyOption :=
  {| oo_option_string := oo_option_string self;
     oo_proprties := oo_proprties self; oo_order := value |}.

Definition OrderbyOption_set_option_string (value : string)
    (self : OrderbyOption) : OrderbyOption :=
  {| oo_option_string := value; oo_proprties := oo_proprties self;
     oo_order := oo_order self |}.

(** [s.rstrip(',')] *)
Fixpoint rstrip_comma (s : string) : string :=
  match s with
  | EmptyString => EmptyString
  | String c s' =>
      match rstrip_comma s' with
      | EmptyString => if Ascii.eqb c "," then EmptyString else String c EmptyString
      | r => String c r
      end
  end.

Record OrderbyOptionBuilder : Type := {
  ob_option : OrderbyOption;
  ob_option_string : option string
}.

Definition OrderbyOptionBuilder_init (option : OrderbyOption)
    : OrderbyOptionBuilder :=
  {| ob_option := option; ob_option_string := None |}.

(** [OrderbyOptionBuilder.build]: the string is put together on the first
    call and kept. *)
Definition OrderbyOptionBuilder_build (self : OrderbyOptionBuilder)
    : string * OrderbyOptionBuilder :=
  match ob_option_string self with
  | Some (String c s) => (String c s, self)
  | _ =>
      let s :=
        fold_left (fun acc proprty => acc ++ (proprty ++ ","))%string
          (oo_proprties (ob_option self)) EmptyString in
      let s := rstrip_comma s in
      let s := (s ++ (" " ++ oo_order (ob_option self)))%string in
      (s, {| ob_option := ob_option self; ob_option_string := Some s |})
  end.

(** [random.sample] and [random.shuffle] belong to the standard library and
    the order in which a set is listed is not fixed by the language: the
    functions below take them as parameters.  A sample is asked for with
    the population, the size and the cursor of the random source. *)
Section Sampling.
Variable R : RandomSource.
Variable sample_set : gset string -> Z -> nat -> result (list string * nat).
Variable sample_list : list string -> Z -> nat -> result (list string * nat).
Variable shuffle : list string -> nat -> list string * nat.

(** [ExpandQuery._get_random_entity_paths] *)
Definition _get_random_entity_paths (A : AccessConstants)
    (_navigation_paths : gset string) (pos : nat)
    : result (list string * nat) :=
  let paths_num := Z.of_nat (size _navigation_paths) in
  let max_values :=
    if (paths_num >? MAX_EXPAND_VALUES A)%Z then MAX_EXPAND_VALUES A
    else paths_num in
  let num_of_entities :=
    (py_round (random_random R pos * inject_Z (max_values - 1)) + 1)%Z in
  sample_set _navigation_paths num_of_entities (S pos).

(** [ExpandQuery.generate] *)
Definition ExpandQuery_generate (A : AccessConstants)
    (_navigation_paths : gset string) (pos : nat)
    : result (ExpandOption * nat) :=
  let* (entities_to_expand, pos) :=
    _get_random_entity_paths A _navigation_paths pos in
  Ok ({| eo_option_string := String.concat "," entities_to_expand;
         _entity_paths := list_to_set entities_to_expand |}, pos).

(** [OrderbyQuery.generate] *)
Definition OrderbyQuery_generate (_proprties : gset string) (pos : nat)
    : result (OrderbyOption * nat) :=
  let option := OrderbyOption_init [] EmptyString in
  let total_proprties := Z.of_nat (size _proprties) in
  let total_proprties :=
    if (total_proprties >? 3)%Z then 3%Z else total_proprties in
  let sample_size :=
    (py_round (random_random R pos * inject_Z (total_proprties - 1)) + 1)%Z in
  let* (sampled, pos) := sample_set _proprties sample_size (S pos) in
  let option := fold_left OrderbyOption_add_proprty sampled option in
  let* (order, pos) := choice R ["asc"; "desc"]%string pos in
  let option := OrderbyOption_set_order order option in
  let '(built, _) := OrderbyOptionBuilder_build (OrderbyOptionBuilder_init option) in
  Ok (OrderbyOption_set_option_string built option, pos).

(** [QueryGroup.random_options]; the options are listed by their key, as
    in [_query_options_list] and [_required_options]. *)
Definition random_options (g : QueryGroup) (pos : nat)
    : result (list string * nat) :=
  let list_length := Z.of_nat (length (_query_options_list g)) in
  let '(sample_length, pos) :=
    if (list_length =? 0)%Z then (0%Z, pos)
    else ((py_round (random_random R pos * inject_Z (list_length - 1)) + 1)%Z,
          S pos) in
  let* (sample_options, pos) :=
    sample_list (_query_options_list g) sample_length pos in
  let selected_options := (sample_options ++ _required_options g)%list in
  Ok (shuffle selected_options pos).
End Sampling.

(** * Concrete inputs

    The values below instantiate the parameters for the runs evaluated in
    the second part: a choice of constants, constant random sources, and
    small entity sets. *)

Definition example_constants : Constants :=
  {| INT_MAX := 2147483647;
     RECURSION_LIMIT := 3;
     SINGLE_VALUE_PROB := 2 # 10;
     FUNCTION_WEIGHT := 3 # 10;
     MAX_MULTI_VALUES := 3;
     LOGICAL_OPERATORS := [("and", 1 # 2); ("or", 1 # 2)];
     BOOLEAN_OPERATORS := [("eq", 1 # 2); ("ne", 1 # 2)];
     EXPRESSION_OPERATORS :=
       [("eq", 3 # 10); ("ne", 1 # 10); ("gt", 15 # 100); ("ge", 15 # 100);
        ("lt", 15 # 100); ("le", 15 # 100)];
     GLOBAL_ENTITY := "$E_ALL$";
     GLOBAL_PROPRTY := "$P_ALL$";
     GLOBAL_FUNCTION := "$F_ALL$";
     NAV_PROPRTY := "$NAV_PROP$";
     FILTER := "$filter";
     ORDERBY := "$orderby";
     EXPAND := "$expand";
     TOP := "$top";
     SKIP := "$skip";
     Config_client := "500" |}.

(** A random source whose every [random.random()] is [q]. *)
Definition constant_source (q : Q) : RandomSource :=
  {| random_random := fun _ => q;
     random_getrandbits := fun n => N.of_nat n;
     random_randbelow := fun _ _ => 0%nat;
     random_randint := fun _ => 7%Z;
     RandomGenerator := fun _ n => py_str (Z.of_nat n) |}.

(** A property as the metadata parser leaves it, before patching. *)
Definition metadata_proprty (n t : string) (required : bool)
    (restriction : option FilterRestriction) : Proprty :=
  {| name := n; typ_name := t; max_length := None; filterable := true;
     sortable := true; required_in_filter := required;
     filter_restriction := restriction; max_string_length_attr := None;
     generate := None; operators := None; replaceable := None;
     generate_remaining_proprties := None |}.

Definition entity_set_of (n : string) (ps : list Proprty) : EntitySet :=
  {| es_name := n; _properties := ps; _nav_properties := [];
     addressable := true; topable := true; pageable := true;
     _req_filter := false |}.

(** Two entity sets with one date property each. *)
Definition orders : EntitySet :=
  patch_proprties example_constants
    (entity_set_of "Orders" [metadata_proprty "CreatedAt" "Edm.DateTime" false None]).

Definition invoices : EntitySet :=
  patch_proprties example_constants
    (entity_set_of "Invoices" [metadata_proprty "IssuedAt" "Edm.DateTime" false None]).

(** A filter restriction that excludes the function [day]. *)
Definition exclude_day : QueryRestriction :=
  {| exclude := {[ GLOBAL_FUNCTION example_constants := ["day"] ]};
     include := ∅ |}.

(** The function families of [invoices], built without restrictions, and the
    class table after [orders] was then built with [exclude_day]. *)
Definition invoices_then_orders
    : result (FilterQuery * FilterQuery * ClassTable) :=
  let* (invoices_query, T0) :=
    FilterQuery_init example_constants invoices None [] initial_classes in
  let* (orders_query, T1) :=
    FilterQuery_init example_constants orders (Some exclude_day) [] T0 in
  Ok (invoices_query, orders_query, T1).

(** An entity set with one string property that no filter requires. *)
Definition products : EntitySet :=
  patch_proprties example_constants
    (entity_set_of "Products" [metadata_proprty "Name" "Edm.String" false None]).

(** A dispatcher whose count probe answers [text], one whose probe raises
    [DispatcherError]. *)
Definition answering (text : string) : Dispatcher := fun _ => Ok text.

Definition unreachable : Dispatcher := fun _ => Raise DispatcherError.

(** The [$skip] option of an entity set without include restriction, and
    the [$top] option of an entity set whose count probe answered 40. *)
Definition skip_unrestricted : RangeQuery :=
  {| _max_range_prob := [(2147483647%Z, 1%Q)]; _depending_data := 0 |}.

Definition top_of_forty : RangeQuery :=
  {| _max_range_prob := [(2147483647%Z, 1 # 1000); (40%Z, 999 # 1000)];
     _depending_data := 0 |}.

(** A query restriction without entries, and a restrictions object that
    knows the five query options. *)
Definition no_restriction : QueryRestriction := {| exclude := ∅; include := ∅ |}.

Definition restrictions_with (filter_restr : QueryRestriction) : Restrictions :=
  {| option_restrictions :=
       {[ FILTER example_constants := filter_restr;
          ORDERBY example_constants := no_restriction;
          EXPAND example_constants := no_restriction;
          TOP example_constants := no_restriction;
          SKIP example_constants := no_restriction ]};
     draft_objects := None |}.

Definition world_of (e : EntitySet) (r : option Restrictions) : World :=
  {| the_entity_set := e; the_restrictions := r; the_classes := initial_classes |}.

(** [products] with restrictions that exclude nothing. *)
Definition restricted_world : World :=
  world_of products (Some (restrictions_with no_restriction)).

(** An entity set with two properties, and a filter restriction that
    excludes [Price] for it and [Name] for every entity set. *)
Definition articles : EntitySet :=
  patch_proprties example_constants
    (entity_set_of "Articles"
       [metadata_proprty "Name" "Edm.String" false None;
        metadata_proprty "Price" "Edm.Decimal" false None]).

Definition exclude_price : QueryRestriction :=
  {| exclude := {[ "Articles" := ["Price"];
                   GLOBAL_PROPRTY example_constants := ["Name"] ]};
     include := ∅ |}.

Definition excluding_world : World :=
  world_of articles (Some (restrictions_with exclude_price)).

(** An entity set whose only property is restricted to an interval. *)
Definition offers : EntitySet :=
  patch_proprties example_constants
    (entity_set_of "Offers"
       [metadata_proprty "Price" "Edm.Decimal" false (Some interval)]).

(** An entity set whose only property is required in every filter. *)
Definition items : EntitySet :=
  patch_proprties example_constants
    (entity_set_of "Items" [metadata_proprty "Id" "Edm.Int32" true None]).

(** The [FilterQuery] of an entity set built without restrictions while the
    family classes are as the module defines them. *)
Definition unrestricted_query (e : EntitySet) : result FilterQuery :=
  let* (q, _) := FilterQuery_init example_constants e None [] initial_classes in
  Ok q.

(** [generate] on such a query, with every draw equal to [q]. *)
Definition generate_with (q : Q) (e : EntitySet) (fuel : nat)
    : option (result (FilterOption * nat)) :=
  match unrestricted_query e with
  | Ok self =>
      FilterQuery_generate example_constants (constant_source q) initial_classes
        self fuel 0
  | Raise e => Some (Raise e)
  end.

(** The state in which the first leaf of such a generation is filled in. *)
Definition first_leaf_state (q : Q) (e : EntitySet) : result GenState :=
  let* self := unrestricted_query e in
  Ok (add_part (constant_source q) (_init_variables self 0)).

(** An entity set with a property no filter requires, listed first, and a
    required one; neither has a type that filter functions apply to. *)
Definition tagged : EntitySet :=
  patch_proprties example_constants
    (entity_set_of "Tagged"
       [metadata_proprty "Tag" "Edm.Int32" false None;
        metadata_proprty "Id" "Edm.Int32" true None]).



(** An entity set whose only property is restricted to a list of values. *)
Definition labels : EntitySet :=
  patch_proprties example_constants
    (entity_set_of "Labels"
       [metadata_proprty "Label" "Edm.String" false (Some multi_value)]).

(** A filter graph with two groups: the first has a member logical and a
    connector, the second has no member; each is named by one logical. *)
Definition two_groups_option : FilterOption :=
  {| logicals :=
       [ {| logical_id := 10; logical_name := Some "and";
            logical_left_id := Some 20%N; logical_right_id := Some 21%N;
            logical_group_id := Some 1%N |};
         {| logical_id := 11; logical_name := Some "or";
            logical_left_id := Some 1%N; logical_right_id := Some 22%N;
            logical_group_id := Some 2%N |} ];
     parts := [];
     groups :=
       [ {| group_id := 1; group_logicals := [10%N]; group_left_id := None;
            group_right_id := Some 11%N |};
         {| group_id := 2; group_logicals := []; group_left_id := Some 11%N;
            group_right_id := None |} ];
     option_string := EmptyString |}.

(** A filter restriction whose list of excluded functions names [day]
    twice. *)
Definition exclude_day_twice : QueryRestriction :=
  {| exclude := {[ GLOBAL_FUNCTION example_constants := ["day"; "day"] ]};
     include := ∅ |}.

(** [articles] with a filter restriction that excludes [Price] for it. *)
Definition exclude_price_only : QueryRestriction :=
  {| exclude := {[ "Articles" := ["Price"] ]}; include := ∅ |}.

Definition price_excluded_world : World :=
  world_of articles (Some (restrictions_with exclude_price_only)).

(** The [FilterQuery] a group holds, if any. *)
Definition group_filter (g : QueryGroup) : option FilterQuery :=
  match _query_options g with
  | (_, a_FilterQuery q) :: _ => Some q
  | _ => None
  end.

(** The filter generated for [items] with every draw equal to 0.25, and
    the chain its parts and logicals form: the first part, then the
    logicals in the order of generation, each with the part after it. *)
Definition items_filter : option FilterOption :=
  match generate_with (1 # 4) items 50 with
  | Some (Ok (o, _)) => Some o
  | _ => None
  end.

Definition chain_of (o : FilterOption) : option (Part * list (Logical * Part)) :=
  match parts o with
  | p1 :: ps => Some (p1, combine (rev (logicals o)) ps)
  | [] => None
  end.

(** Two association sets that involve [Orders]: in the first the
    referential constraint names the customer's role as principal, in the
    second the other end has multiplicity 1. *)
Definition orders_associations : list AssociationSet :=
  [ {| ends := [ {| end_entity_set := "Orders"; end_role := "Order" |};
                 {| end_entity_set := "Customers"; end_role := "Customer" |} ];
       referential_principal := Some "Customer";
       end_multiplicities := [("Order", "*"); ("Customer", "1")] |};
    {| ends := [ {| end_entity_set := "Carriers"; end_role := "Carrier" |};
                 {| end_entity_set := "Orders"; end_role := "Shipment" |} ];
       referential_principal := None;
       end_multiplicities := [("Carrier", "1"); ("Shipment", "*")] |} ].

(** A data model with two entity sets as the metadata parser leaves them:
    one with a date property, and one that offers nothing to query. *)
Definition bare : EntitySet :=
  {| es_name := "Bare"; _properties := []; _nav_properties := [];
     addressable := true; topable := false; pageable := false;
     _req_filter := false |}.

Definition small_model : list EntitySet :=
  [ entity_set_of "Orders" [metadata_proprty "CreatedAt" "Edm.DateTime" false None];
    bare ].

(** Two entity sets as the accessible-entity classes read them: [Orders]
    has a key of two properties and is an end of two association sets,
    [Customers] has a navigation property that leads to the role [Order],
    [Carriers] has none. *)
Definition orders_keyed : KeyedEntitySet :=
  {| kes_name := "Orders";
     key_proprties_of :=
       map (patch_proprty example_constants)
         [metadata_proprty "OrderID" "Edm.Int32" false None;
          metadata_proprty "Line" "Edm.Int32" false None];
     nav_to_roles := [("Customer", "Customer")];
     association_set_end_roles := ["Order"; "Shipment"] |}.

Definition customers_keyed : KeyedEntitySet :=
  {| kes_name := "Customers";
     key_proprties_of :=
       map (patch_proprty example_constants)
         [metadata_proprty "CustomerID" "Edm.Int32" false None];
     nav_to_roles := [("Invoices", "Invoice"); ("Orders", "Order")];
     association_set_end_roles := ["Customer"] |}.

Definition carriers_keyed : KeyedEntitySet :=
  {| kes_name := "Carriers";
     key_proprties_of :=
       map (patch_proprty example_constants)
         [metadata_proprty "CarrierID" "Edm.Int32" false None];
     nav_to_roles := [];
     association_set_end_roles := ["Carrier"] |}.

Definition access_constants : AccessConstants :=
  {| EMPTY_ENTITY_PROB := 1 # 10; ASSOCIATED_ENTITY_PROB := 3 # 10;
     MAX_EXPAND_VALUES := 3 |}.

(** Stand-ins for [random.sample] and [random.shuffle]: the first elements
    in the order the population is listed, and the list as it is. *)
Definition first_of_list (population : list string) (k : Z) (pos : nat)
    : result (list string * nat) :=
  if ((0 <=? k) && (k <=? Z.of_nat (length population)))%Z
  then Ok (take (Z.to_nat k) population, S pos)
  else Raise ValueError.

Definition first_of_set (population : gset string) (k : Z) (pos : nat)
    : result (list string * nat) :=
  first_of_list (elements population) k pos.

Definition no_shuffle (l : list string) (pos : nat) : list string * nat :=
  (l, S pos).

(** A group with [$skip] required and [$top] optional. *)
Definition paged_group : QueryGroup :=
  add_option "$top" (a_TopQuery top_of_forty) false
    (add_option "$skip" (a_SkipQuery skip_unrestricted) true empty_group).

(** The double nearest to [n / d], as a decimal literal denotes it; [n] and
    [d] are integers below [2 ^ 53]. *)
Definition double_ratio (n d : Z) : Double.double :=
  SpecFloat.SFdiv 53 1024
    (SpecFloat.binary_normalize 53 1024 n 0 false)
    (SpecFloat.binary_normalize 53 1024 d 0 false).

(** [1 - 2 ^ -53], the largest double below 1, which Python writes
    [0.9999999999999999]. *)
Definition almost_one : Double.double :=
  SpecFloat.S754_finite false 9007199254740991 (-53).

(** Weights that sum to one in decimal, and weights that are powers of two. *)
Definition decimal_table : list (string * Double.double) :=
  [("a", double_ratio 1 10); ("b", double_ratio 2 10); ("c", double_ratio 7 10)].

Definition binary_table : list (string * Double.double) :=
  [("and", double_ratio 1 2); ("or", double_ratio 1 4)].

(** * Properties *)

Local Open Scope list_scope.
Local Open Scope Z_scope.

Lemma Qltb_lt (a b : Q) : Qltb a b = true <-> (a < b)%Q.
Proof. unfold Qltb, Qlt. apply Z.ltb_lt. Qed.

Lemma Qltb_ge (a b : Q) : Qltb a b = false <-> (b <= a)%Q.
Proof. unfold Qltb, Qle. rewrite Z.ltb_ge. reflexivity. Qed.

(** ** Scanning the weighted items *)

Section WeightedRandom.
Context {A : Type}.
Implicit Types (items : list (A * Q)) (r : Q).

Lemma hits_at_head v w items r :
  hits_at ((v, w) :: items) r 0 <-> (r < w)%Q.
Proof.
  unfold hits_at, weights_before. simpl. split.
  - intros (v' & w' & Hl & Hlt). inversion Hl; subst. lra.
  - intros Hlt. exists v, w. split; [reflexivity | lra].
Qed.

Lemma hits_at_tail v w items r i :
  hits_at ((v, w) :: items) r (S i) <-> hits_at items (r - w) i.
Proof.
  unfold hits_at, weights_before. simpl.
  split; intros (v' & w' & Hl & Hlt); exists v', w'; (split; [exact Hl | lra]).
Qed.

Lemma weighted_random_Some items : forall r v,
  weighted_random items r = Some v <-> exists i, first_hit items r i v.
Proof.
  induction items as [| [v0 w0] items IH]; intros r v; simpl.
  - split; [discriminate |]. intros (i & (w & Hl & _) & _). destruct i; discriminate.
  - destruct (Qltb r w0) eqn:Hc.
    + apply Qltb_lt in Hc. split.
      * intros [= <-]. exists 0%nat. split.
        -- exists w0. split; [reflexivity |]. unfold weights_before; simpl. lra.
        -- intros j Hj. lia.
      * intros (i & (w & Hl & Hlt) & Hfirst). destruct i as [| i].
        -- simpl in Hl. congruence.
        -- exfalso. apply (Hfirst 0%nat); [lia |]. apply hits_at_head. exact Hc.
    + apply Qltb_ge in Hc. rewrite IH. split.
      * intros (i & (w & Hl & Hlt) & Hfirst). exists (S i). split.
        -- exists w. split; [exact Hl |]. unfold weights_before in *. simpl. lra.
        -- intros [| j] Hj.
           ++ rewrite hits_at_head. lra.
           ++ rewrite hits_at_tail. apply Hfirst. lia.
      * intros (i & (w & Hl & Hlt) & Hfirst). destruct i as [| i].
        -- simpl in Hl. unfold weights_before in Hlt. simpl in Hlt.
           inversion Hl; subst. lra.
        -- exists i. split.
           ++ exists w. split; [exact Hl |]. unfold weights_before in *.
              simpl in Hlt. lra.
           ++ intros j Hj. rewrite <- hits_at_tail. apply Hfirst. lia.
Qed.

Lemma weighted_random_None items : forall r,
  weighted_random items r = None <-> forall i, ~ hits_at items r i.
Proof.
  induction items as [| [v0 w0] items IH]; intros r; simpl.
  - split; [| reflexivity]. intros _ i (v & w & Hl & _). destruct i; discriminate.
  - destruct (Qltb r w0) eqn:Hc.
    + apply Qltb_lt in Hc. split; [discriminate |].
      intros H. exfalso. apply (H 0%nat). apply hits_at_head. exact Hc.
    + apply Qltb_ge in Hc. rewrite IH. split.
      * intros H [| i]; [rewrite hits_at_head; lra | rewrite hits_at_tail; apply H].
      * intros H i. rewrite <- hits_at_tail. apply H.
Qed.

Lemma weighted_random_Qeq items : forall r1 r2,
  (r1 == r2)%Q -> weighted_random items r1 = weighted_random items r2.
Proof.
  induction items as [| [v0 w0] items IH]; intros r1 r2 Heq; simpl; [reflexivity |].
  assert (Hb : Qltb r1 w0 = Qltb r2 w0).
  { destruct (Qltb r2 w0) eqn:H2.
    - apply Qltb_lt. apply Qltb_lt in H2. lra.
    - apply Qltb_ge. apply Qltb_ge in H2. lra. }
  rewrite Hb. destruct (Qltb r2 w0); [reflexivity |]. apply IH. lra.
Qed.
End WeightedRandom.

(** The scan in exact arithmetic, which the rest of the development works
    with: it returns the first value for which the draw less the sum of the
    weights before it is below the pair's own weight, and [None] exactly
    when no pair is hit. *)
Lemma weighted_random_returns_first_hit {A : Type} (items : list (A * Q)) (r : Q) :
  (forall v, weighted_random items r = Some v <-> exists i, first_hit items r i v)
  /\ (weighted_random items r = None <-> forall i, ~ hits_at items r i)
  /\ (forall r', (r == r')%Q -> weighted_random items r' = weighted_random items r).
Proof.
  split; [| split].
  - intros v. apply weighted_random_Some.
  - apply weighted_random_None.
  - intros r' H. apply weighted_random_Qeq. lra.
Qed.

(** ** The scan over binary64 numbers *)

Section DoubleScan.
Context {A : Type}.
Implicit Types (items : list (A * Double.double)) (r : Double.double).

Lemma double_hits_at_head v w items r :
  Double.hits_at ((v, w) :: items) r 0 <-> Double.ltb r w = true.
Proof.
  unfold Double.hits_at, Double.remaining. cbn. split.
  - intros (v' & w' & [= <- <-] & Hlt). exact Hlt.
  - intros Hlt. exists v, w. split; [reflexivity | exact Hlt].
Qed.

Lemma double_hits_at_tail v w items r i :
  Double.hits_at ((v, w) :: items) r (S i)
  <-> Double.hits_at items (Double.sub r w) i.
Proof. unfold Double.hits_at, Double.remaining. cbn. reflexivity. Qed.

Lemma double_first_hit_head v w items r v' :
  Double.ltb r w = true ->
  (exists i, Double.first_hit ((v, w) :: items) r i v') <-> v' = v.
Proof.
  intros Hlt. split.
  - intros (i & (w' & Hl & _) & Hfirst). destruct i as [| i].
    + cbn in Hl. congruence.
    + exfalso. apply (Hfirst 0%nat); [lia |]. apply double_hits_at_head. exact Hlt.
  - intros ->. exists 0%nat. split.
    + exists w. split; [reflexivity | exact Hlt].
    + intros j Hj. lia.
Qed.

Lemma double_first_hit_tail v w items r v' :
  Double.ltb r w = false ->
  (exists i, Double.first_hit ((v, w) :: items) r i v')
  <-> exists i, Double.first_hit items (Double.sub r w) i v'.
Proof.
  intros Hge. split.
  - intros (i & (w' & Hl & Hlt) & Hfirst). destruct i as [| i].
    + cbn in Hl. injection Hl as <- <-.
      unfold Double.remaining in Hlt. cbn in Hlt. congruence.
    + exists i. split.
      * exists w'. split; [exact Hl | exact Hlt].
      * intros j Hj. rewrite <- double_hits_at_tail. apply Hfirst. lia.
  - intros (i & (w' & Hl & Hlt) & Hfirst). exists (S i). split.
    + exists w'. split; [exact Hl | exact Hlt].
    + intros [| j] Hj.
      * rewrite double_hits_at_head. congruence.
      * rewrite double_hits_at_tail. apply Hfirst. lia.
Qed.

Lemma double_weighted_random_Some items : forall r v,
  Double.weighted_random items r = Some v
  <-> exists i, Double.first_hit items r i v.
Proof.
  induction items as [| [v0 w0] items IH]; intros r v; cbn [Double.weighted_random].
  - split; [discriminate |].
    intros (i & (w & Hl & _) & _). destruct i; discriminate.
  - destruct (Double.ltb r w0) eqn:Hc.
    + rewrite (double_first_hit_head _ _ _ _ _ Hc). split; congruence.
    + rewrite (double_first_hit_tail _ _ _ _ _ Hc). apply IH.
Qed.

Lemma double_weighted_random_None items : forall r,
  Double.weighted_random items r = None
  <-> forall i, ~ Double.hits_at items r i.
Proof.
  induction items as [| [v0 w0] items IH]; intros r; cbn [Double.weighted_random].
  - split; [| reflexivity]. intros _ i (v & w & Hl & _). destruct i; discriminate.
  - destruct (Double.ltb r w0) eqn:Hc.
    + split; [discriminate |]. intros H. exfalso.
      apply (H 0%nat). apply double_hits_at_head. exact Hc.
    + rewrite IH. split.
      * intros H [| i];
          [rewrite double_hits_at_head; congruence
          | rewrite double_hits_at_tail; apply H].
      * intros H i. rewrite <- double_hits_at_tail. apply H.
Qed.

(** Two numbers that [==] holds of are the same number, or both zero. *)
Lemma double_eqb_cases r r' :
  Double.eqb r r' = true ->
  r = r' \/ exists s s', r = SpecFloat.S754_zero s /\ r' = SpecFloat.S754_zero s'.
Proof.
  unfold Double.eqb, SpecFloat.SFeqb, SpecFloat.SFcompare.
  destruct r as [s | s | | s m e], r' as [s' | s' | | s' m' e'];
    try destruct s; try destruct s'; try discriminate;
    try (intros _; left; reflexivity);
    try (intros _; right; eexists _, _; split; reflexivity);
    (destruct (Z.compare e e') eqn:Ee; try discriminate);
    (destruct (Pos.compare_cont Eq m m') eqn:Em; try discriminate);
    intros _; left; apply Z.compare_eq in Ee; apply Pos.compare_eq in Em;
    subst; reflexivity.
Qed.

Lemma double_weighted_random_zero items : forall s s',
  Double.weighted_random items (SpecFloat.S754_zero s)
  = Double.weighted_random items (SpecFloat.S754_zero s').
Proof.
  induction items as [| [v0 w0] items IH]; intros s s'; [reflexivity |].
  cbn [Double.weighted_random].
  assert (Hlt : Double.ltb (SpecFloat.S754_zero s) w0
                = Double.ltb (SpecFloat.S754_zero s') w0)
    by (destruct w0; reflexivity).
  rewrite Hlt. destruct (Double.ltb _ w0); [reflexivity |].
  destruct w0 as [sw | sw | | sw m e]; try reflexivity.
  unfold Double.sub, SpecFloat.SFsub.
  destruct s, s', sw; try reflexivity; apply IH.
Qed.

Lemma double_weighted_random_eqb items r r' :
  Double.eqb r r' = true ->
  Double.weighted_random items r = Double.weighted_random items r'.
Proof.
  intros H. destruct (double_eqb_cases _ _ H) as [-> | (s & s' & -> & ->)];
    [reflexivity | apply double_weighted_random_zero].
Qed.
End DoubleScan.

(** C7: [weighted_random] returns the first value, in scan order, for which
    the draw, with the weight of each preceding pair subtracted from it as
    the code subtracts, is strictly below the pair's own weight; it returns
    [None] exactly when no pair is hit; and the result depends on the items
    and the value of the single draw only.  Draw, weights, comparison and
    subtraction are those of Python floats. *)
Theorem weighted_random_returns_first_hit_in_doubles {A : Type}
    (items : list (A * Double.double)) (r : Double.double) :
  (forall v, Double.weighted_random items r = Some v
             <-> exists i, Double.first_hit items r i v)
  /\ (Double.weighted_random items r = None
      <-> forall i, ~ Double.hits_at items r i)
  /\ (forall r', Double.eqb r r' = true ->
        Double.weighted_random items r' = Double.weighted_random items r).
Proof.
  split; [| split].
  - intros v. apply double_weighted_random_Some.
  - apply double_weighted_random_None.
  - intros r' H. symmetry. apply double_weighted_random_eqb. exact H.
Qed.

(** ** Generators installed by [patch_proprty_generator] *)

Lemma unhandled_type_lambda (proprty_type : string) :
  handled_type proprty_type = false ->
  patch_proprty_generator proprty_type = lambda_None.
Proof.
  unfold handled_type, handled_int_variant, explicit_edm_types.
  intros H. apply orb_false_elim in H as [Hnames Hint].
  cbn [existsb] in Hnames.
  repeat match type of Hnames with
         | (_ || _)%bool = false =>
             let E := fresh "E" in
             apply orb_false_elim in Hnames as [E Hnames]
         end.
  unfold patch_proprty_generator.
  repeat match goal with
         | E : String.eqb proprty_type _ = false |- _ => rewrite E; clear E
         end.
  destruct (startswith proprty_type "Edm.Int"); [| reflexivity].
  cbn [andb] in Hint.
  apply orb_false_elim in Hint as [Hint H64].
  apply orb_false_elim in Hint as [H16 H32].
  rewrite H16, H32, H64. reflexivity.
Qed.

(** C10: for a property whose type name is none of the names
    [patch_proprty_generator] has a branch for, and is not an [Edm.Int]
    name ending in 16, 32 or 64, the installed [generate] is the lambda that
    returns [None]: calling it yields no literal and consumes no
    randomness. *)
Theorem unhandled_type_generates_None (C : Constants) (R : RandomSource)
    (p : Proprty) (literal : string) (pos : nat) :
  handled_type (typ_name p) = false ->
  patch_proprty_generator (typ_name p) = lambda_None
  /\ call_generate (patch_proprty_generator (typ_name p)) literal = None
  /\ generate (patch_proprty C p) = Some lambda_None
  /\ call_proprty_generate R (patch_proprty C p) pos = Ok (None, pos).
Proof.
  intros H. pose proof (unhandled_type_lambda _ H) as Hg.
  assert (Hgen : generate (patch_proprty C p) = Some lambda_None).
  { unfold patch_proprty, patch_proprty_operator.
    destruct (String.eqb _ "Edm.Boolean"); cbn; rewrite ?Hg;
      unfold patch_proprty_max_length;
      destruct (String.eqb (typ_name p) "Edm.String"); cbn; rewrite ?Hg;
      reflexivity. }
  repeat split.
  - exact Hg.
  - rewrite Hg. reflexivity.
  - exact Hgen.
  - unfold call_proprty_generate. rewrite Hgen. reflexivity.
Qed.

Lemma unhandled_type_generates_None_witness :
  handled_type (typ_name (metadata_proprty "Ratio" "Edm.Double" false None)) = false
  /\ call_proprty_generate (constant_source (1 # 2))
       (patch_proprty example_constants
          (metadata_proprty "Ratio" "Edm.Double" false None)) 0
     = Ok (None, 0%nat).
Proof.
  split; [reflexivity |].
  apply (unhandled_type_generates_None example_constants (constant_source (1 # 2))
           (metadata_proprty "Ratio" "Edm.Double" false None) EmptyString 0).
  reflexivity.
Defined.

(** ** Function exclusion acts on the shared classes *)

Lemma delattr_is_class_wide (T T' : ClassTable) (cls : Family) (n : string) :
  delattr T cls n = Ok T' ->
  forall w : FilterFunctions,
    class_ w = cls -> has_method (exposed_functions T' w) n = false.
Proof.
  unfold delattr, exposed_functions. intros H w ->.
  destruct (has_method (get_methods_dict T cls) n); [| discriminate].
  injection H as <-.
  assert (Hget : forall ms, get_methods_dict (set_methods cls ms T) cls = ms)
    by (intros ms; destruct cls; reflexivity).
  rewrite Hget. unfold has_method.
  induction (get_methods_dict T cls) as [| m ms IH]; [reflexivity |].
  simpl. destruct (String.eqb (method_name m) n) eqn:E; simpl; [exact IH |].
  rewrite E. exact IH.
Qed.

(** C3: evaluated on two entity sets with a date property each.  The
    families of [invoices] are built without any restriction; building the
    families of [orders] with [day] excluded then removes [func_day] from
    what the family instance of [invoices] exposes as well, because the
    deletion acts on the class both instances share. *)
Theorem function_exclusion_reaches_other_entity_sets :
  exists invoices_query orders_query T1 w,
    invoices_then_orders = Ok (invoices_query, orders_query, T1)
    /\ _functions invoices_query = [("Date", w)]
    /\ In func_day (exposed_functions initial_classes w)
    /\ ~ In func_day (exposed_functions T1 w).
Proof.
  destruct invoices_then_orders as [[[i o] T1] | e] eqn:E;
    [| vm_compute in E; discriminate].
  vm_compute in E. injection E as <- <- <-.
  eexists _, _, _, _. split; [reflexivity |]. split; [reflexivity |].
  split.
  - left. reflexivity.
  - cbn. intros H. repeat (destruct H as [H | H]; [discriminate |]). exact H.
Qed.

(** ** Recursion of the grammar under unfavourable draws *)

Section UnboundedRecursion.
Context (C : Constants) (R : RandomSource) (T : ClassTable) (self : FilterQuery).
Hypothesis limit_positive : 1 <= RECURSION_LIMIT C.
Hypothesis draws_high : forall n, Qltb (random_random R n) (1 # 2) = false.

Lemma _noterm_expression_S fuel st :
  _noterm_expression C R T self (S fuel) st =
    let st := with_recursion_depth (_recursion_depth st + 1) st in
    let (remaining, st) := call_has_remaining st in
    if negb remaining then
      let (stop, st) := coin_or_limit C R st in
      if stop then Some (_generate_element C R T self st)
      else _noterm_child C R T self fuel st
    else _noterm_child C R T self fuel st.
Proof. reflexivity. Qed.

Lemma _noterm_parent_S fuel st :
  _noterm_parent C R T self (S fuel) st =
    let (remaining, st) := call_has_remaining st in
    if negb remaining then
      let (stop, st) := coin_or_limit C R st in
      if stop then _noterm_expression C R T self fuel st
      else _generate_child C R T self fuel st
    else _generate_child C R T self fuel st.
Proof. reflexivity. Qed.

Lemma _generate_child_S fuel st :
  _generate_child C R T self (S fuel) st =
    let (r, st) := draw R st in
    if Qltb r (1 # 2) then _noterm_child C R T self fuel st
    else
      let (remaining, st) := call_has_remaining st in
      if negb remaining then _noterm_child C R T self fuel st
      else _generate_child_group C R T self fuel st.
Proof. reflexivity. Qed.

Lemma _noterm_child_S fuel st :
  _noterm_child C R T self (S fuel) st =
    and_then (_noterm_parent C R T self fuel st)
      (fun st => _generate_rest C R T self fuel st).
Proof. reflexivity. Qed.

Lemma coasting_has_remaining st :
  coasting C st -> call_has_remaining st = (false, st).
Proof.
  intros [Hreq _]. unfold call_has_remaining, has_remaining.
  rewrite Hreq. simpl. destruct st; reflexivity.
Qed.

Lemma coasting_coin st :
  coasting C st ->
  coin_or_limit C R st = (false, with_random_state (S (random_state st)) st).
Proof.
  intros [_ Hdepth]. unfold coin_or_limit, draw.
  rewrite draws_high. simpl.
  replace (RECURSION_LIMIT C <? _recursion_depth st)%Z with false; [reflexivity |].
  symmetry. apply Z.ltb_ge. exact Hdepth.
Qed.

Lemma coasting_step st :
  coasting C st -> coasting C (with_random_state (S (random_state st)) st).
Proof. intros H. exact H. Qed.

Lemma parent_child_cycle (fuel : nat) : forall st,
  coasting C st ->
  _noterm_parent C R T self fuel st = None
  /\ _generate_child C R T self fuel st = None
  /\ _noterm_child C R T self fuel st = None.
Proof.
  induction fuel as [| fuel IH]; intros st Hst; [repeat split |].
  repeat split.
  - rewrite _noterm_parent_S, (coasting_has_remaining _ Hst). cbn [negb].
    rewrite (coasting_coin _ Hst). apply IH. apply coasting_step, Hst.
  - rewrite _generate_child_S. unfold draw. rewrite draws_high.
    rewrite (coasting_has_remaining _ (coasting_step _ Hst)). cbn [negb].
    apply IH. apply coasting_step, Hst.
  - rewrite _noterm_child_S. destruct (IH st Hst) as (-> & _). reflexivity.
Qed.

Lemma expression_never_returns (fuel : nat) (st : GenState) :
  sel_required_proprties (_proprties st) = [] ->
  _recursion_depth st = 0 ->
  _noterm_expression C R T self fuel st = None.
Proof.
  intros Hreq Hdepth. destruct fuel as [| fuel]; [reflexivity |].
  rewrite _noterm_expression_S. cbv zeta.
  set (st1 := with_recursion_depth (_recursion_depth st + 1) st).
  assert (H1 : coasting C st1).
  { split; [exact Hreq |]. cbn. rewrite Hdepth. lia. }
  rewrite (coasting_has_remaining _ H1). cbn [negb].
  rewrite (coasting_coin _ H1).
  apply parent_child_cycle. apply coasting_step, H1.
Qed.

Lemma generate_never_returns (pos : nat) :
  _required_proprties self = [] ->
  Qltb (random_random R pos) (SINGLE_VALUE_PROB C) = false ->
  forall fuel, FilterQuery_generate C R T self fuel pos = None.
Proof.
  intros Hreq Hsingle fuel. unfold FilterQuery_generate, _generate_string.
  rewrite Hreq. cbn [list_truthy]. unfold draw. cbn [random_state _init_variables].
  rewrite Hsingle. rewrite expression_never_returns; [reflexivity | |];
    cbn; [exact Hreq | reflexivity].
Qed.
End UnboundedRecursion.

(** C1: evaluated on [products], with a random source whose every draw is
    0.9.  No bound on the number of nested calls lets [generate] return:
    [_noterm_parent], [_generate_child] and [_noterm_child] call one another
    without passing through [_noterm_expression], so the depth counter
    stays at 1 and never exceeds [RECURSION_LIMIT]. *)
Theorem generate_recursion_is_unbounded :
  exists (products_query : FilterQuery) (T : ClassTable),
    FilterQuery_init example_constants products None [] initial_classes
    = Ok (products_query, T)
    /\ forall fuel,
         FilterQuery_generate example_constants (constant_source (9 # 10)) T
           products_query fuel 0 = None.
Proof.
  eexists _, _. split; [vm_compute; reflexivity |].
  apply generate_never_returns; try reflexivity.
  cbv. discriminate.
Qed.

(** ** [$skip] and [$top] *)

Lemma py_round_le (x : Q) (k : Z) : (x <= inject_Z k)%Q -> py_round x <= k.
Proof.
  intros Hx. unfold py_round.
  pose proof (Qfloor_le x) as Hf.
  assert (Hfk : Qfloor x <= k).
  { rewrite Zle_Qle. lra. }
  destruct (Qltb (x - inject_Z (Qfloor x)) (1 # 2)) eqn:E1; [exact Hfk |].
  apply Qltb_ge in E1.
  assert (Hlt : Qfloor x < k).
  { rewrite Zlt_Qlt. lra. }
  destruct (Qltb (1 # 2) _); [lia |].
  destruct (Z.even _); lia.
Qed.

Lemma py_round_scaled (r : Q) (m : Z) :
  unit_draw r -> py_round (r * inject_Z m) <= Z.max m 0.
Proof.
  intros [H0 H1]. apply py_round_le.
  destruct (Z.max_spec m 0) as [[Hm ->] | [Hm ->]].
  - assert (inject_Z m < inject_Z 0)%Q by (rewrite <- Zlt_Qlt; exact Hm).
    change (inject_Z 0) with 0%Q in *. nra.
  - assert (inject_Z 0 <= inject_Z m)%Q by (rewrite <- Zle_Qle; exact Hm).
    change (inject_Z 0) with 0%Q in *. nra.
Qed.

Lemma weighted_random_In {A : Type} (items : list (A * Q)) : forall r v,
  weighted_random items r = Some v -> exists w, In (v, w) items.
Proof.
  induction items as [| [v0 w0] items IH]; intros r v; simpl; [discriminate |].
  destruct (Qltb r w0).
  - intros [= <-]. exists w0. left. reflexivity.
  - intros H. destruct (IH _ _ H) as [w Hw]. exists w. right. exact Hw.
Qed.

Section RangeBounds.
Context (C : Constants) (R : RandomSource).
Hypothesis INT_MAX_nonneg : 0 <= INT_MAX C.

Lemma range_generate_bound other self dd pos v self' pos' :
  ranges_within_INT_MAX C self ->
  unit_draw (random_random R (S pos)) ->
  range_generate C R other self dd pos = Ok (v, self', pos') ->
  v <= INT_MAX C
  /\ forall o, dd !! other = Some o -> o <= INT_MAX C -> o + v <= INT_MAX C.
Proof.
  intros Htable Hdraw. unfold range_generate.
  destruct (weighted_random (_max_range_prob self) (random_random R pos))
    as [sel |] eqn:Hsel.
  2:{ destruct (dd !! other) as [o |]; [destruct (o =? 0)%Z |]; discriminate. }
  assert (Hle : sel <= INT_MAX C).
  { destruct (weighted_random_In _ _ _ Hsel) as [w Hw].
    unfold ranges_within_INT_MAX in Htable. rewrite Forall_forall in Htable.
    apply (Htable (sel, w)). apply list_elem_of_In. exact Hw. }
  destruct (dd !! other) as [o |] eqn:Ho.
  - destruct (o =? 0)%Z eqn:Ez.
    + apply Z.eqb_eq in Ez. subst o. cbn. intros [= <- _ _].
      pose proof (py_round_scaled _ sel Hdraw). split; [lia |].
      intros o [= <-] _. lia.
    + apply Z.eqb_neq in Ez. destruct (INT_MAX C <? o + sel)%Z eqn:El; cbn.
      * apply Z.ltb_lt in El. intros [= <- _ _].
        pose proof (py_round_scaled _ (INT_MAX C - o) Hdraw). split; [lia |].
        intros o' [= <-] Ho'. lia.
      * apply Z.ltb_ge in El. intros [= <- _ _].
        pose proof (py_round_scaled _ sel Hdraw). split; [lia |].
        intros o' [= <-] Ho'. lia.
  - cbn. intros [= <- _ _].
    pose proof (py_round_scaled _ sel Hdraw). split; [lia | discriminate].
Qed.
End RangeBounds.

Lemma TopQuery_init_ranges (C : Constants) (n : string)
    (restrictions : option QueryRestriction) (dispatcher : Dispatcher) (top : RangeQuery) :
  1000 <= INT_MAX C ->
  TopQuery_init C n restrictions dispatcher = Ok top ->
  ranges_within_INT_MAX C top.
Proof.
  intros Hmax. unfold TopQuery_init, TopQuery__set_max_range.
  destruct (match include_values restrictions n with
            | Some max_values => first_as_int max_values
            | None => _get_total_entities C n dispatcher
            end) as [total | e]; [| discriminate].
  cbn [bind dict_set]. rewrite Z.eqb_refl.
  destruct (1000 <? total)%Z eqn:E; cbn [dict_set bind].
  - destruct (INT_MAX C =? 1000)%Z eqn:E2; intros [= <-];
      unfold ranges_within_INT_MAX; cbn; repeat constructor; cbn; lia.
  - apply Z.ltb_ge in E.
    destruct (INT_MAX C =? total)%Z eqn:E2; intros [= <-];
      unfold ranges_within_INT_MAX; cbn; repeat constructor; cbn; lia.
Qed.

(** C4, as the code has it: when [$skip] generates S and hands it to [$top]
    as depending data, the generated top value T satisfies
    S + T <= [INT_MAX], provided the tables of both options hold ranges
    within [INT_MAX] (as the table [TopQuery] builds always does).  The
    configured maximum range only weights the choice of the range; it is
    not a bound on S + T. *)
Theorem skip_plus_top_within_INT_MAX (C : Constants) (R : RandomSource)
    (skip top : RangeQuery) (depending_data : gmap string Z) (pos : nat) (s t : Z) :
  0 <= INT_MAX C ->
  ranges_within_INT_MAX C skip ->
  ranges_within_INT_MAX C top ->
  unit_draw (random_random R (S pos)) ->
  unit_draw (random_random R (S (S (S pos)))) ->
  skip_then_top C R skip top depending_data pos = Ok (s, t) ->
  s + t <= INT_MAX C.
Proof.
  intros Hmax Hskip Htop Hd1 Hd2. unfold skip_then_top, SkipQuery_generate, TopQuery_generate.
  destruct (range_generate C R (TOP C) skip depending_data pos)
    as [[[s' skip'] pos'] | e] eqn:Es; [| discriminate].
  cbn [bind].
  assert (Hpos : pos' = S (S pos)).
  { unfold range_generate in Es.
    destruct (match depending_data !! TOP C with
              | Some v => _ | None => _ end) as [[m |] | e]; cbn in Es;
      congruence. }
  subst pos'.
  destruct (range_generate C R (SKIP C) top _ (S (S pos)))
    as [[[t' top'] pos''] | e] eqn:Et; [| discriminate].
  cbn [bind]. intros [= <- <-].
  destruct (range_generate_bound C R Hmax _ _ _ _ _ _ _ Hskip Hd1 Es) as [Hs _].
  destruct (range_generate_bound C R Hmax _ _ _ _ _ _ _ Htop Hd2 Et) as [_ Ht].
  apply (Ht s'); [apply lookup_insert_eq | exact Hs].
Qed.

Lemma skip_plus_top_within_INT_MAX_witness :
  skip_then_top example_constants (constant_source (1 # 2)) skip_unrestricted
    top_of_forty ∅ 0 = Ok (1073741824, 20)
  /\ 1073741824 + 20 <= INT_MAX example_constants.
Proof.
  assert (H : skip_then_top example_constants (constant_source (1 # 2))
                skip_unrestricted top_of_forty ∅ 0 = Ok (1073741824, 20))
    by (vm_compute; reflexivity).
  split; [exact H |].
  apply (skip_plus_top_within_INT_MAX example_constants (constant_source (1 # 2))
           skip_unrestricted top_of_forty ∅ 0 1073741824 20).
  - vm_compute. discriminate.
  - repeat constructor. vm_compute. discriminate.
  - repeat constructor; vm_compute; discriminate.
  - split; vm_compute; [discriminate | reflexivity].
  - split; vm_compute; [discriminate | reflexivity].
  - exact H.
Defined.

(** C4 fails as stated: with no include restriction on [$skip] and a count
    probe that answered 40, a round whose draws are all 0.5 generates
    S = 1073741824 and T = 20, far beyond the configured maximum range 40. *)
Lemma skip_plus_top_exceeds_configured_range :
  SkipQuery_init example_constants "Products" None = Ok skip_unrestricted
  /\ TopQuery_init example_constants "Products" None (answering "40")
     = Ok top_of_forty
  /\ skip_then_top example_constants (constant_source (1 # 2)) skip_unrestricted
       top_of_forty ∅ 0 = Ok (1073741824, 20)
  /\ ~ (1073741824 + 20 <= configured_max_range 40).
Proof.
  repeat split; try (vm_compute; reflexivity).
  vm_compute. intros H. apply H. reflexivity.
Qed.

(** ** Construction of a query group *)

Section GroupSteps.
Context (C : Constants) (dispatcher : Dispatcher).

Lemma FilterQuery_init_unrestricted entity T :
  exists q, FilterQuery_init C entity None [] T = Ok (q, T).
Proof. unfold FilterQuery_init, FilterFunctionsGroup. cbn. eexists. reflexivity. Qed.

Lemma restr_proprty_list_entity_set eo w :
  the_entity_set (snd (restr_proprty_list C eo w)) = the_entity_set w
  /\ the_classes (snd (restr_proprty_list C eo w)) = the_classes w.
Proof.
  unfold restr_proprty_list.
  destruct eo as [o |]; [| split; reflexivity].
  destruct (the_restrictions w) as [r |]; [| split; reflexivity].
  destruct (option_restrictions r !! o) as [q |]; [| split; reflexivity].
  destruct (dict_truthy (exclude q)); [| split; reflexivity].
  destruct (exclude q !! es_name (the_entity_set w)); split; reflexivity.
Qed.

Lemma restr_proprty_list_None w :
  restr_proprty_list C None w = ([], w).
Proof. reflexivity. Qed.

(** What [_init_filter_query] leaves of the shared objects. *)
Lemma _init_filter_query_world g w g' w' :
  _init_filter_query C g w = Ok (g', w') ->
  the_entity_set w' = set_req_filter (needs_filter w) (the_entity_set w)
  /\ the_restrictions w'
     = the_restrictions
         (snd (restr_proprty_list C
                 (match the_restrictions w with
                  | Some _ => Some (FILTER C)
                  | None => None
                  end) w)).
Proof.
  unfold _init_filter_query, _get_restrictions at 1, needs_filter.
  destruct (the_restrictions w) as [r |] eqn:Hr.
  - destruct (restriction r (FILTER C)) as [q0 | e]; [| discriminate].
    cbn [bind restr is_not_restricted].
    unfold _delete_restricted_proprties.
    pose proof (restr_proprty_list_entity_set (Some (FILTER C)) w) as [He Hc].
    destruct (restr_proprty_list C (Some (FILTER C)) w) as [l w1].
    cbn [snd] in *.
    match goal with
    | |- (if ?c then _ else _) = _ -> _ => destruct c
    end.
    + unfold _get_restrictions. cbn [the_restrictions with_entity_set].
      destruct (the_restrictions w1) as [r1 |] eqn:Hr1.
      * destruct (restriction r1 (FILTER C)) as [q1 | e]; [| discriminate].
        cbn [bind restr].
        destruct (FilterQuery_init _ _ _ _ _) as [[q T] | e]; [| discriminate].
        cbn [bind]. intros [= <- <-]. cbn. rewrite He, Hr1. split; reflexivity.
      * cbn [bind restr].
        destruct (FilterQuery_init _ _ _ _ _) as [[q T] | e]; [| discriminate].
        cbn [bind]. intros [= <- <-]. cbn. rewrite He, Hr1. split; reflexivity.
    + intros [= <- <-]. cbn. rewrite He. split; reflexivity.
  - cbn [bind restr is_not_restricted].
    unfold _delete_restricted_proprties.
    rewrite restr_proprty_list_None. cbn [snd].
    match goal with
    | |- (if ?c then _ else _) = _ -> _ => destruct c
    end.
    + unfold _get_restrictions. cbn [the_restrictions with_entity_set]. rewrite Hr.
      cbn [bind restr].
      destruct (FilterQuery_init _ _ _ _ _) as [[q T] | e]; [| discriminate].
      cbn [bind]. intros [= <- <-]. cbn. rewrite Hr. split; reflexivity.
    + intros [= <- <-]. cbn. rewrite Hr. split; reflexivity.
Qed.

Lemma _init_orderby_query_world g w g' w' :
  _init_orderby_query C g w = Ok (g', w') ->
  the_entity_set w' = the_entity_set w
  /\ the_restrictions w'
     = the_restrictions
         (snd (restr_proprty_list C
                 (match the_restrictions w with
                  | Some _ => Some (ORDERBY C)
                  | None => None
                  end) w)).
Proof.
  unfold _init_orderby_query, _get_restrictions.
  destruct (the_restrictions w) as [r |] eqn:Hr.
  - destruct (restriction r (ORDERBY C)) as [q0 | e]; [| discriminate].
    cbn [bind restr is_not_restricted].
    unfold _delete_restricted_proprties.
    pose proof (restr_proprty_list_entity_set (Some (ORDERBY C)) w) as [He Hc].
    destruct (restr_proprty_list C (Some (ORDERBY C)) w) as [l w1].
    cbn [snd] in *.
    match goal with
    | |- (if ?c then _ else _) = _ -> _ => destruct c
    end; intros [= <- <-]; split; auto.
  - cbn [bind restr is_not_restricted].
    unfold _delete_restricted_proprties.
    rewrite restr_proprty_list_None. cbn [snd].
    match goal with
    | |- (if ?c then _ else _) = _ -> _ => destruct c
    end; intros [= <- <-]; split; auto.
Qed.

Lemma _init_expand_query_world g w g' w' :
  _init_expand_query C g w = Ok (g', w') -> w' = w.
Proof.
  unfold _init_expand_query.
  destruct (_get_restrictions C (EXPAND C) w) as [o | e]; [| discriminate].
  cbn [bind].
  match goal with
  | |- (if ?c then _ else _) = _ -> _ => destruct c
  end; intros [= <- <-]; reflexivity.
Qed.

Lemma _init_query_type_world is_top g w g' w' :
  _init_query_type C dispatcher is_top g w = Ok (g', w') -> w' = w.
Proof.
  unfold _init_query_type.
  destruct (_get_restrictions C _ w) as [o | e]; [| discriminate].
  cbn [bind].
  match goal with
  | |- (if ?c then _ else _) = _ -> _ => destruct c
  end; [| intros [= <- <-]; reflexivity].
  match goal with
  | |- bind ?m _ = _ -> _ => destruct m
  end; [| discriminate].
  cbn [bind]. intros [= <- <-]. reflexivity.
Qed.

(** The shared objects after the five steps of [_init_group]. *)
Lemma _init_group_world g w g' w' :
  _init_group C dispatcher g w = Ok (g', w') ->
  exists w1,
    the_entity_set w1 = set_req_filter (needs_filter w) (the_entity_set w)
    /\ the_restrictions w1
       = the_restrictions
           (snd (restr_proprty_list C
                   (match the_restrictions w with
                    | Some _ => Some (FILTER C)
                    | None => None
                    end) w))
    /\ the_entity_set w' = the_entity_set w1
    /\ the_restrictions w'
       = the_restrictions
           (snd (restr_proprty_list C
                   (match the_restrictions w1 with
                    | Some _ => Some (ORDERBY C)
                    | None => None
                    end) w1)).
Proof.
  unfold _init_group.
  destruct (_init_filter_query C g w) as [[g1 w1] | e] eqn:E1; [| discriminate].
  cbn [bind].
  destruct (_init_orderby_query C g1 w1) as [[g2 w2] | e] eqn:E2; [| discriminate].
  cbn [bind].
  destruct (_init_expand_query C g2 w2) as [[g3 w3] | e] eqn:E3; [| discriminate].
  cbn [bind].
  destruct (_init_query_type C dispatcher true g3 w3) as [[g4 w4] | e] eqn:E4;
    [| discriminate].
  cbn [bind]. intros E5.
  apply _init_query_type_world in E5, E4. apply _init_expand_query_world in E3.
  subst w' w4 w3.
  destruct (_init_filter_query_world _ _ _ _ E1) as [He1 Hr1].
  destruct (_init_orderby_query_world _ _ _ _ E2) as [He2 Hr2].
  exists w1. repeat split; assumption.
Qed.
End GroupSteps.

Lemma patch_proprties_set_req_filter (C : Constants) (b : bool) (e : EntitySet) :
  patch_proprties C e = e ->
  patch_proprties C (set_req_filter b e) = set_req_filter b e.
Proof.
  destruct e as [n ps ns a t pg rf]. unfold patch_proprties, set_properties,
    set_req_filter, proprties. cbn. intros [= H]. rewrite H. reflexivity.
Qed.

Lemma QueryGroup_init_entity_set (C : Constants) (dispatcher : Dispatcher)
    (w w' : World) (g : QueryGroup) :
  patch_proprties C (the_entity_set w) = the_entity_set w ->
  QueryGroup_init C dispatcher w = Ok (g, w') ->
  the_entity_set w' = set_req_filter (needs_filter w) (the_entity_set w).
Proof.
  intros Hpatched. unfold QueryGroup_init.
  destruct (_init_group C dispatcher empty_group w) as [[g2 w2] | e] eqn:E;
    [| discriminate].
  cbn [bind]. intros [= Hg].
  destruct (_init_group_world _ _ _ _ _ _ E) as (w1 & He1 & _ & He2 & _).
  unfold _init_accessible_entity_path in Hg.
  destruct (addressable (the_entity_set w2)); injection Hg as _ <-.
  - congruence.
  - cbn. rewrite He2, He1. apply patch_proprties_set_req_filter, Hpatched.
Qed.

(** C5, as the code has it: constructing a query group for an entity set
    that [patch_proprties] has already been applied to (as [Builder.build]
    does) leaves the name, the property collection, the navigation
    properties and the addressable, topable and pageable flags of the
    original entity set unchanged, since properties are removed on a deep
    copy; its requires-filter flag [_req_filter] is overwritten: it becomes
    true whenever restrictions are configured. *)
Theorem QueryGroup_init_original_entity_set (C : Constants)
    (dispatcher : Dispatcher) (w w' : World) (g : QueryGroup) :
  patch_proprties C (the_entity_set w) = the_entity_set w ->
  QueryGroup_init C dispatcher w = Ok (g, w') ->
  es_name (the_entity_set w') = es_name (the_entity_set w)
  /\ _properties (the_entity_set w') = _properties (the_entity_set w)
  /\ _nav_properties (the_entity_set w') = _nav_properties (the_entity_set w)
  /\ addressable (the_entity_set w') = addressable (the_entity_set w)
  /\ topable (the_entity_set w') = topable (the_entity_set w)
  /\ pageable (the_entity_set w') = pageable (the_entity_set w)
  /\ _req_filter (the_entity_set w')
     = match the_restrictions w with
       | Some _ => true
       | None => _req_filter (the_entity_set w)
       end.
Proof.
  intros Hpatched Hinit.
  rewrite (QueryGroup_init_entity_set _ _ _ _ _ Hpatched Hinit).
  unfold needs_filter, requires_filter.
  destruct (the_entity_set w); cbn. repeat split; reflexivity.
Qed.

Lemma QueryGroup_init_original_entity_set_witness :
  exists g w',
    QueryGroup_init example_constants unreachable restricted_world = Ok (g, w')
    /\ _properties (the_entity_set w') = _properties (the_entity_set restricted_world)
    /\ _req_filter (the_entity_set w') = true.
Proof.
  destruct (QueryGroup_init example_constants unreachable restricted_world)
    as [[g w'] | e] eqn:E; [| vm_compute in E; discriminate].
  exists g, w'. split; [reflexivity |].
  destruct (QueryGroup_init_original_entity_set example_constants unreachable
              restricted_world w' g) as (_ & Hp & _ & _ & _ & _ & Hf);
    [vm_compute; reflexivity | exact E |].
  split; [exact Hp | exact Hf].
Defined.

(** C5 fails as stated: [products] does not require a filter; after a query
    group was constructed for it under restrictions (which exclude
    nothing), the flag of the original entity set reads true. *)
Lemma QueryGroup_init_overwrites_requires_filter :
  requires_filter (the_entity_set restricted_world) = false
  /\ exists g w',
       QueryGroup_init example_constants unreachable restricted_world = Ok (g, w')
       /\ requires_filter (the_entity_set w') = true
       /\ the_entity_set w' <> the_entity_set restricted_world.
Proof.
  split; [reflexivity |].
  destruct (QueryGroup_init example_constants unreachable restricted_world)
    as [[g w'] | e] eqn:E; [| vm_compute in E; discriminate].
  exists g, w'. split; [reflexivity |].
  assert (H : requires_filter (the_entity_set w') = true).
  { rewrite (QueryGroup_init_entity_set example_constants unreachable
               restricted_world w' g); [reflexivity | vm_compute; reflexivity | exact E]. }
  split; [exact H |].
  intros Heq. rewrite Heq in H. discriminate.
Qed.

(** ** The restrictions object after construction *)

Section ExtendedExclusions.
Context (C : Constants).

Lemma present_key_truthy (d : gmap string (list string)) (k : string) (l : list string) :
  d !! k = Some l -> dict_truthy d = true.
Proof.
  intros H. unfold dict_truthy. apply negb_true_iff, bool_decide_eq_false.
  intros ->. rewrite lookup_empty in H. discriminate.
Qed.

(** The option whose mapping is passed: its entry for the entity set is
    extended in the restrictions object. *)
Lemma restr_proprty_list_extends o w r q l :
  the_restrictions w = Some r ->
  option_restrictions r !! o = Some q ->
  exclude q !! es_name (the_entity_set w) = Some l ->
  exists r' q',
    the_restrictions (snd (restr_proprty_list C (Some o) w)) = Some r'
    /\ option_restrictions r' !! o = Some q'
    /\ exclude q' !! es_name (the_entity_set w)
       = Some (l ++ get_list (exclude q) (GLOBAL_PROPRTY C))
    /\ include q' = include q
    /\ forall o', o' <> o ->
         option_restrictions r' !! o' = option_restrictions r !! o'.
Proof.
  intros Hr Hq Hl. unfold restr_proprty_list. rewrite Hr, Hq.
  rewrite (present_key_truthy _ _ _ Hl), Hl. cbn.
  eexists _, _. split; [reflexivity |]. split; [apply lookup_insert_eq |].
  cbn. split.
  - rewrite lookup_insert_eq. unfold get_list at 1. rewrite Hl. reflexivity.
  - split; [reflexivity |]. intros o' Hne. apply lookup_insert_ne. congruence.
Qed.

(** Another option's mapping is passed: the entry stays as it is. *)
Lemma restr_proprty_list_other eo w r o :
  the_restrictions w = Some r ->
  eo <> Some o ->
  exists r',
    the_restrictions (snd (restr_proprty_list C eo w)) = Some r'
    /\ option_restrictions r' !! o = option_restrictions r !! o.
Proof.
  intros Hr Hne. unfold restr_proprty_list. rewrite Hr.
  destruct eo as [o' |]; [| exists r; split; [exact Hr | reflexivity]].
  destruct (option_restrictions r !! o') as [q |];
    [| exists r; split; [exact Hr | reflexivity]].
  destruct (dict_truthy (exclude q)); [| exists r; split; [exact Hr | reflexivity]].
  destruct (exclude q !! es_name (the_entity_set w));
    [| exists r; split; [exact Hr | reflexivity]].
  cbn. eexists. split; [reflexivity |]. cbn. apply lookup_insert_ne. congruence.
Qed.
End ExtendedExclusions.

(** C9: when the [exclude] mapping of the [$filter] or of the [$orderby]
    restriction has an entry keyed by the entity set's own name,
    constructing the query group appends the global-scope property
    exclusions to that entry in the restrictions object the caller passed:
    after construction the object holds the longer list. *)
Theorem QueryGroup_init_extends_exclusions (C : Constants)
    (dispatcher : Dispatcher) (w w' : World) (g : QueryGroup)
    (r : Restrictions) (option_name : string) (q : QueryRestriction)
    (l : list string) :
  FILTER C <> ORDERBY C ->
  option_name = FILTER C \/ option_name = ORDERBY C ->
  the_restrictions w = Some r ->
  option_restrictions r !! option_name = Some q ->
  exclude q !! es_name (the_entity_set w) = Some l ->
  QueryGroup_init C dispatcher w = Ok (g, w') ->
  exists r' q',
    the_restrictions w' = Some r'
    /\ option_restrictions r' !! option_name = Some q'
    /\ exclude q' !! es_name (the_entity_set w)
       = Some (l ++ get_list (exclude q) (GLOBAL_PROPRTY C)).
Proof.
  intros Hdistinct Hname Hr Hq Hl. unfold QueryGroup_init.
  destruct (_init_group C dispatcher empty_group w) as [[g2 w2] | e] eqn:E;
    [| discriminate].
  cbn [bind]. intros [= Hg].
  assert (Hw' : the_restrictions w' = the_restrictions w2).
  { unfold _init_accessible_entity_path in Hg.
    destruct (addressable (the_entity_set w2)); injection Hg as _ <-; reflexivity. }
  rewrite Hw'. clear Hg Hw'.
  destruct (_init_group_world _ _ _ _ _ _ E) as (w1 & He1 & Hr1 & _ & Hr2).
  rewrite Hr in Hr1.
  assert (Hn1 : es_name (the_entity_set w1) = es_name (the_entity_set w)).
  { rewrite He1. destruct (the_entity_set w); reflexivity. }
  destruct Hname as [-> | ->].
  - (* the filter step extends, the orderby step passes another mapping *)
    destruct (restr_proprty_list_extends C _ _ _ _ _ Hr Hq Hl)
      as (r1 & q1 & Hs1 & Hq1 & Hl1 & _ & _).
    rewrite Hs1 in Hr1. rewrite Hr1 in Hr2.
    destruct (restr_proprty_list_other C (Some (ORDERBY C)) w1 r1 (FILTER C) Hr1)
      as (r2 & Hs2 & Hq2); [congruence |].
    rewrite Hs2 in Hr2. exists r2, q1. repeat split; [exact Hr2 | congruence | exact Hl1].
  - (* the filter step passes another mapping, the orderby step extends *)
    destruct (restr_proprty_list_other C (Some (FILTER C)) w r (ORDERBY C) Hr)
      as (r1 & Hs1 & Hq1); [congruence |].
    rewrite Hs1 in Hr1. rewrite Hr1 in Hr2. rewrite Hq in Hq1.
    rewrite <- Hn1 in Hl.
    destruct (restr_proprty_list_extends C _ _ _ _ _ Hr1 Hq1 Hl)
      as (r2 & q2 & Hs2 & Hq2 & Hl2 & _ & _).
    rewrite Hs2 in Hr2. rewrite Hn1 in Hl2.
    exists r2, q2. repeat split; assumption.
Qed.

Lemma QueryGroup_init_extends_exclusions_witness :
  exists g w' r' q',
    QueryGroup_init example_constants unreachable excluding_world = Ok (g, w')
    /\ the_restrictions w' = Some r'
    /\ option_restrictions r' !! FILTER example_constants = Some q'
    /\ exclude q' !! "Articles" = Some ["Price"; "Name"].
Proof.
  destruct (QueryGroup_init example_constants unreachable excluding_world)
    as [[g w'] | e] eqn:E; [| vm_compute in E; discriminate].
  destruct (QueryGroup_init_extends_exclusions example_constants unreachable
              excluding_world w' g (restrictions_with exclude_price)
              (FILTER example_constants) exclude_price ["Price"])
    as (r' & q' & Hr & Hq & Hl);
    [vm_compute; discriminate | left; reflexivity | reflexivity
    | vm_compute; reflexivity | vm_compute; reflexivity | exact E |].
  exists g, w', r', q'. repeat split; assumption.
Defined.

(** ** The count probe of [$top] *)

Section Probe.
Context (C : Constants) (dispatcher : Dispatcher).

Lemma failed_probe_total n :
  probe_fails C dispatcher n ->
  _get_total_entities C n dispatcher = Ok (INT_MAX C).
Proof.
  unfold _get_total_entities. intros [-> | (text & -> & ->)]; reflexivity.
Qed.

Lemma failed_probe_TopQuery n restrictions :
  probe_fails C dispatcher n ->
  include_values restrictions n = None ->
  exists top,
    TopQuery_init C n restrictions dispatcher = Ok top
    /\ _depending_data top = 0
    /\ (1000 < INT_MAX C ->
        _max_range_prob top = [(INT_MAX C, (1 # 1000)%Q); (1000, (999 # 1000)%Q)]).
Proof.
  intros Hfail Hinc. unfold TopQuery_init, TopQuery__set_max_range.
  rewrite Hinc, (failed_probe_total _ Hfail). cbn [bind dict_set].
  rewrite Z.eqb_refl.
  destruct (1000 <? INT_MAX C) eqn:E; cbn [bind].
  - eexists. split; [reflexivity |]. split; [reflexivity |]. intros _. cbn.
    replace (INT_MAX C =? 1000) with false; [reflexivity |].
    symmetry. apply Z.eqb_neq. apply Z.ltb_lt in E. lia.
  - eexists. split; [reflexivity |]. split; [reflexivity |].
    apply Z.ltb_ge in E. lia.
Qed.

Lemma failed_probe_step g w o :
  probe_fails C dispatcher (es_name (the_entity_set w)) ->
  _get_restrictions C (TOP C) w = Ok o ->
  include_values (restr o) (es_name (the_entity_set w)) = None ->
  exists g', _init_query_type C dispatcher true g w = Ok (g', w).
Proof.
  intros Hfail Ho Hinc. unfold _init_query_type. rewrite Ho. cbn [bind].
  destruct (topable (the_entity_set w) && is_not_restricted o);
    [| eexists; reflexivity].
  destruct (failed_probe_TopQuery _ (restr o) Hfail Hinc) as (top & -> & _).
  cbn [bind]. eexists. reflexivity.
Qed.
End Probe.

Section ProbeAndGroup.
Context (C : Constants).

(** Whether the [$skip] step raises depends neither on the dispatcher nor
    on the group built so far. *)
Lemma skip_step_independent d1 d2 g1 g2 w g1' w1 :
  _init_query_type C d1 false g1 w = Ok (g1', w1) ->
  exists g2', _init_query_type C d2 false g2 w = Ok (g2', w).
Proof.
  unfold _init_query_type.
  destruct (_get_restrictions C (SKIP C) w) as [o | e]; [| discriminate].
  cbn [bind].
  destruct (pageable (the_entity_set w) && is_not_restricted o);
    [| intros _; eexists; reflexivity].
  destruct (SkipQuery_init C (es_name (the_entity_set w)) (restr o)) as [q | e];
    [| discriminate].
  cbn [bind]. intros _. eexists. reflexivity.
Qed.

(** With an include value for the entity set the probe is not made. *)
Lemma included_TopQuery_init d1 d2 n restrictions vs :
  include_values restrictions n = Some vs ->
  TopQuery_init C n restrictions d1 = TopQuery_init C n restrictions d2.
Proof.
  intros H. unfold TopQuery_init, TopQuery__set_max_range. rewrite H. reflexivity.
Qed.

Lemma top_step_absorbs_failure d1 d2 g w g1' w1 :
  probe_fails C d2 (es_name (the_entity_set w)) ->
  _init_query_type C d1 true g w = Ok (g1', w1) ->
  exists g2', _init_query_type C d2 true g w = Ok (g2', w).
Proof.
  intros Hfail. unfold _init_query_type.
  destruct (_get_restrictions C (TOP C) w) as [o | e] eqn:Ho; [| discriminate].
  cbn [bind].
  destruct (topable (the_entity_set w) && is_not_restricted o);
    [| intros _; eexists; reflexivity].
  destruct (include_values (restr o) (es_name (the_entity_set w))) as [vs |] eqn:Hinc.
  - rewrite (included_TopQuery_init d1 d2 _ _ _ Hinc).
    destruct (TopQuery_init C _ _ d2) as [q | e]; [| discriminate].
    cbn [bind]. intros _. eexists. reflexivity.
  - intros _.
    destruct (failed_probe_TopQuery C d2 _ (restr o) Hfail Hinc) as (top & -> & _).
    cbn [bind]. eexists. reflexivity.
Qed.

Lemma group_absorbs_failure d1 d2 w :
  probe_fails C d2 (es_name (the_entity_set w)) ->
  is_Ok (QueryGroup_init C d1 w) = true ->
  exists g' w', QueryGroup_init C d2 w = Ok (g', w').
Proof.
  intros Hfail. unfold QueryGroup_init, _init_group.
  destruct (_init_filter_query C empty_group w) as [[g1 w1] | e] eqn:E1;
    [| discriminate].
  cbn [bind].
  destruct (_init_orderby_query C g1 w1) as [[g2 w2] | e] eqn:E2; [| discriminate].
  cbn [bind].
  destruct (_init_expand_query C g2 w2) as [[g3 w3] | e] eqn:E3; [| discriminate].
  cbn [bind].
  destruct (_init_query_type C d1 true g3 w3) as [[g4 w4] | e] eqn:E4;
    [| discriminate].
  cbn [bind].
  destruct (_init_query_type C d1 false g4 w4) as [[g5 w5] | e] eqn:E5;
    [| discriminate].
  intros _.
  assert (Hname : es_name (the_entity_set w3) = es_name (the_entity_set w)).
  { apply _init_expand_query_world in E3. subst w3.
    destruct (_init_orderby_query_world _ _ _ _ _ E2) as [-> _].
    destruct (_init_filter_query_world _ _ _ _ _ E1) as [-> _].
    destruct (the_entity_set w); reflexivity. }
  rewrite <- Hname in Hfail.
  pose proof (_init_query_type_world _ _ _ _ _ _ _ E4) as ->.
  destruct (top_step_absorbs_failure d1 d2 _ _ _ _ Hfail E4) as [g4' ->].
  cbn [bind].
  destruct (skip_step_independent d1 d2 g4 g4' _ _ _ E5) as [g5' ->].
  cbn [bind]. destruct (_init_accessible_entity_path C g5' w3) as [g6 w6].
  exists g6, w6. reflexivity.
Qed.
End ProbeAndGroup.

(** C8: when the count probe of [$top] fails (the dispatcher raises
    [DispatcherError], or the text of the response is not an integer) the
    total is taken to be [INT_MAX], [TopQuery] is constructed with the table
    that total yields, the step that adds [$top] to the group returns, and
    the construction of the whole group completes whenever it completes
    with a dispatcher whose probe succeeds. *)
Theorem failed_count_probe_is_absorbed (C : Constants) (dispatcher : Dispatcher)
    (w : World) :
  probe_fails C dispatcher (es_name (the_entity_set w)) ->
  _get_total_entities C (es_name (the_entity_set w)) dispatcher = Ok (INT_MAX C)
  /\ (forall restrictions,
        include_values restrictions (es_name (the_entity_set w)) = None ->
        exists top,
          TopQuery_init C (es_name (the_entity_set w)) restrictions dispatcher
          = Ok top
          /\ _depending_data top = 0
          /\ (1000 < INT_MAX C ->
              _max_range_prob top
              = [(INT_MAX C, (1 # 1000)%Q); (1000, (999 # 1000)%Q)]))
  /\ (forall g o,
        _get_restrictions C (TOP C) w = Ok o ->
        include_values (restr o) (es_name (the_entity_set w)) = None ->
        exists g', _init_query_type C dispatcher true g w = Ok (g', w))
  /\ (forall other : Dispatcher,
        is_Ok (QueryGroup_init C other w) = true ->
        exists g' w', QueryGroup_init C dispatcher w = Ok (g', w')).
Proof.
  intros Hfail. split; [| split; [| split]].
  - apply failed_probe_total, Hfail.
  - intros restrictions Hinc. apply failed_probe_TopQuery; assumption.
  - intros g o Ho Hinc. apply (failed_probe_step C dispatcher g w o); assumption.
  - intros other Hok. apply (group_absorbs_failure C other dispatcher w); assumption.
Qed.

Lemma failed_count_probe_is_absorbed_witness :
  probe_fails example_constants unreachable "Products"
  /\ probe_fails example_constants (answering "<html>") "Products"
  /\ _get_total_entities example_constants "Products" (answering "<html>")
     = Ok 2147483647
  /\ exists g' w',
       QueryGroup_init example_constants unreachable (world_of products None)
       = Ok (g', w').
Proof.
  assert (H1 : probe_fails example_constants unreachable "Products")
    by (left; reflexivity).
  assert (H2 : probe_fails example_constants (answering "<html>") "Products")
    by (right; exists "<html>"; split; reflexivity).
  split; [exact H1 |]. split; [exact H2 |]. split.
  - apply (failed_count_probe_is_absorbed example_constants (answering "<html>")
             (world_of products None) H2).
  - destruct (failed_count_probe_is_absorbed example_constants unreachable
                (world_of products None) H1) as (_ & _ & _ & Hgroup).
    apply (Hgroup (answering "12")). vm_compute. reflexivity.
Defined.

(** ** Leaves on interval-restricted properties *)

Lemma last_of_snoc {A : Type} (l : list A) (x : A) : last_of (l ++ [x]) = Ok x.
Proof. unfold last_of. rewrite map_app. cbn [map]. rewrite last_last. reflexivity. Qed.

Lemma update_last_snoc {A : Type} (f : A -> A) (l : list A) (x : A) :
  update_last f (l ++ [x]) = l ++ [f x].
Proof.
  unfold update_last. destruct (l ++ [x]) eqn:E.
  - destruct l; discriminate.
  - rewrite <- E. rewrite length_app. cbn [length].
    replace (length l + 1 - 1)%nat with (length l + 0)%nat by lia.
    rewrite alter_app_r. reflexivity.
Qed.

Lemma last_of_inv {A : Type} (l : list A) (x : A) :
  last_of l = Ok x -> exists l', l = l' ++ [x].
Proof.
  destruct l as [| a l] using rev_ind.
  - discriminate.
  - rewrite last_of_snoc. intros [= ->]. eexists. reflexivity.
Qed.

Section Leaves.
Context (C : Constants) (R : RandomSource).

Lemma _set_right_logical_references_shape st ps p0 ls l0 :
  parts (_option st) = ps ++ [p0] ->
  logicals (_option st) = ls ++ [l0] ->
  exists st' l0',
    _set_right_logical_references st = Ok st'
    /\ parts (_option st') = ps ++ [part_set_left_id (logical_id l0) p0]
    /\ logicals (_option st') = ls ++ [l0']
    /\ logical_id l0' = logical_id l0
    /\ logical_name l0' = logical_name l0
    /\ logical_left_id l0' = logical_left_id l0
    /\ logical_right_id l0' = Some (part_id p0)
    /\ _option_string st' = _option_string st
    /\ random_state st' = random_state st.
Proof.
  intros Hp Hl. unfold _set_right_logical_references.
  rewrite Hl, Hp, !last_of_snoc. cbn [bind].
  destruct (stacked_group _) as [[g grp] |] eqn:Es.
  - eexists _, _. split; [reflexivity |]. cbn. rewrite Hp, Hl, !update_last_snoc.
    repeat split; reflexivity.
  - eexists _, _. split; [reflexivity |]. cbn. rewrite Hp, Hl, !update_last_snoc.
    repeat split; reflexivity.
Qed.

Lemma _update_right_logical_references_shape st st' ps p0 :
  parts (_option st) = ps ++ [p0] ->
  _update_right_logical_references st = Ok st' ->
  exists p0',
    parts (_option st') = ps ++ [p0']
    /\ part_id p0' = part_id p0
    /\ part_name p0' = part_name p0
    /\ part_operator p0' = part_operator p0
    /\ part_operand p0' = part_operand p0
    /\ part_right_id p0' = part_right_id p0
    /\ length (logicals (_option st')) = length (logicals (_option st))
    /\ _option_string st' = _option_string st
    /\ random_state st' = random_state st.
Proof.
  intros Hp. unfold _update_right_logical_references.
  destruct (_right_part st).
  - destruct (last_of (logicals (_option st))) as [l0 | e] eqn:El.
    + apply last_of_inv in El as [ls Hl].
      destruct (_set_right_logical_references_shape (with_right_part false st)
                  ps p0 ls l0 Hp Hl)
        as (st1 & l0' & -> & Hp1 & Hl1 & _ & _ & _ & _ & Hs & Hr).
      intros [= <-]. eexists. split; [exact Hp1 |].
      rewrite Hl1. cbn in Hs, Hr. rewrite Hs, Hr, Hl, !length_app.
      repeat split; reflexivity.
    + unfold _set_right_logical_references. cbn [_option with_right_part].
      rewrite El. discriminate.
  - intros [= <-]. exists p0. repeat split; assumption.
Qed.

Lemma _update_left_logical_references_shape st ps p0 ls l0 :
  parts (_option st) = ps ++ [p0] ->
  logicals (_option st) = ls ++ [l0] ->
  exists st' l0',
    _update_left_logical_references st = Ok st'
    /\ parts (_option st') = ps ++ [part_set_right_id (logical_id l0) p0]
    /\ logicals (_option st') = ls ++ [l0']
    /\ logical_id l0' = logical_id l0
    /\ logical_name l0' = logical_name l0
    /\ logical_left_id l0' = Some (part_id p0)
    /\ logical_right_id l0' = logical_right_id l0
    /\ _option_string st' = _option_string st
    /\ random_state st' = random_state st.
Proof.
  intros Hp Hl. unfold _update_left_logical_references.
  destruct (stacked_group st) as [[g grp] |]; cbn; rewrite Hp, Hl,
    ?update_last_snoc, !last_of_snoc; cbn; rewrite ?Hp, ?update_last_snoc;
    eexists _, _; (split; [reflexivity |]); cbn;
    rewrite ?Hp, ?Hl, ?update_last_snoc; repeat split; reflexivity.
Qed.

Lemma _generate_sap_restricted_shape p logical operator st st' ps p0 :
  parts (_option st) = ps ++ [p0] ->
  _generate_sap_restricted R p logical operator st = Ok st' ->
  exists l companion v,
    parts (_option st')
    = ps ++ [part_set_right_id (logical_id l) p0; companion]
    /\ logicals (_option st') = logicals (_option st) ++ [l]
    /\ logical_name l = Some logical
    /\ logical_left_id l = Some (part_id p0)
    /\ logical_right_id l = None
    /\ part_name companion = Some (name p)
    /\ part_operator companion = Some operator
    /\ part_operand companion = Some v
    /\ part_left_id companion = None
    /\ part_right_id companion = None
    /\ _option_string st'
       = ((_option_string st ++ (" " ++ logical ++ " "))
          ++ (name p ++ " " ++ operator ++ " " ++ v))%string.
Proof.
  intros Hp. unfold _generate_sap_restricted. cbv zeta.
  set (st1 := update_last_logical (logical_set_name logical)
                (add_logical R (emit _ st))).
  assert (Hp1 : parts (_option st1) = ps ++ [p0]) by (cbn; exact Hp).
  assert (Hl1 : logicals (_option st1)
                = logicals (_option st)
                  ++ [logical_set_name logical
                        (new_logical (uuid4 (random_getrandbits R (random_state st))))])
    by (cbn; apply update_last_snoc).
  assert (Hs1 : _option_string st1
                = (_option_string st ++ (" " ++ logical ++ " "))%string)
    by reflexivity.
  clearbody st1.
  destruct (_update_left_logical_references_shape st1 _ _ _ _ Hp1 Hl1)
    as (st2 & l & -> & Hp2 & Hl2 & Hid2 & Hn2 & Hleft2 & Hright2 & Hs2 & Hr2).
  rewrite <- Hid2 in Hp2.
  cbn [bind].
  set (st3 := add_part R st2).
  assert (Hp3 : parts (_option st3)
                = (ps ++ [part_set_right_id (logical_id l) p0])
                  ++ [new_part (uuid4 (random_getrandbits R (random_state st2)))])
    by (cbn; rewrite Hp2; reflexivity).
  assert (Hl3 : logicals (_option st3) = logicals (_option st) ++ [l])
    by (cbn; exact Hl2).
  assert (Hs3 : _option_string st3 = (_option_string st ++ (" " ++ logical ++ " "))%string)
    by (cbn; rewrite Hs2; exact Hs1).
  clearbody st3.
  destruct (call_proprty_generate R p (random_state st3)) as [[[v |] pos] | e];
    cbn [bind comparison_string]; [| discriminate | discriminate].
  unfold _update_proprty_part. cbn [_option emit with_option_string with_random_state].
  rewrite Hp3, last_of_snoc. cbn [bind]. intros [= <-].
  exists l, (part_set_proprty (name p) operator v (default true (replaceable p))
               (new_part (uuid4 (random_getrandbits R (random_state st2))))), v.
  cbn. rewrite Hp3, update_last_snoc, Hl3, Hs3, <- app_assoc.
  repeat split; try reflexivity; assumption.
Qed.

Lemma _generate_interval_values_shape p op st st' ps p0 :
  parts (_option st) = ps ++ [p0] ->
  _generate_interval_values R p op st = Ok st' ->
  if String.eqb op "eq" then st' = st
  else
    exists l companion v,
      parts (_option st')
      = ps ++ [part_set_right_id (logical_id l) p0; companion]
      /\ logicals (_option st') = logicals (_option st) ++ [l]
      /\ logical_name l = Some "and"
      /\ logical_left_id l = Some (part_id p0)
      /\ logical_right_id l = Some (part_id companion)
      /\ part_left_id companion = Some (logical_id l)
      /\ part_right_id companion = None
      /\ part_name companion = Some (name p)
      /\ part_operator companion
         = Some (if String.eqb op "le" then "ge" else "le")
      /\ part_operand companion = Some v
      /\ _option_string st'
         = ((_option_string st ++ (" " ++ "and" ++ " "))
            ++ (name p ++ " " ++ (if String.eqb op "le" then "ge" else "le")
                ++ " " ++ v))%string.
Proof.
  intros Hp. unfold _generate_interval_values, _generate_next_interval_value.
  destruct (String.eqb op "eq"); cbn [negb]; [intros [= <-]; reflexivity |].
  destruct (_generate_sap_restricted R p "and" _ st) as [st1 | e] eqn:E1;
    [| discriminate].
  cbn [bind]. intros E2.
  destruct (_generate_sap_restricted_shape _ _ _ _ _ _ _ Hp E1)
    as (l & c & v & Hp1 & Hl1 & Hn & Hleft & Hright & Hcn & Hco & Hcv & Hcl & Hcr & Hs).
  change (ps ++ [part_set_right_id (logical_id l) p0; c])
    with (ps ++ [part_set_right_id (logical_id l) p0] ++ [c]) in Hp1.
  rewrite app_assoc in Hp1.
  destruct (_set_right_logical_references_shape st1 _ _ _ _ Hp1 Hl1)
    as (st2 & l' & E2' & Hp2 & Hl2 & Hid & Hn' & Hleft' & Hright' & Hs' & _).
  rewrite E2' in E2. injection E2 as <-.
  exists l', (part_set_left_id (logical_id l) c), v.
  rewrite Hp2, Hl2, Hs', Hs, Hid, <- app_assoc. cbn.
  repeat split; try reflexivity; congruence.
Qed.
End Leaves.

(** C6, as the code has it: a leaf generated by [_generate_proprty] on an
    interval-restricted property whose operator is not [eq] is followed by
    exactly one companion comparison on the same property, with operator
    [ge] when the leaf used [le] and [le] otherwise, joined to the leaf by
    one logical named [and]; a leaf whose operator is [eq] gets no
    companion. *)
Theorem interval_leaf_companion (C : Constants) (R : RandomSource)
    (st st' : GenState) (p : Proprty) (sel : ProprtiesSelector) (pos : nat) :
  get_random_proprty R (_proprties st) (random_state st) = Ok (p, sel, pos) ->
  generate_remaining_proprties p = Some bound__generate_interval_values ->
  _generate_proprty C R st = Ok st' ->
  exists ps p0 first op v,
    parts (_option st) = ps ++ [p0]
    /\ part_id first = part_id p0
    /\ part_name first = Some (name p)
    /\ part_operator first = Some op
    /\ part_operand first = Some v
    /\ if String.eqb op "eq" then
         parts (_option st') = ps ++ [first]
         /\ length (logicals (_option st')) = length (logicals (_option st))
         /\ _option_string st'
            = (_option_string st ++ (name p ++ " " ++ op ++ " " ++ v))%string
       else
         exists ls l companion v',
           parts (_option st') = ps ++ [first; companion]
           /\ logicals (_option st') = ls ++ [l]
           /\ length ls = length (logicals (_option st))
           /\ logical_name l = Some "and"
           /\ logical_left_id l = Some (part_id first)
           /\ logical_right_id l = Some (part_id companion)
           /\ part_right_id first = Some (logical_id l)
           /\ part_left_id companion = Some (logical_id l)
           /\ part_right_id companion = None
           /\ part_name companion = Some (name p)
           /\ part_operator companion
              = Some (if String.eqb op "le" then "ge" else "le")
           /\ part_operand companion = Some v'
           /\ _option_string st'
              = (((_option_string st ++ (name p ++ " " ++ op ++ " " ++ v))
                  ++ (" " ++ "and" ++ " "))
                 ++ (name p ++ " " ++ (if String.eqb op "le" then "ge" else "le")
                     ++ " " ++ v'))%string.
Proof.
  intros Hdraw Hrem. unfold _generate_proprty. rewrite Hdraw. cbn [bind].
  destruct (operators p) as [ops |]; [| discriminate]. cbn [bind].
  unfold draw. cbn [random_state with_random_state with_proprties].
  destruct (call_proprty_generate R p (S pos)) as [[operand pos'] | e];
    [| discriminate].
  cbn [bind].
  destruct (weighted_random ops (random_random R pos)) as [op |];
    [| discriminate].
  destruct operand as [v |]; [| discriminate].
  cbn [comparison_string bind]. unfold _update_proprty_part.
  cbn [_option emit with_option_string with_random_state with_proprties].
  destruct (last_of (parts (_option st))) as [p0 | e] eqn:Elast; [| discriminate].
  apply last_of_inv in Elast as [ps Hp]. cbn [bind].
  set (stA := update_last_part _ _).
  assert (HpA : parts (_option stA)
                = ps ++ [part_set_proprty (name p) op v
                           (default true (replaceable p)) p0])
    by (cbn; rewrite Hp; apply update_last_snoc).
  assert (HlA : logicals (_option stA) = logicals (_option st)) by reflexivity.
  assert (HsA : _option_string stA
                = (_option_string st ++ (name p ++ " " ++ op ++ " " ++ v))%string)
    by reflexivity.
  clearbody stA.
  destruct (_update_right_logical_references stA) as [stB | e] eqn:EB;
    [| discriminate].
  cbn [bind].
  destruct (_update_right_logical_references_shape _ _ _ _ HpA EB)
    as (first & HpB & Hid & Hname & Hop & Hoperand & Hrid & HlB & HsB & _).
  cbn in Hid, Hname, Hop, Hoperand, Hrid.
  unfold call_generate_remaining. rewrite Hrem. intros EC.
  pose proof (_generate_interval_values_shape R _ _ _ _ _ _ HpB EC) as Hshape.
  exists ps, p0, (if String.eqb op "eq" then first
                  else part_set_right_id
                         (match last_of (logicals (_option st')) with
                          | Ok l => logical_id l
                          | Raise _ => 0%N
                          end) first), op, v.
  split; [exact Hp |].
  destruct (String.eqb op "eq").
  - subst st'. repeat split; try assumption; congruence.
  - destruct Hshape as (l & c & v' & Hp' & Hl' & Hn & Hleft & Hright & Hcl & Hcr
                        & Hcn & Hco & Hcv & Hs').
    rewrite Hl', last_of_snoc. cbn.
    repeat split; try assumption.
    exists (logicals (_option stB)), l, c, v'.
    rewrite Hp', Hs', HsB, HsA.
    repeat split; try assumption; try reflexivity; congruence.
Qed.

(** [FilterQuery] installs the interval generator on exactly the
    interval-restricted properties. *)
Lemma interval_generator_installed (p : Proprty) :
  remaining_generator_for p = bound__generate_interval_values
  <-> filter_restriction p = Some interval.
Proof.
  unfold remaining_generator_for.
  destruct (filter_restriction p) as [[| |] |]; split; congruence.
Qed.

Lemma interval_leaf_companion_witness :
  exists st st',
    first_leaf_state (1 # 2) offers = Ok st
    /\ _generate_proprty example_constants (constant_source (1 # 2)) st = Ok st'
    /\ _option_string st' = "Price gt 4 and Price le 7"
    /\ exists first op,
         part_name first = Some "Price" /\ part_operator first = Some op
         /\ if String.eqb op "eq"
            then length (logicals (_option st')) = length (logicals (_option st))
            else exists ls l, logicals (_option st') = ls ++ [l]
                              /\ logical_name l = Some "and".
Proof.
  destruct (first_leaf_state (1 # 2) offers) as [st | e] eqn:E;
    [| vm_compute in E; discriminate].
  vm_compute in E. injection E as <-.
  match goal with
  | |- exists st0 st', Ok ?s = Ok st0 /\ _ =>
      destruct (_generate_proprty example_constants (constant_source (1 # 2)) s)
        as [st' | e] eqn:E2; [| vm_compute in E2; discriminate];
      destruct (get_random_proprty (constant_source (1 # 2)) (_proprties s)
                  (random_state s)) as [[[p sel] pos] | e] eqn:E3;
        [| vm_compute in E3; discriminate];
      exists s, st'
  end.
  assert (Hp : generate_remaining_proprties p
               = Some bound__generate_interval_values
               /\ name p = "Price").
  { vm_compute in E3. injection E3 as <- _ _. split; reflexivity. }
  destruct Hp as [Hrem Hname].
  destruct (interval_leaf_companion example_constants (constant_source (1 # 2))
              _ st' p sel pos E3 Hrem E2)
    as (ps & p0 & first & op & v & _ & _ & Hn & Hop & _ & Hshape).
  split; [reflexivity |]. split; [exact E2 |]. split.
  - vm_compute in E2. injection E2 as <-. reflexivity.
  - exists first, op. rewrite Hname in Hn. split; [exact Hn |]. split; [exact Hop |].
    destruct (String.eqb op "eq").
    + destruct Hshape as (_ & Hlen & _). exact Hlen.
    + destruct Hshape as (ls & l & c & v' & _ & Hl & _ & Hand & _).
      exists ls, l. split; assumption.
Defined.

(** C6 fails as stated: [offers] has the interval-restricted property
    [Price] only; with every draw equal to 0.1 the generated filter is the
    single comparison with [eq], with no companion and no logical. *)
Lemma interval_leaf_without_companion :
  map filter_restriction (proprties offers) = [Some interval]
  /\ exists o pos,
       generate_with (1 # 10) offers 50 = Some (Ok (o, pos))
       /\ option_string o = "Price eq 5"
       /\ map (fun p => (part_name p, part_operator p)) (parts o)
          = [(Some "Price", Some "eq")]
       /\ logicals o = [].
Proof.
  split; [reflexivity |].
  destruct (generate_with (1 # 10) offers 50) as [[[o pos] | e] |] eqn:E;
    vm_compute in E; try discriminate.
  injection E as <- <-. eexists _, _. repeat split; reflexivity.
Qed.

(** ** The required pool of the property selector *)

Section RequiredPool.
Context (R : RandomSource).







End RequiredPool.

(** The selectors the code can reach: the pool of the other properties is
    never built over the required list, and the names in the required list
    stay distinct. *)
Section ReachableSelectors.
Context (R : RandomSource).







End ReachableSelectors.




(** ** Supplementary facts *)

(** Once the budget is spent and the depth counter has reached the limit,
    [_noterm_expression] produces a leaf whatever the draw is, and
    [_noterm_parent] hands over to it once the counter exceeds the limit:
    the guard works on the paths that pass through [_noterm_expression]. *)
Lemma ceiling_forces_leaf (C : Constants) (R : RandomSource) (T : ClassTable)
    (self : FilterQuery) (fuel : nat) (st : GenState) :
  sel_required_proprties (_proprties st) = [] ->
  RECURSION_LIMIT C <= _recursion_depth st ->
  _noterm_expression C R T self (S fuel) st
  = Some (_generate_element C R T self
            (with_random_state (S (random_state st))
               (with_recursion_depth (_recursion_depth st + 1) st))).
Proof.
  intros Hreq Hdepth. rewrite _noterm_expression_S. cbv zeta.
  unfold call_has_remaining, has_remaining.
  cbn [_proprties with_recursion_depth]. rewrite Hreq. cbn [length Nat.leb negb].
  unfold coin_or_limit, draw. cbn [_recursion_depth with_random_state with_proprties
    with_recursion_depth random_state].
  replace (RECURSION_LIMIT C <? _recursion_depth st + 1) with true
    by (symmetry; apply Z.ltb_lt; lia).
  rewrite orb_true_r. destruct st; reflexivity.
Qed.

Lemma ceiling_forces_expression (C : Constants) (R : RandomSource) (T : ClassTable)
    (self : FilterQuery) (fuel : nat) (st : GenState) :
  sel_required_proprties (_proprties st) = [] ->
  RECURSION_LIMIT C < _recursion_depth st ->
  _noterm_parent C R T self (S fuel) st
  = _noterm_expression C R T self fuel
      (with_random_state (S (random_state st)) st).
Proof.
  intros Hreq Hdepth. rewrite _noterm_parent_S.
  unfold call_has_remaining, has_remaining. rewrite Hreq.
  cbn [length Nat.leb negb].
  unfold coin_or_limit, draw. cbn [_recursion_depth with_random_state with_proprties
    random_state].
  replace (RECURSION_LIMIT C <? _recursion_depth st) with true
    by (symmetry; apply Z.ltb_lt; lia).
  rewrite orb_true_r. destruct st; reflexivity.
Qed.

(** [patch_proprties] changes nothing on an entity set it was applied to. *)
Lemma patch_proprty_fields (C : Constants) (p : Proprty) :
  patch_proprty C p
  = {| name := name p; typ_name := typ_name p; max_length := max_length p;
       filterable := filterable p; sortable := sortable p;
       required_in_filter := required_in_filter p;
       filter_restriction := filter_restriction p;
       max_string_length_attr :=
         if String.eqb (typ_name p) "Edm.String"
         then Some (max_string_length (max_length p))
         else max_string_length_attr p;
       generate := Some (patch_proprty_generator (typ_name p));
       operators :=
         Some (if String.eqb (typ_name p) "Edm.Boolean"
               then BOOLEAN_OPERATORS C else EXPRESSION_OPERATORS C);
       replaceable := replaceable p;
       generate_remaining_proprties := generate_remaining_proprties p |}.
Proof.
  unfold patch_proprty, patch_proprty_operator.
  assert (Ht : typ_name (set_generate (patch_proprty_generator (typ_name p))
                           (patch_proprty_max_length p)) = typ_name p).
  { unfold patch_proprty_max_length.
    destruct (String.eqb (typ_name p) "Edm.String"); reflexivity. }
  rewrite Ht. unfold patch_proprty_max_length.
  destruct (String.eqb (typ_name p) "Edm.String");
    destruct (String.eqb (typ_name p) "Edm.Boolean"); reflexivity.
Qed.

Lemma patch_proprty_idempotent (C : Constants) (p : Proprty) :
  patch_proprty C (patch_proprty C p) = patch_proprty C p.
Proof.
  rewrite (patch_proprty_fields C (patch_proprty C p)).
  rewrite !(patch_proprty_fields C p).
  cbn [typ_name max_length name filterable sortable required_in_filter
       filter_restriction max_string_length_attr generate operators replaceable
       generate_remaining_proprties].
  destruct (String.eqb (typ_name p) "Edm.String"); reflexivity.
Qed.

Lemma patch_proprties_idempotent (C : Constants) (e : EntitySet) :
  patch_proprties C (patch_proprties C e) = patch_proprties C e.
Proof.
  destruct e as [n ps ns a t pg rf]. unfold patch_proprties, set_properties, proprties.
  cbn. f_equal. rewrite map_map. apply map_ext. intros p.
  apply patch_proprty_idempotent.
Qed.

(** The table [SkipQuery] builds without an include value holds [INT_MAX]
    alone. *)
Lemma SkipQuery_init_ranges (C : Constants) (n : string)
    (restrictions : option QueryRestriction) (skip : RangeQuery) :
  include_values restrictions n = None ->
  SkipQuery_init C n restrictions = Ok skip ->
  ranges_within_INT_MAX C skip.
Proof.
  intros Hinc. unfold SkipQuery_init, SkipQuery__set_max_range. rewrite Hinc.
  cbn [bind dict_set]. rewrite !Z.eqb_refl. cbn [dict_set bind].
  rewrite Z.eqb_refl. intros [= <-].
  unfold ranges_within_INT_MAX. cbn. repeat constructor. cbn. lia.
Qed.

(** Every property a [FilterQuery] draws from carries the generator that
    matches its restriction. *)
Lemma FilterQuery_init_installs_generators (C : Constants) (entity : EntitySet)
    (restrictions : option QueryRestriction) (draft_properties : list string)
    (T T' : ClassTable) (self : FilterQuery) (p : Proprty) :
  FilterQuery_init C entity restrictions draft_properties T = Ok (self, T') ->
  In p (_filterable_proprties self) ->
  generate_remaining_proprties p = Some (remaining_generator_for p)
  /\ (generate_remaining_proprties p = Some bound__generate_interval_values
      <-> filter_restriction p = Some interval).
Proof.
  unfold FilterQuery_init.
  destruct (FilterFunctionsGroup C _ _ _) as [[group T1] | e]; [| discriminate].
  cbn [bind].
  destruct (match draft_properties with
            | [] => Ok None
            | d :: _ => _
            end) as [draft | e]; [| discriminate].
  cbn [bind]. intros [= <- _]. cbn [_filterable_proprties].
  intros Hin. apply in_map_iff in Hin as (p0 & <- & _).
  assert (Hgen : forall q : Proprty,
             generate_remaining_proprties
               (set_generate_remaining (remaining_generator_for q)
                  (if is_required draft q then set_replaceable false q else q))
             = Some (remaining_generator_for
                       (set_generate_remaining (remaining_generator_for q)
                          (if is_required draft q then set_replaceable false q
                           else q)))).
  { intros q. unfold remaining_generator_for.
    destruct (is_required draft q); reflexivity. }
  split; [apply Hgen |].
  rewrite Hgen. rewrite <- interval_generator_installed.
  split; congruence.
Qed.

(** * Further properties of the code *)

(** ** [weighted_random]: when the table is exhausted *)

Lemma total_weight_nonneg {A : Type} (items : list (A * Q)) :
  Forall (fun kv => (0 <= snd kv)%Q) items -> (0 <= total_weight items)%Q.
Proof.
  induction 1 as [| [v w] items Hw _ IH]; cbn.
  - apply Qle_refl.
  - cbn in Hw. unfold total_weight in IH. lra.
Qed.

(** In exact arithmetic: on a table whose weights are not negative, the
    scan returns [None] for a draw [r >= 0] exactly when [r] is at least the
    sum of the weights. *)
Lemma weighted_random_None_iff_uncovered {A : Type} (items : list (A * Q)) (r : Q) :
  Forall (fun kv => (0 <= snd kv)%Q) items ->
  (0 <= r)%Q ->
  weighted_random items r = None <-> (total_weight items <= r)%Q.
Proof.
  intros Hw. revert r. induction Hw as [| [v w] items Hw Hrest IH]; intros r Hr.
  - cbn. split; [intros _; exact Hr | reflexivity].
  - cbn [weighted_random total_weight map fold_right snd] in *.
    pose proof (total_weight_nonneg items Hrest) as Hn. unfold total_weight in Hn.
    destruct (Qltb r w) eqn:E.
    + apply Qltb_lt in E. split; [discriminate | intros H; lra].
    + apply Qltb_ge in E. rewrite IH by lra. unfold total_weight. split; intros H; lra.
Qed.

(** ** When the scan over doubles agrees with the scan in exact arithmetic *)

Lemma digits2_pos_bounds (m : positive) :
  2 ^ (Zpos (SpecFloat.digits2_pos m) - 1) <= Zpos m
  < 2 ^ Zpos (SpecFloat.digits2_pos m).
Proof.
  induction m as [m IH | m IH |]; cbn [SpecFloat.digits2_pos].
  - rewrite Pos2Z.inj_succ.
    replace (Z.succ (Zpos (SpecFloat.digits2_pos m)) - 1)
      with (Z.succ (Zpos (SpecFloat.digits2_pos m) - 1)) by lia.
    rewrite !Z.pow_succ_r by lia. rewrite (Pos2Z.inj_xI m). lia.
  - rewrite Pos2Z.inj_succ.
    replace (Z.succ (Zpos (SpecFloat.digits2_pos m)) - 1)
      with (Z.succ (Zpos (SpecFloat.digits2_pos m) - 1)) by lia.
    rewrite !Z.pow_succ_r by lia. rewrite (Pos2Z.inj_xO m). lia.
  - split; [vm_compute; discriminate | reflexivity].
Qed.

(** The form of a finite number: the exponent is at least -1074 and the
    mantissa has at most 53 digits, exactly 53 above the least exponent. *)
Lemma bounded_form (m : positive) (e : Z) :
  SpecFloat.bounded 53 1024 m e = true ->
  -1074 <= e
  /\ Zpos m < 2 ^ 53
  /\ (-1074 < e -> 2 ^ 52 <= Zpos m).
Proof.
  unfold SpecFloat.bounded, SpecFloat.canonical_mantissa, SpecFloat.fexp,
    SpecFloat.emin.
  intros H. apply andb_true_iff in H as [H _]. apply Z.eqb_eq in H.
  pose proof (digits2_pos_bounds m) as [Hlo Hhi].
  set (d := Zpos (SpecFloat.digits2_pos m)) in *.
  assert (Hd : 0 < d) by (subst d; lia).
  split; [lia |]. split.
  - assert (d <= 53) by lia.
    eapply Z.lt_le_trans; [exact Hhi |]. apply Z.pow_le_mono_r; lia.
  - intros He. assert (d = 53) by lia. subst d.
    replace 52 with (Zpos (SpecFloat.digits2_pos m) - 1) by lia. exact Hlo.
Qed.

Lemma scaled_lt_by_exponent (m1 m2 : positive) (e1 e2 : Z) :
  SpecFloat.bounded 53 1024 m1 e1 = true ->
  SpecFloat.bounded 53 1024 m2 e2 = true ->
  e1 < e2 ->
  Zpos m1 * 2 ^ (e1 + 1074) < Zpos m2 * 2 ^ (e2 + 1074).
Proof.
  intros H1 H2 He.
  destruct (bounded_form _ _ H1) as (He1 & Hm1 & _).
  destruct (bounded_form _ _ H2) as (He2 & _ & Hm2).
  specialize (Hm2 ltac:(lia)).
  replace (e2 + 1074) with ((e2 - e1 - 1) + 1 + (e1 + 1074)) by lia.
  rewrite (Z.pow_add_r 2 (e2 - e1 - 1 + 1) (e1 + 1074)) by lia.
  rewrite (Z.pow_add_r 2 (e2 - e1 - 1) 1) by lia.
  assert (Hp : 0 < 2 ^ (e1 + 1074)) by (apply Z.pow_pos_nonneg; lia).
  assert (Hq : 1 <= 2 ^ (e2 - e1 - 1)) by (apply Z.pow_le_mono_r with (b := 0); lia).
  change (2 ^ 1) with 2.
  assert (Hmm : Zpos m1 < Zpos m2 * (2 ^ (e2 - e1 - 1) * 2)) by nia.
  nia.
Qed.

Lemma scaled_lt_by_mantissa (m1 m2 : positive) (e : Z) :
  -1074 <= e ->
  (Zpos m1 * 2 ^ (e + 1074) < Zpos m2 * 2 ^ (e + 1074)) <-> (m1 < m2)%positive.
Proof.
  intros He.
  assert (Hp : 0 < 2 ^ (e + 1074)) by (apply Z.pow_pos_nonneg; lia).
  rewrite <- Z.mul_lt_mono_pos_r by exact Hp. reflexivity.
Qed.

Lemma compare_cont_Eq (m1 m2 : positive) :
  Pos.compare_cont Eq m1 m2 = Pos.compare m1 m2.
Proof. reflexivity. Qed.

(** [<] on finite doubles is the order of their values. *)
Lemma ltb_scaled (x y : Double.double) :
  Double.finite x = true -> Double.finite y = true ->
  Double.ltb x y = (Double.scaled x <? Double.scaled y).
Proof.
  unfold Double.ltb, SpecFloat.SFltb, SpecFloat.SFcompare.
  destruct x as [sx | sx | | sx mx ex], y as [sy | sy | | sy my ey];
    cbn [Double.finite Double.scaled]; try discriminate; intros Hx Hy.
  - reflexivity.
  - destruct (bounded_form _ _ Hy) as (He & _).
    assert (Hp : 0 < 2 ^ (ey + 1074)) by (apply Z.pow_pos_nonneg; lia).
    destruct sy; symmetry; [apply Z.ltb_ge | apply Z.ltb_lt]; nia.
  - destruct (bounded_form _ _ Hx) as (He & _).
    assert (Hp : 0 < 2 ^ (ex + 1074)) by (apply Z.pow_pos_nonneg; lia).
    destruct sx; symmetry; [apply Z.ltb_lt | apply Z.ltb_ge]; nia.
  - destruct (bounded_form _ _ Hx) as (Hex & _).
    destruct (bounded_form _ _ Hy) as (Hey & _).
    assert (Hpx : 0 < 2 ^ (ex + 1074)) by (apply Z.pow_pos_nonneg; lia).
    assert (Hpy : 0 < 2 ^ (ey + 1074)) by (apply Z.pow_pos_nonneg; lia).
    destruct sx, sy.
    + destruct (Z.compare_spec ex ey) as [-> | Hlt | Hgt].
      * rewrite compare_cont_Eq.
        destruct (Pos.compare_spec mx my) as [-> | Hm | Hm]; cbn [CompOpp];
          symmetry; [apply Z.ltb_ge; lia | apply Z.ltb_ge | apply Z.ltb_lt];
          apply (scaled_lt_by_mantissa _ _ ey Hey) in Hm; lia.
      * pose proof (scaled_lt_by_exponent _ _ _ _ Hx Hy Hlt).
        symmetry. apply Z.ltb_ge. lia.
      * pose proof (scaled_lt_by_exponent _ _ _ _ Hy Hx ltac:(lia)).
        symmetry. apply Z.ltb_lt. lia.
    + symmetry. apply Z.ltb_lt. nia.
    + symmetry. apply Z.ltb_ge. nia.
    + destruct (Z.compare_spec ex ey) as [-> | Hlt | Hgt].
      * rewrite compare_cont_Eq.
        destruct (Pos.compare_spec mx my) as [-> | Hm | Hm];
          symmetry; [apply Z.ltb_ge; lia | apply Z.ltb_lt | apply Z.ltb_ge];
          apply (scaled_lt_by_mantissa _ _ ey Hey) in Hm; lia.
      * pose proof (scaled_lt_by_exponent _ _ _ _ Hx Hy Hlt).
        symmetry. apply Z.ltb_lt. lia.
      * pose proof (scaled_lt_by_exponent _ _ _ _ Hy Hx ltac:(lia)).
        symmetry. apply Z.ltb_ge. lia.
Qed.

Lemma Qltb_value (x y : Double.double) :
  Qltb (Double.value x) (Double.value y)
  = (Double.scaled x <? Double.scaled y).
Proof.
  unfold Qltb, Double.value. cbn [Qnum Qden].
  destruct (Double.scaled x <? Double.scaled y) eqn:E.
  - apply Z.ltb_lt. apply Z.ltb_lt in E.
    apply Z.mul_lt_mono_pos_r; [reflexivity | exact E].
  - apply Z.ltb_ge. apply Z.ltb_ge in E.
    apply Z.mul_le_mono_nonneg_r; [discriminate | exact E].
Qed.

Lemma Qltb_Qeq_l (a b c : Q) : (a == b)%Q -> Qltb a c = Qltb b c.
Proof.
  intros H. destruct (Qltb b c) eqn:E.
  - apply Qltb_lt. apply Qltb_lt in E. lra.
  - apply Qltb_ge. apply Qltb_ge in E. lra.
Qed.

Lemma value_sub_exact (x y z : Double.double) :
  Double.scaled z = Double.scaled x - Double.scaled y ->
  (Double.value x - Double.value y == Double.value z)%Q.
Proof.
  intros H. unfold Double.value, Qeq, Qminus, Qplus, Qopp. cbn [Qnum Qden].
  rewrite H, Pos2Z.inj_mul. ring.
Qed.

Lemma double_scan_exact {A : Type} (items : list (A * Double.double)) :
  forall (r : Double.double) (q : Q),
  Double.finite r = true ->
  Forall (fun item => Double.finite (snd item) = true) items ->
  Double.subtractions_exact items r = true ->
  (q == Double.value r)%Q ->
  Double.weighted_random items r = weighted_random (Double.values items) q.
Proof.
  induction items as [| [v w] items IH]; intros r q Hr Hw Hex Hq; [reflexivity |].
  apply Forall_cons in Hw as [Hw Hrest]. cbn [snd] in Hw.
  cbn [Double.weighted_random Double.values map weighted_random fst snd].
  fold (Double.values items).
  rewrite (Qltb_Qeq_l _ _ _ Hq), Qltb_value, <- (ltb_scaled _ _ Hr Hw).
  cbn [Double.subtractions_exact] in Hex.
  destruct (Double.ltb r w); [reflexivity |].
  cbn [orb] in Hex. apply andb_true_iff in Hex as [Hex Hnext].
  apply andb_true_iff in Hex as [Hfin Hval]. apply Z.eqb_eq in Hval.
  apply IH; try assumption.
  rewrite Hq. apply value_sub_exact. exact Hval.
Qed.

Lemma total_weight_values {A : Type} (items : list (A * Double.double)) :
  (total_weight (Double.values items)
   == Qmake (fold_right Z.add 0%Z (map (fun item => Double.scaled (snd item)) items))
        Double.unit_denominator)%Q.
Proof.
  unfold total_weight. induction items as [| [v w] items IH]; cbn.
  - reflexivity.
  - rewrite IH. unfold Double.value, Qeq, Qplus. cbn [Qnum Qden].
    rewrite Pos2Z.inj_mul. ring.
Qed.

(** X1: when no subtraction of the scan is rounded, [weighted_random] on
    doubles returns what the scan in exact arithmetic returns on the values
    of the draw and of the weights; on weights that are not negative it
    then returns [None] for a draw [r >= 0] exactly when [r] is at least the
    sum of the weights. *)
Theorem weighted_random_on_doubles_agrees_when_exact {A : Type}
    (items : list (A * Double.double)) (r : Double.double) :
  Double.finite r = true ->
  Forall (fun item => Double.finite (snd item) = true) items ->
  Double.subtractions_exact items r = true ->
  Double.weighted_random items r
  = weighted_random (Double.values items) (Double.value r)
  /\ (0 <= Double.scaled r ->
      Forall (fun item => 0 <= Double.scaled (snd item)) items ->
      (Double.weighted_random items r = None
       <-> (total_weight (Double.values items) <= Double.value r)%Q)).
Proof.
  intros Hr Hw Hex.
  assert (Heq := double_scan_exact items r (Double.value r) Hr Hw Hex
                   ltac:(reflexivity)).
  split; [exact Heq |]. intros Hr0 Hw0. rewrite Heq.
  apply weighted_random_None_iff_uncovered.
  - unfold Double.values. apply Forall_map.
    eapply Forall_impl; [exact Hw0 |]. intros [v w] H. cbn [fst snd] in *.
    unfold Double.value, Qle. cbn [Qnum Qden]. lia.
  - unfold Double.value, Qle. cbn [Qnum Qden]. lia.
Qed.

Lemma weighted_random_on_doubles_agrees_when_exact_witness :
  Double.weighted_random binary_table (double_ratio 3 4) = None
  /\ Double.weighted_random binary_table (double_ratio 1 2) = Some "or"%string.
Proof.
  assert (Hw : Forall (fun item : string * Double.double =>
                         Double.finite (snd item) = true) binary_table)
    by (repeat constructor).
  split.
  - apply (proj2 (weighted_random_on_doubles_agrees_when_exact binary_table
                    (double_ratio 3 4) ltac:(reflexivity) Hw ltac:(reflexivity))).
    + vm_compute. discriminate.
    + repeat constructor; vm_compute; discriminate.
    + vm_compute. discriminate.
  - rewrite (proj1 (weighted_random_on_doubles_agrees_when_exact binary_table
                      (double_ratio 1 2) ltac:(reflexivity) Hw ltac:(reflexivity))).
    reflexivity.
Defined.

(** Without the condition the two scans part: the doubles nearest to 0.1,
    0.2 and 0.7 sum to more than the largest double below one, and in exact
    arithmetic that draw selects the third value; in doubles the second
    subtraction is rounded up to the third weight and no value is
    selected. *)
Lemma decimal_weights_leave_a_gap :
  Double.weighted_random decimal_table almost_one = None
  /\ weighted_random (Double.values decimal_table) (Double.value almost_one)
     = Some "c"%string
  /\ (Double.value almost_one < total_weight (Double.values decimal_table))%Q
  /\ Double.subtractions_exact decimal_table almost_one = false
  /\ Double.remaining decimal_table almost_one 2 = double_ratio 7 10.
Proof.
  split; [reflexivity |]. split; [reflexivity |].
  split; [reflexivity |]. split; reflexivity.
Qed.

(** ** Leaves on properties restricted to a list of values *)

Section Companions.
Context (C : Constants) (R : RandomSource).

(** One companion comparison: [_generate_sap_restricted] followed by
    [_set_right_logical_references]. *)
Lemma companion_shape p logical operator st st1 st' ps p0 :
  parts (_option st) = ps ++ [p0] ->
  _generate_sap_restricted R p logical operator st = Ok st1 ->
  _set_right_logical_references st1 = Ok st' ->
  exists l companion v,
    parts (_option st')
    = ps ++ [part_set_right_id (logical_id l) p0; companion]
    /\ logicals (_option st') = logicals (_option st) ++ [l]
    /\ logical_name l = Some logical
    /\ logical_left_id l = Some (part_id p0)
    /\ logical_right_id l = Some (part_id companion)
    /\ part_left_id companion = Some (logical_id l)
    /\ part_right_id companion = None
    /\ part_name companion = Some (name p)
    /\ part_operator companion = Some operator
    /\ part_operand companion = Some v.
Proof.
  intros Hp E1 E2.
  destruct (_generate_sap_restricted_shape R _ _ _ _ _ _ _ Hp E1)
    as (l & c & v & Hp1 & Hl1 & Hn & Hleft & Hright & Hcn & Hco & Hcv & Hcl & Hcr & Hs).
  change (ps ++ [part_set_right_id (logical_id l) p0; c])
    with (ps ++ [part_set_right_id (logical_id l) p0] ++ [c]) in Hp1.
  rewrite app_assoc in Hp1.
  destruct (_set_right_logical_references_shape st1 _ _ _ _ Hp1 Hl1)
    as (st2 & l' & E2' & Hp2 & Hl2 & Hid & Hn' & Hleft' & Hright' & Hs' & _).
  rewrite E2' in E2. injection E2 as <-.
  exists l', (part_set_left_id (logical_id l) c), v.
  rewrite Hp2, Hl2, Hid, <- app_assoc. cbn.
  repeat split; try reflexivity; congruence.
Qed.

Lemma repeat_sap_restricted_shape p operator (n : nat) : forall st st' ps p0,
  parts (_option st) = ps ++ [p0] ->
  repeat_sap_restricted R n p operator st = Ok st' ->
  exists p0' companions ors,
    parts (_option st') = ps ++ p0' :: companions
    /\ logicals (_option st') = logicals (_option st) ++ ors
    /\ length companions = n
    /\ length ors = n
    /\ part_id p0' = part_id p0
    /\ part_name p0' = part_name p0
    /\ part_operator p0' = part_operator p0
    /\ part_operand p0' = part_operand p0
    /\ Forall (fun c => part_name c = Some (name p)
                        /\ part_operator c = Some operator
                        /\ is_Some (part_operand c)) companions
    /\ Forall (fun l => logical_name l = Some "or"%string) ors.
Proof.
  induction n as [| n IH]; intros st st' ps p0 Hp.
  - cbn. intros [= <-]. exists p0, [], []. rewrite app_nil_r.
    repeat split; auto.
  - cbn [repeat_sap_restricted].
    destruct (_generate_sap_restricted R p "or" operator st) as [st1 | e] eqn:E1;
      [| discriminate].
    cbn [bind].
    destruct (_set_right_logical_references st1) as [st2 | e] eqn:E2;
      [| discriminate].
    cbn [bind]. intros E3.
    destruct (companion_shape _ _ _ _ _ _ _ _ Hp E1 E2)
      as (l & c & v & Hp2 & Hl2 & Hn & _ & _ & _ & _ & Hcn & Hco & Hcv).
    change (ps ++ [part_set_right_id (logical_id l) p0; c])
      with (ps ++ [part_set_right_id (logical_id l) p0] ++ [c]) in Hp2.
    rewrite app_assoc in Hp2.
    destruct (IH _ _ _ _ Hp2 E3)
      as (c' & cs & ors & Hp3 & Hl3 & Hlc & Hlo & _ & Hn' & Ho' & Hv' & Hcs & Hors).
    exists (part_set_right_id (logical_id l) p0), (c' :: cs), (l :: ors).
    rewrite Hp3, Hl3, Hl2, <- !app_assoc. cbn.
    repeat split; try reflexivity; try (f_equal; assumption).
    + constructor; [| exact Hcs].
      rewrite Hn', Ho', Hv', Hcn, Hco, Hcv. repeat split; eauto.
    + constructor; assumption.
Qed.
End Companions.

Lemma py_round_ge (x : Q) (k : Z) : (inject_Z k <= x)%Q -> k <= py_round x.
Proof.
  intros Hx. unfold py_round.
  assert (Hfk : k <= Qfloor x).
  { rewrite <- (Qfloor_Z k). apply Qfloor_resp_le. exact Hx. }
  destruct (Qltb _ (1 # 2)); [exact Hfk |].
  destruct (Qltb (1 # 2) _); [lia |].
  destruct (Z.even _); lia.
Qed.

(** [round(random.random() * (n - 1)) + 1] and its variants: a draw from
    the unit interval, scaled to [n - 1], rounds into [0 .. n - 1]. *)
Lemma py_round_unit_scaled (r : Q) (n : Z) :
  unit_draw r -> 1 <= n -> 0 <= py_round (r * inject_Z (n - 1)) <= n - 1.
Proof.
  intros [H0 H1] Hn.
  assert (Hm : (inject_Z 0 <= inject_Z (n - 1))%Q) by (rewrite <- Zle_Qle; lia).
  change (inject_Z 0) with 0%Q in *.
  split.
  - apply py_round_ge. change (inject_Z 0) with 0%Q. nra.
  - apply py_round_le. nra.
Qed.

(** X2: the companions of a leaf on a property restricted to a list of
    values.  With [MAX_MULTI_VALUES >= 1] and a draw from the unit
    interval, [_generate_multi_values] appends between one and
    [MAX_MULTI_VALUES] further comparisons after the leaf, every one on
    the same property with the same operator, and as many logicals, every
    one named [or]; the parts before the leaf are unchanged and the leaf
    keeps its comparison. *)
Theorem multi_values_fan_out (C : Constants) (R : RandomSource) (p : Proprty)
    (operator : string) (st st' : GenState) (ps : list Part) (p0 : Part) :
  1 <= MAX_MULTI_VALUES C ->
  unit_draw (random_random R (random_state st)) ->
  parts (_option st) = ps ++ [p0] ->
  _generate_multi_values C R p operator st = Ok st' ->
  exists p0' companions ors,
    parts (_option st') = ps ++ p0' :: companions
    /\ logicals (_option st') = logicals (_option st) ++ ors
    /\ length ors = length companions
    /\ 1 <= Z.of_nat (length companions) <= MAX_MULTI_VALUES C
    /\ part_id p0' = part_id p0
    /\ part_name p0' = part_name p0
    /\ part_operator p0' = part_operator p0
    /\ part_operand p0' = part_operand p0
    /\ Forall (fun c => part_name c = Some (name p)
                        /\ part_operator c = Some operator
                        /\ is_Some (part_operand c)) companions
    /\ Forall (fun l => logical_name l = Some "or"%string) ors.
Proof.
  intros HM Hr Hp. unfold _generate_multi_values, draw. intros E.
  set (total_values := py_round _) in E.
  assert (Hk : 1 <= total_values <= MAX_MULTI_VALUES C).
  { destruct Hr as [H0 H1].
    assert (Hm : (inject_Z 0 <= inject_Z (MAX_MULTI_VALUES C - 1))%Q)
      by (rewrite <- Zle_Qle; lia).
    change (inject_Z 0) with 0%Q in Hm.
    subst total_values. split.
    - apply py_round_ge. change (inject_Z 1) with 1%Q. nra.
    - apply py_round_le.
      replace (inject_Z (MAX_MULTI_VALUES C))
        with (inject_Z (MAX_MULTI_VALUES C - 1 + 1)) by (f_equal; lia).
      rewrite inject_Z_plus. change (inject_Z 1) with 1%Q. nra. }
  clearbody total_values.
  assert (Hp1 : parts (_option (with_random_state (S (random_state st)) st))
                = ps ++ [p0]) by exact Hp.
  destruct (repeat_sap_restricted_shape R _ _ _ _ _ ps p0 Hp1 E)
    as (p0' & cs & ors & Hp' & Hl' & Hlc & Hlo & Hrest).
  exists p0', cs, ors. cbn in Hl'.
  split; [exact Hp' |]. split; [exact Hl' |]. split; [congruence |].
  split; [| exact Hrest].
  rewrite Hlc. lia.
Qed.

Lemma multi_values_fan_out_witness :
  exists st st' p companions ors,
    first_leaf_state (1 # 2) labels = Ok st
    /\ proprties labels = [p]
    /\ _generate_multi_values example_constants (constant_source (1 # 2)) p "eq" st
       = Ok st'
    /\ (exists p0', parts (_option st') = p0' :: companions)
    /\ logicals (_option st') = ors
    /\ 1 <= Z.of_nat (length companions) <= 3
    /\ Forall (fun l => logical_name l = Some "or"%string) ors.
Proof.
  destruct (first_leaf_state (1 # 2) labels) as [st | e] eqn:Est;
    [| vm_compute in Est; discriminate].
  vm_compute in Est. injection Est as <-.
  destruct (proprties labels) as [| p [| ? ?]] eqn:Ep;
    try (vm_compute in Ep; discriminate).
  vm_compute in Ep. injection Ep as <-.
  match goal with
  | |- exists st0 st' p0 cs ors, Ok ?s = Ok st0 /\ [?q] = [p0] /\ _ =>
      destruct (_generate_multi_values example_constants (constant_source (1 # 2))
                  q "eq" s) as [st' | e] eqn:E;
        [| vm_compute in E; discriminate];
      assert (HM : 1 <= MAX_MULTI_VALUES example_constants)
        by (vm_compute; discriminate);
      assert (Hr : unit_draw (random_random (constant_source (1 # 2)) (random_state s)))
        by (split; vm_compute; [discriminate | reflexivity]);
      destruct (multi_values_fan_out example_constants (constant_source (1 # 2))
                  q "eq" s st' [] _ HM Hr eq_refl E)
        as (p0' & cs & ors & Hp' & Hl' & _ & Hn & _ & _ & _ & _ & _ & Hors);
      exists s, st', q, cs, ors
  end.
  split; [reflexivity |]. split; [reflexivity |]. split; [exact E |].
  split; [exists p0'; exact Hp' |]. split; [exact Hl' |].
  split; [exact Hn | exact Hors].
Defined.

(** ** The shape of a generated filter graph *)

Lemma length_update_last {A : Type} (f : A -> A) (l : list A) :
  length (update_last f l) = length l.
Proof. destruct l; [reflexivity |]. unfold update_last. apply length_alter. Qed.

Lemma Forall_update_last {A : Type} (P : A -> Prop) (f : A -> A) (l : list A) :
  (forall x, P x -> P (f x)) -> Forall P l -> Forall P (update_last f l).
Proof.
  intros Hf Hl. destruct l; [constructor |]. unfold update_last.
  apply Forall_alter; [exact Hl |]. intros x _. apply Hf.
Qed.

Section GraphCounts.
Context (C : Constants) (R : RandomSource) (T : ClassTable) (self : FilterQuery).

(** Two states whose options have the same parts and as many logicals. *)
Lemma same_graph_counts st st' :
  parts (_option st') = parts (_option st) ->
  length (logicals (_option st')) = length (logicals (_option st)) ->
  operands_over_connectives st' = operands_over_connectives st
  /\ (parts_complete st -> parts_complete st').
Proof.
  unfold operands_over_connectives, parts_complete. intros -> ->. split; auto.
Qed.

Lemma _update_left_logical_references_counts st st' :
  _update_left_logical_references st = Ok st' ->
  length (parts (_option st')) = length (parts (_option st))
  /\ length (logicals (_option st')) = length (logicals (_option st))
  /\ (parts_complete st -> parts_complete st').
Proof.
  unfold _update_left_logical_references, parts_complete.
  destruct (stacked_group st) as [[g grp] |];
    (destruct (last_of (parts _)) as [lp | e]; [| discriminate]);
    (destruct (last_of (logicals _)) as [ll | e]; [| discriminate]);
    cbn [bind]; intros [= <-]; cbn; rewrite ?length_update_last;
    (split; [reflexivity |]); (split; [reflexivity |]);
    apply Forall_update_last; intros x; exact id.
Qed.

Lemma complete_set_left_id i x :
  part_is_complete x = true -> part_is_complete (part_set_left_id i x) = true.
Proof. exact id. Qed.

Lemma _set_right_logical_references_counts st st' :
  _set_right_logical_references st = Ok st' ->
  length (parts (_option st')) = length (parts (_option st))
  /\ length (logicals (_option st')) = length (logicals (_option st))
  /\ (parts_complete st -> parts_complete st').
Proof.
  unfold _set_right_logical_references, parts_complete.
  destruct (last_of (logicals _)) as [ll | e]; [| discriminate].
  destruct (last_of (parts _)) as [lp | e]; [| discriminate].
  cbn [bind].
  destruct (stacked_group _) as [[g grp] |]; intros [= <-]; cbn;
    rewrite ?length_update_last;
    (split; [reflexivity |]); (split; [reflexivity |]);
    apply Forall_update_last; intros x; exact id.
Qed.

Lemma _update_right_logical_references_counts st st' :
  _update_right_logical_references st = Ok st' ->
  length (parts (_option st')) = length (parts (_option st))
  /\ length (logicals (_option st')) = length (logicals (_option st))
  /\ (parts_complete st -> parts_complete st').
Proof.
  unfold _update_right_logical_references. destruct (_right_part st).
  - intros H. apply _set_right_logical_references_counts in H. exact H.
  - intros [= <-]. auto.
Qed.

(** The remaining comparisons of a restricted property add as many parts
    as logicals, every added part complete. *)
Lemma call_generate_remaining_counts p op st st' ps p0 :
  parts (_option st) = ps ++ [p0] ->
  parts_complete st ->
  call_generate_remaining C R p op st = Ok st' ->
  operands_over_connectives st' = operands_over_connectives st
  /\ parts_complete st'.
Proof.
  intros Hp Hc. unfold call_generate_remaining.
  destruct (generate_remaining_proprties p) as [[| |] |]; [| | | discriminate].
  - intros E. pose proof (_generate_interval_values_shape R _ _ _ _ _ _ Hp E) as H.
    destruct (String.eqb op "eq"); [subst st'; auto |].
    destruct H as (l & c & v & Hp' & Hl' & _ & _ & _ & _ & _ & Hcn & Hco & Hcv & _).
    unfold operands_over_connectives, parts_complete in *.
    rewrite Hp', Hl'. rewrite Hp in Hc |- *. rewrite !length_app. cbn [length].
    split; [lia |].
    apply Forall_app in Hc as [Hps Hp0]. apply Forall_app. split; [exact Hps |].
    apply Forall_inv in Hp0.
    constructor; [exact Hp0 |]. constructor; [| constructor].
    unfold part_is_complete. rewrite Hcn, Hco, Hcv. reflexivity.
  - unfold _generate_multi_values, draw. intros E.
    assert (Hp1 : parts (_option (with_random_state (S (random_state st)) st))
                  = ps ++ [p0]) by exact Hp.
    destruct (repeat_sap_restricted_shape R _ _ _ _ _ ps p0 Hp1 E)
      as (p0' & cs & ors & Hp' & Hl' & Hlc & Hlo & _ & Hn & Ho & Hv & Hcs & _).
    cbn in Hl'.
    unfold operands_over_connectives, parts_complete in *.
    rewrite Hp', Hl'. rewrite Hp in Hc |- *. rewrite !length_app. cbn [length].
    split; [lia |].
    apply Forall_app in Hc as [Hps Hp0]. apply Forall_app. split; [exact Hps |].
    apply Forall_inv in Hp0.
    constructor.
    + unfold part_is_complete in *. rewrite Hn, Ho, Hv. exact Hp0.
    + eapply Forall_impl; [exact Hcs |]. cbn. intros c (Hcn & Hco & [v Hcv]).
      unfold part_is_complete. rewrite Hcn, Hco, Hcv. reflexivity.
  - intros [= <-]. auto.
Qed.

Lemma _generate_proprty_counts st st' ps p0 :
  parts (_option st) = ps ++ [p0] ->
  Forall (fun x => part_is_complete x = true) ps ->
  _generate_proprty C R st = Ok st' ->
  operands_over_connectives st' = operands_over_connectives st
  /\ parts_complete st'.
Proof.
  intros Hp Hps. unfold _generate_proprty.
  destruct (get_random_proprty _ _ _) as [[[p sel] pos] | e]; [| discriminate].
  cbn [bind]. destruct (operators p) as [ops |]; [| discriminate].
  cbn [bind]. unfold draw. cbv zeta.
  destruct (call_proprty_generate _ _ _) as [[operand pos'] | e]; [| discriminate].
  cbn [bind].
  destruct (comparison_string _ _ _) as [[[s op] v] | e]; [| discriminate].
  cbn [bind]. unfold _update_proprty_part.
  cbn [_option emit with_option_string with_random_state with_proprties].
  rewrite Hp, last_of_snoc. cbn [bind].
  set (st1 := update_last_part _ _).
  assert (Hp1 : parts (_option st1)
                = ps ++ [part_set_proprty (name p) op v (default true (replaceable p)) p0]).
  { subst st1. cbn. rewrite Hp. apply update_last_snoc. }
  assert (Hl1 : logicals (_option st1) = logicals (_option st)) by reflexivity.
  clearbody st1.
  destruct (_update_right_logical_references st1) as [st2 | e] eqn:E2; [| discriminate].
  cbn [bind]. intros E3.
  destruct (_update_right_logical_references_shape _ _ _ _ Hp1 E2)
    as (p0' & Hp2 & _ & Hn & Ho & Hv & _ & Hl2 & _).
  assert (Hc2 : parts_complete st2).
  { unfold parts_complete. rewrite Hp2. apply Forall_app. split; [exact Hps |].
    constructor; [| constructor]. unfold part_is_complete. rewrite Hn, Ho, Hv.
    reflexivity. }
  destruct (call_generate_remaining_counts _ _ _ _ _ _ Hp2 Hc2 E3) as [He Hc3].
  split; [| exact Hc3]. rewrite He. unfold operands_over_connectives.
  rewrite Hp2, Hl2, Hl1, Hp, !length_app. reflexivity.
Qed.

Lemma _generate_function_counts st st' ps p0 :
  parts (_option st) = ps ++ [p0] ->
  Forall (fun x => part_is_complete x = true) ps ->
  _generate_function C R T self st = Ok st' ->
  operands_over_connectives st' = operands_over_connectives st
  /\ parts_complete st'.
Proof.
  intros Hp Hps. unfold _generate_function.
  destruct (choice _ _ _) as [[w pos] | e]; [| discriminate]. cbn [bind].
  destruct (choice _ _ _) as [[m pos1] | e]; [| discriminate]. cbn [bind].
  destruct (call_function _ _ _ _ _) as [[f pos2] | e]; [| discriminate].
  cbn [bind]. unfold draw. cbv zeta.
  destruct (comparison_string _ _ _) as [[[s op] v] | e]; [| discriminate].
  cbn [bind]. unfold _update_function_part.
  cbn [_option emit with_option_string with_random_state random_state].
  rewrite Hp, last_of_snoc. cbn [bind].
  set (st1 := update_last_part _ _).
  assert (Hp1 : parts (_option st1) = ps ++ [part_set_function f op v p0]).
  { subst st1. cbn. rewrite Hp. apply update_last_snoc. }
  assert (Hl1 : logicals (_option st1) = logicals (_option st)) by reflexivity.
  clearbody st1. intros E2.
  destruct (_update_right_logical_references_shape _ _ _ _ Hp1 E2)
    as (p0' & Hp2 & _ & Hn & Ho & Hv & _ & Hl2 & _).
  split.
  - unfold operands_over_connectives. rewrite Hp2, Hl2, Hl1, Hp, !length_app.
    reflexivity.
  - unfold parts_complete. rewrite Hp2. apply Forall_app. split; [exact Hps |].
    constructor; [| constructor]. unfold part_is_complete. rewrite Hn, Ho, Hv.
    reflexivity.
Qed.

(** A leaf adds one part more than it adds logicals. *)
Lemma _generate_element_counts st st' :
  parts_complete st ->
  _generate_element C R T self st = Ok st' ->
  operands_over_connectives st' = operands_over_connectives st + 1
  /\ parts_complete st'.
Proof.
  intros Hc. unfold _generate_element, draw. cbv zeta.
  set (st1 := with_random_state _ (add_part R st)).
  assert (Hp1 : parts (_option st1)
                = parts (_option st)
                  ++ [new_part (uuid4 (random_getrandbits R (random_state st)))])
    by reflexivity.
  assert (He1 : operands_over_connectives st1 = operands_over_connectives st + 1).
  { unfold operands_over_connectives. rewrite Hp1, length_app. cbn. lia. }
  clearbody st1. intros E.
  assert (H : operands_over_connectives st' = operands_over_connectives st1
              /\ parts_complete st').
  { destruct (Qltb _ _).
    - unfold call_noterm_function in E. destruct (_noterm_function self).
      + exact (_generate_proprty_counts _ _ _ _ Hp1 Hc E).
      + exact (_generate_function_counts _ _ _ _ Hp1 Hc E).
    - exact (_generate_proprty_counts _ _ _ _ Hp1 Hc E). }
  destruct H as [H1 H2]. split; [lia | exact H2].
Qed.

(** A connective adds one logical and no part. *)
Lemma _noterm_logical_counts st st' :
  parts_complete st ->
  _noterm_logical C R st = Ok st' ->
  operands_over_connectives st' = operands_over_connectives st - 1
  /\ parts_complete st'.
Proof.
  intros Hc. unfold _noterm_logical, draw. cbv zeta.
  destruct (weighted_random _ _) as [operator |]; [| discriminate].
  set (st1 := update_last_logical _ _).
  assert (Hp1 : parts (_option st1) = parts (_option st)) by reflexivity.
  assert (Hl1 : length (logicals (_option st1))
                = S (length (logicals (_option st)))).
  { subst st1. cbn. rewrite length_update_last, length_app. cbn. lia. }
  clearbody st1.
  destruct (last_of (logicals (_option st1))) as [ll | e]; [| discriminate].
  cbn [bind].
  destruct (_finalizing_groups st1) as [| n].
  - destruct (_update_left_logical_references st1) as [st2 | e] eqn:E2;
      [| discriminate].
    cbn [bind]. intros [= <-].
    destruct (_update_left_logical_references_counts _ _ E2) as (Hp2 & Hl2 & Hc2).
    unfold operands_over_connectives, parts_complete in *.
    cbn [_option with_right_part]. rewrite Hp2, Hl2, Hp1, Hl1.
    split; [lia |]. apply Hc2. rewrite Hp1. exact Hc.
  - destruct (Stack_pop _ _ _) as [[g |] stack]; cbn [bind]; [| discriminate].
    cbn [_option with_finalizing_groups with_groups_stack].
    destruct (groups (_option st1) !! g) as [grp |]; cbn [bind]; [| discriminate].
    intros [= <-]. unfold operands_over_connectives, parts_complete in *. cbn.
    rewrite length_update_last, Hl1, Hp1. split; [lia | exact Hc].
Qed.

Lemma _update_group_references_counts st st' :
  _update_group_references st = Ok st' ->
  parts (_option st') = parts (_option st)
  /\ length (logicals (_option st')) = length (logicals (_option st)).
Proof.
  unfold _update_group_references.
  destruct (last_of (groups _)) as [lg | e]; [| discriminate].
  destruct (last_of (logicals _)) as [ll | e]; [| discriminate].
  cbn [bind]. destruct (stacked_group _) as [[g grp] |]; intros [= <-]; cbn;
    rewrite length_update_last; split; reflexivity.
Qed.

Lemma _generate_child_group_S fuel st :
  _generate_child_group C R T self (S fuel) st =
    let st := emit "(" st in
    let st := add_group R st in
    and_then
      (Some (if _right_part st then _update_group_references st else Ok st))
      (fun st =>
         let last_group := (length (groups (_option st)) - 1)%nat in
         let st := with_groups_stack (_groups_stack st ++ [last_group]) st in
         and_then (_noterm_child C R T self fuel st)
           (fun st =>
              let st := with_finalizing_groups (S (_finalizing_groups st)) st in
              Some (Ok (emit ")" st)))).
Proof. reflexivity. Qed.

Lemma _generate_rest_S fuel st :
  _generate_rest C R T self (S fuel) st =
    if has_filterable (_proprties st) then
      and_then (Some (_noterm_logical C R st))
        (fun st => _noterm_parent C R T self fuel st)
    else Some (Ok st).
Proof. reflexivity. Qed.

Lemma call_has_remaining_graph st :
  _option (snd (call_has_remaining st)) = _option st.
Proof. unfold call_has_remaining. destruct (has_remaining _). reflexivity. Qed.

(** What a call of one of the grammar's methods adds to the graph: [d]
    more parts than logicals, every part complete. *)
Let adds (d : Z) (f : GenState -> option (result GenState)) : Prop :=
  forall st st',
    parts_complete st -> f st = Some (Ok st') ->
    operands_over_connectives st' = operands_over_connectives st + d
    /\ parts_complete st'.

Lemma grammar_counts (fuel : nat) :
  adds 1 (_noterm_expression C R T self fuel)
  /\ adds 1 (_noterm_parent C R T self fuel)
  /\ adds 1 (_generate_child C R T self fuel)
  /\ adds 1 (_generate_child_group C R T self fuel)
  /\ adds 1 (_noterm_child C R T self fuel)
  /\ adds 0 (_generate_rest C R T self fuel).
Proof.
  induction fuel as [| fuel (IHe & IHp & IHc & IHg & IHn & IHr)].
  - unfold adds. refine (conj _ (conj _ (conj _ (conj _ (conj _ _)))));
      intros st st' _; discriminate.
  - assert (Hhas : forall st, parts_complete st ->
              parts_complete (snd (call_has_remaining st))
              /\ operands_over_connectives (snd (call_has_remaining st))
                 = operands_over_connectives st).
    { intros st Hc. unfold parts_complete, operands_over_connectives.
      rewrite call_has_remaining_graph. auto. }
    unfold adds in *. refine (conj _ (conj _ (conj _ (conj _ (conj _ _))))).
    + intros st st' Hc. rewrite _noterm_expression_S. cbv zeta.
      set (st0 := with_recursion_depth _ st).
      assert (He0 : operands_over_connectives st0 = operands_over_connectives st)
        by reflexivity.
      assert (Hc0 : parts_complete st0) by exact Hc.
      clearbody st0. rewrite <- He0.
      destruct (Hhas st0 Hc0) as [Hc1 He1].
      destruct (call_has_remaining st0) as [remaining st1]. cbn [snd] in *.
      rewrite <- He1.
      destruct remaining; cbn [negb]; [apply IHn; exact Hc1 |].
      unfold coin_or_limit, draw. cbv zeta.
      set (st2 := with_random_state _ st1).
      assert (He2 : operands_over_connectives st2 = operands_over_connectives st1)
        by reflexivity.
      assert (Hc2 : parts_complete st2) by exact Hc1.
      clearbody st2. rewrite <- He2.
      destruct (_ || _).
      * intros [= E]. apply _generate_element_counts in E; [exact E | exact Hc2].
      * apply IHn. exact Hc2.
    + intros st st' Hc. rewrite _noterm_parent_S.
      destruct (Hhas st Hc) as [Hc1 He1].
      destruct (call_has_remaining st) as [remaining st1]. cbn [snd] in *.
      rewrite <- He1.
      destruct remaining; cbn [negb]; [apply IHc; exact Hc1 |].
      unfold coin_or_limit, draw. cbv zeta.
      set (st2 := with_random_state _ st1).
      assert (He2 : operands_over_connectives st2 = operands_over_connectives st1)
        by reflexivity.
      assert (Hc2 : parts_complete st2) by exact Hc1.
      clearbody st2. rewrite <- He2.
      destruct (_ || _); [apply IHe | apply IHc]; exact Hc2.
    + intros st st' Hc. rewrite _generate_child_S. unfold draw. cbv zeta.
      set (st0 := with_random_state _ st).
      assert (He0 : operands_over_connectives st0 = operands_over_connectives st)
        by reflexivity.
      assert (Hc0 : parts_complete st0) by exact Hc.
      clearbody st0. rewrite <- He0.
      destruct (Qltb _ _); [apply IHn; exact Hc0 |].
      destruct (Hhas st0 Hc0) as [Hc1 He1].
      destruct (call_has_remaining st0) as [remaining st1]. cbn [snd] in *.
      rewrite <- He1.
      destruct remaining; cbn [negb]; [apply IHg | apply IHn]; exact Hc1.
    + intros st st' Hc. rewrite _generate_child_group_S. cbv zeta.
      set (st0 := add_group R (emit "(" st)).
      destruct (if _right_part st0 then _ else _) as [st1 | e] eqn:E1;
        cbn [and_then]; [| discriminate].
      assert (Hg : parts (_option st1) = parts (_option st)
                   /\ length (logicals (_option st1))
                      = length (logicals (_option st))).
      { destruct (_right_part st0).
        - apply _update_group_references_counts in E1. exact E1.
        - injection E1 as <-. split; reflexivity. }
      destruct Hg as [Hp1 Hl1].
      set (st2 := with_groups_stack _ st1).
      destruct (_noterm_child C R T self fuel st2) as [[st3 | e] |] eqn:E3;
        cbn [and_then]; try discriminate.
      intros [= <-].
      assert (Hc2 : parts_complete st2).
      { unfold parts_complete. cbn. rewrite Hp1. exact Hc. }
      destruct (IHn _ _ Hc2 E3) as [He3 Hc3].
      split; [| exact Hc3].
      change (operands_over_connectives (emit ")" _))
        with (operands_over_connectives st3).
      rewrite He3. unfold operands_over_connectives. cbn. rewrite Hp1, Hl1.
      reflexivity.
    + intros st st' Hc. rewrite _noterm_child_S.
      destruct (_noterm_parent C R T self fuel st) as [[st1 | e] |] eqn:E1;
        cbn [and_then]; try discriminate.
      intros E2. destruct (IHp _ _ Hc E1) as [He1 Hc1].
      destruct (IHr _ _ Hc1 E2) as [He2 Hc2]. split; [lia | exact Hc2].
    + intros st st' Hc. rewrite _generate_rest_S.
      destruct (has_filterable _).
      * destruct (_noterm_logical C R st) as [st1 | e] eqn:E1;
          cbn [and_then]; [| discriminate].
        intros E2. destruct (_noterm_logical_counts _ _ Hc E1) as [He1 Hc1].
        destruct (IHp _ _ Hc1 E2) as [He2 Hc2]. split; [lia | exact Hc2].
      * intros [= <-]. split; [lia | exact Hc].
Qed.
End GraphCounts.

(** X3: a generated [$filter] graph alternates operands and connectives.
    Whenever [FilterQuery.generate] returns, the option has exactly one
    part more than it has logicals, and every part carries a name, an
    operator and an operand. *)
Theorem generated_filter_parts_and_logicals (C : Constants) (R : RandomSource)
    (T : ClassTable) (self : FilterQuery) (fuel pos pos' : nat) (o : FilterOption) :
  FilterQuery_generate C R T self fuel pos = Some (Ok (o, pos')) ->
  length (parts o) = S (length (logicals o))
  /\ Forall (fun p => part_is_complete p = true) (parts o).
Proof.
  unfold FilterQuery_generate.
  destruct (_generate_string C R T self fuel (_init_variables self pos))
    as [[st | e] |] eqn:E; cbn [and_then]; try discriminate.
  intros [= <- _].
  assert (H : operands_over_connectives st = 1 /\ parts_complete st).
  { assert (Hc0 : parts_complete (_init_variables self pos)) by constructor.
    unfold _generate_string in E.
    destruct (list_truthy (_required_proprties self)).
    - destruct (grammar_counts C R T self fuel) as (He & _).
      exact (He _ _ Hc0 E).
    - unfold draw in E. cbv zeta in E.
      destruct (Qltb _ _).
      + injection E as E.
        assert (Hp : parts (_option (add_part R (with_random_state (S pos)
                                               (_init_variables self pos))))
                     = [] ++ [new_part (uuid4 (random_getrandbits R (S pos)))])
          by reflexivity.
        exact (_generate_proprty_counts C R _ _ [] _ Hp ltac:(constructor) E).
      + destruct (grammar_counts C R T self fuel) as (He & _).
        exact (He _ _ (Hc0 : parts_complete (with_random_state _ _)) E). }
  destruct H as [He Hc]. unfold operands_over_connectives in He.
  unfold parts_complete in Hc. cbn.
  rewrite length_map, length_rev. split; [lia | exact Hc].
Qed.

Lemma generated_filter_parts_and_logicals_witness :
  exists self o pos',
    unrestricted_query items = Ok self
    /\ FilterQuery_generate example_constants (constant_source (1 # 4))
         initial_classes self 50 0 = Some (Ok (o, pos'))
    /\ length (parts o) = S (length (logicals o))
    /\ Forall (fun p => part_is_complete p = true) (parts o)
    /\ length (parts o) = 2%nat.
Proof.
  destruct (unrestricted_query items) as [self | e] eqn:Eq;
    [| vm_compute in Eq; discriminate].
  vm_compute in Eq. injection Eq as <-.
  match goal with
  | |- exists self0 o pos', Ok ?q = Ok self0 /\ _ =>
      destruct (FilterQuery_generate example_constants (constant_source (1 # 4))
                  initial_classes q 50 0) as [[[o pos'] | e] |] eqn:E;
        [| vm_compute in E; discriminate | vm_compute in E; discriminate];
      exists q, o, pos'
  end.
  split; [reflexivity |]. split; [exact E |].
  destruct (generated_filter_parts_and_logicals _ _ _ _ _ _ _ _ E) as [H1 H2].
  split; [exact H1 |]. split; [exact H2 |].
  vm_compute in E. injection E as <- _. reflexivity.
Defined.

(** ** [delete_redundancies] *)

(** X4: [delete_redundancies] leaves no dangling group reference.  The
    parts are untouched and the logicals keep their order, ids, names and
    operand references; if every [group_id] of a logical named a group of
    the option before, then every [group_id] still present afterwards
    names a group that was kept, one with member logicals and a connector
    on either side. *)
Theorem delete_redundancies_keeps_group_references (o : FilterOption) :
  (forall l g, In l (logicals o) -> logical_group_id l = Some g ->
     exists grp, In grp (groups o) /\ group_id grp = g) ->
  parts (delete_redundancies o) = parts o
  /\ map (fun l => (logical_id l, logical_name l, logical_left_id l,
                    logical_right_id l))
       (logicals (delete_redundancies o))
     = map (fun l => (logical_id l, logical_name l, logical_left_id l,
                      logical_right_id l))
         (logicals o)
  /\ forall l g, In l (logicals (delete_redundancies o)) ->
       logical_group_id l = Some g ->
       exists grp, In grp (groups (delete_redundancies o))
                   /\ group_id grp = g
                   /\ group_logicals grp <> []
                   /\ (is_Some (group_left_id grp) \/ is_Some (group_right_id grp)).
Proof.
  intros Hrefs. unfold delete_redundancies. cbn [parts logicals groups set_logicals set_groups].
  split; [reflexivity |]. split.
  - rewrite map_map. apply map_ext. intros l.
    destruct (logical_group_id l) as [g |]; [| reflexivity].
    destruct (id_in g _); reflexivity.
  - intros l' g Hin Hg. apply in_map_iff in Hin as (l & <- & Hin).
    destruct (logical_group_id l) as [g0 |] eqn:E0; [| congruence].
    destruct (id_in g0 _) eqn:Eid; [discriminate |].
    rewrite E0 in Hg. injection Hg as ->.
    destruct (Hrefs l g Hin E0) as (grp & Hgrp & Hid).
    destruct (group_is_kept grp) eqn:Ek.
    + exists grp. split; [apply filter_In; auto |]. split; [exact Hid |].
      unfold group_is_kept in Ek. apply andb_prop in Ek as [Hl Hc].
      split; [destruct (group_logicals grp); [discriminate | discriminate] |].
      apply orb_prop in Hc as [Hc | Hc]; apply bool_decide_eq_true in Hc; auto.
    + exfalso. unfold id_in in Eid.
      assert (Hex : existsb (N.eqb g)
                      (map group_id
                         (List.filter (fun g1 => negb (group_is_kept g1)) (groups o)))
                    = true).
      { apply existsb_exists. exists g. split; [| apply N.eqb_refl].
        apply in_map_iff. exists grp. split; [exact Hid |].
        apply filter_In. rewrite Ek. auto. }
      congruence.
Qed.

Lemma delete_redundancies_keeps_group_references_witness :
  map logical_group_id (logicals (delete_redundancies two_groups_option))
  = [Some 1%N; None]
  /\ forall l g, In l (logicals (delete_redundancies two_groups_option)) ->
       logical_group_id l = Some g ->
       exists grp, In grp (groups (delete_redundancies two_groups_option))
                   /\ group_id grp = g.
Proof.
  split; [reflexivity |].
  intros l g Hin Hg.
  assert (Hrefs : forall l g, In l (logicals two_groups_option) ->
            logical_group_id l = Some g ->
            exists grp, In grp (groups two_groups_option) /\ group_id grp = g).
  { intros l0 g0 [<- | [<- | []]] [= <-]; eexists;
      first [ split; [left; reflexivity | reflexivity]
            | split; [right; left; reflexivity | reflexivity] ]. }
  destruct (delete_redundancies_keeps_group_references two_groups_option Hrefs)
    as (_ & _ & H).
  destruct (H l g Hin Hg) as (grp & Hgrp & Hid & _). exists grp. auto.
Defined.

(** ** The property selector *)

Section SelectorBudget.
Context (R : RandomSource).

Lemma get_proprty_budget group sel pos p sel' pos' :
  get_proprty R group sel pos = Ok (p, sel', pos') ->
  (length (sel_required_proprties sel') <= length (sel_required_proprties sel))%nat
  /\ sel_times_called_has_remaining sel' = sel_times_called_has_remaining sel
  /\ sel_proprties sel' = sel_proprties sel
  /\ sel_has_remaining_proprties sel' = sel_has_remaining_proprties sel.
Proof.
  unfold get_proprty.
  destruct group as [l | l];
    (destruct (py_index _ _) as [i | e]; [| discriminate]); cbn [bind];
    (destruct (pool_list sel l !! i) as [q |] eqn:Ei; [| discriminate]).
  - destruct (filter_restriction q) as [[| |] |]; intros [= <- <- <-];
      try (repeat split; reflexivity || lia).
    destruct l; cbn; repeat split; try reflexivity; try lia.
    cbn in Ei. rewrite length_delete by eauto. lia.
  - intros [= <- <- <-].
    destruct l; cbn; repeat split; try reflexivity; try lia.
    cbn in Ei. rewrite length_delete by eauto. lia.
Qed.

Lemma get_random_proprty_budget sel pos p sel' pos' :
  get_random_proprty R sel pos = Ok (p, sel', pos') ->
  (length (sel_required_proprties sel') <= length (sel_required_proprties sel))%nat
  /\ sel_times_called_has_remaining sel' = sel_times_called_has_remaining sel.
Proof.
  unfold get_random_proprty.
  destruct (weighted_random _ _) as [group |]; [| discriminate].
  destruct (get_proprty R group sel (S pos)) as [[[q sel1] pos1] | e] eqn:E1;
    [| discriminate].
  cbn [bind].
  destruct (_update_remaining_proprties sel1) as [sel2 | e] eqn:E2; [| discriminate].
  cbn [bind]. intros [= <- <- <-].
  destruct (get_proprty_budget _ _ _ _ _ _ E1) as (Hlen & Ht & _).
  unfold _update_remaining_proprties in E2.
  destruct (sel_has_remaining_proprties sel1); [| injection E2 as <-; auto].
  destruct (sel_proprties sel1) as [| g1 [| [g2 w2] rest]]; try discriminate.
  destruct (list_truthy _); injection E2 as <-; cbn; auto.
Qed.

(** The calls of [has_remaining] that may still answer [True]. *)
Lemma selector_run_budget sel n sel' :
  selector_run R sel n sel' ->
  (n + (length (sel_required_proprties sel')
        - sel_times_called_has_remaining sel')
   <= length (sel_required_proprties sel) - sel_times_called_has_remaining sel)%nat.
Proof.
  induction 1 as [sel | sel sel1 sel2 p pos pos' n Hget _ IH | sel sel2 n _ IH].
  - lia.
  - apply get_random_proprty_budget in Hget as [Hlen Ht]. lia.
  - revert IH. unfold has_remaining.
    destruct (_ <=? _)%nat eqn:E; cbn [fst snd].
    + lia.
    + apply Nat.leb_gt in E. cbn.
      destruct (sel_has_remaining_proprties sel); lia.
Qed.
End SelectorBudget.

(** X5: the budget of [has_remaining].  Over any sequence of calls to
    [get_random_proprty] and [has_remaining] on a freshly built selector,
    [has_remaining] answers [True] at most as many times as there are
    required properties. *)
Theorem has_remaining_answers_True_at_most_once_per_required (R : RandomSource)
    (filterable required : list Proprty) (n : nat) (sel' : ProprtiesSelector) :
  selector_run R (ProprtiesSelector_init filterable required) n sel' ->
  (n <= length required)%nat.
Proof.
  intros H. apply selector_run_budget in H. cbn in H. lia.
Qed.

Lemma has_remaining_answers_True_at_most_once_per_required_witness :
  exists sel',
    selector_run (constant_source (1 # 4))
      (ProprtiesSelector_init (proprties items)
         (List.filter required_in_filter (proprties items))) 1 sel'
    /\ (1 <= length (List.filter required_in_filter (proprties items)))%nat.
Proof.
  set (sel0 := ProprtiesSelector_init (proprties items)
                 (List.filter required_in_filter (proprties items))).
  assert (Hrun : selector_run (constant_source (1 # 4)) sel0 1
                   (snd (has_remaining sel0))).
  { exact (run_has_remaining (constant_source (1 # 4)) sel0 _ 0
             (run_done (constant_source (1 # 4)) _)). }
  exists (snd (has_remaining sel0)). split; [exact Hrun |].
  exact (has_remaining_answers_True_at_most_once_per_required _ _ _ _ _ Hrun).
Defined.

Section RequiredOnly.
Context (R : RandomSource).
Hypothesis unit_draws : forall k, unit_draw (random_random R k).

(** [round(random.random() * (len(l) - 1))] is an index of a list that is
    not empty. *)
Lemma random_index_valid (len pos : nat) :
  (0 < len)%nat ->
  exists i, py_index len (random_index R len pos) = Ok i /\ (i < len)%nat.
Proof.
  intros Hlen. unfold py_index, random_index.
  pose proof (py_round_unit_scaled _ (Z.of_nat len) (unit_draws pos) ltac:(lia)) as Hk.
  set (k := py_round _) in *. clearbody k.
  destruct (k <? 0) eqn:E1; [apply Z.ltb_lt in E1; lia |].
  destruct (0 <=? k) eqn:E2; [| apply Z.leb_gt in E2; lia].
  destruct (k <? Z.of_nat len) eqn:E3; [| apply Z.ltb_ge in E3; lia].
  cbn. exists (Z.to_nat k). split; [reflexivity | lia].
Qed.

(** The selector while only the required pool can be drawn from. *)
Lemma required_only_draws (n : nat) : forall sel pos,
  sel_proprties sel
  = [(NonRequiredProprties an_empty_list, 0%Q);
     (RequiredProprties the_required_proprties, 1%Q)] ->
  (n <> 0%nat -> sel_has_remaining_proprties sel = true) ->
  length (sel_required_proprties sel) = n ->
  exists drawn sel',
    get_random_proprties R n sel pos = Ok (drawn, sel', (pos + 2 * n)%nat)
    /\ drawn ≡ₚ sel_required_proprties sel
    /\ sel_required_proprties sel' = []
    /\ sel_filterable_proprties sel' = sel_filterable_proprties sel
    /\ (n <> 0%nat ->
        sel_has_remaining_proprties sel' = false
        /\ sel_proprties sel'
           = [(NonRequiredProprties the_filterable_proprties, 1%Q)]).
Proof.
  induction n as [| n IH]; intros sel pos Hpools Hrem Hlen.
  - exists [], sel. cbn. rewrite Nat.add_0_r.
    destruct (sel_required_proprties sel); [| discriminate].
    split; [reflexivity |]. split; [reflexivity |]. split; [reflexivity |].
    split; [reflexivity |]. intros Hn. contradiction.
  - cbn [get_random_proprties]. unfold get_random_proprty.
    rewrite Hpools. cbn [weighted_random].
    destruct (unit_draws pos) as [H0 H1].
    assert (E0 : Qltb (random_random R pos) 0 = false) by (apply Qltb_ge; exact H0).
    assert (E1 : Qltb (random_random R pos - 0) 1 = true) by (apply Qltb_lt; lra).
    rewrite E0, E1. unfold get_proprty. cbn [pool_list].
    destruct (random_index_valid (length (sel_required_proprties sel)) (S pos)
                ltac:(lia)) as (i & -> & Hi).
    cbn [bind].
    destruct (lookup_lt_is_Some_2 _ _ Hi) as [p Hp]. rewrite Hp. cbn [bind].
    set (sel1 := set_pool_list the_required_proprties _ sel).
    assert (Hreq1 : sel_required_proprties sel1 = delete i (sel_required_proprties sel))
      by reflexivity.
    assert (Hlen1 : length (sel_required_proprties sel1) = n).
    { rewrite Hreq1, length_delete by eauto. lia. }
    unfold _update_remaining_proprties.
    change (sel_has_remaining_proprties sel1) with (sel_has_remaining_proprties sel).
    change (sel_proprties sel1) with (sel_proprties sel).
    rewrite (Hrem ltac:(lia)), Hpools. cbn [pool_list].
    assert (Hperm : p :: sel_required_proprties sel1 ≡ₚ sel_required_proprties sel).
    { rewrite Hreq1. symmetry. apply delete_Permutation. exact Hp. }
    destruct (sel_required_proprties sel1) as [| q rest] eqn:Epool; cbn [list_truthy bind].
    + cbn in Hlen1. subst n. cbn [get_random_proprties bind].
      eexists _, _.
      split; [replace (pos + 2 * 1)%nat with (S (S pos)) by lia; reflexivity |].
      split; [exact Hperm |]. cbn. repeat split; reflexivity.
    + destruct (IH sel1 (S (S pos)) Hpools) as (drawn & sel' & -> & Hd & Hr' & Hf' & Hfin).
      * intros _. apply Hrem. lia.
      * rewrite Epool. exact Hlen1.
      * cbn [bind]. exists (p :: drawn), sel'.
        split; [replace (S (S pos) + 2 * n)%nat with (pos + 2 * S n)%nat by lia;
                reflexivity |].
        split; [rewrite Hd, Epool; exact Hperm |].
        split; [exact Hr' |]. split; [exact Hf' |].
        intros _. apply Hfin. rewrite <- Hlen1. discriminate.
Qed.
End RequiredOnly.

(** X6: when every filterable property is required, the first
    [len(required)] draws of a freshly built selector return the required
    properties, each exactly once, whatever the draws from the unit
    interval are; after them no required property is left and the selector
    has switched for good to the pool of all filterable properties. *)
Theorem required_properties_are_drawn_first (R : RandomSource)
    (filterable required : list Proprty) (pos : nat) :
  (forall k, unit_draw (random_random R k)) ->
  non_required_proprties filterable required = [] ->
  exists drawn sel',
    get_random_proprties R (length required)
      (ProprtiesSelector_init filterable required) pos
    = Ok (drawn, sel', (pos + 2 * length required)%nat)
    /\ drawn ≡ₚ required
    /\ sel_required_proprties sel' = []
    /\ (required <> [] ->
        sel_has_remaining_proprties sel' = false
        /\ sel_proprties sel'
           = [(NonRequiredProprties the_filterable_proprties, 1%Q)]).
Proof.
  intros Hdraws Hnon.
  destruct (required_only_draws R Hdraws (length required)
              (ProprtiesSelector_init filterable required) pos)
    as (drawn & sel' & Hrun & Hperm & Hreq & _ & Hfin).
  - unfold ProprtiesSelector_init, _init_tuples. rewrite Hnon. reflexivity.
  - intros Hn. cbn. destruct required; [contradiction | reflexivity].
  - reflexivity.
  - exists drawn, sel'. split; [exact Hrun |]. split; [exact Hperm |].
    split; [exact Hreq |]. intros Hne. apply Hfin.
    destruct required; [contradiction | discriminate].
Qed.

Lemma required_properties_are_drawn_first_witness :
  non_required_proprties (proprties items)
    (List.filter required_in_filter (proprties items)) = []
  /\ exists drawn sel',
       get_random_proprties (constant_source (1 # 4)) 1
         (ProprtiesSelector_init (proprties items)
            (List.filter required_in_filter (proprties items))) 0
       = Ok (drawn, sel', 2%nat)
       /\ drawn ≡ₚ List.filter required_in_filter (proprties items)
       /\ sel_required_proprties sel' = [].
Proof.
  assert (Hnon : non_required_proprties (proprties items)
                   (List.filter required_in_filter (proprties items)) = [])
    by reflexivity.
  split; [exact Hnon |].
  assert (Hdraws : forall k, unit_draw (random_random (constant_source (1 # 4)) k)).
  { intros k. split; vm_compute; [discriminate | reflexivity]. }
  destruct (required_properties_are_drawn_first (constant_source (1 # 4))
              (proprties items)
              (List.filter required_in_filter (proprties items)) 0 Hdraws Hnon)
    as (drawn & sel' & Hrun & Hperm & Hreq & _).
  exists drawn, sel'. split; [exact Hrun |]. split; [exact Hperm | exact Hreq].
Defined.

(** ** The function families *)

Section Families.

(** What the group holds after the properties [seen] were filed: under
    each key the family instance with the properties that join it, in
    order, and no key without a property. *)
Let filed (seen : list Proprty) (group : list (string * FilterFunctions)) : Prop :=
  NoDup (map fst group)
  /\ forall key w,
       In (key, w) group <->
       exists cls,
         family_of_key key = Some cls
         /\ w = {| class_ := cls; ff_proprties := List.filter (joins_family key) seen |}
         /\ List.filter (joins_family key) seen <> [].

Lemma setdefault_add_keys key cls p group :
  map fst (setdefault_add key cls p group)
  = if existsb (String.eqb key) (map fst group) then map fst group
    else map fst group ++ [key].
Proof.
  induction group as [| [k w] group IH]; cbn; [reflexivity |].
  rewrite (String.eqb_sym key k). destruct (String.eqb k key); cbn; [reflexivity |].
  rewrite IH. destruct (existsb _ _); reflexivity.
Qed.

Lemma setdefault_add_In key cls p group k w :
  NoDup (map fst group) ->
  In (k, w) (setdefault_add key cls p group) <->
  (k <> key /\ In (k, w) group)
  \/ (k = key
      /\ ((exists w0, In (key, w0) group /\ w = add_proprty p w0)
          \/ (~ In key (map fst group)
              /\ w = add_proprty p {| class_ := cls; ff_proprties := [] |}))).
Proof.
  induction group as [| [k0 w0] group IH]; cbn; intros Hnd.
  - split.
    + intros [[= <- <-] | []]. right. split; [reflexivity |]. right. auto.
    + intros [[_ []] | [-> [(w1 & [] & _) | [_ ->]]]]. left. reflexivity.
  - apply NoDup_cons in Hnd as [Hk0 Hnd]. specialize (IH Hnd).
    destruct (String.eqb k0 key) eqn:E.
    + apply String.eqb_eq in E. subst k0. cbn. split.
      * intros [[= <- <-] | Hin].
        -- right. split; [reflexivity |]. left. exists w0. auto.
        -- left. split; [| right; exact Hin].
           intros ->. apply Hk0. apply list_elem_of_In, in_map_iff.
           exists (key, w). auto.
      * intros [[Hne [[= -> ->] | Hin]] | [-> [(w1 & [[= ->] | Hin] & ->) | [Hno _]]]].
        -- contradiction.
        -- right. exact Hin.
        -- left. reflexivity.
        -- exfalso. apply Hk0. apply list_elem_of_In, in_map_iff.
           exists (key, w1). auto.
        -- exfalso. apply Hno. left. reflexivity.
    + apply String.eqb_neq in E. cbn. rewrite IH. split.
      * intros [[= <- <-] | [[Hne Hin] | [-> H]]].
        -- left. split; [exact E | left; reflexivity].
        -- left. split; [exact Hne | right; exact Hin].
        -- right. split; [reflexivity |].
           destruct H as [(w1 & Hin & ->) | [Hno ->]].
           ++ left. exists w1. split; [right; exact Hin | reflexivity].
           ++ right. split; [| reflexivity]. intros [Heq | Hin]; [congruence | auto].
      * intros [[Hne [[= <- <-] | Hin]] | [-> H]].
        -- left. reflexivity.
        -- right. left. auto.
        -- right. right. split; [reflexivity |].
           destruct H as [(w1 & [[= -> _] | Hin] & ->) | [Hno ->]].
           ++ congruence.
           ++ left. exists w1. auto.
           ++ right. split; [| reflexivity]. intros Hin. apply Hno. right. exact Hin.
Qed.

Lemma filed_setdefault_add seen group kk cls p :
  family_of_key kk = Some cls ->
  (forall key, joins_family key p = String.eqb kk key) ->
  filed seen group ->
  filed (seen ++ [p]) (setdefault_add kk cls p group).
Proof.
  intros Hfam Hjoin [Hnd Hin]. split.
  - rewrite setdefault_add_keys. destruct (existsb _ _) eqn:E; [exact Hnd |].
    apply NoDup_app. split; [exact Hnd |]. split; [| apply NoDup_singleton].
    intros k Hk Hk'. apply list_elem_of_singleton in Hk'. subst k.
    assert (Hex : existsb (String.eqb kk) (map fst group) = true).
    { apply existsb_exists. exists kk. split; [| apply String.eqb_refl].
      apply list_elem_of_In. exact Hk. }
    congruence.
  - intros key w. rewrite (setdefault_add_In _ _ _ _ _ _ Hnd).
    rewrite List.filter_app. cbn [List.filter]. rewrite Hjoin.
    destruct (String.eqb kk key) eqn:E.
    + apply String.eqb_eq in E. subst key. split.
      * intros [[Hne _] | [_ [(w0 & Hw0 & ->) | [Hno ->]]]]; [contradiction | |].
        -- apply Hin in Hw0 as (cls0 & Hf0 & -> & Hne0).
           exists cls0. split; [exact Hf0 |]. split; [reflexivity |].
           intros H. apply app_eq_nil in H as [_ H]. discriminate.
        -- exists cls. split; [exact Hfam |].
           assert (Hempty : List.filter (joins_family kk) seen = []).
           { destruct (List.filter (joins_family kk) seen) as [| q rest] eqn:Ef;
               [reflexivity |].
             exfalso. apply Hno. apply in_map_iff.
             exists (kk, {| class_ := cls; ff_proprties := q :: rest |}).
             split; [reflexivity |]. apply Hin. exists cls.
             rewrite Ef. split; [exact Hfam |]. split; [reflexivity | discriminate]. }
           rewrite Hempty. split; [reflexivity | discriminate].
      * intros (cls' & Hf' & -> & _). right. split; [reflexivity |].
        assert (cls' = cls) by congruence. subst cls'.
        destruct (List.filter (joins_family kk) seen) as [| q rest] eqn:Ef.
        -- right. split; [| reflexivity].
           intros Hk. apply in_map_iff in Hk as ([k0 w0] & Hk0 & Hw0).
           cbn in Hk0. subst k0. apply Hin in Hw0 as (_ & _ & _ & Hne).
           apply Hne. exact Ef.
        -- left. exists {| class_ := cls; ff_proprties := q :: rest |}.
           split; [| reflexivity]. apply Hin. exists cls. rewrite Ef.
           split; [exact Hfam |]. split; [reflexivity | discriminate].
    + apply String.eqb_neq in E. rewrite app_nil_r. rewrite <- Hin. split.
      * intros [[_ H] | [-> _]]; [exact H | contradiction].
      * intros H. left. split; [congruence | exact H].
Qed.

Lemma filed_unchanged seen group p :
  (forall key, joins_family key p = false) ->
  filed seen group -> filed (seen ++ [p]) group.
Proof.
  intros Hjoin [Hnd Hin]. split; [exact Hnd |].
  intros key w. rewrite List.filter_app. cbn [List.filter]. rewrite Hjoin, app_nil_r.
  apply Hin.
Qed.

Lemma _init_functions_group_filed (props : list Proprty) : forall seen group,
  filed seen group ->
  filed (seen ++ props) (_init_functions_group props group).
Proof.
  induction props as [| p props IH]; intros seen group Hf.
  - rewrite app_nil_r. exact Hf.
  - cbn [_init_functions_group].
    replace (seen ++ p :: props) with ((seen ++ [p]) ++ props)
      by (rewrite <- app_assoc; reflexivity).
    apply IH.
    destruct (filter_restriction p) as [fr |] eqn:Er.
    { apply filed_unchanged; [| exact Hf]. intros key. unfold joins_family.
      rewrite Er. reflexivity. }
    destruct (String.eqb (typ_name p) "Edm.String") eqn:E1.
    { apply filed_setdefault_add; [reflexivity | | exact Hf]. intros key.
      unfold joins_family, key_of_type. rewrite Er, E1. reflexivity. }
    destruct (String.eqb (typ_name p) "Edm.DateTime") eqn:E2.
    { apply filed_setdefault_add; [reflexivity | | exact Hf]. intros key.
      unfold joins_family, key_of_type. rewrite Er, E1, E2. reflexivity. }
    destruct (String.eqb (typ_name p) "Edm.Decimal") eqn:E3.
    { apply filed_setdefault_add; [reflexivity | | exact Hf]. intros key.
      unfold joins_family, key_of_type. rewrite Er, E1, E2, E3. reflexivity. }
    apply filed_unchanged; [| exact Hf]. intros key. unfold joins_family, key_of_type.
    rewrite Er, E1, E2, E3. reflexivity.
Qed.

Lemma _init_functions_group_spec (props : list Proprty) :
  NoDup (map fst (_init_functions_group props []))
  /\ forall key w,
       In (key, w) (_init_functions_group props []) <->
       exists cls,
         family_of_key key = Some cls
         /\ w = {| class_ := cls; ff_proprties := List.filter (joins_family key) props |}
         /\ List.filter (joins_family key) props <> [].
Proof.
  apply (_init_functions_group_filed props [] []). split; [constructor |].
  intros key w. cbn. split; [intros [] | intros (_ & _ & _ & H); contradiction].
Qed.
End Families.

(** X7: how [FilterFunctionsGroup] files the properties.  The group built
    from a list of properties has one entry per family key, and under a
    key it holds the instance of that key's class with exactly the
    properties of the key's type that carry no filter restriction, in the
    order of the list; a key with no such property has no entry, so a
    restricted property is offered to no filter function. *)
Theorem functions_group_files_unrestricted_by_type (props : list Proprty) :
  NoDup (map fst (_init_functions_group props []))
  /\ (forall key w,
        In (key, w) (_init_functions_group props []) <->
        exists cls,
          family_of_key key = Some cls
          /\ w = {| class_ := cls;
                    ff_proprties := List.filter (joins_family key) props |}
          /\ List.filter (joins_family key) props <> [])
  /\ (forall key w p,
        In (key, w) (_init_functions_group props []) ->
        In p (ff_proprties w) ->
        In p props /\ filter_restriction p = None
        /\ key_of_type (typ_name p) = Some key).
Proof.
  destruct (_init_functions_group_spec props) as [Hnd Hin].
  split; [exact Hnd |]. split; [exact Hin |].
  intros key w p Hw Hp. apply Hin in Hw as (cls & _ & -> & _). cbn in Hp.
  apply filter_In in Hp as [Hp Hj]. split; [exact Hp |].
  unfold joins_family in Hj.
  destruct (filter_restriction p); [discriminate |].
  destruct (key_of_type (typ_name p)) as [k |]; [| discriminate].
  apply String.eqb_eq in Hj. subst k. auto.
Qed.

(** ** Excluded functions *)

Lemma get_set_methods_same T cls ms :
  get_methods_dict (set_methods cls ms T) cls = ms.
Proof. destruct cls; reflexivity. Qed.

Lemma get_set_methods_other T cls cls' ms :
  cls' <> cls -> get_methods_dict (set_methods cls ms T) cls' = get_methods_dict T cls'.
Proof. destruct cls, cls'; intros H; try reflexivity; contradiction. Qed.

Lemma delattr_cases T cls n :
  (has_method (get_methods_dict T cls) n = false
   /\ delattr T cls n = Raise AttributeError)
  \/ (has_method (get_methods_dict T cls) n = true
      /\ exists T', delattr T cls n = Ok T'
         /\ has_method (get_methods_dict T' cls) n = false
         /\ (forall m, has_method (get_methods_dict T cls) m = false ->
                       has_method (get_methods_dict T' cls) m = false)
         /\ (forall cls', cls' <> cls ->
                          get_methods_dict T' cls' = get_methods_dict T cls')).
Proof.
  unfold delattr. destruct (has_method (get_methods_dict T cls) n) eqn:E.
  - right. split; [reflexivity |]. eexists. split; [reflexivity |].
    rewrite get_set_methods_same. split; [| split].
    + unfold has_method. apply not_true_is_false. intros H.
      apply existsb_exists in H as (m & Hm & Hn).
      apply filter_In in Hm as [_ Hm]. rewrite Hn in Hm. discriminate.
    + intros m Hm. unfold has_method in *. apply not_true_is_false. intros H.
      apply existsb_exists in H as (x & Hx & Hxm).
      apply filter_In in Hx as [Hx _].
      assert (existsb (fun m0 => String.eqb (method_name m0) m)
                (get_methods_dict T cls) = true)
        by (apply existsb_exists; eauto).
      congruence.
    + intros cls' Hne. apply get_set_methods_other. exact Hne.
  - left. auto.
Qed.

Section Exclusions.
Context (md : list Method) (cls : Family).

(** Once the class has lost a method that the snapshot [methods_dict]
    still lists, naming that method again raises. *)
Lemma delete_from_class_stale f (fs : list string) : forall T,
  has_method md ("func_" ++ f) = true ->
  has_method (get_methods_dict T cls) ("func_" ++ f) = false ->
  In f fs ->
  delete_from_class md cls fs T = Raise AttributeError.
Proof.
  induction fs as [| g fs IH]; intros T Hmd Hgone Hin; [contradiction |].
  cbn [delete_from_class].
  destruct (string_dec g f) as [-> | Hne].
  - rewrite Hmd. destruct (delattr_cases T cls ("func_" ++ f)) as [[_ ->] | [H _]];
      [reflexivity | congruence].
  - destruct Hin as [-> | Hin]; [contradiction |].
    destruct (has_method md ("func_" ++ g)); [| apply IH; assumption].
    destruct (delattr_cases T cls ("func_" ++ g))
      as [[_ ->] | [_ (T' & -> & _ & Hstay & _)]]; [reflexivity |].
    cbn [bind]. apply IH; auto.
Qed.

Lemma delete_from_class_twice f (l1 l2 l3 : list string) : forall T,
  has_method md ("func_" ++ f) = true ->
  delete_from_class md cls (l1 ++ f :: l2 ++ f :: l3) T = Raise AttributeError.
Proof.
  induction l1 as [| g l1 IH]; intros T Hmd; cbn [app delete_from_class].
  - rewrite Hmd.
    destruct (delattr_cases T cls ("func_" ++ f))
      as [[_ ->] | [_ (T' & -> & Hgone & _)]]; [reflexivity |].
    cbn [bind]. apply (delete_from_class_stale f); auto.
    apply in_or_app. right. left. reflexivity.
  - destruct (has_method md ("func_" ++ g)); [| apply IH; assumption].
    destruct (delattr_cases T cls ("func_" ++ g))
      as [[_ ->] | [_ (T' & -> & _)]]; [reflexivity |].
    cbn [bind]. apply IH. assumption.
Qed.

(** The deletions raise nothing but [AttributeError], and touch no other
    class. *)
Lemma delete_from_class_cases (fs : list string) : forall T,
  delete_from_class md cls fs T = Raise AttributeError
  \/ exists T', delete_from_class md cls fs T = Ok T'
       /\ forall cls', cls' <> cls ->
            get_methods_dict T' cls' = get_methods_dict T cls'.
Proof.
  induction fs as [| g fs IH]; intros T; cbn [delete_from_class].
  - right. exists T. auto.
  - destruct (has_method md ("func_" ++ g)); [| apply IH].
    destruct (delattr_cases T cls ("func_" ++ g))
      as [[_ ->] | [_ (T' & -> & _ & _ & Hother)]]; [left; reflexivity |].
    cbn [bind]. destruct (IH T') as [-> | (T'' & -> & Hother')];
      [left; reflexivity |].
    right. exists T''. split; [reflexivity |]. intros cls' Hne.
    rewrite Hother' by exact Hne. apply Hother. exact Hne.
Qed.
End Exclusions.

Lemma _delete_restricted_functions_twice f l1 l2 l3
    (items : list (string * FilterFunctions)) : forall group T key w,
  In (key, w) items ->
  has_method (get_methods_dict T (class_ w)) ("func_" ++ f) = true ->
  _delete_restricted_functions items (l1 ++ f :: l2 ++ f :: l3) group T
  = Raise AttributeError.
Proof.
  induction items as [| [k0 w0] items IH]; intros group T key w Hin Hm;
    [contradiction |].
  cbn [_delete_restricted_functions].
  assert (Hdec : {class_ w0 = class_ w} + {class_ w0 <> class_ w})
    by decide equality.
  destruct Hdec as [Heq | Hne].
  - rewrite Heq, (delete_from_class_twice _ _ f l1 l2 l3 T Hm). reflexivity.
  - destruct (delete_from_class_cases (get_methods_dict T (class_ w0)) (class_ w0)
                (l1 ++ f :: l2 ++ f :: l3) T) as [-> | (T' & -> & Hother)];
      [reflexivity |].
    cbn [bind]. destruct Hin as [[= -> ->] | Hin]; [contradiction |].
    apply (IH _ _ key w Hin). rewrite Hother by (intros H; apply Hne; symmetry; exact H).
    exact Hm.
Qed.

(** X8: a function excluded twice.  [_delete_restricted_functions] reads
    the methods of a family class once and then deletes from the class for
    every listed name; if the exclusion list names the same function twice
    and the group holds a family whose class has that function, building
    the [FilterFunctionsGroup] raises [AttributeError]. *)
Theorem function_excluded_twice_raises (C : Constants) (props : list Proprty)
    (r : QueryRestriction) (T : ClassTable) (f : string) (l1 l2 l3 : list string)
    (key : string) (w : FilterFunctions) :
  exclude r !! GLOBAL_FUNCTION C = Some (l1 ++ f :: l2 ++ f :: l3) ->
  In (key, w) (_init_functions_group props []) ->
  has_method (exposed_functions T w) ("func_" ++ f) = true ->
  FilterFunctionsGroup C props (Some r) T = Raise AttributeError.
Proof.
  intros Hex Hin Hm. unfold FilterFunctionsGroup.
  destruct (_init_functions_group props []) as [| kw group] eqn:Eg; [contradiction |].
  cbn [list_truthy]. unfold _apply_restrictions.
  rewrite (present_key_truthy _ _ _ Hex).
  assert (Hgl : get_list (exclude r) (GLOBAL_FUNCTION C) = l1 ++ f :: l2 ++ f :: l3)
    by (unfold get_list; rewrite Hex; reflexivity).
  rewrite Hgl.
  assert (Ht : list_truthy (l1 ++ f :: l2 ++ f :: l3) = true)
    by (destruct l1; reflexivity).
  rewrite Ht.
  exact (_delete_restricted_functions_twice f l1 l2 l3 _ _ T key w Hin Hm).
Qed.

Lemma function_excluded_twice_raises_witness :
  exclude exclude_day_twice !! GLOBAL_FUNCTION example_constants
  = Some ([] ++ "day"%string :: [] ++ "day"%string :: [])
  /\ FilterFunctionsGroup example_constants (proprties orders)
       (Some exclude_day_twice) initial_classes = Raise AttributeError.
Proof.
  assert (Hex : exclude exclude_day_twice !! GLOBAL_FUNCTION example_constants
                = Some ([] ++ "day"%string :: [] ++ "day"%string :: []))
    by (vm_compute; reflexivity).
  split; [exact Hex |].
  apply (function_excluded_twice_raises example_constants (proprties orders)
           exclude_day_twice initial_classes "day" [] [] [] "Date"
           {| class_ := DateFilterFunctions; ff_proprties := proprties orders |} Hex).
  - vm_compute. left. reflexivity.
  - vm_compute. reflexivity.
Defined.

Lemma family_of_key_inj (k k' : string) (cls : Family) :
  family_of_key k = Some cls -> family_of_key k' = Some cls -> k = k'.
Proof.
  unfold family_of_key.
  destruct (String.eqb k "String") eqn:E1; [apply String.eqb_eq in E1 |];
  (destruct (String.eqb k "Date") eqn:E2; [apply String.eqb_eq in E2 |]);
  (destruct (String.eqb k "Math") eqn:E3; [apply String.eqb_eq in E3 |]);
  (destruct (String.eqb k' "String") eqn:F1; [apply String.eqb_eq in F1 |]);
  (destruct (String.eqb k' "Date") eqn:F2; [apply String.eqb_eq in F2 |]);
  (destruct (String.eqb k' "Math") eqn:F3; [apply String.eqb_eq in F3 |]);
  congruence.
Qed.

Section EmptiedFamilies.
Context (all : list (string * FilterFunctions)) (fs : list string).
Hypothesis one_entry_per_class : forall k w k' w',
  In (k, w) all -> In (k', w') all -> class_ w = class_ w' -> (k, w) = (k', w').

Lemma _delete_restricted_functions_nonempty (items : list (string * FilterFunctions)) :
  forall group T group' T',
  (forall x, In x items -> In x all) ->
  (forall x, In x group -> In x all) ->
  (forall k w, In (k, w) group ->
     In (k, w) items \/ get_methods_dict T (class_ w) <> []) ->
  _delete_restricted_functions items fs group T = Ok (group', T') ->
  forall k w, In (k, w) group' -> get_methods_dict T' (class_ w) <> [].
Proof.
  induction items as [| [k0 w0] items IH]; intros group T group' T' Hitems Hgroup Hinv.
  - cbn. intros [= <- <-] k w Hin. destruct (Hinv k w Hin) as [[] | H]. exact H.
  - cbn [_delete_restricted_functions].
    destruct (delete_from_class_cases (get_methods_dict T (class_ w0)) (class_ w0) fs T)
      as [-> | (T1 & -> & Hother)]; [discriminate |].
    cbn [bind]. apply IH.
    + intros x Hx. apply Hitems. right. exact Hx.
    + intros x Hx. apply Hgroup.
      destruct (list_truthy _); [exact Hx |]. apply filter_In in Hx as [Hx _]. exact Hx.
    + intros k w Hin.
      assert (Hin0 : In (k, w) group).
      { destruct (list_truthy _); [exact Hin |]. apply filter_In in Hin as [Hin _].
        exact Hin. }
      assert (Hdec : {class_ w = class_ w0} + {class_ w <> class_ w0})
        by decide equality.
      destruct Hdec as [Heq | Hne].
      * assert (Hsame : (k, w) = (k0, w0)).
        { apply one_entry_per_class; [apply Hgroup; exact Hin0 | | exact Heq].
          apply Hitems. left. reflexivity. }
        injection Hsame as -> ->. right.
        destruct (get_methods_dict T1 (class_ w0)) eqn:E; [| discriminate].
        cbn [list_truthy] in Hin. apply filter_In in Hin as [_ Hin].
        cbn in Hin. rewrite String.eqb_refl in Hin. discriminate.
      * destruct (Hinv k w Hin0) as [[[= -> ->] | Hrest] | Hnonempty].
        -- contradiction.
        -- left. exact Hrest.
        -- right. rewrite Hother by exact Hne. exact Hnonempty.
Qed.
End EmptiedFamilies.

(** X9: a family that stays in the group can be called.  When the filter
    restrictions exclude functions and [FilterFunctionsGroup] is built
    without raising, every family left in its group exposes at least one
    function: a family whose functions are all excluded is removed from
    the group. *)
Theorem remaining_families_expose_functions (C : Constants) (props : list Proprty)
    (r : QueryRestriction) (T T' : ClassTable)
    (group' : list (string * FilterFunctions)) :
  get_list (exclude r) (GLOBAL_FUNCTION C) <> [] ->
  FilterFunctionsGroup C props (Some r) T = Ok (group', T') ->
  forall key w, In (key, w) group' -> exposed_functions T' w <> [].
Proof.
  intros Hfs. unfold FilterFunctionsGroup.
  destruct (_init_functions_group_spec props) as [Hnd Hspec].
  destruct (list_truthy (_init_functions_group props [])) eqn:Et.
  - unfold _apply_restrictions.
    destruct (dict_truthy (exclude r)) eqn:Ed.
    + destruct (list_truthy (get_list _ _)) eqn:El.
      * intros E. unfold exposed_functions.
        refine (_delete_restricted_functions_nonempty
                  (_init_functions_group props []) _ _ _ _ _ _ _ _ _ _ E);
          auto.
        intros k w k' w' Hin Hin' Hcls.
        apply Hspec in Hin as (cls & Hf & -> & _).
        apply Hspec in Hin' as (cls' & Hf' & -> & _).
        cbn in Hcls. subst cls'.
        rewrite (family_of_key_inj _ _ _ Hf Hf'). reflexivity.
      * destruct (get_list _ _); [contradiction | discriminate].
    + exfalso. apply Hfs. unfold get_list, dict_truthy in *.
      apply negb_false_iff, bool_decide_eq_true in Ed. rewrite Ed. reflexivity.
  - destruct (_init_functions_group props []); [| discriminate].
    intros [= <- _] key w [].
Qed.

Lemma remaining_families_expose_functions_witness :
  get_list (exclude exclude_day) (GLOBAL_FUNCTION example_constants) <> []
  /\ exists group' T',
       FilterFunctionsGroup example_constants (proprties orders) (Some exclude_day)
         initial_classes = Ok (group', T')
       /\ map fst group' = ["Date"%string]
       /\ forall key w, In (key, w) group' -> exposed_functions T' w <> [].
Proof.
  assert (Hfs : get_list (exclude exclude_day) (GLOBAL_FUNCTION example_constants) <> [])
    by (vm_compute; discriminate).
  split; [exact Hfs |].
  destruct (FilterFunctionsGroup example_constants (proprties orders)
              (Some exclude_day) initial_classes) as [[group' T'] | e] eqn:E;
    [| vm_compute in E; discriminate].
  exists group', T'. split; [reflexivity |]. split.
  - vm_compute in E. injection E as <- _. reflexivity.
  - exact (remaining_families_expose_functions _ _ _ _ _ _ Hfs E).
Defined.

(** ** The tables of [$top] and [$skip] *)

Section RangeTables.
Context (C : Constants) (R : RandomSource).

Lemma full_table_selects (a b : Z) (r : Q) :
  unit_draw r ->
  exists s, weighted_random [(a, 1 # 1000); (b, 999 # 1000)] r = Some s.
Proof.
  intros [H0 H1]. cbn. destruct (Qltb r (1 # 1000)) eqn:E; [eauto |].
  apply Qltb_ge in E.
  assert (E2 : Qltb (r - (1 # 1000)) (999 # 1000) = true) by (apply Qltb_lt; lra).
  rewrite E2. eauto.
Qed.

Lemma single_table_selects (a : Z) (r : Q) :
  unit_draw r -> weighted_random [(a, 1%Q)] r = Some a.
Proof.
  intros [H0 H1]. cbn.
  assert (E : Qltb r 1 = true) by (apply Qltb_lt; exact H1).
  rewrite E. reflexivity.
Qed.

Lemma SkipQuery_init_table n restr skip :
  SkipQuery_init C n restr = Ok skip ->
  _max_range_prob skip = [(INT_MAX C, 1%Q)]
  \/ exists total, total <> INT_MAX C
       /\ _max_range_prob skip = [(INT_MAX C, 1 # 1000); (total, 999 # 1000)].
Proof.
  unfold SkipQuery_init, SkipQuery__set_max_range. cbn [dict_set].
  rewrite Z.eqb_refl.
  destruct (match include_values restr n with
            | Some max_values => first_as_int max_values
            | None => Ok (INT_MAX C)
            end) as [total | e]; [| discriminate].
  cbn [bind]. destruct (total =? INT_MAX C) eqn:E.
  - apply Z.eqb_eq in E. subst total. cbn [dict_set bind]. rewrite Z.eqb_refl.
    intros [= <-]. left. reflexivity.
  - cbn [dict_set bind]. rewrite Z.eqb_sym, E. intros [= <-]. right.
    exists total. apply Z.eqb_neq in E. auto.
Qed.

Lemma TopQuery_init_table n restr dispatcher top :
  1000 < INT_MAX C ->
  TopQuery_init C n restr dispatcher = Ok top ->
  exists total,
    total <= 1000
    /\ _max_range_prob top = [(INT_MAX C, 1 # 1000); (total, 999 # 1000)].
Proof.
  intros Hmax. unfold TopQuery_init, TopQuery__set_max_range. cbn [dict_set].
  rewrite Z.eqb_refl.
  destruct (match include_values restr n with
            | Some max_values => first_as_int max_values
            | None => _get_total_entities C n dispatcher
            end) as [total | e]; [| discriminate].
  cbn [bind]. destruct (1000 <? total) eqn:E.
  - cbn [dict_set bind].
    assert (E2 : (INT_MAX C =? 1000) = false) by (apply Z.eqb_neq; lia).
    rewrite E2. intros [= <-]. exists 1000. split; [lia | reflexivity].
  - apply Z.ltb_ge in E. cbn [dict_set bind].
    assert (E2 : (INT_MAX C =? total) = false) by (apply Z.eqb_neq; lia).
    rewrite E2. intros [= <-]. exists total. split; [lia | reflexivity].
Qed.

(** [generate] succeeds once the table selects a value. *)
Lemma range_generate_selected other self dd pos s :
  weighted_random (_max_range_prob self) (random_random R pos) = Some s ->
  exists v, range_generate C R other self dd pos
            = Ok (v, {| _max_range_prob := _max_range_prob self;
                        _depending_data := v |}, S (S pos)).
Proof.
  intros Hs. unfold range_generate. rewrite Hs.
  destruct (dd !! other) as [o |]; [| eexists; reflexivity].
  destruct (o =? 0); [eexists; reflexivity |].
  destruct (INT_MAX C <? o + s); eexists; reflexivity.
Qed.
End RangeTables.

(** X10: [$top] and [$skip] always generate.  With [INT_MAX] above 1000,
    the tables that [TopQuery] and [SkipQuery] build cover the whole unit
    interval, for whatever restrictions and count the service answered:
    [generate] raises for no draw and no depending data, consumes two
    draws, keeps the table and records the value it returns. *)
Theorem top_and_skip_always_generate (C : Constants) (R : RandomSource)
    (n : string) (restr : option QueryRestriction) (dispatcher : Dispatcher)
    (top skip : RangeQuery) (dd : gmap string Z) (pos : nat) :
  1000 < INT_MAX C ->
  unit_draw (random_random R pos) ->
  TopQuery_init C n restr dispatcher = Ok top ->
  SkipQuery_init C n restr = Ok skip ->
  (exists t, TopQuery_generate C R top dd pos
             = Ok (t, {| _max_range_prob := _max_range_prob top;
                         _depending_data := t |}, S (S pos)))
  /\ (exists s, SkipQuery_generate C R skip dd pos
                = Ok (s, {| _max_range_prob := _max_range_prob skip;
                            _depending_data := s |}, S (S pos))).
Proof.
  intros Hmax Hr Htop Hskip. split.
  - destruct (TopQuery_init_table C _ _ _ _ Hmax Htop) as (total & _ & Ht).
    destruct (full_table_selects (INT_MAX C) total _ Hr) as [s Hs].
    rewrite <- Ht in Hs. exact (range_generate_selected C R _ _ _ _ _ Hs).
  - destruct (SkipQuery_init_table C _ _ _ Hskip) as [Ht | (total & _ & Ht)].
    + pose proof (single_table_selects (INT_MAX C) _ Hr) as Hs.
      rewrite <- Ht in Hs. exact (range_generate_selected C R _ _ _ _ _ Hs).
    + destruct (full_table_selects (INT_MAX C) total _ Hr) as [s Hs].
      rewrite <- Ht in Hs. exact (range_generate_selected C R _ _ _ _ _ Hs).
Qed.

Lemma top_and_skip_always_generate_witness :
  exists top skip t s,
    TopQuery_init example_constants "Products" None (answering "40") = Ok top
    /\ SkipQuery_init example_constants "Products" None = Ok skip
    /\ fst (fst t) = 20
    /\ TopQuery_generate example_constants (constant_source (1 # 2)) top ∅ 0 = Ok t
    /\ SkipQuery_generate example_constants (constant_source (1 # 2)) skip ∅ 0 = Ok s.
Proof.
  assert (Hmax : 1000 < INT_MAX example_constants) by reflexivity.
  assert (Hr : unit_draw (random_random (constant_source (1 # 2)) 0))
    by (split; vm_compute; [discriminate | reflexivity]).
  assert (Htop : TopQuery_init example_constants "Products" None (answering "40")
                 = Ok top_of_forty) by (vm_compute; reflexivity).
  assert (Hskip : SkipQuery_init example_constants "Products" None
                  = Ok skip_unrestricted) by (vm_compute; reflexivity).
  destruct (top_and_skip_always_generate example_constants (constant_source (1 # 2))
              "Products" None (answering "40") top_of_forty skip_unrestricted ∅ 0
              Hmax Hr Htop Hskip) as [[t Ht] [s Hs]].
  eexists top_of_forty, skip_unrestricted, _, _.
  split; [exact Htop |]. split; [exact Hskip |].
  split; [| split; [exact Ht | exact Hs]].
  vm_compute in Ht. injection Ht as <-. reflexivity.
Defined.

(** ** The options of a query group *)

Section GroupOptions.
Context (C : Constants) (dispatcher : Dispatcher).

Lemma _init_filter_query_option g w g' w' :
  _init_filter_query C g w = Ok (g', w') ->
  g' = g
  \/ exists q, g' = add_option (FILTER C) (a_FilterQuery q) (needs_filter w) g.
Proof.
  unfold _init_filter_query, _get_restrictions at 1, needs_filter.
  destruct (the_restrictions w) as [r |] eqn:Hr.
  - destruct (restriction r (FILTER C)) as [q0 | e]; [| discriminate].
    cbn [bind restr is_not_restricted].
    unfold _delete_restricted_proprties.
    destruct (restr_proprty_list C (Some (FILTER C)) w) as [l w1].
    match goal with
    | |- (if ?c then _ else _) = _ -> _ => destruct c
    end; [| intros [= <- <-]; left; reflexivity].
    destruct (_get_restrictions C (FILTER C) _) as [o |]; [| discriminate].
    cbn [bind].
    destruct (FilterQuery_init _ _ _ _ _) as [[q T] | e]; [| discriminate].
    cbn [bind]. intros [= <- <-]. right. exists q. reflexivity.
  - cbn [bind restr is_not_restricted].
    unfold _delete_restricted_proprties.
    rewrite restr_proprty_list_None.
    match goal with
    | |- (if ?c then _ else _) = _ -> _ => destruct c
    end; [| intros [= <- <-]; left; reflexivity].
    destruct (_get_restrictions C (FILTER C) _) as [o |]; [| discriminate].
    cbn [bind].
    destruct (FilterQuery_init _ _ _ _ _) as [[q T] | e]; [| discriminate].
    cbn [bind]. intros [= <- <-]. right. exists q. reflexivity.
Qed.

Lemma _init_orderby_query_option g w g' w' :
  _init_orderby_query C g w = Ok (g', w') ->
  g' = g \/ exists q, g' = add_option (ORDERBY C) q false g.
Proof.
  unfold _init_orderby_query.
  destruct (_get_restrictions C (ORDERBY C) w) as [o |]; [| discriminate].
  cbn [bind]. destruct (_delete_restricted_proprties _ _ _ _ _) as [e w1].
  destruct (_ && _); intros [= <- <-]; [right; eexists; reflexivity | left; reflexivity].
Qed.

Lemma _init_expand_query_option g w g' w' :
  _init_expand_query C g w = Ok (g', w') ->
  g' = g
  \/ (_nav_properties (the_entity_set w) <> []
      /\ exists q, g' = add_option (EXPAND C) q false g).
Proof.
  unfold _init_expand_query.
  destruct (_get_restrictions C (EXPAND C) w) as [o |]; [| discriminate].
  cbn [bind]. destruct (is_not_restricted o); cbn [andb];
    [| intros [= <- <-]; left; reflexivity].
  destruct (_nav_properties (the_entity_set w)) eqn:E; cbn [list_truthy];
    intros [= <- <-]; [left; reflexivity |].
  right. split; [discriminate | eexists; reflexivity].
Qed.

Lemma _init_query_type_option is_top g w g' w' :
  _init_query_type C dispatcher is_top g w = Ok (g', w') ->
  g' = g
  \/ ((if is_top then topable (the_entity_set w) else pageable (the_entity_set w))
      = true
      /\ exists q required,
           g' = add_option (if is_top then TOP C else SKIP C) q required g).
Proof.
  unfold _init_query_type.
  destruct (_get_restrictions C _ w) as [o |]; [| discriminate].
  cbn [bind].
  destruct (if is_top then topable _ else pageable _); cbn [andb];
    [| intros [= <- <-]; left; reflexivity].
  destruct (is_not_restricted o); [| intros [= <- <-]; left; reflexivity].
  destruct is_top.
  - destruct (TopQuery_init _ _ _ _) as [q |]; [| discriminate]. cbn [bind].
    intros [= <- <-]. right. split; [reflexivity |]. eexists _, _. reflexivity.
  - destruct (SkipQuery_init _ _ _) as [q |]; [| discriminate]. cbn [bind].
    intros [= <- <-]. right. split; [reflexivity |]. eexists _, _. reflexivity.
Qed.

Lemma dict_set_fresh {V : Type} (k : string) (v : V) (d : list (string * V)) :
  ~ In k (map fst d) ->
  map fst (dict_set String.eqb k v d) = map fst d ++ [k].
Proof.
  induction d as [| [k0 v0] d IH]; cbn; intros Hk; [reflexivity |].
  destruct (String.eqb k0 k) eqn:E.
  - apply String.eqb_eq in E. exfalso. apply Hk. left. exact E.
  - cbn. rewrite IH; [reflexivity |]. intros H. apply Hk. right. exact H.
Qed.

(** The keys of a group agree with its two lists, and are listed in the
    order of [allowed]. *)
Let tidy (allowed : list string) (g : QueryGroup) : Prop :=
  map fst (_query_options g) `sublist_of` allowed
  /\ _query_options_list g ++ _required_options g ≡ₚ map fst (_query_options g).

Lemma tidy_skip allowed key g : tidy allowed g -> tidy (allowed ++ [key]) g.
Proof.
  intros [Hs Hp]. split; [| exact Hp]. apply sublist_inserts_r. exact Hs.
Qed.

Lemma tidy_add_option allowed key q b g :
  ~ In key allowed ->
  tidy allowed g -> tidy (allowed ++ [key]) (add_option key q b g).
Proof.
  intros Hfresh [Hs Hp].
  assert (Hk : ~ In key (map fst (_query_options g))).
  { intros H. apply Hfresh. apply list_elem_of_In.
    eapply elem_of_sublist; [| exact Hs]. apply list_elem_of_In. exact H. }
  split; cbn [add_option _query_options _query_options_list _required_options];
    rewrite (dict_set_fresh _ _ _ Hk).
  - apply sublist_app; [exact Hs | reflexivity].
  - rewrite <- Hp. destruct b.
    + rewrite app_assoc. reflexivity.
    + rewrite <- !app_assoc. apply Permutation_app_head. apply Permutation_app_comm.
Qed.

(** What is known about the option [K] of a group: [P] if the group has
    it, [Q] if it is required, [O] if it is optional. *)
Let about (K : string) (g : QueryGroup) (P Q O : Prop) : Prop :=
  (In K (map fst (_query_options g)) -> P)
  /\ (In K (_required_options g) -> Q)
  /\ (In K (_query_options_list g) -> O).

Let listed (g : QueryGroup) : Prop :=
  _query_options_list g ++ _required_options g ≡ₚ map fst (_query_options g).

Lemma about_absent K g P Q O :
  listed g -> ~ In K (map fst (_query_options g)) -> about K g P Q O.
Proof.
  intros Hl Hk. unfold about.
  assert (Hsub : forall X, In X (_query_options_list g ++ _required_options g) ->
                           In X (map fst (_query_options g))).
  { intros X HX. apply list_elem_of_In. unfold listed in Hl. rewrite <- Hl. apply list_elem_of_In. exact HX. }
  split; [intros H; contradiction |].
  split; intros H; exfalso; apply Hk, Hsub, in_or_app; auto.
Qed.

Lemma about_other K key q b g P Q O :
  key <> K ->
  ~ In key (map fst (_query_options g)) ->
  about K g P Q O -> about K (add_option key q b g) P Q O.
Proof.
  intros Hne Hfresh (HP & HQ & HO). unfold about.
  cbn [add_option _query_options _query_options_list _required_options].
  rewrite (dict_set_fresh _ _ _ Hfresh). split; [| split].
  - intros H. apply in_app_or in H as [H | [H | []]]; [auto | contradiction].
  - destruct b; [| exact HQ].
    intros H. apply in_app_or in H as [H | [H | []]]; [auto | contradiction].
  - destruct b; [exact HQ || exact HO |].
    intros H. apply in_app_or in H as [H | [H | []]]; [auto | contradiction].
Qed.

Lemma about_added K q b g (P Q O : Prop) :
  listed g ->
  ~ In K (map fst (_query_options g)) ->
  P -> (b = true -> Q) -> (b = false -> O) ->
  about K (add_option K q b g) P Q O.
Proof.
  intros Hl Hfresh HP HQ HO.
  destruct (about_absent K g P Q O Hl Hfresh) as (_ & HQ0 & HO0).
  unfold about.
  cbn [add_option _query_options _query_options_list _required_options].
  split; [auto |]. destruct b.
  - split; [| exact HO0]. intros _. auto.
  - split; [exact HQ0 |]. intros _. auto.
Qed.

Lemma tidy_listed allowed g : tidy allowed g -> listed g.
Proof. intros [_ H]. exact H. Qed.

Lemma tidy_fresh allowed K g :
  ~ In K allowed -> tidy allowed g -> ~ In K (map fst (_query_options g)).
Proof.
  intros Hfresh [Hs _] H. apply Hfresh. apply list_elem_of_In.
  eapply elem_of_sublist; [| exact Hs]. apply list_elem_of_In. exact H.
Qed.

(** One step of [_init_group]: the option [K] is added or not. *)
Lemma step_tidy allowed K g g' :
  ~ In K allowed -> tidy allowed g ->
  (g' = g \/ exists q b, g' = add_option K q b g) ->
  tidy (allowed ++ [K]) g'.
Proof.
  intros Hfresh Ht [-> | (q & b & ->)].
  - apply tidy_skip. exact Ht.
  - apply tidy_add_option; assumption.
Qed.

Lemma step_about_other allowed K K' g g' P Q O :
  ~ In K allowed -> In K' allowed -> tidy allowed g ->
  (g' = g \/ exists q b, g' = add_option K q b g) ->
  about K' g P Q O -> about K' g' P Q O.
Proof.
  intros Hfresh HK' Ht [-> | (q & b & ->)] Ha; [exact Ha |].
  apply about_other; [| eapply tidy_fresh; eassumption | exact Ha].
  intros ->. contradiction.
Qed.

Lemma step_about_own allowed K g g' (P Q O : Prop) :
  ~ In K allowed -> tidy allowed g ->
  (g' = g
   \/ exists q b, g' = add_option K q b g
                  /\ P /\ (b = true -> Q) /\ (b = false -> O)) ->
  about K g' P Q O.
Proof.
  intros Hfresh Ht [-> | (q & b & -> & HP & HQ & HO)].
  - apply about_absent; [eapply tidy_listed; eassumption |].
    eapply tidy_fresh; eassumption.
  - apply about_added; auto; [eapply tidy_listed | eapply tidy_fresh]; eassumption.
Qed.

Lemma _init_group_options w g w' :
  NoDup [FILTER C; ORDERBY C; EXPAND C; TOP C; SKIP C] ->
  _init_group C dispatcher empty_group w = Ok (g, w') ->
  tidy [FILTER C; ORDERBY C; EXPAND C; TOP C; SKIP C] g
  /\ about (FILTER C) g True (needs_filter w = true) (needs_filter w = false)
  /\ about (ORDERBY C) g True False True
  /\ about (EXPAND C) g (_nav_properties (the_entity_set w) <> []) False True
  /\ about (TOP C) g (topable (the_entity_set w) = true) True True
  /\ about (SKIP C) g (pageable (the_entity_set w) = true) True True.
Proof.
  intros Hnd. unfold _init_group.
  destruct (_init_filter_query C empty_group w) as [[g1 w1] | e] eqn:E1;
    [| discriminate]. cbn [bind].
  destruct (_init_orderby_query C g1 w1) as [[g2 w2] | e] eqn:E2;
    [| discriminate]. cbn [bind].
  destruct (_init_expand_query C g2 w2) as [[g3 w3] | e] eqn:E3;
    [| discriminate]. cbn [bind].
  destruct (_init_query_type C dispatcher true g3 w3) as [[g4 w4] | e] eqn:E4;
    [| discriminate]. cbn [bind].
  intros E5.
  (* the entity set the later steps read *)
  destruct (_init_filter_query_world C _ _ _ _ E1) as [Hw1 _].
  destruct (_init_orderby_query_world C _ _ _ _ E2) as [Hw2 _].
  pose proof (_init_expand_query_world C _ _ _ _ E3) as Hw3.
  pose proof (_init_query_type_world C dispatcher _ _ _ _ _ E4) as Hw4.
  subst w3 w4.
  assert (He : _nav_properties (the_entity_set w2) = _nav_properties (the_entity_set w)
               /\ topable (the_entity_set w2) = topable (the_entity_set w)
               /\ pageable (the_entity_set w2) = pageable (the_entity_set w)).
  { rewrite Hw2, Hw1. repeat split; reflexivity. }
  destruct He as (Hnav & Htop & Hpage).
  (* the five names are distinct *)
  apply NoDup_ListNoDup in Hnd.
  inversion Hnd as [| ? ? HF Hnd1]; subst.
  inversion Hnd1 as [| ? ? HO Hnd2]; subst.
  inversion Hnd2 as [| ? ? HE Hnd3]; subst.
  inversion Hnd3 as [| ? ? HT Hnd4]; subst.
  clear Hnd Hnd1 Hnd2 Hnd3 Hnd4.
  assert (F1 : ~ In (FILTER C) []) by (intros []).
  assert (F2 : ~ In (ORDERBY C) [FILTER C]) by (cbn in *; intuition congruence).
  assert (F3 : ~ In (EXPAND C) [FILTER C; ORDERBY C]) by (cbn in *; intuition congruence).
  assert (F4 : ~ In (TOP C) [FILTER C; ORDERBY C; EXPAND C])
    by (cbn in *; intuition congruence).
  assert (F5 : ~ In (SKIP C) [FILTER C; ORDERBY C; EXPAND C; TOP C])
    by (cbn in *; intuition congruence).
  (* the shape of each step *)
  apply _init_filter_query_option in E1.
  apply _init_orderby_query_option in E2.
  apply _init_expand_query_option in E3.
  apply _init_query_type_option in E4.
  apply _init_query_type_option in E5.
  rewrite Hnav in E3. rewrite Htop in E4. rewrite Hpage in E5.
  assert (S1 : g1 = empty_group \/ exists q b, g1 = add_option (FILTER C) q b empty_group)
    by (destruct E1 as [-> | [q ->]]; eauto).
  assert (S2 : g2 = g1 \/ exists q b, g2 = add_option (ORDERBY C) q b g1)
    by (destruct E2 as [-> | [q ->]]; eauto).
  assert (S3 : g3 = g2 \/ exists q b, g3 = add_option (EXPAND C) q b g2)
    by (destruct E3 as [-> | [_ [q ->]]]; eauto).
  assert (S4 : g4 = g3 \/ exists q b, g4 = add_option (TOP C) q b g3)
    by (destruct E4 as [-> | [_ (q & b & ->)]]; eauto).
  assert (S5 : g = g4 \/ exists q b, g = add_option (SKIP C) q b g4)
    by (destruct E5 as [-> | [_ (q & b & ->)]]; eauto).
  assert (T0 : tidy [] empty_group) by (split; reflexivity).
  pose proof (step_tidy [] _ _ _ F1 T0 S1) as T1.
  pose proof (step_tidy [_] _ _ _ F2 T1 S2) as T2.
  pose proof (step_tidy [_; _] _ _ _ F3 T2 S3) as T3.
  pose proof (step_tidy [_; _; _] _ _ _ F4 T3 S4) as T4.
  pose proof (step_tidy [_; _; _; _] _ _ _ F5 T4 S5) as T5.
  cbn [app] in *.
  split; [exact T5 |].
  split; [| split; [| split; [| split]]].
  - eapply (step_about_other _ (SKIP C)); [exact F5 | cbn; auto | exact T4 | exact S5 |].
    eapply (step_about_other _ (TOP C)); [exact F4 | cbn; auto | exact T3 | exact S4 |].
    eapply (step_about_other _ (EXPAND C)); [exact F3 | cbn; auto | exact T2 | exact S3 |].
    eapply (step_about_other _ (ORDERBY C)); [exact F2 | cbn; auto | exact T1 | exact S2 |].
    eapply (step_about_own []); [exact F1 | exact T0 |].
    destruct E1 as [-> | [q ->]]; [left; reflexivity |].
    right. exists (a_FilterQuery q), (needs_filter w). auto.
  - eapply (step_about_other _ (SKIP C)); [exact F5 | cbn; auto | exact T4 | exact S5 |].
    eapply (step_about_other _ (TOP C)); [exact F4 | cbn; auto | exact T3 | exact S4 |].
    eapply (step_about_other _ (EXPAND C)); [exact F3 | cbn; auto | exact T2 | exact S3 |].
    eapply (step_about_own [_]); [exact F2 | exact T1 |].
    destruct E2 as [-> | [q ->]]; [left; reflexivity |].
    right. exists q, false. repeat split; auto; discriminate.
  - eapply (step_about_other _ (SKIP C)); [exact F5 | cbn; auto | exact T4 | exact S5 |].
    eapply (step_about_other _ (TOP C)); [exact F4 | cbn; auto | exact T3 | exact S4 |].
    eapply (step_about_own [_; _]); [exact F3 | exact T2 |].
    destruct E3 as [-> | [Hn [q ->]]]; [left; reflexivity |].
    right. exists q, false. repeat split; auto; discriminate.
  - eapply (step_about_other _ (SKIP C)); [exact F5 | cbn; auto | exact T4 | exact S5 |].
    eapply (step_about_own [_; _; _]); [exact F4 | exact T3 |].
    destruct E4 as [-> | [Ht (q & b & ->)]]; [left; reflexivity |].
    right. exists q, b. repeat split; auto.
  - eapply (step_about_own [_; _; _; _]); [exact F5 | exact T4 |].
    destruct E5 as [-> | [Hp (q & b & ->)]]; [left; reflexivity |].
    right. exists q, b. repeat split; auto.
Qed.
End GroupOptions.

(** X11: the options of a query group.  When the five option names are
    distinct and [QueryGroup] is built without raising, its dictionary
    lists the options it has in the order [$filter], [$orderby],
    [$expand], [$top], [$skip], and every one of them is in exactly one of
    the two lists the group draws from.  [$filter] is required exactly when
    restrictions were given or the entity set requires a filter;
    [$orderby] and [$expand] are never required; [$expand] is there only
    for an entity set with navigation properties, [$top] only for a
    topable and [$skip] only for a pageable one. *)
Theorem query_group_options_are_consistent (C : Constants) (dispatcher : Dispatcher)
    (w w' : World) (g : QueryGroup) :
  NoDup [FILTER C; ORDERBY C; EXPAND C; TOP C; SKIP C] ->
  QueryGroup_init C dispatcher w = Ok (g, w') ->
  map fst (_query_options g)
    `sublist_of` [FILTER C; ORDERBY C; EXPAND C; TOP C; SKIP C]
  /\ _query_options_list g ++ _required_options g ≡ₚ map fst (_query_options g)
  /\ (In (FILTER C) (_required_options g) -> needs_filter w = true)
  /\ (In (FILTER C) (_query_options_list g) -> needs_filter w = false)
  /\ ~ In (ORDERBY C) (_required_options g)
  /\ ~ In (EXPAND C) (_required_options g)
  /\ (In (EXPAND C) (map fst (_query_options g)) ->
      _nav_properties (the_entity_set w) <> [])
  /\ (In (TOP C) (map fst (_query_options g)) -> topable (the_entity_set w) = true)
  /\ (In (SKIP C) (map fst (_query_options g)) -> pageable (the_entity_set w) = true).
Proof.
  intros Hnd. unfold QueryGroup_init.
  destruct (_init_group C dispatcher empty_group w) as [[g0 w0] | e] eqn:E;
    [| discriminate].
  cbn [bind]. intros [= Hg].
  destruct (_init_group_options C dispatcher _ _ _ Hnd E)
    as ([Hs Hp] & (_ & HF1 & HF2) & (_ & HO & _) & (HE1 & HE2 & _)
        & (HT & _) & (HS & _)).
  assert (Hsame : _query_options g = _query_options g0
                  /\ _query_options_list g = _query_options_list g0
                  /\ _required_options g = _required_options g0).
  { unfold _init_accessible_entity_path in Hg.
    destruct (addressable (the_entity_set w0)); injection Hg as <- _;
      repeat split; reflexivity. }
  destruct Hsame as (-> & -> & ->).
  repeat split; assumption.
Qed.

Lemma query_group_options_are_consistent_witness :
  NoDup [FILTER example_constants; ORDERBY example_constants;
         EXPAND example_constants; TOP example_constants; SKIP example_constants]
  /\ exists g w',
       QueryGroup_init example_constants unreachable restricted_world = Ok (g, w')
       /\ map fst (_query_options g) = ["$filter"; "$orderby"; "$top"; "$skip"]%string
       /\ _query_options_list g ++ _required_options g
          ≡ₚ map fst (_query_options g)
       /\ ~ In (ORDERBY example_constants) (_required_options g).
Proof.
  assert (Hnd : NoDup [FILTER example_constants; ORDERBY example_constants;
                       EXPAND example_constants; TOP example_constants;
                       SKIP example_constants]).
  { apply (bool_decide_unpack _). vm_compute. exact I. }
  split; [exact Hnd |].
  destruct (QueryGroup_init example_constants unreachable restricted_world)
    as [[g w'] | e] eqn:E; [| vm_compute in E; discriminate].
  exists g, w'. split; [reflexivity |].
  destruct (query_group_options_are_consistent _ _ _ _ _ Hnd E)
    as (_ & Hp & _ & _ & HO & _).
  split; [| split; [exact Hp | exact HO]].
  vm_compute in E. injection E as <- _. reflexivity.
Defined.

(** ** Excluded properties *)

Lemma name_in_In (n : string) (l : list string) : name_in n l = true <-> In n l.
Proof.
  unfold name_in. rewrite existsb_exists. split.
  - intros (x & Hx & E). apply String.eqb_eq in E. subst x. exact Hx.
  - intros H. exists n. split; [exact H | apply String.eqb_refl].
Qed.

Lemma List_filter_sublist {A : Type} (f : A -> bool) (l : list A) :
  List.filter f l `sublist_of` l.
Proof.
  induction l as [| a l IH]; cbn; [constructor |].
  destruct (f a); constructor; exact IH.
Qed.

Lemma get_list_empty (key : string) : get_list ∅ key = [].
Proof. reflexivity. Qed.

(** The copy [_delete_restricted_proprties] hands to an option. *)
Lemma _delete_restricted_proprties_copy (C : Constants) (w : World)
    (r : Restrictions) (o : string) (q : QueryRestriction)
    (attribute : Proprty -> bool) (draft_proprties : list string) :
  the_restrictions w = Some r ->
  option_restrictions r !! o = Some q ->
  let result := _delete_restricted_proprties C (Some o) attribute draft_proprties w in
  the_entity_set (snd result) = the_entity_set w
  /\ proprties (fst result) `sublist_of` proprties (the_entity_set w)
  /\ forall p,
       In p (proprties (fst result)) <->
       In p (proprties (the_entity_set w))
       /\ (In (name p) draft_proprties
           \/ (attribute p = true
               /\ ~ In (name p) (get_list (exclude q) (es_name (the_entity_set w)))
               /\ ~ In (name p) (get_list (exclude q) (GLOBAL_PROPRTY C)))).
Proof.
  intros Hr Hq result. subst result. unfold _delete_restricted_proprties.
  pose proof (restr_proprty_list_entity_set C (Some o) w) as [He _].
  assert (Hl : fst (restr_proprty_list C (Some o) w)
               = get_list (exclude q) (es_name (the_entity_set w))
                 ++ get_list (exclude q) (GLOBAL_PROPRTY C)).
  { unfold restr_proprty_list. rewrite Hr, Hq.
    destruct (dict_truthy (exclude q)) eqn:Ed.
    - destruct (exclude q !! es_name (the_entity_set w)); reflexivity.
    - unfold dict_truthy in Ed. apply negb_false_iff, bool_decide_eq_true in Ed.
      rewrite Ed, !get_list_empty. reflexivity. }
  destruct (restr_proprty_list C (Some o) w) as [l w1]. cbn [fst snd] in *.
  subst l. split; [exact He |]. split.
  - unfold proprties. cbn. apply List_filter_sublist.
  - intros p. unfold proprties. cbn. rewrite filter_In. apply and_iff_compat_l.
    rewrite negb_true_iff, andb_false_iff, orb_false_iff, negb_false_iff,
      negb_false_iff.
    rewrite name_in_In.
    rewrite <- not_true_iff_false, name_in_In, in_app_iff.
    intuition.
Qed.

(** X12: which properties an option is built over.
    [_delete_restricted_proprties] hands the option a copy of the entity
    set and leaves the caller's entity set as it was.  The copy keeps the
    order of the properties and holds exactly those that are draft
    properties, or that have the attribute asked for and are excluded
    neither for this entity set nor for all of them: a draft property
    survives both an exclusion and a missing attribute. *)
Theorem excluded_proprties_are_dropped_from_the_copy (C : Constants) (w : World)
    (r : Restrictions) (o : string) (q : QueryRestriction)
    (attribute : Proprty -> bool) (draft_proprties : list string) :
  the_restrictions w = Some r ->
  option_restrictions r !! o = Some q ->
  let result := _delete_restricted_proprties C (Some o) attribute draft_proprties w in
  the_entity_set (snd result) = the_entity_set w
  /\ proprties (fst result) `sublist_of` proprties (the_entity_set w)
  /\ forall p,
       In p (proprties (fst result)) <->
       In p (proprties (the_entity_set w))
       /\ (In (name p) draft_proprties
           \/ (attribute p = true
               /\ ~ In (name p) (get_list (exclude q) (es_name (the_entity_set w)))
               /\ ~ In (name p) (get_list (exclude q) (GLOBAL_PROPRTY C)))).
Proof.
  intros Hr Hq. exact (_delete_restricted_proprties_copy C w r o q attribute draft_proprties Hr Hq).
Qed.

Lemma excluded_proprties_are_dropped_from_the_copy_witness :
  the_restrictions excluding_world = Some (restrictions_with exclude_price)
  /\ map name
       (proprties
          (fst (_delete_restricted_proprties example_constants
                  (Some (FILTER example_constants)) filterable ["Price"%string]
                  excluding_world)))
     = ["Price"%string]
  /\ the_entity_set
       (snd (_delete_restricted_proprties example_constants
               (Some (FILTER example_constants)) filterable ["Price"%string]
               excluding_world))
     = the_entity_set excluding_world.
Proof.
  assert (Hr : the_restrictions excluding_world = Some (restrictions_with exclude_price))
    by reflexivity.
  assert (Hq : option_restrictions (restrictions_with exclude_price)
               !! FILTER example_constants = Some exclude_price)
    by (vm_compute; reflexivity).
  destruct (excluded_proprties_are_dropped_from_the_copy example_constants
              excluding_world _ _ _ filterable ["Price"%string] Hr Hq)
    as (He & _ & _).
  split; [exact Hr |]. split; [vm_compute; reflexivity | exact He].
Defined.

(** ** The stack of open groups *)

Lemma Stack_top_snoc (stack : list nat) (x : nat) : Stack_top (stack ++ [x]) = Some x.
Proof. unfold Stack_top. rewrite map_app. cbn [map]. apply last_last. Qed.

Lemma Stack_pop_empty (n : nat) (d : option nat) :
  (0 < n)%nat -> Stack_pop n [] d = (None, []).
Proof.
  revert d. induction n as [| n IH]; intros d Hn; [lia |].
  cbn. destruct n; [reflexivity |]. apply IH. lia.
Qed.

(** X13: [Stack.pop(n)].  Popping as many elements as [popped] holds
    returns the deepest of them and leaves the elements below; popping more
    elements than the stack holds returns [None] and leaves the stack
    empty. *)
Theorem Stack_pop_returns_the_deepest (base popped : list nat) (d : option nat) :
  (popped <> [] ->
   Stack_pop (length popped) (base ++ popped) d = (head popped, base))
  /\ (forall n, (length popped < n)%nat -> Stack_pop n popped d = (None, [])).
Proof.
  split.
  - revert d. induction popped as [| x popped IH] using rev_ind; intros d Hne;
      [contradiction |].
    rewrite length_app, Nat.add_comm. cbn [length Nat.add Stack_pop].
    rewrite app_assoc, Stack_top_snoc, removelast_last.
    destruct popped as [| y popped].
    + cbn. rewrite app_nil_r. reflexivity.
    + rewrite IH by discriminate. reflexivity.
  - revert d. induction popped as [| x popped IH] using rev_ind; intros d n Hn.
    + apply Stack_pop_empty. cbn in Hn. lia.
    + rewrite length_app in Hn. cbn in Hn.
      destruct n as [| n]; [lia |]. cbn [Stack_pop].
      rewrite Stack_top_snoc, removelast_last. apply IH. lia.
Qed.

Lemma Stack_pop_returns_the_deepest_witness :
  Stack_pop 2 [4; 7; 9]%nat None = (Some 7%nat, [4%nat])
  /\ Stack_pop 3 [7; 9]%nat None = (None, []).
Proof.
  destruct (Stack_pop_returns_the_deepest [4%nat] [7; 9]%nat None) as [H1 _].
  destruct (Stack_pop_returns_the_deepest [] [7; 9]%nat None) as [_ H2].
  split.
  - apply H1. discriminate.
  - apply H2. cbn. lia.
Defined.

(** ** Invariants of the grammar *)

Lemma _update_group_references_selector st st' :
  _update_group_references st = Ok st' -> _proprties st' = _proprties st.
Proof.
  unfold _update_group_references.
  destruct (last_of (groups _)) as [lg | e]; [| discriminate].
  destruct (last_of (logicals _)) as [ll | e]; [| discriminate].
  cbn [bind]. destruct (stacked_group _) as [[g grp] |]; intros [= <-]; reflexivity.
Qed.

Section GrammarInvariant.
Context (C : Constants) (R : RandomSource) (T : ClassTable) (self : FilterQuery).
Context (Inv : GenState -> Prop).

(** [Inv] reads the parts of the option and the two lists of the selector
    only, and the two generators of the grammar preserve it. *)
Hypothesis Inv_reads : forall st st',
  parts (_option st') = parts (_option st) ->
  sel_filterable_proprties (_proprties st') = sel_filterable_proprties (_proprties st) ->
  sel_required_proprties (_proprties st') = sel_required_proprties (_proprties st) ->
  Inv st -> Inv st'.
Hypothesis Inv_element : forall st st',
  Inv st -> _generate_element C R T self st = Ok st' -> Inv st'.
Hypothesis Inv_logical : forall st st',
  Inv st -> _noterm_logical C R st = Ok st' -> Inv st'.

Let keeps (f : GenState -> option (result GenState)) : Prop :=
  forall st st', Inv st -> f st = Some (Ok st') -> Inv st'.

Lemma Inv_has_remaining st : Inv st -> Inv (snd (call_has_remaining st)).
Proof.
  apply Inv_reads; unfold call_has_remaining, has_remaining;
    destruct (_ <=? _)%nat; reflexivity.
Qed.

Lemma grammar_keeps (fuel : nat) :
  keeps (_noterm_expression C R T self fuel)
  /\ keeps (_noterm_parent C R T self fuel)
  /\ keeps (_generate_child C R T self fuel)
  /\ keeps (_generate_child_group C R T self fuel)
  /\ keeps (_noterm_child C R T self fuel)
  /\ keeps (_generate_rest C R T self fuel).
Proof.
  induction fuel as [| fuel (IHe & IHp & IHc & IHg & IHn & IHr)].
  - unfold keeps. refine (conj _ (conj _ (conj _ (conj _ (conj _ _)))));
      intros st st' _; discriminate.
  - unfold keeps in *. refine (conj _ (conj _ (conj _ (conj _ (conj _ _))))).
    + intros st st' Hi. rewrite _noterm_expression_S. cbv zeta.
      set (st0 := with_recursion_depth _ st).
      assert (Hi0 : Inv st0) by (revert Hi; apply Inv_reads; reflexivity).
      clearbody st0.
      pose proof (Inv_has_remaining st0 Hi0) as Hi1.
      destruct (call_has_remaining st0) as [remaining st1]. cbn [snd] in Hi1.
      destruct remaining; cbn [negb]; [apply IHn; exact Hi1 |].
      unfold coin_or_limit, draw. cbv zeta.
      set (st2 := with_random_state _ st1).
      assert (Hi2 : Inv st2) by (revert Hi1; apply Inv_reads; reflexivity).
      clearbody st2.
      destruct (_ || _).
      * intros [= E]. exact (Inv_element _ _ Hi2 E).
      * apply IHn. exact Hi2.
    + intros st st' Hi. rewrite _noterm_parent_S.
      pose proof (Inv_has_remaining st Hi) as Hi1.
      destruct (call_has_remaining st) as [remaining st1]. cbn [snd] in Hi1.
      destruct remaining; cbn [negb]; [apply IHc; exact Hi1 |].
      unfold coin_or_limit, draw. cbv zeta.
      set (st2 := with_random_state _ st1).
      assert (Hi2 : Inv st2) by (revert Hi1; apply Inv_reads; reflexivity).
      clearbody st2.
      destruct (_ || _); [apply IHe | apply IHc]; exact Hi2.
    + intros st st' Hi. rewrite _generate_child_S. unfold draw. cbv zeta.
      set (st0 := with_random_state _ st).
      assert (Hi0 : Inv st0) by (revert Hi; apply Inv_reads; reflexivity).
      clearbody st0.
      destruct (Qltb _ _); [apply IHn; exact Hi0 |].
      pose proof (Inv_has_remaining st0 Hi0) as Hi1.
      destruct (call_has_remaining st0) as [remaining st1]. cbn [snd] in Hi1.
      destruct remaining; cbn [negb]; [apply IHg | apply IHn]; exact Hi1.
    + intros st st' Hi. rewrite _generate_child_group_S. cbv zeta.
      set (st0 := add_group R (emit "(" st)).
      assert (Hi0 : Inv st0) by (revert Hi; apply Inv_reads; reflexivity).
      destruct (if _right_part st0 then _ else _) as [st1 | e] eqn:E1;
        cbn [and_then]; [| discriminate].
      assert (Hi1 : Inv st1).
      { destruct (_right_part st0).
        - pose proof (_update_group_references_counts _ _ E1) as [Hp _].
          pose proof (_update_group_references_selector _ _ E1) as Hs.
          revert Hi0. apply Inv_reads; [exact Hp | |]; rewrite Hs; reflexivity.
        - injection E1 as <-. exact Hi0. }
      set (st2 := with_groups_stack _ st1).
      assert (Hi2 : Inv st2) by (revert Hi1; apply Inv_reads; reflexivity).
      clearbody st2.
      destruct (_noterm_child C R T self fuel st2) as [[st3 | e] |] eqn:E3;
        cbn [and_then]; try discriminate.
      intros [= <-]. pose proof (IHn _ _ Hi2 E3) as Hi3.
      revert Hi3. apply Inv_reads; reflexivity.
    + intros st st' Hi. rewrite _noterm_child_S.
      destruct (_noterm_parent C R T self fuel st) as [[st1 | e] |] eqn:E1;
        cbn [and_then]; try discriminate.
      intros E2. exact (IHr _ _ (IHp _ _ Hi E1) E2).
    + intros st st' Hi. rewrite _generate_rest_S.
      destruct (has_filterable _).
      * destruct (_noterm_logical C R st) as [st1 | e] eqn:E1;
          cbn [and_then]; [| discriminate].
        intros E2. exact (IHp _ _ (Inv_logical _ _ Hi E1) E2).
      * intros [= <-]. exact Hi.
Qed.
End GrammarInvariant.

(** ** The properties a generated filter compares *)

Section Reference.
Context (P : Part -> Prop).
Hypothesis P_left : forall i x, P x -> P (part_set_left_id i x).
Hypothesis P_right : forall i x, P x -> P (part_set_right_id i x).

Lemma _update_left_logical_references_Forall st st' :
  _update_left_logical_references st = Ok st' ->
  Forall P (parts (_option st)) ->
  Forall P (parts (_option st')) /\ _proprties st' = _proprties st.
Proof.
  unfold _update_left_logical_references.
  destruct (stacked_group st) as [[g grp] |];
    (destruct (last_of (parts _)) as [lp | e]; [| discriminate]);
    (destruct (last_of (logicals _)) as [ll | e]; [| discriminate]);
    cbn [bind]; intros [= <-] H; cbn; (split; [| reflexivity]);
    apply Forall_update_last; auto.
Qed.

Lemma _set_right_logical_references_Forall st st' :
  _set_right_logical_references st = Ok st' ->
  Forall P (parts (_option st)) ->
  Forall P (parts (_option st')) /\ _proprties st' = _proprties st.
Proof.
  unfold _set_right_logical_references.
  destruct (last_of (logicals _)) as [ll | e]; [| discriminate].
  destruct (last_of (parts _)) as [lp | e]; [| discriminate].
  cbn [bind].
  destruct (stacked_group _) as [[g grp] |]; intros [= <-] H; cbn;
    (split; [| reflexivity]); apply Forall_update_last; auto.
Qed.

Lemma _update_right_logical_references_Forall st st' :
  _update_right_logical_references st = Ok st' ->
  Forall P (parts (_option st)) ->
  Forall P (parts (_option st')) /\ _proprties st' = _proprties st.
Proof.
  unfold _update_right_logical_references. destruct (_right_part st).
  - intros E H. exact (_set_right_logical_references_Forall _ _ E H).
  - intros [= <-]. auto.
Qed.

Context (R : RandomSource) (p : Proprty).
Hypothesis P_proprty : forall operator operand r x,
  P x -> P (part_set_proprty (name p) operator operand r x).
Hypothesis P_new : forall i, P (new_part i).

Lemma _generate_sap_restricted_Forall logical operator st st' :
  _generate_sap_restricted R p logical operator st = Ok st' ->
  Forall P (parts (_option st)) ->
  Forall P (parts (_option st')) /\ _proprties st' = _proprties st.
Proof.
  unfold _generate_sap_restricted. cbv zeta. intros E H.
  set (st1 := update_last_logical _ _) in E.
  assert (H1 : Forall P (parts (_option st1))) by exact H.
  assert (S1 : _proprties st1 = _proprties st) by reflexivity.
  clearbody st1.
  destruct (_update_left_logical_references st1) as [st2 | e] eqn:E2; [| discriminate].
  cbn [bind] in E.
  destruct (_update_left_logical_references_Forall _ _ E2 H1) as [H2 S2].
  set (st3 := add_part R st2) in E.
  assert (H3 : Forall P (parts (_option st3))).
  { subst st3. cbn. apply Forall_app. split; [exact H2 |]. constructor; auto. }
  assert (S3 : _proprties st3 = _proprties st) by (rewrite <- S1, <- S2; reflexivity).
  clearbody st3.
  destruct (call_proprty_generate R p (random_state st3)) as [[operand pos] | e];
    [| discriminate].
  cbn [bind] in E.
  destruct (comparison_string _ _ _) as [[[s op] v] | e]; [| discriminate].
  cbn [bind] in E. unfold _update_proprty_part in E.
  destruct (last_of _) as [lp | e]; [| discriminate].
  cbn [bind] in E. injection E as <-. cbn. split; [| exact S3].
  apply Forall_update_last; auto.
Qed.

Lemma repeat_sap_restricted_Forall operator (n : nat) : forall st st',
  repeat_sap_restricted R n p operator st = Ok st' ->
  Forall P (parts (_option st)) ->
  Forall P (parts (_option st')) /\ _proprties st' = _proprties st.
Proof.
  induction n as [| n IH]; intros st st'; cbn [repeat_sap_restricted].
  - intros [= <-]. auto.
  - destruct (_generate_sap_restricted R p "or" operator st) as [st1 | e] eqn:E1;
      [| discriminate].
    cbn [bind].
    destruct (_set_right_logical_references st1) as [st2 | e] eqn:E2; [| discriminate].
    cbn [bind]. intros E3 H.
    destruct (_generate_sap_restricted_Forall _ _ _ _ E1 H) as [H1 S1].
    destruct (_set_right_logical_references_Forall _ _ E2 H1) as [H2 S2].
    destruct (IH _ _ E3 H2) as [H3 S3]. split; [exact H3 | congruence].
Qed.

Lemma call_generate_remaining_Forall (C : Constants) operator st st' :
  call_generate_remaining C R p operator st = Ok st' ->
  Forall P (parts (_option st)) ->
  Forall P (parts (_option st')) /\ _proprties st' = _proprties st.
Proof.
  unfold call_generate_remaining.
  destruct (generate_remaining_proprties p) as [[| |] |]; [| | | discriminate].
  - unfold _generate_interval_values, _generate_next_interval_value.
    destruct (negb _); [| intros [= <-]; auto].
    destruct (_generate_sap_restricted R p "and" _ st) as [st1 | e] eqn:E1;
      [| discriminate].
    cbn [bind]. intros E2 H.
    destruct (_generate_sap_restricted_Forall _ _ _ _ E1 H) as [H1 S1].
    destruct (_set_right_logical_references_Forall _ _ E2 H1) as [H2 S2].
    split; [exact H2 | congruence].
  - unfold _generate_multi_values, draw. intros E H.
    exact (repeat_sap_restricted_Forall _ _ _ _ E H).
  - intros [= <-]. auto.
Qed.
End Reference.

Lemma In_delete {A : Type} (l : list A) (i : nat) (x : A) :
  In x (delete i l) -> In x l.
Proof.
  intros H. apply list_elem_of_In. apply list_elem_of_In in H.
  eapply elem_of_sublist; [exact H | apply sublist_delete].
Qed.

Lemma choice_In (R : RandomSource) {A : Type} (l : list A) (pos pos' : nat) (x : A) :
  choice R l pos = Ok (x, pos') -> In x l.
Proof.
  unfold choice. destruct (l !! _) as [y |] eqn:E; [| discriminate].
  intros [= <- _]. apply list_elem_of_In. eapply list_elem_of_lookup_2. exact E.
Qed.

(** A drawn property comes from one of the two lists of the selector, and
    the lists only shrink. *)
Lemma get_random_proprty_pools (R : RandomSource) sel pos p sel' pos' :
  get_random_proprty R sel pos = Ok (p, sel', pos') ->
  (In p (sel_filterable_proprties sel) \/ In p (sel_required_proprties sel))
  /\ (forall q, In q (sel_filterable_proprties sel') ->
                In q (sel_filterable_proprties sel))
  /\ (forall q, In q (sel_required_proprties sel') ->
                In q (sel_required_proprties sel)).
Proof.
  unfold get_random_proprty.
  destruct (weighted_random _ _) as [group |]; [| discriminate].
  destruct (get_proprty R group sel (S pos)) as [[[q sel1] pos1] | e] eqn:E1;
    [| discriminate].
  cbn [bind].
  destruct (_update_remaining_proprties sel1) as [sel2 | e] eqn:E2; [| discriminate].
  cbn [bind]. intros [= <- <- <-].
  assert (H1 : (In q (sel_filterable_proprties sel) \/ In q (sel_required_proprties sel))
               /\ (forall x, In x (sel_filterable_proprties sel1) ->
                             In x (sel_filterable_proprties sel))
               /\ (forall x, In x (sel_required_proprties sel1) ->
                             In x (sel_required_proprties sel))).
  { unfold get_proprty in E1.
    destruct group as [l | l];
      (destruct (py_index _ _) as [i | e]; [| discriminate]); cbn [bind] in E1;
      (destruct (pool_list sel l !! i) as [q0 |] eqn:Ei; [| discriminate]).
    - assert (Hq : In q0 (sel_filterable_proprties sel)
                   \/ In q0 (sel_required_proprties sel)).
      { apply list_elem_of_lookup_2, list_elem_of_In in Ei.
        destruct l; cbn in Ei; auto. contradiction. }
      destruct (filter_restriction q0) as [[| |] |]; injection E1 as <- <- _;
        (split; [exact Hq |]); try (split; auto; fail).
      destruct l; cbn; split; auto; intros x Hx; eapply In_delete; exact Hx.
    - assert (Hq : In q0 (sel_filterable_proprties sel)
                   \/ In q0 (sel_required_proprties sel)).
      { apply list_elem_of_lookup_2, list_elem_of_In in Ei.
        destruct l; cbn in Ei; auto. contradiction. }
      injection E1 as <- <- _. split; [exact Hq |].
      destruct l; cbn; split; auto; intros x Hx; eapply In_delete; exact Hx. }
  assert (H2 : sel_filterable_proprties sel2 = sel_filterable_proprties sel1
               /\ sel_required_proprties sel2 = sel_required_proprties sel1).
  { unfold _update_remaining_proprties in E2.
    destruct (sel_has_remaining_proprties sel1); [| injection E2 as <-; auto].
    destruct (sel_proprties sel1) as [| g1 [| [g2 w2] rest]]; try discriminate.
    destruct (list_truthy _); injection E2 as <-; cbn; auto. }
  destruct H2 as [-> ->]. exact H1.
Qed.

(** The properties a generated function call is applied to are properties
    of the family instance it was drawn from. *)
Lemma call_function_proprties (C : Constants) (R : RandomSource) (m : Method)
    (w : FilterFunctions) (pos pos' : nat) (f : FilterFunction) :
  call_function C R m w pos = Ok (f, pos') ->
  forall n, In n (fn_proprties f) -> exists q, In q (ff_proprties w) /\ n = name q.
Proof.
  assert (Hu : forall g ret, unary_call R g ret w pos = Ok (f, pos') ->
            forall n, In n (fn_proprties f) ->
            exists q, In q (ff_proprties w) /\ n = name q).
  { intros g ret. unfold unary_call.
    destruct (choice R (ff_proprties w) pos) as [[q pos1] | e] eqn:Ec; [| discriminate].
    cbn [bind]. intros [= <- _] n [<- | []]. exists q.
    split; [eapply choice_In; exact Ec | reflexivity]. }
  assert (Hv : forall g b ret, value_call R g b ret w pos = Ok (f, pos') ->
            forall n, In n (fn_proprties f) ->
            exists q, In q (ff_proprties w) /\ n = name q).
  { intros g b ret. unfold value_call.
    destruct (choice R (ff_proprties w) pos) as [[q pos1] | e] eqn:Ec; [| discriminate].
    cbn [bind].
    destruct (call_proprty_generate R q pos1) as [[v pos2] | e]; [| discriminate].
    cbn [bind]. intros [= <- _] n [<- | []]. exists q.
    split; [eapply choice_In; exact Ec | reflexivity]. }
  destruct m; cbn [call_function]; eauto; try discriminate.
  - destruct (choice R (ff_proprties w) pos) as [[q pos1] | e] eqn:Ec; [| discriminate].
    cbn [bind]. intros [= <- _] n [<- | []]. exists q.
    split; [eapply choice_In; exact Ec | reflexivity].
  - destruct (choice R (ff_proprties w) pos) as [[q pos1] | e] eqn:Ec; [| discriminate].
    cbn [bind]. intros [= <- _] n [<- | []]. exists q.
    split; [eapply choice_In; exact Ec | reflexivity].
Qed.

Section DrawsWithin.
Context (C : Constants) (R : RandomSource) (T : ClassTable) (self : FilterQuery).
Context (names : list string).
Hypothesis family_names : forall kw q,
  In kw (_functions self) -> In q (ff_proprties (snd kw)) -> In (name q) names.

Let known (p : Part) : Prop := incl (part_proprties p) names.

Lemma known_left i x : known x -> known (part_set_left_id i x).
Proof. exact id. Qed.

Lemma known_right i x : known x -> known (part_set_right_id i x).
Proof. exact id. Qed.

Lemma known_new i : known (new_part i).
Proof. intros n []. Qed.

Lemma known_proprty (p : Proprty) operator operand r x :
  In (name p) names -> known x ->
  known (part_set_proprty (name p) operator operand r x).
Proof.
  intros Hp Hx. unfold known, part_proprties in *. cbn.
  destruct (part_function x); [exact Hx |].
  intros n [<- | []]. exact Hp.
Qed.

Lemma _generate_proprty_within st st' :
  draws_within names st -> _generate_proprty C R st = Ok st' ->
  draws_within names st'.
Proof.
  intros (Hf & Hr & Hp). unfold _generate_proprty.
  destruct (get_random_proprty _ _ _) as [[[p sel] pos] | e] eqn:Eg; [| discriminate].
  destruct (get_random_proprty_pools _ _ _ _ _ _ Eg) as (Hin & Hf' & Hr').
  assert (Hname : In (name p) names) by (destruct Hin; auto).
  cbn [bind]. destruct (operators p) as [ops |]; [| discriminate].
  cbn [bind]. unfold draw. cbv zeta.
  destruct (call_proprty_generate _ _ _) as [[operand pos'] | e]; [| discriminate].
  cbn [bind].
  destruct (comparison_string _ _ _) as [[[s op] v] | e]; [| discriminate].
  cbn [bind]. unfold _update_proprty_part.
  destruct (last_of _) as [lp | e]; [| discriminate].
  cbn [bind].
  set (st1 := update_last_part _ _).
  assert (H1 : Forall known (parts (_option st1))).
  { subst st1. cbn. apply Forall_update_last; [| exact Hp].
    intros x. apply known_proprty. exact Hname. }
  assert (S1 : _proprties st1 = sel) by reflexivity.
  clearbody st1.
  destruct (_update_right_logical_references st1) as [st2 | e] eqn:E2; [| discriminate].
  cbn [bind]. intros E3.
  destruct (_update_right_logical_references_Forall known known_left
              _ _ E2 H1) as [H2 S2].
  destruct (call_generate_remaining_Forall known known_left known_right R p
              (fun operator operand r x => known_proprty p operator operand r x Hname)
              known_new C _ _ _ E3 H2) as [H3 S3].
  unfold draws_within. rewrite S3, S2, S1. auto.
Qed.

Lemma _generate_function_within st st' :
  draws_within names st -> _generate_function C R T self st = Ok st' ->
  draws_within names st'.
Proof.
  intros (Hf & Hr & Hp). unfold _generate_function.
  destruct (choice R (map snd (_functions self)) _) as [[w pos] | e] eqn:Ew;
    [| discriminate].
  cbn [bind].
  destruct (choice R (get_methods_dict T (class_ w)) pos) as [[m pos1] | e];
    [| discriminate].
  cbn [bind].
  destruct (call_function _ _ _ _ _) as [[f pos2] | e] eqn:Ef; [| discriminate].
  cbn [bind]. unfold draw. cbv zeta.
  destruct (comparison_string _ _ _) as [[[s op] v] | e]; [| discriminate].
  cbn [bind]. unfold _update_function_part.
  destruct (last_of _) as [lp | e]; [| discriminate].
  cbn [bind].
  set (st1 := update_last_part _ _).
  assert (H1 : Forall known (parts (_option st1))).
  { subst st1. cbn. apply Forall_update_last; [| exact Hp].
    intros x _ n Hn. cbn in Hn.
    destruct (call_function_proprties _ _ _ _ _ _ _ Ef n Hn) as (q & Hq & ->).
    apply choice_In, in_map_iff in Ew as (kw & <- & Hkw).
    exact (family_names kw q Hkw Hq). }
  assert (S1 : _proprties st1 = _proprties st) by reflexivity.
  clearbody st1. intros E2.
  destruct (_update_right_logical_references_Forall known known_left
              _ _ E2 H1) as [H2 S2].
  unfold draws_within. rewrite S2, S1. auto.
Qed.

Lemma _generate_element_within st st' :
  draws_within names st -> _generate_element C R T self st = Ok st' ->
  draws_within names st'.
Proof.
  intros (Hf & Hr & Hp). unfold _generate_element, draw. cbv zeta.
  set (st1 := with_random_state _ (add_part R st)).
  assert (H1 : draws_within names st1).
  { split; [exact Hf |]. split; [exact Hr |]. subst st1. cbn.
    apply Forall_app. split; [exact Hp |]. constructor; [apply known_new | constructor]. }
  clearbody st1.
  destruct (Qltb _ _).
  - unfold call_noterm_function. destruct (_noterm_function self).
    + apply _generate_proprty_within. exact H1.
    + apply _generate_function_within. exact H1.
  - apply _generate_proprty_within. exact H1.
Qed.

Lemma _noterm_logical_within st st' :
  draws_within names st -> _noterm_logical C R st = Ok st' ->
  draws_within names st'.
Proof.
  intros (Hf & Hr & Hp). unfold _noterm_logical, draw. cbv zeta.
  destruct (weighted_random _ _) as [operator |]; [| discriminate].
  set (st1 := update_last_logical _ _).
  assert (H1 : Forall known (parts (_option st1))) by exact Hp.
  assert (S1 : _proprties st1 = _proprties st) by reflexivity.
  clearbody st1.
  destruct (last_of (logicals (_option st1))) as [ll | e]; [| discriminate].
  cbn [bind].
  destruct (_finalizing_groups st1) as [| n].
  - destruct (_update_left_logical_references st1) as [st2 | e] eqn:E2;
      [| discriminate].
    cbn [bind]. intros [= <-].
    destruct (_update_left_logical_references_Forall known known_right
                _ _ E2 H1) as [H2 S2].
    unfold draws_within. cbn. rewrite S2, S1. auto.
  - destruct (Stack_pop _ _ _) as [[g |] stack]; cbn [bind]; [| discriminate].
    cbn [_option with_finalizing_groups with_groups_stack].
    destruct (groups (_option st1) !! g) as [grp |]; cbn [bind]; [| discriminate].
    intros [= <-]. unfold draws_within. cbn. rewrite S1. auto.
Qed.

Lemma draws_within_reads st st' :
  parts (_option st') = parts (_option st) ->
  sel_filterable_proprties (_proprties st') = sel_filterable_proprties (_proprties st) ->
  sel_required_proprties (_proprties st') = sel_required_proprties (_proprties st) ->
  draws_within names st -> draws_within names st'.
Proof. unfold draws_within. intros -> -> ->. exact id. Qed.

Lemma _generate_string_within fuel st st' :
  draws_within names st ->
  _generate_string C R T self fuel st = Some (Ok st') ->
  draws_within names st'.
Proof.
  intros H. unfold _generate_string.
  destruct (grammar_keeps C R T self (draws_within names) draws_within_reads
              _generate_element_within _noterm_logical_within fuel) as [He _].
  destruct (list_truthy _); [apply He; exact H |].
  unfold draw. cbv zeta.
  set (st1 := with_random_state _ st).
  assert (H1 : draws_within names st1) by exact H.
  clearbody st1.
  destruct (Qltb _ _); [| apply He; exact H1].
  intros [= E]. apply _generate_proprty_within in E; [exact E |].
  destruct H1 as (Hf & Hr & Hp). split; [exact Hf |]. split; [exact Hr |].
  cbn. apply Forall_app. split; [exact Hp |]. constructor; [apply known_new | constructor].
Qed.
End DrawsWithin.

Lemma _delete_restricted_functions_subset (items : list (string * FilterFunctions))
    (fs : list string) : forall group T group' T',
  _delete_restricted_functions items fs group T = Ok (group', T') ->
  forall x, In x group' -> In x group.
Proof.
  induction items as [| [k0 w0] items IH]; intros group T group' T';
    cbn [_delete_restricted_functions].
  - intros [= <- _] x Hx. exact Hx.
  - destruct (delete_from_class _ _ _ _) as [T1 | e]; [| discriminate].
    cbn [bind]. intros E x Hx. apply (IH _ _ _ _ E) in Hx.
    destruct (list_truthy _); [exact Hx |]. apply filter_In in Hx as [Hx _]. exact Hx.
Qed.

Lemma FilterFunctionsGroup_subset (C : Constants) (props : list Proprty)
    (restrictions : option QueryRestriction) (T T' : ClassTable)
    (group' : list (string * FilterFunctions)) :
  FilterFunctionsGroup C props restrictions T = Ok (group', T') ->
  forall x, In x group' -> In x (_init_functions_group props []).
Proof.
  unfold FilterFunctionsGroup, _apply_restrictions.
  destruct restrictions as [r |]; [| intros [= <- _] x Hx; exact Hx].
  destruct (list_truthy (_init_functions_group props []));
    [| intros [= <- _] x Hx; exact Hx].
  destruct (dict_truthy _); [| intros [= <- _] x Hx; exact Hx].
  destruct (list_truthy (get_list _ _)); [| intros [= <- _] x Hx; exact Hx].
  apply _delete_restricted_functions_subset.
Qed.

(** What [FilterQuery.__init__] builds over an entity set: its lists and
    its families hold properties of that entity set only. *)
Lemma FilterQuery_init_names (C : Constants) (entity : EntitySet)
    (restrictions : option QueryRestriction) (draft_properties : list string)
    (T0 T1 : ClassTable) (self : FilterQuery) :
  FilterQuery_init C entity restrictions draft_properties T0 = Ok (self, T1) ->
  map name (_filterable_proprties self) = map name (proprties entity)
  /\ (forall q, In q (_required_proprties self) -> In q (_filterable_proprties self))
  /\ (forall kw q, In kw (_functions self) -> In q (ff_proprties (snd kw)) ->
        In (name q) (map name (proprties entity))).
Proof.
  unfold FilterQuery_init.
  destruct (FilterFunctionsGroup C (proprties entity) restrictions T0)
    as [[group T'] | e] eqn:Eg; [| discriminate].
  cbn [bind].
  destruct (match draft_properties with [] => _ | _ => _ end) as [draft | e];
    [| discriminate].
  cbn [bind]. intros [= <- _]. cbn. split; [| split].
  - rewrite map_map. apply map_ext. intros q. destruct (is_required draft q); reflexivity.
  - intros q Hq. apply filter_In in Hq as [Hq _]. exact Hq.
  - intros kw q Hkw Hq. apply in_map_iff in Hkw as ([k w] & <- & Hw).
    cbn in Hq. apply in_map_iff in Hq as (q0 & <- & Hq0).
    apply (FilterFunctionsGroup_subset _ _ _ _ _ _ Eg) in Hw.
    destruct (_init_functions_group_spec (proprties entity)) as [_ Hspec].
    apply Hspec in Hw as (cls & _ & -> & _). cbn in Hq0.
    apply filter_In in Hq0 as [Hq0 _].
    replace (name _) with (name q0) by (destruct (is_required draft q0); reflexivity).
    apply in_map. exact Hq0.
Qed.

(** Generation never leaves the properties of the entity set. *)
Lemma FilterQuery_generate_within (C : Constants) (R : RandomSource)
    (entity : EntitySet) (restrictions : option QueryRestriction)
    (draft_properties : list string) (T0 T1 T : ClassTable) (self : FilterQuery)
    (fuel pos pos' : nat) (o : FilterOption) :
  FilterQuery_init C entity restrictions draft_properties T0 = Ok (self, T1) ->
  FilterQuery_generate C R T self fuel pos = Some (Ok (o, pos')) ->
  Forall (fun p => incl (part_proprties p) (map name (proprties entity))) (parts o).
Proof.
  intros Hinit. destruct (FilterQuery_init_names _ _ _ _ _ _ _ Hinit)
    as (Hnames & Hreq & Hfam).
  unfold FilterQuery_generate.
  destruct (_generate_string C R T self fuel (_init_variables self pos))
    as [[st | e] |] eqn:E; cbn [and_then]; try discriminate.
  intros [= <- _]. cbn.
  assert (H0 : draws_within (map name (proprties entity)) (_init_variables self pos)).
  { split; [| split]; cbn.
    - intros q Hq. rewrite <- Hnames. apply in_map. exact Hq.
    - intros q Hq. rewrite <- Hnames. apply in_map. apply Hreq. exact Hq.
    - constructor. }
  destruct (_generate_string_within C R T self _ Hfam _ _ _ H0 E) as (_ & _ & H).
  exact H.
Qed.

(** X14: a generated [$filter] compares properties of its entity set only.
    Every part of an option that [FilterQuery.generate] returns names a
    property of the entity set the [FilterQuery] was built over, or calls
    a function on such properties; a property deleted from that entity set
    before, as an excluded one is, occurs in no generated filter. *)
Theorem generated_filter_compares_known_proprties (C : Constants) (R : RandomSource)
    (entity : EntitySet) (restrictions : option QueryRestriction)
    (draft_properties : list string) (T0 T1 T : ClassTable) (self : FilterQuery)
    (fuel pos pos' : nat) (o : FilterOption) :
  FilterQuery_init C entity restrictions draft_properties T0 = Ok (self, T1) ->
  FilterQuery_generate C R T self fuel pos = Some (Ok (o, pos')) ->
  Forall (fun p => incl (part_proprties p) (map name (proprties entity))) (parts o).
Proof.
  apply FilterQuery_generate_within.
Qed.

Lemma generated_filter_compares_known_proprties_witness :
  exists self T1 o pos',
    FilterQuery_init example_constants tagged None [] initial_classes = Ok (self, T1)
    /\ FilterQuery_generate example_constants (constant_source (1 # 200))
         initial_classes self 50 0 = Some (Ok (o, pos'))
    /\ map part_proprties (parts o) = [["Tag"]; ["Tag"]]%string
    /\ Forall (fun p => incl (part_proprties p) (map name (proprties tagged))) (parts o).
Proof.
  destruct (FilterQuery_init example_constants tagged None [] initial_classes)
    as [[self T1] | e] eqn:Ei; [| vm_compute in Ei; discriminate].
  destruct (FilterQuery_generate example_constants (constant_source (1 # 200))
              initial_classes self 50 0) as [[[o pos'] | e] |] eqn:E;
    [| vm_compute in Ei; injection Ei as <- _; vm_compute in E; discriminate
     | vm_compute in Ei; injection Ei as <- _; vm_compute in E; discriminate].
  exists self, T1, o, pos'. split; [reflexivity |]. split; [exact E |].
  split.
  - vm_compute in Ei. injection Ei as <- _. vm_compute in E. injection E as <- _.
    reflexivity.
  - exact (generated_filter_compares_known_proprties _ _ _ _ _ _ _ _ _ _ _ _ _ Ei E).
Defined.

(** ** The [$filter] option of a group and the exclusions *)

Lemma dict_set_In_other {V : Type} (k k' : string) (v v' : V) (d : list (string * V)) :
  k <> k' -> In (k, v) (dict_set String.eqb k' v' d) -> In (k, v) d.
Proof.
  intros Hne. induction d as [| [k0 v0] d IH]; cbn.
  - intros [[= -> _] | []]. contradiction.
  - destruct (String.eqb k0 k') eqn:E.
    + intros [[= -> _] | H]; [contradiction | right; exact H].
    + intros [H | H]; [left; exact H | right; apply IH; exact H].
Qed.

Lemma dict_set_In_fresh {V : Type} (k : string) (v v' : V) (d : list (string * V)) :
  ~ In k (map fst d) -> In (k, v) (dict_set String.eqb k v' d) -> v = v'.
Proof.
  induction d as [| [k0 v0] d IH]; cbn; intros Hk.
  - intros [[= ->] | []]. reflexivity.
  - destruct (String.eqb k0 k) eqn:E.
    + apply String.eqb_eq in E. exfalso. apply Hk. left. exact E.
    + intros [[= -> _] | H].
      * exfalso. apply Hk. left. reflexivity.
      * apply IH; [| exact H]. intros Hin. apply Hk. right. exact Hin.
Qed.

Section GroupFilter.
Context (C : Constants) (dispatcher : Dispatcher).

(** The [FilterQuery] that [_init_filter_query] stores, when restrictions
    are given: it is built over the copy left by
    [_delete_restricted_proprties]. *)
Lemma _init_filter_query_built g w g' w' r :
  the_restrictions w = Some r ->
  _init_filter_query C g w = Ok (g', w') ->
  g' = g
  \/ exists self required entity restrictions T0 T1,
       g' = add_option (FILTER C) (a_FilterQuery self) required g
       /\ FilterQuery_init C entity restrictions
            (get_draft_properties (es_name (the_entity_set w)) (draft_objects r))
            T0 = Ok (self, T1)
       /\ proprties entity
          = proprties
              (fst (_delete_restricted_proprties C (Some (FILTER C)) filterable
                      (get_draft_properties (es_name (the_entity_set w))
                         (draft_objects r)) w)).
Proof.
  intros Hr. unfold _init_filter_query, _get_restrictions at 1. rewrite Hr.
  destruct (restriction r (FILTER C)) as [q0 | e]; [| discriminate].
  cbn [bind restr is_not_restricted].
  destruct (_delete_restricted_proprties C (Some (FILTER C)) filterable _ w)
    as [entity w1] eqn:Ed.
  match goal with
  | |- (if ?c then _ else _) = _ -> _ => destruct c
  end; [| intros [= <- <-]; left; reflexivity].
  destruct (_get_restrictions C (FILTER C) _) as [o |]; [| discriminate].
  cbn [bind].
  destruct (FilterQuery_init _ _ _ _ _) as [[self T1] | e] eqn:Ei; [| discriminate].
  cbn [bind]. intros [= <- <-]. right.
  eexists self, _, _, _, _, T1. split; [reflexivity |]. split; [exact Ei |].
  reflexivity.
Qed.
End GroupFilter.

(** X15: excluded properties stay out of the group's [$filter].  Let a
    query group be built with restrictions whose [$filter] entry is [qr],
    the five option names being distinct.  Every property that a filter
    generated by the group's [$filter] option compares is a property of
    the entity set that is a draft property, or is filterable and is
    excluded by [qr] neither for this entity set nor for all of them. *)
Theorem group_filter_avoids_excluded_proprties (C : Constants)
    (dispatcher : Dispatcher) (R : RandomSource) (T : ClassTable) (w w' : World)
    (g : QueryGroup) (r : Restrictions) (qr : QueryRestriction)
    (self : FilterQuery) (fuel pos pos' : nat) (o : FilterOption) :
  NoDup [FILTER C; ORDERBY C; EXPAND C; TOP C; SKIP C] ->
  the_restrictions w = Some r ->
  option_restrictions r !! FILTER C = Some qr ->
  QueryGroup_init C dispatcher w = Ok (g, w') ->
  In (FILTER C, a_FilterQuery self) (_query_options g) ->
  FilterQuery_generate C R T self fuel pos = Some (Ok (o, pos')) ->
  forall part n, In part (parts o) -> In n (part_proprties part) ->
    exists p,
      In p (proprties (the_entity_set w)) /\ name p = n
      /\ (In n (get_draft_properties (es_name (the_entity_set w)) (draft_objects r))
          \/ (filterable p = true
              /\ ~ In n (get_list (exclude qr) (es_name (the_entity_set w)))
              /\ ~ In n (get_list (exclude qr) (GLOBAL_PROPRTY C)))).
Proof.
  intros Hnd Hr Hq Hinit Hin Hgen part n Hpart Hn.
  unfold QueryGroup_init in Hinit.
  destruct (_init_group C dispatcher empty_group w) as [[g0 w0] | e] eqn:E;
    [| discriminate].
  cbn [bind] in Hinit.
  assert (Hopts : _query_options g = _query_options g0).
  { unfold _init_accessible_entity_path in Hinit.
    destruct (addressable (the_entity_set w0)); injection Hinit as <- _; reflexivity. }
  rewrite Hopts in Hin. clear Hinit Hopts.
  unfold _init_group in E.
  destruct (_init_filter_query C empty_group w) as [[g1 w1] | e] eqn:E1;
    [| discriminate]. cbn [bind] in E.
  destruct (_init_orderby_query C g1 w1) as [[g2 w2] | e] eqn:E2;
    [| discriminate]. cbn [bind] in E.
  destruct (_init_expand_query C g2 w2) as [[g3 w3] | e] eqn:E3;
    [| discriminate]. cbn [bind] in E.
  destruct (_init_query_type C dispatcher true g3 w3) as [[g4 w4] | e] eqn:E4;
    [| discriminate]. cbn [bind] in E.
  apply NoDup_ListNoDup in Hnd.
  inversion Hnd as [| ? ? HF _]; subst. clear Hnd.
  assert (Hback : forall K q b ga,
            In K [ORDERBY C; EXPAND C; TOP C; SKIP C] ->
            In (FILTER C, a_FilterQuery self) (_query_options (add_option K q b ga)) ->
            In (FILTER C, a_FilterQuery self) (_query_options ga)).
  { intros K q b ga HK. cbn [add_option _query_options].
    apply dict_set_In_other. intros Heq. apply HF. rewrite Heq. exact HK. }
  apply _init_query_type_option in E as [-> | [_ (q5 & b5 & ->)]];
    [| apply Hback in Hin; [| cbn; auto]].
  all: apply _init_query_type_option in E4 as [-> | [_ (q4 & b4 & ->)]];
    [| apply Hback in Hin; [| cbn; auto]].
  all: apply _init_expand_query_option in E3 as [-> | [_ (q3 & ->)]];
    [| apply Hback in Hin; [| cbn; auto]].
  all: apply _init_orderby_query_option in E2 as [-> | (q2 & ->)];
    [| apply Hback in Hin; [| cbn; auto]].
  all: destruct (_init_filter_query_built C _ _ _ _ r Hr E1)
    as [-> | (self0 & b & entity & restr & T0 & T1 & -> & Hinit & Hprops)];
    [contradiction |];
    cbn in Hin; destruct Hin as [[= <-] | []];
    pose proof (FilterQuery_generate_within _ _ _ _ _ _ _ _ _ _ _ _ _ Hinit Hgen) as Hw;
    rewrite Forall_forall in Hw;
    pose proof (proj2 (list_elem_of_In _ _) Hpart) as Hpart';
    specialize (Hw part Hpart' n Hn);
    rewrite Hprops in Hw; apply in_map_iff in Hw as (p & Hname & Hp);
    destruct (_delete_restricted_proprties_copy C w r (FILTER C) qr filterable
                (get_draft_properties (es_name (the_entity_set w)) (draft_objects r))
                Hr Hq) as (_ & _ & Hcopy);
    apply Hcopy in Hp as [Hp Hcond];
    exists p; rewrite Hname in Hcond; auto.
Qed.

Lemma group_filter_avoids_excluded_proprties_witness :
  exists g w' self o pos',
    QueryGroup_init example_constants unreachable price_excluded_world = Ok (g, w')
    /\ In (FILTER example_constants, a_FilterQuery self) (_query_options g)
    /\ FilterQuery_generate example_constants (constant_source (1 # 10))
         initial_classes self 50 0 = Some (Ok (o, pos'))
    /\ map part_proprties (parts o) = [["Name"%string]]
    /\ forall part n, In part (parts o) -> In n (part_proprties part) ->
         ~ In n (get_list (exclude exclude_price_only) "Articles").
Proof.
  destruct (QueryGroup_init example_constants unreachable price_excluded_world)
    as [[g w'] | e] eqn:E; [| vm_compute in E; discriminate].
  destruct (group_filter g) as [self |] eqn:Ef;
    [| vm_compute in E; injection E as <- _; vm_compute in Ef; discriminate].
  assert (Hin : In (FILTER example_constants, a_FilterQuery self) (_query_options g)).
  { pose proof E as E'. vm_compute in E'. injection E' as <- _.
    vm_compute in Ef. injection Ef as <-. left. reflexivity. }
  destruct (FilterQuery_generate example_constants (constant_source (1 # 10))
              initial_classes self 50 0) as [[[o pos'] | e] |] eqn:Eg.
  - exists g, w', self, o, pos'. split; [reflexivity |]. split; [exact Hin |].
    split; [exact Eg |]. split.
    + pose proof E as E'. vm_compute in E'. injection E' as <- _.
      vm_compute in Ef. injection Ef as <-. vm_compute in Eg. injection Eg as <- _.
      reflexivity.
    + intros part n Hpart Hn.
      assert (Hnd : NoDup [FILTER example_constants; ORDERBY example_constants;
                           EXPAND example_constants; TOP example_constants;
                           SKIP example_constants])
        by (apply (bool_decide_unpack _); vm_compute; exact I).
      assert (Hq : option_restrictions (restrictions_with exclude_price_only)
                   !! FILTER example_constants = Some exclude_price_only)
        by (vm_compute; reflexivity).
      destruct (group_filter_avoids_excluded_proprties example_constants unreachable
                  (constant_source (1 # 10)) initial_classes price_excluded_world w' g
                  (restrictions_with exclude_price_only) exclude_price_only self
                  50 0 pos' o Hnd eq_refl Hq E Hin Eg part n Hpart Hn)
        as (p & _ & _ & [Hdraft | (_ & Hex & _)]).
      * vm_compute in Hdraft. contradiction.
      * exact Hex.
  - exfalso. vm_compute in E. injection E as <- _.
    vm_compute in Ef. injection Ef as <-. vm_compute in Eg. discriminate.
  - exfalso. vm_compute in E. injection E as <- _.
    vm_compute in Ef. injection Ef as <-. vm_compute in Eg. discriminate.
Defined.

(** ** [FilterOptionBuilder] on flat chains *)

Lemma dict_by_id_NoDup {A : Type} (id_of : A -> N) (l : list A) (x : A) :
  NoDup (map id_of l) -> In x l -> dict_by_id id_of l (id_of x) = Some x.
Proof.
  unfold dict_by_id. induction l as [| a l IH]; cbn; intros Hnd Hin; [contradiction |].
  apply NoDup_cons in Hnd as [Ha Hnd].
  destruct Hin as [-> | Hin].
  - rewrite N.eqb_refl. reflexivity.
  - destruct (N.eqb (id_of a) (id_of x)) eqn:E; [| apply IH; assumption].
    apply N.eqb_eq in E. exfalso. apply Ha. rewrite E.
    apply list_elem_of_In, in_map. exact Hin.
Qed.

Lemma last_cons_default {A : Type} (l : list A) (a d d' : A) :
  List.last (a :: l) d = List.last (a :: l) d'.
Proof.
  revert a. induction l as [| b l IH]; intros a; [reflexivity |].
  change (List.last (b :: l) d = List.last (b :: l) d'). apply IH.
Qed.

Lemma last_cons_In {A : Type} (l : list A) (a d : A) : In (List.last (a :: l) d) (a :: l).
Proof.
  rewrite (app_removelast_last d (l := a :: l)) at 2 by discriminate.
  apply in_or_app. right. left. reflexivity.
Qed.

Lemma linked_app (p : Part) (pre post : list (Logical * Part)) :
  linked p (pre ++ post) <-> linked p pre /\ linked (chain_end p pre) post.
Proof.
  revert p. induction pre as [| [l q] pre IH]; intros p; cbn [app linked].
  - unfold chain_end. cbn. tauto.
  - rewrite IH. unfold chain_end. cbn [map snd].
    replace (List.last (q :: map snd pre) p) with (List.last (map snd pre) q).
    + tauto.
    + destruct (map snd pre) as [| q' ps] eqn:E; [reflexivity |].
      change (List.last (q' :: ps) q = List.last (q' :: ps) p).
      apply last_cons_default.
Qed.

Lemma render_snoc (s : string) (pre : list (Logical * Part)) (l : Logical) (q : Part) :
  render s (pre ++ [(l, q)])
  = (render s pre ++ " " ++ default EmptyString (logical_name l) ++ " "
       ++ part_string q)%string.
Proof.
  revert s. induction pre as [| [l' q'] pre IH]; intros s; cbn; [reflexivity |].
  apply IH.
Qed.

Lemma _build_left_S fuel o logical used :
  _build_left (S fuel) o logical used =
    match logical_left_id logical with
    | None => Some (Raise KeyError)
    | Some left_id => _build_by_id fuel o left_id true used
    end.
Proof. reflexivity. Qed.

Lemma _build_right_S fuel o logical used :
  _build_right (S fuel) o logical used =
    match logical_right_id logical with
    | None => Some (Raise KeyError)
    | Some right_id => _build_by_id fuel o right_id false used
    end.
Proof. reflexivity. Qed.

Lemma _build_by_id_part fuel o i skip_left used part s :
  part_by_id o i = Some part ->
  build_filter_part part = Ok s ->
  _build_by_id (S fuel) o i skip_left used
  = _build_surroundings fuel o skip_left (part_left_id part) (part_right_id part)
      s used.
Proof. intros Hp Hs. cbn [_build_by_id]. rewrite Hp, Hs. reflexivity. Qed.

Lemma _build_surroundings_left fuel o i right_id s used left_logical :
  logical_by_id o i = Some left_logical ->
  _build_surroundings (S fuel) o true (Some i) right_id s used
  = and_then (_build_left fuel o left_logical (used ++ [logical_id left_logical]))
      (fun su =>
         and_then (Some (logical_name_of left_logical))
           (fun n => Some (Ok (fst su ++ " " ++ n ++ " " ++ s, snd su)%string))).
Proof.
  intros Hl. cbn [_build_surroundings]. rewrite Hl.
  destruct (_build_left fuel o left_logical _) as [[[s0 u0] | e] |]; cbn [and_then];
    try reflexivity.
  destruct (logical_name_of left_logical); reflexivity.
Qed.

Lemma _build_surroundings_none fuel o skip_left left_id right_id s used :
  (skip_left = true -> left_id = None) ->
  (skip_left = false -> right_id = None) ->
  _build_surroundings (S fuel) o skip_left left_id right_id s used
  = Some (Ok (s, used)).
Proof.
  intros Hl Hr. cbn [_build_surroundings].
  destruct skip_left.
  - rewrite (Hl eq_refl). reflexivity.
  - rewrite (Hr eq_refl). destruct left_id; reflexivity.
Qed.

Section FlatChain.
Context (o : FilterOption) (p1 : Part) (rest : list (Logical * Part)).
Hypothesis chain_parts : parts o = p1 :: map snd rest.
Hypothesis chain_logicals : logicals o = rev (map fst rest).
Hypothesis chain_start : part_left_id p1 = None.
Hypothesis chain_linked : linked p1 rest.
Hypothesis chain_stop : part_right_id (chain_end p1 rest) = None.
Hypothesis part_ids : NoDup (map part_id (parts o)).
Hypothesis logical_ids : NoDup (map logical_id (logicals o)).
Hypothesis complete : Forall (fun p => part_is_complete p = true) (parts o).
Hypothesis named : Forall (fun l => is_Some (logical_name l)) (logicals o).

Lemma chain_part_lookup q :
  In q (parts o) ->
  part_by_id o (part_id q) = Some q /\ build_filter_part q = Ok (part_string q).
Proof.
  intros Hq. split; [apply dict_by_id_NoDup; assumption |].
  rewrite Forall_forall in complete.
  pose proof (complete q (proj2 (list_elem_of_In _ _) Hq)) as Hc.
  unfold part_is_complete in Hc. unfold part_string, build_filter_part.
  destruct (part_name q); [| discriminate].
  destruct (part_operator q); [| discriminate].
  destruct (part_operand q); [| discriminate]. reflexivity.
Qed.

Lemma chain_logical_lookup l :
  In l (logicals o) ->
  logical_by_id o (logical_id l) = Some l
  /\ logical_name_of l = Ok (default EmptyString (logical_name l)).
Proof.
  intros Hl. split; [apply dict_by_id_NoDup; assumption |].
  rewrite Forall_forall in named.
  destruct (named l (proj2 (list_elem_of_In _ _) Hl)) as [n Hn].
  unfold logical_name_of. rewrite Hn. reflexivity.
Qed.

Lemma chain_members pre l q post :
  rest = pre ++ (l, q) :: post ->
  In l (logicals o) /\ In q (parts o) /\ In (chain_end p1 pre) (parts o).
Proof.
  intros ->. rewrite chain_parts, chain_logicals, !map_app. cbn [map fst snd].
  split; [| split].
  - apply in_rev. rewrite rev_involutive. apply in_or_app. right. left. reflexivity.
  - right. apply in_or_app. right. left. reflexivity.
  - unfold chain_end. destruct (map snd pre) as [| a ps] eqn:E; [left; reflexivity |].
    right. apply in_or_app. left.
    apply last_cons_In.
Qed.

(** [_build_left] on the logical that follows the prefix [pre] of the
    chain: the text of the prefix, every logical of it used. *)
Lemma _build_left_chain (pre : list (Logical * Part)) :
  forall l q post used fuel,
  rest = pre ++ (l, q) :: post ->
  (3 * S (length pre) <= fuel)%nat ->
  _build_left fuel o l used
  = Some (Ok (render (part_string p1) pre,
              used ++ rev (map (fun lq => logical_id (fst lq)) pre))).
Proof.
  induction pre as [| [l' q'] pre IH] using rev_ind;
    intros l q post used fuel Hrest Hfuel.
  - destruct fuel as [| [| [| fuel]]]; try (cbn in Hfuel; lia).
    pose proof chain_linked as Hl. rewrite Hrest in Hl. cbn in Hl.
    destruct Hl as (_ & Hleft & _).
    rewrite _build_left_S, Hleft.
    assert (Hp1 : In p1 (parts o)) by (rewrite chain_parts; left; reflexivity).
    destruct (chain_part_lookup p1 Hp1) as [Hfind Hstr].
    rewrite (_build_by_id_part _ _ _ _ _ _ _ Hfind Hstr).
    rewrite _build_surroundings_none; [| intros _; exact chain_start | discriminate].
    cbn. rewrite app_nil_r. reflexivity.
  - rewrite <- app_assoc in Hrest. cbn [app] in Hrest.
    destruct fuel as [| [| [| fuel]]]; try (rewrite length_app in Hfuel; cbn in Hfuel; lia).
    pose proof chain_linked as Hl. rewrite Hrest in Hl.
    apply linked_app in Hl as [_ Hl]. cbn [linked] in Hl.
    destruct Hl as (_ & _ & _ & Hq'left & _ & Hleft & _).
    destruct (chain_members pre l' q' ((l, q) :: post) Hrest) as (Hl'in & Hq'in & _).
    rewrite _build_left_S, Hleft.
    destruct (chain_part_lookup q' Hq'in) as [Hfind Hstr].
    rewrite (_build_by_id_part _ _ _ _ _ _ _ Hfind Hstr).
    destruct (chain_logical_lookup l' Hl'in) as [Hlfind Hlname].
    rewrite Hq'left, (_build_surroundings_left _ _ _ _ _ _ _ Hlfind).
    rewrite (IH l' q' ((l, q) :: post) _ fuel Hrest)
      by (rewrite length_app in Hfuel; cbn in Hfuel; lia).
    cbn [and_then fst snd]. rewrite Hlname. cbn [and_then].
    rewrite render_snoc, map_app, rev_app_distr, <- app_assoc. reflexivity.
Qed.

Lemma build_flat_chain (fuel : nat) :
  (3 * length (parts o) <= fuel)%nat ->
  (forall l, head (logicals o) = Some l -> logical_group_id l = None) ->
  FilterOptionBuilder_build fuel o = Some (Ok (render (part_string p1) rest)).
Proof.
  intros Hfuel Hgroup. unfold FilterOptionBuilder_build.
  assert (Hcase : rest = [] \/ exists rest0 l q, rest = rest0 ++ [(l, q)]).
  { generalize rest. intros r. destruct r as [| [l q] r _] using rev_ind; eauto. }
  destruct Hcase as [Erest | (rest0 & l & q & Erest)].
  - rewrite chain_parts, Erest. cbn [map].
    assert (Hp1 : In p1 (parts o)) by (rewrite chain_parts; left; reflexivity).
    destruct (chain_part_lookup p1 Hp1) as [_ ->]. reflexivity.
  - assert (Hparts : parts o = p1 :: map snd rest0 ++ [q])
      by (rewrite chain_parts, Erest, map_app; reflexivity).
    assert (Hlogs : logicals o = l :: rev (map fst rest0))
      by (rewrite chain_logicals, Erest, map_app, rev_app_distr; reflexivity).
    assert (Hne : exists q0 qs, map snd rest0 ++ [q] = q0 :: qs)
      by (destruct (map snd rest0); cbn; eauto).
    destruct Hne as (q0 & qs & Eqs). rewrite Hparts, Eqs.
    rewrite Hlogs. unfold _build_all.
    rewrite (Hgroup l) by (rewrite Hlogs; reflexivity).
    assert (Hlen : (3 * S (length rest0) + 3 <= fuel)%nat).
    { rewrite Hparts in Hfuel. cbn [length] in Hfuel.
      rewrite length_app, length_map in Hfuel. cbn in Hfuel. lia. }
    rewrite (_build_left_chain rest0 l q [] [logical_id l] fuel Erest)
      by lia.
    cbn [and_then fst snd].
    destruct (chain_members rest0 l q [] Erest) as (Hlin & Hqin & _).
    destruct (chain_logical_lookup l Hlin) as [_ Hlname].
    rewrite Hlname. cbn [and_then].
    pose proof chain_linked as Hl. rewrite Erest in Hl.
    apply linked_app in Hl as [_ Hl]. cbn [linked] in Hl.
    destruct Hl as (_ & _ & Hright & _).
    destruct fuel as [| [| [| fuel]]]; try lia.
    rewrite _build_right_S, Hright.
    destruct (chain_part_lookup q Hqin) as [Hfind Hstr].
    rewrite (_build_by_id_part _ _ _ _ _ _ _ Hfind Hstr).
    assert (Hstop : part_right_id q = None).
    { pose proof chain_stop as Hs. unfold chain_end in Hs.
      rewrite Erest, map_app in Hs. cbn [map snd] in Hs. rewrite last_last in Hs. exact Hs. }
    rewrite _build_surroundings_none; [| discriminate | intros _; exact Hstop].
    cbn [and_then fst snd]. unfold _check_last_logical.
    destruct (last_of (logicals o)) as [ll | e] eqn:Elast.
    + assert (Hused : id_in (logical_id ll)
                        ([logical_id l]
                         ++ rev (map (fun lq => logical_id (fst lq)) rest0)) = true).
      { apply last_of_inv in Elast as [ls Hls].
        unfold id_in. apply existsb_exists. exists (logical_id ll).
        split; [| apply N.eqb_refl].
        replace ([logical_id l] ++ rev (map (fun lq => logical_id (fst lq)) rest0))
          with (map logical_id (logicals o)).
        - rewrite Hls, map_app. apply in_or_app. right. left. reflexivity.
        - rewrite Hlogs. cbn [map app]. f_equal.
          rewrite <- map_rev, <- map_rev, map_map. reflexivity. }
      rewrite Hused, Erest, render_snoc. reflexivity.
    + rewrite Hlogs in Elast. unfold last_of in Elast. cbn [map] in Elast.
      exfalso. revert Elast.
      generalize (rev (map fst rest0)). intros ls.
      change (Some l :: map Some ls) with (map Some (l :: ls)).
      destruct (l :: ls) as [| a b] eqn:E using rev_ind; [discriminate |].
      rewrite map_app. cbn [map]. rewrite last_last. discriminate.
Qed.
End FlatChain.

(** X16: the builder on a flat chain.  For an option whose parts form a
    chain without groups, every part complete and every logical named, the
    ids of the parts distinct and the ids of the logicals distinct, and
    the logicals stored in reverse order of the chain as [generate] leaves
    them, [FilterOptionBuilder.build] returns the comparisons in the
    order of the chain, separated by the names of the logicals; a single
    part is returned as its comparison. *)
Theorem build_renders_flat_chain (o : FilterOption) (p1 : Part)
    (rest : list (Logical * Part)) (fuel : nat) :
  parts o = p1 :: map snd rest ->
  logicals o = rev (map fst rest) ->
  part_left_id p1 = None ->
  linked p1 rest ->
  part_right_id (chain_end p1 rest) = None ->
  NoDup (map part_id (parts o)) ->
  NoDup (map logical_id (logicals o)) ->
  Forall (fun p => part_is_complete p = true) (parts o) ->
  Forall (fun l => is_Some (logical_name l)) (logicals o) ->
  (forall l, head (logicals o) = Some l -> logical_group_id l = None) ->
  (3 * length (parts o) <= fuel)%nat ->
  FilterOptionBuilder_build fuel o = Some (Ok (render (part_string p1) rest)).
Proof.
  intros H1 H2 H3 H4 H5 H6 H7 H8 H9 Hgroup Hfuel.
  exact (build_flat_chain o p1 rest H1 H2 H3 H4 H5 H6 H7 H8 H9 fuel Hfuel Hgroup).
Qed.

Lemma build_renders_flat_chain_witness :
  exists o p1 rest,
    items_filter = Some o
    /\ chain_of o = Some (p1, rest)
    /\ length rest = 1%nat
    /\ FilterOptionBuilder_build 6 o = Some (Ok (render (part_string p1) rest))
    /\ render (part_string p1) rest = option_string o.
Proof.
  destruct items_filter as [o |] eqn:Eo; [| vm_compute in Eo; discriminate].
  vm_compute in Eo. injection Eo as <-.
  match goal with
  | |- exists o0 p rest, Some ?x = Some o0 /\ _ =>
      destruct (chain_of x) as [[p1 rest] |] eqn:Ec;
        [| vm_compute in Ec; discriminate];
      vm_compute in Ec; injection Ec as <- <-;
      eexists x, _, _
  end.
  split; [reflexivity |]. split; [vm_compute; reflexivity |].
  split; [reflexivity |]. split; [| vm_compute; reflexivity].
  apply build_renders_flat_chain.
  - reflexivity.
  - reflexivity.
  - reflexivity.
  - cbn. repeat split; reflexivity.
  - reflexivity.
  - cbn. apply (bool_decide_unpack _). vm_compute. exact I.
  - cbn. apply (bool_decide_unpack _). vm_compute. exact I.
  - repeat constructor.
  - repeat constructor; eexists; reflexivity.
  - intros l [= <-]. reflexivity.
  - cbn. lia.
Defined.

(** ** Construction of a [FilterQuery] *)

(** X17: what [FilterQuery.__init__] sets up.  When the constructor
    returns, the filterable list holds the properties of the entity set in
    order; the required list holds, in order, those that are required in a
    filter or carry the name of the first draft property, every one of
    them marked as not replaceable; every filterable property carries the
    generator of remaining comparisons that matches its filter
    restriction; and leaves call [_generate_function] exactly when some
    function family is left. *)
Theorem FilterQuery_init_sets_up_lists (C : Constants) (entity : EntitySet)
    (restrictions : option QueryRestriction) (draft_properties : list string)
    (T T' : ClassTable) (self : FilterQuery) :
  FilterQuery_init C entity restrictions draft_properties T = Ok (self, T') ->
  map name (_filterable_proprties self) = map name (proprties entity)
  /\ map name (_required_proprties self)
     = map name
         (List.filter
            (fun p => required_in_filter p
                      || match draft_properties with
                         | d :: _ => String.eqb (name p) d
                         | [] => false
                         end)
            (proprties entity))
  /\ Forall (fun p => replaceable p = Some false) (_required_proprties self)
  /\ Forall (fun p => generate_remaining_proprties p
                      = Some (remaining_generator_for p))
       (_filterable_proprties self)
  /\ (_noterm_function self = the__generate_function <-> _functions self <> []).
Proof.
  unfold FilterQuery_init.
  destruct (FilterFunctionsGroup C _ _ _) as [[group T1] | e]; [| discriminate].
  cbn [bind].
  set (required :=
         fun p : Proprty =>
           required_in_filter p
           || match draft_properties with
              | d :: _ => String.eqb (name p) d
              | [] => false
              end).
  destruct (match draft_properties with
            | [] => Ok None
            | d :: _ => _
            end) as [draft | e] eqn:Ed; [| discriminate].
  assert (Hreq : forall p, is_required draft p = required p).
  { intros p. unfold is_required, required.
    destruct draft_properties as [| d ds].
    - injection Ed as <-. reflexivity.
    - unfold proprty in Ed.
      destruct (List.find _ _) as [pd |] eqn:Ef; [| discriminate].
      cbn [bind] in Ed. injection Ed as <-.
      apply find_some in Ef as [_ Ef]. apply String.eqb_eq in Ef. rewrite Ef.
      reflexivity. }
  cbn [bind]. intros [= <- _].
  cbn [_filterable_proprties _required_proprties _noterm_function _functions].
  set (finish := fun p : Proprty =>
                   set_generate_remaining (remaining_generator_for p)
                     (if is_required draft p then set_replaceable false p else p)).
  assert (Hname : forall p, name (finish p) = name p).
  { intros p. unfold finish. destruct (is_required draft p); reflexivity. }
  assert (Hfin : forall p, is_required draft (finish p) = is_required draft p).
  { intros p. unfold finish. destruct (is_required draft p) eqn:E;
      rewrite <- E; reflexivity. }
  split; [| split; [| split; [| split]]].
  - rewrite map_map. apply map_ext. exact Hname.
  - induction (proprties entity) as [| p ps IH]; [reflexivity |].
    cbn [map List.filter]. rewrite Hfin, Hreq.
    destruct (required p); cbn [map]; rewrite ?Hname, IH; reflexivity.
  - apply List.Forall_forall. intros p Hp. apply filter_In in Hp as [Hp Hr].
    apply in_map_iff in Hp as (p0 & <- & _). rewrite Hfin in Hr.
    unfold finish. rewrite Hr. reflexivity.
  - apply List.Forall_forall. intros p Hp.
    apply in_map_iff in Hp as (p0 & <- & _).
    unfold finish, remaining_generator_for. destruct (is_required draft p0); reflexivity.
  - destruct group; cbn; split; congruence.
Qed.

Lemma FilterQuery_init_sets_up_lists_witness :
  exists self T',
    FilterQuery_init example_constants tagged None [] initial_classes = Ok (self, T')
    /\ map name (_filterable_proprties self) = ["Tag"; "Id"]%string
    /\ map name (_required_proprties self) = ["Id"]%string
    /\ Forall (fun p => replaceable p = Some false) (_required_proprties self).
Proof.
  destruct (FilterQuery_init example_constants tagged None [] initial_classes)
    as [[self T'] | e] eqn:E; [| vm_compute in E; discriminate].
  exists self, T'. split; [reflexivity |].
  destruct (FilterQuery_init_sets_up_lists _ _ _ _ _ _ _ E) as (H1 & H2 & H3 & _).
  split; [exact H1 |]. split; [exact H2 | exact H3].
Defined.

(** ** [patch_proprties] *)

(** X18: what [patch_proprties] installs.  Patching keeps the properties,
    their order and their metadata; every property gets the generator of
    its type, the Boolean operators when its type is [Edm.Boolean] and the
    expression operators otherwise, and a string property gets a maximum
    length that is never zero.  Patching twice is patching once. *)
Theorem patch_proprties_installs_and_is_idempotent (C : Constants) (e : EntitySet) :
  patch_proprties C (patch_proprties C e) = patch_proprties C e
  /\ map (fun p => (name p, typ_name p, max_length p, filterable p, sortable p,
                    required_in_filter p, filter_restriction p))
       (proprties (patch_proprties C e))
     = map (fun p => (name p, typ_name p, max_length p, filterable p, sortable p,
                      required_in_filter p, filter_restriction p))
         (proprties e)
  /\ Forall
       (fun p =>
          generate p = Some (patch_proprty_generator (typ_name p))
          /\ operators p
             = Some (if String.eqb (typ_name p) "Edm.Boolean"
                     then BOOLEAN_OPERATORS C else EXPRESSION_OPERATORS C)
          /\ (typ_name p = "Edm.String"%string ->
              exists n, max_string_length_attr p = Some n /\ n <> 0))
       (proprties (patch_proprties C e)).
Proof.
  split; [apply patch_proprties_idempotent |].
  unfold patch_proprties, proprties. cbn [_properties set_properties]. split.
  - rewrite map_map. apply map_ext. intros p. rewrite patch_proprty_fields. reflexivity.
  - apply List.Forall_forall. intros p Hp. apply in_map_iff in Hp as (p0 & <- & _).
    rewrite patch_proprty_fields. cbn. split; [reflexivity |]. split; [reflexivity |].
    intros Ht. rewrite Ht. cbn. eexists. split; [reflexivity |].
    unfold max_string_length. destruct (max_length p0) as [n |]; [| discriminate].
    destruct (n =? 0) eqn:En; [discriminate |]. apply Z.eqb_neq. exact En.
Qed.

(** ** Principal entities *)

Lemma first_end_of_two (n : string) (e0 e1 : AssociationSetEnd) (index : nat) :
  first_end_of n [e0; e1] 0 = Some index ->
  (end_entity_set e0 = n /\ index = 0%nat)
  \/ (end_entity_set e0 <> n /\ end_entity_set e1 = n /\ index = 1%nat).
Proof.
  cbn. destruct (String.eqb (end_entity_set e0) n) eqn:E0.
  - intros [= <-]. left. apply String.eqb_eq in E0. auto.
  - destruct (String.eqb (end_entity_set e1) n) eqn:E1; [| discriminate].
    intros [= <-]. right. apply String.eqb_neq in E0. apply String.eqb_eq in E1. auto.
Qed.

(** What either getter returns for one association set: nothing, or the
    entity set of the end opposite to the first end of [n], which the
    getter accepts as principal. *)
Lemma PrincipalGetter_get_other_end
    (get_principal : AssociationSet -> nat -> result (option string))
    (a : AssociationSet) (n p : string) :
  (forall index e q, ends a !! index = Some e ->
     get_principal a index = Ok (Some q) ->
     q = end_entity_set e /\ is_principal_end a e) ->
  PrincipalGetter_get get_principal a n = Ok (Some p) ->
  exists e0 e1,
    ends a = [e0; e1]
    /\ ((end_entity_set e0 = n /\ p = end_entity_set e1 /\ is_principal_end a e1)
        \/ (end_entity_set e0 <> n /\ end_entity_set e1 = n
            /\ p = end_entity_set e0 /\ is_principal_end a e0)).
Proof.
  intros Hget. unfold PrincipalGetter_get.
  destruct (ends a) as [| e0 [| e1 [| e2 rest]]] eqn:Eends; try discriminate.
  cbn [length Nat.eqb].
  destruct (first_end_of n [e0; e1] 0) as [index |] eqn:Ei; [| discriminate].
  intros Hp. exists e0, e1. split; [reflexivity |].
  destruct (first_end_of_two _ _ _ _ Ei) as [[H0 ->] | (H0 & H1 & ->)].
  - left. destruct (Hget 1%nat e1 p eq_refl Hp) as [-> Hq]. auto.
  - right. destruct (Hget 0%nat e0 p eq_refl Hp) as [-> Hq]. auto.
Qed.

Lemma EndsPrincipal_accepts a index e q :
  ends a !! index = Some e ->
  EndsPrincipal_get_principal a index = Ok (Some q) ->
  q = end_entity_set e /\ is_principal_end a e.
Proof.
  intros He. unfold EndsPrincipal_get_principal, end_at. rewrite He. cbn [bind].
  destruct (referential_principal a) as [pn |] eqn:Ep; [| discriminate].
  destruct (String.eqb pn (end_role e)) eqn:E; [| discriminate].
  intros [= <-]. apply String.eqb_eq in E. subst pn.
  split; [reflexivity | left; exact Ep].
Qed.

Lemma MultiplicityPrincipal_accepts a index e q :
  ends a !! index = Some e ->
  MultiplicityPrincipal_get_principal a index = Ok (Some q) ->
  q = end_entity_set e /\ is_principal_end a e.
Proof.
  intros He. unfold MultiplicityPrincipal_get_principal, end_at. rewrite He.
  cbn [bind].
  destruct (end_by_role a (end_role e)) as [m | err] eqn:Em; [| discriminate].
  cbn [bind]. destruct (String.eqb m "1") eqn:E; [| discriminate].
  intros [= <-]. apply String.eqb_eq in E. subst m.
  split; [reflexivity | right; exact Em].
Qed.

Lemma get_principal_entities_sound (association_sets : list AssociationSet)
    (n : string) : forall acc ps,
  get_principal_entities association_sets n acc = Ok ps ->
  exists found,
    ps = acc ++ found
    /\ (length found <= length association_sets)%nat
    /\ forall p, In p found ->
         exists a e0 e1,
           In a association_sets /\ ends a = [e0; e1]
           /\ ((end_entity_set e0 = n /\ p = end_entity_set e1
                /\ is_principal_end a e1)
               \/ (end_entity_set e0 <> n /\ end_entity_set e1 = n
                   /\ p = end_entity_set e0 /\ is_principal_end a e0)).
Proof.
  induction association_sets as [| a rest IH]; intros acc ps;
    cbn [get_principal_entities].
  - intros [= <-]. exists []. rewrite app_nil_r. split; [reflexivity |].
    split; [cbn; lia | intros p []].
  - assert (Hstep : forall p,
              (PrincipalGetter_get EndsPrincipal_get_principal a n = Ok (Some p)
               \/ PrincipalGetter_get MultiplicityPrincipal_get_principal a n
                  = Ok (Some p)) ->
              get_principal_entities rest n (acc ++ [p]) = Ok ps ->
              exists found,
                ps = acc ++ found
                /\ (length found <= S (length rest))%nat
                /\ forall p, In p found ->
                     exists a0 e0 e1,
                       In a0 (a :: rest) /\ ends a0 = [e0; e1]
                       /\ ((end_entity_set e0 = n /\ p = end_entity_set e1
                            /\ is_principal_end a0 e1)
                           \/ (end_entity_set e0 <> n /\ end_entity_set e1 = n
                               /\ p = end_entity_set e0 /\ is_principal_end a0 e0))).
    { intros p Hp Hrest.
      destruct (IH _ _ Hrest) as (found & -> & Hlen & Hfound).
      exists (p :: found). rewrite <- app_assoc. split; [reflexivity |].
      split; [cbn; lia |].
      intros q [<- | Hq].
      - assert (H : exists e0 e1,
                  ends a = [e0; e1]
                  /\ ((end_entity_set e0 = n /\ p = end_entity_set e1
                       /\ is_principal_end a e1)
                      \/ (end_entity_set e0 <> n /\ end_entity_set e1 = n
                          /\ p = end_entity_set e0 /\ is_principal_end a e0))).
        { destruct Hp as [Hp | Hp].
          - exact (PrincipalGetter_get_other_end _ a n p
                     (EndsPrincipal_accepts a) Hp).
          - exact (PrincipalGetter_get_other_end _ a n p
                     (MultiplicityPrincipal_accepts a) Hp). }
        destruct H as (e0 & e1 & He & Hc). exists a, e0, e1.
        split; [left; reflexivity |]. auto.
      - destruct (Hfound q Hq) as (a0 & e0 & e1 & Ha0 & He & Hc).
        exists a0, e0, e1. split; [right; exact Ha0 |]. auto. }
    destruct (PrincipalGetter_get EndsPrincipal_get_principal a n)
      as [[p |] | err] eqn:E1; cbn [bind]; [| | discriminate].
    + apply Hstep. left. reflexivity.
    + destruct (PrincipalGetter_get MultiplicityPrincipal_get_principal a n)
        as [[p |] | err] eqn:E2; cbn [bind]; [| | discriminate].
      * apply Hstep. right. reflexivity.
      * intros Hrest. destruct (IH _ _ Hrest) as (found & -> & Hlen & Hfound).
        exists found. split; [reflexivity |]. split; [cbn; lia |].
        intros q Hq. destruct (Hfound q Hq) as (a0 & e0 & e1 & Ha0 & He & Hc).
        exists a0, e0, e1. split; [right; exact Ha0 |]. auto.
Qed.

(** X19: a principal entity is the opposite end.  When
    [get_principal_entities] returns, it lists at most one entity set per
    association set, and every one it lists is the entity set at the other
    end of an association set with exactly two ends, one of which is the
    entity set asked about (the first such end when both are); that other
    end's role is the principal of the referential constraint, or its
    multiplicity is 1. *)
Theorem principal_entities_are_opposite_ends (association_sets : list AssociationSet)
    (n : string) (ps : list string) :
  get_principal_entities association_sets n [] = Ok ps ->
  (length ps <= length association_sets)%nat
  /\ forall p, In p ps ->
       exists a e0 e1,
         In a association_sets /\ ends a = [e0; e1]
         /\ ((end_entity_set e0 = n /\ p = end_entity_set e1
              /\ is_principal_end a e1)
             \/ (end_entity_set e0 <> n /\ end_entity_set e1 = n
                 /\ p = end_entity_set e0 /\ is_principal_end a e0)).
Proof.
  intros H. destruct (get_principal_entities_sound _ _ _ _ H) as (found & -> & Hl & Hf).
  cbn. auto.
Qed.

Lemma principal_entities_are_opposite_ends_witness :
  get_principal_entities orders_associations "Orders" []
  = Ok ["Customers"; "Carriers"]%string
  /\ forall p, In p ["Customers"; "Carriers"]%string ->
       exists a e0 e1,
         In a orders_associations /\ ends a = [e0; e1]
         /\ (p = end_entity_set e0 \/ p = end_entity_set e1).
Proof.
  assert (H : get_principal_entities orders_associations "Orders" []
              = Ok ["Customers"; "Carriers"]%string) by reflexivity.
  split; [exact H |].
  destruct (principal_entities_are_opposite_ends _ _ _ H) as [_ Hp].
  intros p Hin. destruct (Hp p Hin) as (a & e0 & e1 & Ha & He & Hc).
  exists a, e0, e1. split; [exact Ha |]. split; [exact He |].
  destruct Hc as [(_ & -> & _) | (_ & _ & -> & _)]; auto.
Defined.

(** ** [Builder.build] *)

Lemma dict_set_keys {V : Type} (k : string) (v : V) (d : list (string * V)) :
  map fst (dict_set String.eqb k v d)
  = if existsb (String.eqb k) (map fst d) then map fst d else map fst d ++ [k].
Proof.
  induction d as [| [k0 v0] d IH]; cbn; [reflexivity |].
  rewrite (String.eqb_sym k k0). destruct (String.eqb k0 k) eqn:E; cbn.
  - apply String.eqb_eq in E. subst k0. reflexivity.
  - rewrite IH. destruct (existsb _ _); reflexivity.
Qed.

Lemma dict_set_In {V : Type} (k k' : string) (v v' : V) (d : list (string * V)) :
  In (k, v) (dict_set String.eqb k' v' d) -> (k, v) = (k', v') \/ In (k, v) d.
Proof.
  induction d as [| [k0 v0] d IH]; cbn.
  - intros [H | []]. left. symmetry. exact H.
  - destruct (String.eqb k0 k').
    + intros [H | H]; [left; symmetry; exact H | right; right; exact H].
    + intros [H | H]; [right; left; exact H |].
      destruct (IH H) as [Heq | Hin]; auto.
Qed.

Lemma QueryGroup_init_name (C : Constants) (dispatcher : Dispatcher)
    (e : EntitySet) (r : option Restrictions) (T : ClassTable)
    (g : QueryGroup) (w : World) :
  QueryGroup_init C dispatcher
    {| the_entity_set := patch_proprties C e; the_restrictions := r;
       the_classes := T |} = Ok (g, w) ->
  es_name (the_entity_set w) = es_name e.
Proof.
  intros H. apply QueryGroup_init_entity_set in H.
  - rewrite H. reflexivity.
  - apply patch_proprties_idempotent.
Qed.

Section BuildLoop.
Context (C : Constants) (dispatcher : Dispatcher)
        (association_sets : list AssociationSet).

Lemma build_entity_sets_registers (entity_sets : list EntitySet) :
  forall r T q q' r' T' seen,
  build_entity_sets C dispatcher association_sets entity_sets r T q
  = Ok (q', r', T') ->
  NoDup (map fst q) ->
  (forall n g, In (n, g) q -> _query_options g <> [] /\ In n seen) ->
  NoDup (map fst q')
  /\ (forall n g, In (n, g) q' ->
        _query_options g <> [] /\ In n (seen ++ map es_name entity_sets))
  /\ (NoDup (seen ++ map es_name entity_sets) ->
      map fst q `sublist_of` seen ->
      map fst q' `sublist_of` seen ++ map es_name entity_sets).
Proof.
  induction entity_sets as [| e rest IH]; intros r T q q' r' T' seen;
    cbn [build_entity_sets].
  - intros [= <- _ _] Hnd Hin. rewrite app_nil_r. auto.
  - destruct (get_principal_entities _ _ _) as [ps | err]; [| discriminate].
    cbn [bind].
    destruct (QueryGroup_init _ _ _) as [[g w] | err] eqn:Eg; [| discriminate].
    cbn [bind]. rewrite (QueryGroup_init_name _ _ _ _ _ _ _ Eg).
    intros Hrest Hnd Hin.
    set (q1 := if list_truthy (_query_options g)
               then QueryableEntities_add (es_name e) g q else q) in Hrest.
    assert (Hnd1 : NoDup (map fst q1)).
    { subst q1. destruct (list_truthy _); [| exact Hnd].
      unfold QueryableEntities_add. rewrite dict_set_keys.
      destruct (existsb _ _) eqn:Ex; [exact Hnd |].
      apply NoDup_app. split; [exact Hnd |]. split; [| apply NoDup_singleton].
      intros k Hk Hk'. apply list_elem_of_singleton in Hk'. subst k.
      assert (existsb (String.eqb (es_name e)) (map fst q) = true).
      { apply existsb_exists. exists (es_name e).
        split; [apply list_elem_of_In; exact Hk | apply String.eqb_refl]. }
      congruence. }
    assert (Hin1 : forall n g0, In (n, g0) q1 ->
              _query_options g0 <> [] /\ In n (seen ++ [es_name e])).
    { intros n g0 H. subst q1.
      destruct (list_truthy (_query_options g)) eqn:Et.
      - apply dict_set_In in H as [[= -> ->] | H].
        + split; [destruct (_query_options g); discriminate |].
          apply in_or_app. right. left. reflexivity.
        + destruct (Hin _ _ H) as [H1 H2]. split; [exact H1 |].
          apply in_or_app. left. exact H2.
      - destruct (Hin _ _ H) as [H1 H2]. split; [exact H1 |].
        apply in_or_app. left. exact H2. }
    destruct (IH _ _ _ _ _ _ (seen ++ [es_name e]) Hrest Hnd1 Hin1)
      as (Hnd' & Hin' & Hsub').
    rewrite <- app_assoc in Hin', Hsub'. cbn [app map] in *.
    split; [exact Hnd' |]. split; [exact Hin' |].
    intros Hnames Hsub. apply Hsub'; [exact Hnames |].
    subst q1. destruct (list_truthy _); [| apply sublist_inserts_r; exact Hsub].
    unfold QueryableEntities_add. rewrite dict_set_keys.
    destruct (existsb _ _) eqn:Ex.
    + apply sublist_inserts_r. exact Hsub.
    + apply sublist_app; [exact Hsub | reflexivity].
Qed.
End BuildLoop.

Lemma get_entity_registered (q : QueryableEntities) (n : string) (g : QueryGroup) :
  NoDup (map fst q) -> In (n, g) q -> get_entity q n = Ok g.
Proof.
  unfold get_entity. induction q as [| [k v] q IH]; cbn; intros Hnd Hin;
    [contradiction |].
  apply NoDup_cons in Hnd as [Hk Hnd].
  destruct Hin as [[= -> ->] | Hin].
  - rewrite String.eqb_refl. reflexivity.
  - destruct (String.eqb k n) eqn:E; [| apply IH; assumption].
    apply String.eqb_eq in E. subst k. exfalso. apply Hk.
    apply list_elem_of_In, in_map_iff. exists (n, g). auto.
Qed.

(** X20: what [Builder.build] registers.  When [build] returns, the
    queryable entities hold at most one group per name; every group held
    has at least one query option, belongs to an entity set of the data
    model and is what [get_entity] returns for its name; and when the
    entity sets have distinct names the groups are held in the order of
    the data model. *)
Theorem Builder_build_registers_groups_with_options (C : Constants)
    (dispatcher : Dispatcher) (association_sets : list AssociationSet)
    (entity_sets : list EntitySet) (r r' : option Restrictions)
    (T T' : ClassTable) (q : QueryableEntities) :
  Builder_build C dispatcher association_sets entity_sets r T = Ok (q, r', T') ->
  NoDup (map fst q)
  /\ (forall n g, In (n, g) q ->
        _query_options g <> []
        /\ In n (map es_name entity_sets)
        /\ get_entity q n = Ok g)
  /\ (NoDup (map es_name entity_sets) ->
      map fst q `sublist_of` map es_name entity_sets).
Proof.
  unfold Builder_build. intros H.
  destruct (build_entity_sets_registers C dispatcher association_sets entity_sets
              r T [] q r' T' [] H) as (Hnd & Hin & Hsub).
  - constructor.
  - intros n g [].
  - cbn [app] in *. split; [exact Hnd |]. split.
    + intros n g Hg. destruct (Hin n g Hg) as [H1 H2].
      split; [exact H1 |]. split; [exact H2 |].
      apply get_entity_registered; assumption.
    + intros Hnames. apply Hsub; [exact Hnames | constructor].
Qed.

Lemma Builder_build_registers_groups_with_options_witness :
  exists q r' T',
    Builder_build example_constants unreachable orders_associations small_model
      None initial_classes = Ok (q, r', T')
    /\ map fst q = ["Orders"%string]
    /\ forall n g, In (n, g) q -> _query_options g <> [] /\ get_entity q n = Ok g.
Proof.
  destruct (Builder_build example_constants unreachable orders_associations
              small_model None initial_classes) as [[[q r'] T'] | e] eqn:E;
    [| vm_compute in E; discriminate].
  exists q, r', T'. split; [reflexivity |].
  destruct (Builder_build_registers_groups_with_options _ _ _ _ _ _ _ _ _ E)
    as (_ & Hin & _).
  split.
  - vm_compute in E. injection E as <- _ _. reflexivity.
  - intros n g Hg. destruct (Hin n g Hg) as (H1 & _ & H3). auto.
Defined.

(** ** The path of an accessible entity *)

Lemma string_append_assoc (a b c : string) :
  ((a ++ b) ++ c = a ++ (b ++ c))%string.
Proof.
  induction a as [| x a IH]; [reflexivity |].
  change (String x ((a ++ b) ++ c) = String x (a ++ (b ++ c)))%string.
  f_equal. exact IH.
Qed.

Lemma string_append_nil_r (a : string) : (a ++ EmptyString)%string = a.
Proof.
  induction a as [| x a IH]; [reflexivity |].
  change (String x (a ++ EmptyString) = String x a)%string. f_equal. exact IH.
Qed.

Lemma drop_last_comma (s : string) : drop_last (s ++ ",") = s.
Proof.
  induction s as [| c s IH]; [reflexivity |].
  change (drop_last (String c (s ++ ",")) = String c s)%string.
  destruct s as [| c' s]; [reflexivity |].
  change (String c (drop_last (String c' s ++ ",")) = String c (String c' s))%string.
  f_equal. exact IH.
Qed.

(** The loop of [_generate_key_pairs] writes every pair followed by a
    comma: the pairs joined by commas, and one comma more. *)
Lemma key_pairs_loop_joined (kvs : list (string * string)) : forall acc,
  kvs <> [] ->
  key_pairs_loop (map (fun kv => (fst kv, Some (snd kv))) kvs) acc
  = Ok (acc
        ++ (String.concat "," (map (fun kv => fst kv ++ "=" ++ snd kv) kvs)
            ++ ","))%string.
Proof.
  induction kvs as [| [k v] kvs IH]; intros acc Hne; [contradiction |].
  cbn [map key_pairs_loop fst snd].
  destruct kvs as [| kv' kvs].
  - cbn [map key_pairs_loop String.concat fst snd].
    rewrite !string_append_assoc. reflexivity.
  - rewrite IH by discriminate.
    cbn [map String.concat fst snd].
    rewrite !string_append_assoc. reflexivity.
Qed.

Lemma key_pairs_loop_None (l : list (string * option string)) : forall acc k,
  In (k, None) l -> key_pairs_loop l acc = Raise TypeError.
Proof.
  induction l as [| [k0 [v0 |]] l IH]; intros acc k Hin; cbn; [contradiction | |].
  - destruct Hin as [[= _] | Hin]. eapply IH. exact Hin.
  - reflexivity.
Qed.

(** The name found by [_init_entity_set_name] is that of a navigation
    property of the principal which leads to a role of the entity set;
    none is found when the principal has no name or no such property. *)
Lemma entity_set_name_fold (ends : list string) (navs : list (string * string)) :
  forall acc,
  let r := fold_left
             (fun found nav =>
                if existsb (String.eqb (snd nav)) ends
                then Some (fst nav) else found) navs acc in
  (r = acc /\ forall nav, In nav navs -> existsb (String.eqb (snd nav)) ends = false)
  \/ (exists n role, r = Some n /\ In (n, role) navs
                     /\ existsb (String.eqb role) ends = true).
Proof.
  induction navs as [| [n role] navs IH]; intros acc; cbn [fold_left].
  - left. split; [reflexivity | intros nav []].
  - cbn [fst snd]. destruct (existsb (String.eqb role) ends) eqn:E.
    + right. destruct (IH (Some n)) as [[Hr _] | (n' & role' & Hr & Hin & Hrole)].
      * exists n, role. split; [exact Hr | split; [left; reflexivity | exact E]].
      * exists n', role'. split; [exact Hr | split; [right; exact Hin | exact Hrole]].
    + destruct (IH acc) as [[Hr Hno] | (n' & role' & Hr & Hin & Hrole)].
      * left. split; [exact Hr |]. intros nav [<- | Hin]; [exact E | apply Hno, Hin].
      * right. exists n', role'. split; [exact Hr | split; [right; exact Hin | exact Hrole]].
Qed.

Lemma existsb_eqb_In (k : string) (l : list string) :
  existsb (String.eqb k) l = true <-> In k l.
Proof.
  rewrite existsb_exists. split.
  - intros (x & Hin & E). apply String.eqb_eq in E. subst x. exact Hin.
  - intros Hin. exists k. split; [exact Hin | apply String.eqb_refl].
Qed.

Lemma string_truthy_false (s : string) : string_truthy s = false <-> s = EmptyString.
Proof. destruct s; cbn; split; congruence. Qed.

Lemma _init_entity_set_name_found (es p : KeyedEntitySet) (n : string) :
  _init_entity_set_name es p = Some n ->
  kes_name p <> EmptyString
  /\ exists role, In (n, role) (nav_to_roles p)
                  /\ In role (association_set_end_roles es).
Proof.
  unfold _init_entity_set_name.
  destruct (string_truthy (kes_name p)) eqn:Et; [| discriminate].
  intros H. split.
  - intros Hn. apply string_truthy_false in Hn. congruence.
  - destruct (entity_set_name_fold (association_set_end_roles es)
                (nav_to_roles p) None) as [[Hr _] | (n' & role & Hr & Hin & Hrole)];
      cbv zeta in Hr; rewrite H in Hr; [discriminate |].
    injection Hr as ->. exists role. split; [exact Hin |].
    apply existsb_eqb_In. exact Hrole.
Qed.

Lemma _init_entity_set_name_None (es p : KeyedEntitySet) :
  _init_entity_set_name es p = None <->
  kes_name p = EmptyString
  \/ forall nav, In nav (nav_to_roles p) ->
                 ~ In (snd nav) (association_set_end_roles es).
Proof.
  unfold _init_entity_set_name.
  destruct (string_truthy (kes_name p)) eqn:Et.
  - destruct (entity_set_name_fold (association_set_end_roles es)
                (nav_to_roles p) None) as [[Hr Hno] | (n' & role & Hr & Hin & Hrole)];
      cbv zeta in Hr; rewrite Hr; split.
    + intros _. right. intros nav Hin Hrole. apply existsb_eqb_In in Hrole.
      rewrite (Hno nav Hin) in Hrole. discriminate.
    + reflexivity.
    + discriminate.
    + intros [Hn | Hno].
      * apply string_truthy_false in Hn. congruence.
      * exfalso. apply (Hno (n', role) Hin). apply existsb_eqb_In. exact Hrole.
  - split; [| reflexivity]. intros _. left. apply string_truthy_false. exact Et.
Qed.

Lemma _build_key_values_joined (es p : KeyedEntitySet) (kvs : list (string * string)) :
  kvs <> [] ->
  _build_key_values
    (AccessibleEntity_init es (map (fun kv => (fst kv, Some (snd kv))) kvs) p)
  = Ok ("(" ++ String.concat "," (map (fun kv => fst kv ++ "=" ++ snd kv) kvs)
            ++ ")")%string.
Proof.
  intros Hne. unfold _build_key_values, _generate_key_pairs, AccessibleEntity_init.
  cbn [ae_key_pairs]. rewrite (key_pairs_loop_joined kvs EmptyString Hne).
  cbn [bind]. change (EmptyString ++ ?s)%string with s.
  rewrite drop_last_comma. reflexivity.
Qed.

Lemma path_of_entity (es p : KeyedEntitySet) (kvs : list (string * string)) :
  kvs <> [] ->
  let keys := map (fun kv => (fst kv, Some (snd kv))) kvs in
  let key_values :=
    ("(" ++ String.concat "," (map (fun kv => fst kv ++ "=" ++ snd kv) kvs)
         ++ ")")%string in
  AccessibleEntity_path (AccessibleEntity_init es [] p) = Ok (kes_name es)
  /\ (kes_name p = EmptyString ->
      AccessibleEntity_path (AccessibleEntity_init es keys p)
      = Ok (kes_name es ++ key_values)%string)
  /\ (kes_name p <> EmptyString ->
      (forall nav, In nav (nav_to_roles p) ->
                   ~ In (snd nav) (association_set_end_roles es)) ->
      AccessibleEntity_path (AccessibleEntity_init es keys p) = Raise TypeError)
  /\ (kes_name p <> EmptyString ->
      (exists nav, In nav (nav_to_roles p)
                   /\ In (snd nav) (association_set_end_roles es)) ->
      exists n role,
        In (n, role) (nav_to_roles p)
        /\ In role (association_set_end_roles es)
        /\ AccessibleEntity_path (AccessibleEntity_init es keys p)
           = Ok (kes_name p ++ key_values ++ "/" ++ n)%string)
  /\ (forall k keys',
        In (k, None) keys' ->
        AccessibleEntity_path (AccessibleEntity_init es keys' p) = Raise TypeError).
Proof.
  intros Hne keys key_values.
  assert (Hk : list_truthy keys = true).
  { subst keys. destruct kvs; [contradiction | reflexivity]. }
  assert (Hb := _build_key_values_joined es p kvs Hne). fold keys key_values in Hb.
  split; [reflexivity |]. split; [| split; [| split]].
  - intros Hn. unfold AccessibleEntity_path.
    change (ae_key_pairs (AccessibleEntity_init es keys p)) with keys. rewrite Hk.
    unfold _generate_addressable_path.
    change (ae_principal_entity_set (AccessibleEntity_init es keys p)) with p.
    rewrite Hn. cbn [string_truthy]. rewrite Hb. reflexivity.
  - intros Hn Hno. unfold AccessibleEntity_path.
    change (ae_key_pairs (AccessibleEntity_init es keys p)) with keys. rewrite Hk.
    unfold _generate_addressable_path.
    change (ae_principal_entity_set (AccessibleEntity_init es keys p)) with p.
    change (ae_entity_set_name (AccessibleEntity_init es keys p))
      with (_init_entity_set_name es p).
    destruct (string_truthy (kes_name p)) eqn:Et;
      [| apply string_truthy_false in Et; contradiction].
    rewrite Hb. cbn [bind].
    rewrite (proj2 (_init_entity_set_name_None es p) (or_intror Hno)). reflexivity.
  - intros Hn (nav & Hin & Hrole). unfold AccessibleEntity_path.
    change (ae_key_pairs (AccessibleEntity_init es keys p)) with keys. rewrite Hk.
    unfold _generate_addressable_path.
    change (ae_principal_entity_set (AccessibleEntity_init es keys p)) with p.
    change (ae_entity_set_name (AccessibleEntity_init es keys p))
      with (_init_entity_set_name es p).
    destruct (string_truthy (kes_name p)) eqn:Et;
      [| apply string_truthy_false in Et; contradiction].
    rewrite Hb. cbn [bind].
    destruct (_init_entity_set_name es p) as [n |] eqn:En.
    + destruct (_init_entity_set_name_found es p n En) as (_ & role & H1 & H2).
      exists n, role. split; [exact H1 | split; [exact H2 | reflexivity]].
    + apply _init_entity_set_name_None in En. destruct En as [En | En];
        [contradiction | exfalso; exact (En nav Hin Hrole)].
  - intros k keys' Hin. unfold AccessibleEntity_path.
    change (ae_key_pairs (AccessibleEntity_init es keys' p)) with keys'.
    assert (Hk' : list_truthy keys' = true) by (destruct keys'; [destruct Hin | reflexivity]).
    rewrite Hk'. unfold _generate_addressable_path, _build_key_values, _generate_key_pairs.
    change (ae_key_pairs (AccessibleEntity_init es keys' p)) with keys'.
    rewrite (key_pairs_loop_None keys' EmptyString k Hin). cbn [bind].
    destruct (string_truthy _); reflexivity.
Qed.

(** X21: the path of an accessible entity without key pairs is the name of
    its entity set; with key pairs that all have a value it is the name of
    the entity set, or of the principal entity set when that has a name,
    followed by the pairs [name=value] joined by commas in parentheses and,
    under a principal, a slash and the name of a navigation property of
    the principal that leads to a role of the entity set.  It raises
    [TypeError] when the principal has no such navigation property, and
    when a key has the value [None]. *)
Theorem accessible_entity_path_forms (es p : KeyedEntitySet)
    (kvs : list (string * string)) :
  kvs <> [] ->
  let keys := map (fun kv => (fst kv, Some (snd kv))) kvs in
  let key_values :=
    ("(" ++ String.concat "," (map (fun kv => fst kv ++ "=" ++ snd kv) kvs)
         ++ ")")%string in
  AccessibleEntity_path (AccessibleEntity_init es [] p) = Ok (kes_name es)
  /\ (kes_name p = EmptyString ->
      AccessibleEntity_path (AccessibleEntity_init es keys p)
      = Ok (kes_name es ++ key_values)%string)
  /\ (kes_name p <> EmptyString ->
      (forall nav, In nav (nav_to_roles p) ->
                   ~ In (snd nav) (association_set_end_roles es)) ->
      AccessibleEntity_path (AccessibleEntity_init es keys p) = Raise TypeError)
  /\ (kes_name p <> EmptyString ->
      (exists nav, In nav (nav_to_roles p)
                   /\ In (snd nav) (association_set_end_roles es)) ->
      exists n role,
        In (n, role) (nav_to_roles p)
        /\ In role (association_set_end_roles es)
        /\ AccessibleEntity_path (AccessibleEntity_init es keys p)
           = Ok (kes_name p ++ key_values ++ "/" ++ n)%string)
  /\ (forall k keys',
        In (k, None) keys' ->
        AccessibleEntity_path (AccessibleEntity_init es keys' p) = Raise TypeError).
Proof. exact (path_of_entity es p kvs). Qed.

Lemma accessible_entity_path_forms_witness :
  AccessibleEntity_path
    (AccessibleEntity_init orders_keyed
       [("OrderID", Some "1"); ("Line", Some "2")]%string NullEntity)
  = Ok "Orders(OrderID=1,Line=2)"%string
  /\ AccessibleEntity_path
       (AccessibleEntity_init orders_keyed
          [("CustomerID", Some "7")]%string customers_keyed)
     = Ok "Customers(CustomerID=7)/Orders"%string
  /\ AccessibleEntity_path
       (AccessibleEntity_init orders_keyed
          [("CarrierID", Some "7")]%string carriers_keyed)
     = Raise TypeError.
Proof.
  split; [| split].
  - apply (proj1 (proj2 (accessible_entity_path_forms orders_keyed NullEntity
                           [("OrderID", "1"); ("Line", "2")]%string
                           ltac:(discriminate)))).
    reflexivity.
  - reflexivity.
  - apply (proj1 (proj2 (proj2 (accessible_entity_path_forms orders_keyed
                                  carriers_keyed [("CarrierID", "7")]%string
                                  ltac:(discriminate))))).
    + discriminate.
    + intros nav [].
Defined.

(** ** [NonAddressableEntity.get_queryable_entity] *)

Lemma not_existsb_eqb_In (k : string) (l : list string) :
  existsb (String.eqb k) l = false -> ~ In k l.
Proof.
  intros E Hin. apply existsb_eqb_In in Hin. congruence.
Qed.

Lemma NoDup_snoc_string (l : list string) (k : string) :
  List.NoDup l -> ~ In k l -> List.NoDup (l ++ [k]).
Proof.
  induction l as [| x l IH]; intros Hnd Hk; cbn.
  - constructor; [intros [] | constructor].
  - inversion Hnd as [| ? ? Hx Hl]; subst. constructor.
    + intros Hin. apply in_app_or in Hin. destruct Hin as [Hin | [-> | []]].
      * exact (Hx Hin).
      * apply Hk. left. reflexivity.
    + apply IH; [exact Hl |]. intros Hin. apply Hk. right. exact Hin.
Qed.

(** The loop of [generate_accessible_entity_key_values] makes one key per
    key property name, keeps the keys distinct and draws at most once per
    key property. *)
Lemma key_values_loop_keys (R : RandomSource) (props : list Proprty) :
  forall kp pos kp' pos',
  key_values_loop R props kp pos = Ok (kp', pos') ->
  List.NoDup (map fst kp) ->
  List.NoDup (map fst kp')
  /\ (forall k, In k (map fst kp')
                <-> In k (map fst kp) \/ In k (map name props))
  /\ (pos <= pos' <= pos + length props)%nat
  /\ Forall (fun p => generate p <> None) props.
Proof.
  induction props as [| p props IH]; intros kp pos kp' pos' H Hnd; cbn in H.
  - injection H as <- <-. split; [exact Hnd |]. split; [| split; [cbn; lia | constructor]].
    intros k. cbn. tauto.
  - destruct (call_proprty_generate R p pos) as [[v pos1] | e] eqn:Ec;
      [| discriminate]. cbn [bind] in H.
    assert (Hpos : (pos <= pos1 <= S pos)%nat /\ generate p <> None).
    { unfold call_proprty_generate in Ec.
      destruct (generate p) as [g |]; [| discriminate].
      split; [| discriminate].
      destruct g; injection Ec as _ <-; lia. }
    assert (Hkeys := dict_set_keys (name p) v kp).
    apply IH in H.
    + destruct H as (Hnd' & Hin & Hp & Hg). split; [exact Hnd' |].
      split; [| split; [cbn [length]; lia | constructor; [apply Hpos | exact Hg]]].
      intros k. rewrite Hin, Hkeys. cbn [map In].
      destruct (existsb (String.eqb (name p)) (map fst kp)) eqn:E.
      * apply existsb_eqb_In in E. split; [tauto |].
        intros [Hk | [<- | Hk]]; tauto.
      * rewrite in_app_iff. cbn [In]. tauto.
    + rewrite Hkeys. destruct (existsb (String.eqb (name p)) (map fst kp)) eqn:E;
        [exact Hnd |].
      apply NoDup_snoc_string; [exact Hnd | apply not_existsb_eqb_In, E].
Qed.

Lemma get_queryable_entity_keys (A : AccessConstants) (R : RandomSource)
    (entity_set : KeyedEntitySet) (principal_entities : list KeyedEntitySet)
    (pos pos' : nat) (a : AccessibleEntity) :
  NonAddressableEntity_get_queryable_entity A R entity_set principal_entities pos
  = Ok (a, pos') ->
  ae_entity_set a = entity_set
  /\ (pos < pos')%nat
  /\ ((ae_principal_entity_set a = NullEntity /\ ae_key_pairs a = []
       /\ ae_entity_set_name a = None)
      \/ exists containing,
           (containing = entity_set /\ ae_principal_entity_set a = NullEntity
            \/ In containing principal_entities
               /\ ae_principal_entity_set a = containing)
           /\ List.NoDup (map fst (ae_key_pairs a))
           /\ (forall k, In k (map fst (ae_key_pairs a))
                         <-> In k (map name (key_proprties_of containing)))
           /\ Forall (fun p => generate p <> None) (key_proprties_of containing)).
Proof.
  unfold NonAddressableEntity_get_queryable_entity.
  destruct (Qltb (EMPTY_ENTITY_PROB A) (random_random R pos)).
  - set (chosen := if list_truthy principal_entities then _ else _).
    destruct chosen as [[[containing principal] pos1] | e] eqn:Ech;
      [| discriminate]. cbn [bind].
    assert (Hc : (containing = entity_set /\ principal = NullEntity
                  \/ In containing principal_entities /\ principal = containing)
                 /\ (S pos <= pos1)%nat).
    { subst chosen. destruct (list_truthy principal_entities).
      - destruct (Qltb _ _).
        + destruct (choice R principal_entities (S (S pos)))
            as [[c pos2] |] eqn:Eq; [| discriminate].
          cbn [bind] in Ech. injection Ech as <- <- <-.
          split; [right; split; [eapply choice_In; exact Eq | reflexivity] |].
          unfold choice in Eq. destruct (_ !! _); [| discriminate].
          injection Eq as _ <-. lia.
        + injection Ech as <- <- <-. split; [left; split; reflexivity | lia].
      - injection Ech as <- <- <-. split; [left; split; reflexivity | lia]. }
    destruct Hc as [Hc Hpos].
    unfold generate_accessible_entity_key_values.
    destruct (key_values_loop R (key_proprties_of containing) [] pos1)
      as [[kp pos2] | e] eqn:Ek; [| discriminate]. cbn [bind].
    intros [= <- <-].
    destruct (key_values_loop_keys R _ _ _ _ _ Ek ltac:(constructor))
      as (Hnd & Hin & Hp & Hg).
    split; [reflexivity |]. split; [lia |]. right. exists containing.
    split; [exact Hc |]. split; [exact Hnd |]. split; [| exact Hg].
    intros k. rewrite Hin. cbn. tauto.
  - intros [= <- <-]. split; [reflexivity |]. split; [lia |]. left.
    split; [reflexivity |]. split; reflexivity.
Qed.

(** X22: the accessible entity that [NonAddressableEntity.get_queryable_entity]
    returns is over the entity set itself and at least one draw was made.
    Either it has no key pairs and no principal, or its keys are, without
    repetition, the names of the key properties of the containing entity
    set, which is the entity set itself (no principal) or one of the
    principal entities (then the principal); every key property of the
    containing entity set has a generator, since the call fails otherwise. *)
Theorem non_addressable_entity_is_keyed_by_its_container
    (A : AccessConstants) (R : RandomSource)
    (entity_set : KeyedEntitySet) (principal_entities : list KeyedEntitySet)
    (pos pos' : nat) (a : AccessibleEntity) :
  NonAddressableEntity_get_queryable_entity A R entity_set principal_entities pos
  = Ok (a, pos') ->
  ae_entity_set a = entity_set
  /\ (pos < pos')%nat
  /\ ((ae_principal_entity_set a = NullEntity /\ ae_key_pairs a = []
       /\ ae_entity_set_name a = None)
      \/ exists containing,
           (containing = entity_set /\ ae_principal_entity_set a = NullEntity
            \/ In containing principal_entities
               /\ ae_principal_entity_set a = containing)
           /\ List.NoDup (map fst (ae_key_pairs a))
           /\ (forall k, In k (map fst (ae_key_pairs a))
                         <-> In k (map name (key_proprties_of containing)))
           /\ Forall (fun p => generate p <> None) (key_proprties_of containing)).
Proof. exact (get_queryable_entity_keys A R entity_set principal_entities pos pos' a). Qed.

Lemma non_addressable_entity_is_keyed_by_its_container_witness :
  exists a pos',
    NonAddressableEntity_get_queryable_entity access_constants
      (constant_source (1 # 4)) orders_keyed [customers_keyed; carriers_keyed] 0
    = Ok (a, pos')
    /\ ae_entity_set a = orders_keyed
    /\ ae_principal_entity_set a = customers_keyed
    /\ AccessibleEntity_path a = Ok "Customers(CustomerID=3)/Orders"%string.
Proof.
  destruct (NonAddressableEntity_get_queryable_entity access_constants
              (constant_source (1 # 4)) orders_keyed
              [customers_keyed; carriers_keyed] 0) as [[a pos'] | e] eqn:E.
  - exists a, pos'. split; [reflexivity |].
    split; [exact (proj1 (non_addressable_entity_is_keyed_by_its_container
                            _ _ _ _ _ _ _ E)) |].
    vm_compute in E. injection E as <- <-. split; reflexivity.
  - vm_compute in E. discriminate E.
Defined.

(** ** [OrderbyOptionBuilder.build] *)

Lemma rstrip_comma_snoc (s : string) :
  rstrip_comma (s ++ ",") = rstrip_comma s.
Proof.
  induction s as [| c s IH]; [reflexivity |].
  change (rstrip_comma (String c (s ++ ",")) = rstrip_comma (String c s))%string.
  cbn [rstrip_comma]. rewrite IH. reflexivity.
Qed.

Lemma rstrip_comma_app (a b : string) :
  rstrip_comma b <> EmptyString ->
  rstrip_comma (a ++ b) = (a ++ rstrip_comma b)%string.
Proof.
  intros Hb. induction a as [| c a IH]; [reflexivity |].
  change (rstrip_comma (String c (a ++ b)) = String c (a ++ rstrip_comma b))%string.
  cbn [rstrip_comma]. rewrite IH.
  destruct (a ++ rstrip_comma b)%string eqn:E; [| reflexivity].
  exfalso. destruct a; [| discriminate E]. apply Hb. exact E.
Qed.

Lemma proprties_loop_joined (ps : list string) : forall acc,
  fold_left (fun acc proprty => acc ++ (proprty ++ ","))%string ps acc
  = match ps with
    | [] => acc
    | _ => (acc ++ (String.concat "," ps ++ ","))%string
    end.
Proof.
  induction ps as [| p ps IH]; intros acc; [reflexivity |].
  cbn [fold_left]. rewrite IH. destruct ps as [| p' ps].
  - cbn [String.concat]. reflexivity.
  - cbn [String.concat]. rewrite !string_append_assoc. reflexivity.
Qed.

Lemma concat_comma_last (ps : list string) (p : string) :
  exists front, String.concat "," (ps ++ [p]) = (front ++ p)%string.
Proof.
  induction ps as [| q ps IH].
  - exists EmptyString. reflexivity.
  - destruct IH as [front IH]. exists (q ++ ("," ++ front))%string.
    cbn [app]. destruct (ps ++ [p]) as [| x l] eqn:E.
    + destruct ps; discriminate E.
    + cbn [String.concat]. cbn [String.concat] in IH. rewrite IH.
      rewrite !string_append_assoc. reflexivity.
Qed.

Lemma OrderbyOptionBuilder_build_first (o : OrderbyOption) :
  let built :=
    (rstrip_comma (String.concat "," (oo_proprties o)) ++ (" " ++ oo_order o))%string in
  OrderbyOptionBuilder_build (OrderbyOptionBuilder_init o)
  = (built, {| ob_option := o; ob_option_string := Some built |}).
Proof.
  cbv zeta. unfold OrderbyOptionBuilder_build.
  cbn [OrderbyOptionBuilder_init ob_option_string ob_option].
  rewrite proprties_loop_joined.
  assert (Hs : rstrip_comma
                 match oo_proprties o with
                 | [] => EmptyString
                 | _ :: _ => (EmptyString ++ (String.concat "," (oo_proprties o) ++ ","))%string
                 end = rstrip_comma (String.concat "," (oo_proprties o))).
  { destruct (oo_proprties o) as [| p ps]; [reflexivity |].
    change (EmptyString ++ ?s)%string with s. apply rstrip_comma_snoc. }
  rewrite Hs. reflexivity.
Qed.

Lemma OrderbyOptionBuilder_build_spec (o : OrderbyOption) :
  let first := OrderbyOptionBuilder_build (OrderbyOptionBuilder_init o) in
  fst first
  = (rstrip_comma (String.concat "," (oo_proprties o)) ++ (" " ++ oo_order o))%string
  /\ (forall ps p, oo_proprties o = ps ++ [p] ->
        p <> EmptyString -> rstrip_comma p = p ->
        fst first = (String.concat "," (oo_proprties o) ++ (" " ++ oo_order o))%string)
  /\ (oo_proprties o = [] -> fst first = (" " ++ oo_order o)%string)
  /\ OrderbyOptionBuilder_build (snd first) = first.
Proof.
  cbv zeta. rewrite OrderbyOptionBuilder_build_first. cbn [fst snd].
  split; [reflexivity |]. split; [| split].
  - intros ps p Hps Hne Hp. f_equal. rewrite Hps.
    destruct (concat_comma_last ps p) as [front ->].
    rewrite rstrip_comma_app; rewrite Hp; [reflexivity | exact Hne].
  - intros ->. reflexivity.
  - unfold OrderbyOptionBuilder_build. cbn [ob_option_string ob_option].
    destruct (rstrip_comma (String.concat "," (oo_proprties o)) ++ (" " ++ oo_order o))%string
      eqn:E; [| reflexivity].
    exfalso. destruct (rstrip_comma (String.concat "," (oo_proprties o)));
      discriminate E.
Qed.

(** X24: the string [OrderbyOptionBuilder.build] returns is the property
    names joined by commas, stripped of every comma at its end, then a
    space and the order.  When the last name is not empty and does not end
    with a comma nothing is stripped; without names the string is a space
    and the order.  A second call returns the same string and leaves the
    builder as it is. *)
Theorem OrderbyOptionBuilder_build_joins_names (o : OrderbyOption) :
  let first := OrderbyOptionBuilder_build (OrderbyOptionBuilder_init o) in
  fst first
  = (rstrip_comma (String.concat "," (oo_proprties o)) ++ (" " ++ oo_order o))%string
  /\ (forall ps p, oo_proprties o = ps ++ [p] ->
        p <> EmptyString -> rstrip_comma p = p ->
        fst first = (String.concat "," (oo_proprties o) ++ (" " ++ oo_order o))%string)
  /\ (oo_proprties o = [] -> fst first = (" " ++ oo_order o)%string)
  /\ OrderbyOptionBuilder_build (snd first) = first.
Proof. exact (OrderbyOptionBuilder_build_spec o). Qed.

(** ** Sample sizes *)

(** [round(-r)] for a draw [r]: 0 up to one half, -1 above. *)
Lemma py_round_neg_unit (r : Q) :
  unit_draw r ->
  py_round (r * inject_Z (0 - 1)) = if Qltb (1 # 2) r then (-1)%Z else 0%Z.
Proof.
  intros [H0 H1]. unfold py_round.
  set (x := (r * inject_Z (0 - 1))%Q).
  assert (Hx : (x == - r)%Q) by (subst x; change (inject_Z (0 - 1)) with (-1 # 1)%Q; ring).
  pose proof (Qfloor_le x) as Hf1. pose proof (Qlt_floor x) as Hf2.
  assert (Hf : Qfloor x = 0%Z \/ Qfloor x = (-1)%Z).
  { assert (Qfloor x <= 0)%Z by (rewrite Zle_Qle; change (inject_Z 0) with 0%Q; lra).
    assert (-1 < Qfloor x + 1)%Z
      by (rewrite Zlt_Qlt; change (inject_Z (-1)) with (-1 # 1)%Q; lra).
    lia. }
  destruct Hf as [Hf | Hf]; rewrite Hf in *.
  - change (inject_Z 0) with 0%Q in *.
    assert (Hr : (r == 0)%Q) by lra.
    destruct (Qltb (1 # 2) r) eqn:E; [apply Qltb_lt in E; lra |].
    destruct (Qltb (x - 0) (1 # 2)) eqn:E1; [reflexivity |].
    apply Qltb_ge in E1. lra.
  - change (inject_Z (-1)) with (-1 # 1)%Q in *.
    change (inject_Z (-1 + 1)) with 0%Q in *.
    destruct (Qltb (x - (-1 # 1)) (1 # 2)) eqn:E1.
    + apply Qltb_lt in E1.
      destruct (Qltb (1 # 2) r) eqn:E; [reflexivity | apply Qltb_ge in E; lra].
    + apply Qltb_ge in E1.
      destruct (Qltb (1 # 2) r) eqn:E; [apply Qltb_lt in E; lra |].
      destruct (Qltb (1 # 2) (x - (-1 # 1))); reflexivity.
Qed.

(** The size asked of [random.sample] for a population of [n] elements
    capped at [cap]. *)
Lemma sample_size_fits (r : Q) (n cap : Z) :
  unit_draw r -> (1 <= cap)%Z -> (0 <= n)%Z ->
  let m := if (n >? cap)%Z then cap else n in
  let k := (py_round (r * inject_Z (m - 1)) + 1)%Z in
  ((1 <= n)%Z -> (1 <= k <= n)%Z /\ (k <= cap)%Z)
  /\ (n = 0%Z -> k = if Qltb (1 # 2) r then 0%Z else 1%Z).
Proof.
  intros Hr Hcap Hn m k. split.
  - intros H1. subst k m. destruct (n >? cap)%Z eqn:E.
    + apply Z.gtb_lt in E.
      pose proof (py_round_unit_scaled r cap Hr Hcap). lia.
    + assert (n <= cap)%Z by (rewrite Z.gtb_ltb in E; apply Z.ltb_ge in E; exact E).
      pose proof (py_round_unit_scaled r n Hr H1). lia.
  - intros ->. subst k m.
    assert (E : (0 >? cap)%Z = false) by (rewrite Z.gtb_ltb; apply Z.ltb_ge; lia).
    rewrite E, (py_round_neg_unit r Hr). destruct (Qltb (1 # 2) r); reflexivity.
Qed.

Lemma add_proprty_loop (sampled : list string) : forall o,
  fold_left OrderbyOption_add_proprty sampled o
  = {| oo_option_string := oo_option_string o;
       oo_proprties := oo_proprties o ++ sampled;
       oo_order := oo_order o |}.
Proof.
  induction sampled as [| p sampled IH]; intros o; cbn [fold_left].
  - rewrite app_nil_r. destruct o; reflexivity.
  - rewrite IH. cbn [OrderbyOption_add_proprty oo_proprties oo_order oo_option_string].
    rewrite <- app_assoc. reflexivity.
Qed.

Lemma choice_of_two (R : RandomSource) (a b : string) (pos : nat) :
  exists x, choice R [a; b] pos = Ok (x, S pos) /\ (x = a \/ x = b).
Proof.
  unfold choice. cbn [length].
  pose proof (Nat.mod_upper_bound (random_randbelow R pos 2) 2 ltac:(lia)) as Hm.
  destruct (random_randbelow R pos 2 mod 2)%nat as [| [| n]]; [| | lia].
  - exists a. split; [reflexivity | left; reflexivity].
  - exists b. split; [reflexivity | right; reflexivity].
Qed.

Section SamplingFacts.
Variable R : RandomSource.
Variable sample_set : gset string -> Z -> nat -> result (list string * nat).
Variable sample_list : list string -> Z -> nat -> result (list string * nat).
Variable shuffle : list string -> nat -> list string * nat.

(** What [random.sample] and [random.shuffle] do: a sample of a valid size
    is made of that many elements of the population, taken at different
    places; a shuffle rearranges. *)
Let samples_sets : Prop :=
  forall (population : gset string) (k : Z) (pos : nat),
    (0 <= k <= Z.of_nat (size population))%Z ->
    exists l pos', sample_set population k pos = Ok (l, pos')
                   /\ length l = Z.to_nat k /\ List.NoDup l
                   /\ forall x, In x l -> x ∈ population.

Let samples_lists : Prop :=
  forall (population : list string) (k : Z) (pos : nat),
    (0 <= k <= Z.of_nat (length population))%Z ->
    exists l pos', sample_list population k pos = Ok (l, pos')
                   /\ length l = Z.to_nat k
                   /\ exists chosen, chosen `sublist_of` population /\ l ≡ₚ chosen.

Let shuffles : Prop :=
  forall (l : list string) (pos : nat), fst (shuffle l pos) ≡ₚ l.

Lemma ExpandQuery_generate_spec (A : AccessConstants) (paths : gset string)
    (pos : nat) :
  samples_sets ->
  unit_draw (random_random R pos) ->
  (1 <= MAX_EXPAND_VALUES A)%Z ->
  (paths <> ∅ ->
   exists l pos',
     ExpandQuery_generate R sample_set A paths pos
     = Ok ({| eo_option_string := String.concat "," l;
              _entity_paths := list_to_set l |}, pos')
     /\ (1 <= length l)%nat
     /\ (Z.of_nat (length l) <= MAX_EXPAND_VALUES A)%Z
     /\ (length l <= size paths)%nat
     /\ List.NoDup l
     /\ forall x, In x l -> x ∈ paths)
  /\ (paths = ∅ ->
      _get_random_entity_paths R sample_set A paths pos
      = sample_set ∅ (if Qltb (1 # 2) (random_random R pos) then 0 else 1)%Z
          (S pos)).
Proof.
  intros Hs Hr Hmax.
  pose proof (sample_size_fits (random_random R pos) (Z.of_nat (size paths))
                (MAX_EXPAND_VALUES A) Hr Hmax ltac:(lia)) as [Hfull Hempty].
  cbv zeta in Hfull, Hempty. split.
  - intros Hne.
    assert (Hsize : (1 <= Z.of_nat (size paths))%Z).
    { destruct (size paths) eqn:E; [| lia].
      apply size_empty_inv in E. apply leibniz_equiv in E. contradiction. }
    destruct (Hfull Hsize) as [Hk Hcap].
    unfold ExpandQuery_generate, _get_random_entity_paths.
    set (k := (py_round _ + 1)%Z) in *.
    destruct (Hs paths k (S pos) ltac:(lia)) as (l & pos' & -> & Hlen & Hnd & Hin).
    exists l, pos'. cbn [bind]. split; [reflexivity |].
    rewrite Hlen. split; [lia |]. split; [lia |]. split; [lia |].
    split; [exact Hnd | exact Hin].
  - intros ->. unfold _get_random_entity_paths.
    rewrite size_empty in *. rewrite (Hempty eq_refl). reflexivity.
Qed.

Lemma OrderbyQuery_generate_spec (proprties : gset string) (pos : nat) :
  samples_sets ->
  unit_draw (random_random R pos) ->
  proprties <> ∅ ->
  exists o pos',
    OrderbyQuery_generate R sample_set proprties pos = Ok (o, pos')
    /\ (1 <= length (oo_proprties o) <= 3)%nat
    /\ (length (oo_proprties o) <= size proprties)%nat
    /\ List.NoDup (oo_proprties o)
    /\ (forall x, In x (oo_proprties o) -> x ∈ proprties)
    /\ (oo_order o = "asc"%string \/ oo_order o = "desc"%string)
    /\ oo_option_string o
       = (rstrip_comma (String.concat "," (oo_proprties o))
          ++ (" " ++ oo_order o))%string.
Proof.
  intros Hs Hr Hne.
  pose proof (sample_size_fits (random_random R pos) (Z.of_nat (size proprties))
                3 Hr ltac:(lia) ltac:(lia)) as [Hfull _].
  cbv zeta in Hfull.
  assert (Hsize : (1 <= Z.of_nat (size proprties))%Z).
  { destruct (size proprties) eqn:E; [| lia].
    apply size_empty_inv in E. apply leibniz_equiv in E. contradiction. }
  destruct (Hfull Hsize) as [Hk Hcap].
  unfold OrderbyQuery_generate.
  set (k := (py_round _ + 1)%Z) in *.
  destruct (Hs proprties k (S pos) ltac:(lia)) as (l & pos1 & -> & Hlen & Hnd & Hin).
  cbn [bind]. rewrite add_proprty_loop.
  cbn [OrderbyOption_init oo_proprties oo_order oo_option_string app].
  destruct (choice_of_two R "asc" "desc" pos1) as (order & -> & Horder).
  cbn [bind]. rewrite OrderbyOptionBuilder_build_first.
  eexists _, _. split; [reflexivity |].
  cbn [OrderbyOption_set_option_string OrderbyOption_set_order oo_proprties
       oo_order oo_option_string].
  rewrite Hlen. split; [lia |]. split; [lia |]. split; [exact Hnd |].
  split; [exact Hin |]. split; [exact Horder | reflexivity].
Qed.

Lemma random_options_spec (g : QueryGroup) (pos : nat) :
  samples_lists -> shuffles ->
  unit_draw (random_random R pos) ->
  exists selected pos' sampled chosen,
    random_options R sample_list shuffle g pos = Ok (selected, pos')
    /\ selected ≡ₚ sampled ++ _required_options g
    /\ chosen `sublist_of` _query_options_list g
    /\ sampled ≡ₚ chosen
    /\ (_query_options_list g = [] -> sampled = [])
    /\ (_query_options_list g <> [] -> (1 <= length sampled)%nat).
Proof.
  intros Hs Hsh Hr. unfold random_options.
  destruct (_query_options_list g) as [| x l] eqn:El.
  - change (Z.of_nat (length (@nil string)) =? 0)%Z with true. cbv iota beta.
    destruct (Hs [] 0%Z pos ltac:(cbn; lia))
      as (s & pos1 & -> & Hlen & chosen & Hsub & Hperm).
    cbn [bind]. destruct (shuffle _ pos1) as [sel pos2] eqn:E.
    exists sel, pos2, s, chosen. split; [reflexivity |].
    split; [pose proof (Hsh (s ++ _required_options g) pos1) as Hp;
            rewrite E in Hp; exact Hp |].
    split; [exact Hsub |]. split; [exact Hperm |].
    split; [| intros H; contradiction].
    intros _. destruct s; [reflexivity | discriminate Hlen].
  - assert (Hz : (Z.of_nat (length (x :: l)) =? 0)%Z = false)
      by (apply Z.eqb_neq; cbn [length]; lia).
    rewrite Hz. cbv iota beta.
    pose proof (py_round_unit_scaled _ (Z.of_nat (length (x :: l))) Hr
                  ltac:(cbn [length]; lia)) as Hk.
    set (k := (py_round _ + 1)%Z) in *.
    destruct (Hs (x :: l) k (S pos) ltac:(lia))
      as (s & pos1 & -> & Hlen & chosen & Hsub & Hperm).
    cbn [bind]. destruct (shuffle _ pos1) as [sel pos2] eqn:E.
    exists sel, pos2, s, chosen. split; [reflexivity |].
    split; [pose proof (Hsh (s ++ _required_options g) pos1) as Hp;
            rewrite E in Hp; exact Hp |].
    split; [exact Hsub |]. split; [exact Hperm |].
    split; [intros H; discriminate H |]. intros _. lia.
Qed.
(** X23: [ExpandQuery.generate] over a set of paths that is not empty
    asks for a sample of between one and [MAX_EXPAND_VALUES] paths and never
    more than there are, so that it returns: the paths of the option are
    distinct paths of the query, and the option string is these paths joined
    by commas.  Over no path at all it asks for a sample of one element of
    the empty set when the draw is at most one half, and of none above. *)
Theorem ExpandQuery_generate_samples_within_the_paths (A : AccessConstants)
    (paths : gset string) (pos : nat) :
  samples_sets ->
  unit_draw (random_random R pos) ->
  (1 <= MAX_EXPAND_VALUES A)%Z ->
  (paths <> ∅ ->
   exists l pos',
     ExpandQuery_generate R sample_set A paths pos
     = Ok ({| eo_option_string := String.concat "," l;
              _entity_paths := list_to_set l |}, pos')
     /\ (1 <= length l)%nat
     /\ (Z.of_nat (length l) <= MAX_EXPAND_VALUES A)%Z
     /\ (length l <= size paths)%nat
     /\ List.NoDup l
     /\ forall x, In x l -> x ∈ paths)
  /\ (paths = ∅ ->
      _get_random_entity_paths R sample_set A paths pos
      = sample_set ∅ (if Qltb (1 # 2) (random_random R pos) then 0 else 1)%Z
          (S pos)).
Proof. exact (ExpandQuery_generate_spec A paths pos). Qed.

(** X25: [OrderbyQuery.generate] over a set of property names that is not
    empty returns: it orders by one to three distinct names of the set, in
    the order the sample gives them, ascending or descending, and the option
    string is the one [OrderbyOptionBuilder] builds from them. *)
Theorem OrderbyQuery_generate_orders_by_sampled_names (proprties : gset string)
    (pos : nat) :
  samples_sets ->
  unit_draw (random_random R pos) ->
  proprties <> ∅ ->
  exists o pos',
    OrderbyQuery_generate R sample_set proprties pos = Ok (o, pos')
    /\ (1 <= length (oo_proprties o) <= 3)%nat
    /\ (length (oo_proprties o) <= size proprties)%nat
    /\ List.NoDup (oo_proprties o)
    /\ (forall x, In x (oo_proprties o) -> x ∈ proprties)
    /\ (oo_order o = "asc"%string \/ oo_order o = "desc"%string)
    /\ oo_option_string o
       = (rstrip_comma (String.concat "," (oo_proprties o))
          ++ (" " ++ oo_order o))%string.
Proof. exact (OrderbyQuery_generate_spec proprties pos). Qed.

(** X26: [QueryGroup.random_options] returns: the options selected are,
    in some order, every required option together with a sample of the
    other options of the group, which is empty when the group has no other
    option and has at least one option otherwise. *)
Theorem random_options_selects_every_required_option (g : QueryGroup)
    (pos : nat) :
  samples_lists -> shuffles ->
  unit_draw (random_random R pos) ->
  exists selected pos' sampled chosen,
    random_options R sample_list shuffle g pos = Ok (selected, pos')
    /\ selected ≡ₚ sampled ++ _required_options g
    /\ chosen `sublist_of` _query_options_list g
    /\ sampled ≡ₚ chosen
    /\ (_query_options_list g = [] -> sampled = [])
    /\ (_query_options_list g <> [] -> (1 <= length sampled)%nat).
Proof. exact (random_options_spec g pos). Qed.
End SamplingFacts.

Lemma first_of_list_samples (population : list string) (k : Z) (pos : nat) :
  (0 <= k <= Z.of_nat (length population))%Z ->
  exists l pos', first_of_list population k pos = Ok (l, pos')
                 /\ length l = Z.to_nat k
                 /\ exists chosen, chosen `sublist_of` population /\ l ≡ₚ chosen.
Proof.
  intros Hk. unfold first_of_list.
  assert (E : ((0 <=? k) && (k <=? Z.of_nat (length population)))%Z = true).
  { apply andb_true_iff. split; apply Z.leb_le; lia. }
  rewrite E. eexists _, _. split; [reflexivity |]. split.
  - rewrite length_take. lia.
  - exists (take (Z.to_nat k) population). split; [apply sublist_take | reflexivity].
Qed.

Lemma first_of_set_samples (population : gset string) (k : Z) (pos : nat) :
  (0 <= k <= Z.of_nat (size population))%Z ->
  exists l pos', first_of_set population k pos = Ok (l, pos')
                 /\ length l = Z.to_nat k /\ List.NoDup l
                 /\ forall x, In x l -> x ∈ population.
Proof.
  intros Hk. unfold first_of_set.
  destruct (first_of_list_samples (elements population) k pos Hk)
    as (l & pos' & E & Hlen & chosen & Hsub & Hperm).
  exists l, pos'. split; [exact E |]. split; [exact Hlen |].
  assert (Hnd : NoDup l).
  { rewrite Hperm. exact (sublist_NoDup _ _ (NoDup_elements _) Hsub). }
  split; [apply NoDup_ListNoDup; exact Hnd |].
  intros x Hx. apply elem_of_elements.
  eapply elem_of_sublist; [| exact Hsub]. rewrite <- Hperm.
  apply list_elem_of_In. exact Hx.
Qed.

Lemma unit_draw_quarter : unit_draw (1 # 4).
Proof. split; [discriminate | reflexivity]. Qed.

Lemma ExpandQuery_generate_samples_within_the_paths_witness :
  exists l pos',
    ExpandQuery_generate (constant_source (1 # 4)) first_of_set access_constants
      {[ "Customer"%string; "Customer/Orders"%string ]} 0
    = Ok ({| eo_option_string := String.concat "," l;
             _entity_paths := list_to_set l |}, pos')
    /\ (1 <= length l)%nat.
Proof.
  destruct (proj1 (ExpandQuery_generate_samples_within_the_paths
                     (constant_source (1 # 4)) first_of_set access_constants
                     {[ "Customer"%string; "Customer/Orders"%string ]} 0
                     first_of_set_samples unit_draw_quarter ltac:(vm_compute; discriminate))
              ltac:(set_solver))
    as (l & pos' & E & Hlen & _).
  exists l, pos'. split; [exact E | exact Hlen].
Defined.

Lemma OrderbyQuery_generate_orders_by_sampled_names_witness :
  exists o pos',
    OrderbyQuery_generate (constant_source (1 # 4)) first_of_set
      {[ "CreatedAt"%string ]} 0 = Ok (o, pos')
    /\ oo_proprties o = ["CreatedAt"%string]
    /\ oo_option_string o = "CreatedAt asc"%string.
Proof.
  destruct (OrderbyQuery_generate_orders_by_sampled_names
              (constant_source (1 # 4)) first_of_set {[ "CreatedAt"%string ]} 0
              first_of_set_samples unit_draw_quarter ltac:(set_solver))
    as (o & pos' & E & Hlen & Hsize & _ & Hin & _ & Hs).
  exists o, pos'. split; [exact E |].
  assert (Hp : oo_proprties o = ["CreatedAt"%string]).
  { destruct (oo_proprties o) as [| x [| y l]]; cbn in Hlen, Hsize.
    - lia.
    - f_equal.
      exact (proj1 (elem_of_singleton (C:=gset string) x "CreatedAt")
               (Hin x ltac:(left; reflexivity))).
    - rewrite size_singleton in Hsize. lia. }
  split; [exact Hp |]. rewrite Hs, Hp.
  vm_compute in E. injection E as <- _. reflexivity.
Defined.

Lemma random_options_selects_every_required_option_witness :
  exists selected pos' sampled,
    random_options (constant_source (1 # 4)) first_of_list no_shuffle
      paged_group 0 = Ok (selected, pos')
    /\ selected ≡ₚ sampled ++ ["$skip"%string].
Proof.
  destruct (random_options_selects_every_required_option
              (constant_source (1 # 4)) first_of_list no_shuffle paged_group 0
              first_of_list_samples ltac:(intros l pos; reflexivity)
              unit_draw_quarter)
    as (selected & pos' & sampled & chosen & E & Hp & _).
  exists selected, pos', sampled. split; [exact E | exact Hp].
Defined.
